(* ===== verification/_CoqProject ===== *)
-Q . S2P
Prelude.v
Posix.v
Ipow.v
ErrUtils.v
CircularPipe.v
ZeroCopy.v
ZeroCopyProofs.v
Threads.v
RwLock.v
RwLockProofs.v
SyncQueue.v
TimeUtils.v
Tables.v
LowLevel.v
Mersenne.v
Net.v
NetProofs.v
Servers.v
ServersProofs.v
ServersExamples.v
CondAlarms.v
Exchanger.v
Turns.v
MessageQueue.v
UringCopy.v
CppString.v
MergeSort.v
CString.v
CacheLine.v
SelectionSort.v
Subsequence.v
Phonebook.v
PersonPool.v
Kernel.v
Alarms.v
KPipe.v
KPipeProofs.v
KPipeSystem.v
KPipeAnswers.v
KPipeWake.v
KPipeExamples.v
SimplePipe.v
PipeModules.v
CharDrivers.v
CharDriversProofs.v
SleepWake.v
ClipboardDev.v
BlkDev.v
KMem.v
MmapToUser.v
MmapDrivers.v
KList.v
SyscallHijack.v
Philosophers.v
PollDriver.v
Rescue.v
Interference.v
Counters.v
SpinLock.v
EventfdLock.v
EventfdProofs.v
EventfdWake.v
EventfdCorrect.v
