(* ===== verification/Prelude.v ===== *)
(** * A verification of demos-os-linux

    The repository is a collection of Linux programs and drivers that teach system
    programming.  Its parts share the headers of [src/include]; a driver or an
    exercise is otherwise a program of its own.  This library models the parts that
    have logic of their own, as written, and proves what makes them correct.  Where
    the code does not do what it means to, that is a theorem too.

    ** Layers

    [Prelude] (this file): machine integers as [Z] with the wrap-around written out
    ([u32], [s64], ...), buffers of bytes, loops over arrays, and the monad [prog] of programs that
    change a state and may exit, with its weakest preconditions [wp] ([wp] demands a
    result: running out of fuel satisfies no postcondition) and loop rule [wp_iter].

    [Posix], [Net]: the system calls the programs make.  Whatever the manual leaves
    open (failures, short transfers, which descriptor is ready, what the peer does)
    comes from an oracle with one answer per call, and the theorems hold for every
    oracle.  [NetProofs] describes by [serving] what a server has of the kernel.

    [Kernel]: the calls drivers make.  The resources a module holds are a list; using
    or freeing what is not held is a fault.  [KMem]: blocks of kernel memory, pages with
    their reserved marks and the areas mapped into a process, for the drivers that map
    memory.

    [Threads]: statements with mutexes, condition variables, assertions and waiting
    on the memory; they are compiled to instructions, and the step relation
    interleaves the instructions of all threads, spurious wake-ups included.  A proof
    outline gives for each program point what the thread adds to the shared counters;
    local conditions on the instructions then imply the invariant, and that no
    wake-up is lost.  [CondAlarms] and [Alarms] extend this to threads that sleep for
    different reasons, and to wait queues and eventfds; [Rescue] to wake-ups meant for
    particular threads, [Interference] to assertions that the other threads must not
    break, [Turns] to what each thread has done by its own account.

    [CString]: strcmp(3) and scanf(3) as the C exercises use them.

    Nothing in these files translates code of the repository.

    ** Parts

    - [ErrUtils] ([include/err_utils.h]): the table of errors, [handle_error] and
      the checks around nearly every call of the other programs.  Each integer check
      passes exactly the values it is named after; the table round trip.
    - [CircularPipe] ([include/CircularPipe.hh], [Selector.hh]): the ring buffer
      refines a bounded queue of bytes; its accounting is exact.
    - [ZeroCopy], [ZeroCopyProofs] ([examples/io/zero_copy]): seven copy programs,
      from the check of the arguments to the exit status.  Success means a complete
      copy, for every behaviour of the kernel and every buffer that is not too small
      (theorems show what a buffer of size 0 does); the programs end.
    - [RwLock], [RwLockProofs] ([exercises/multi_threading/readers_writer_lock]):
      three readers/writer locks: exact counters, exclusion, no deadlock.
    - [EventfdLock], [EventfdProofs], [EventfdWake], [EventfdCorrect]
      ([exercises/linux_api/condition_using_eventfd]): condition variables made of
      eventfds and a readers/writer lock on them, correct for up to a hundred threads
      (the condition has a hundred slots).
    - [SyncQueue] ([exercises/cpp/multi_threading/synchronized_queue_cpp]): the values
      that [get] returns are those put in, first-in first-out; the test program ends.
    - [Exchanger] ([exercises/cpp/multi_threading/exchanger]): any number of threads
      swap values in pairs; the test program ends.
    - [MessageQueue] ([exercises/c/message_queue]): a bounded queue between producers
      and consumers: first-in first-out for any number of them; the program ends when
      its input fits, and a deadlock when it does not.
    - [Counters] ([exercises/real_time/volatile_atomic_etc]) and [SpinLock]
      ([exercises/c/spinlock]): counters that lose no increment, proved for the four
      correct ones through one interface ([CountsAll]), and a lock by compare-and-swap
      whose threads take turns.
    - [Philosophers] ([exercises/multi_threading/semaphores]): the dining philosophers
      on System V semaphores: no fork is shared and somebody can always go on.
    - [CacheLine] ([exercises/optimization/cache_line_and_algo]): two passes over an array
      and the same work in chunks are equivalent, by commuting operations.
    - [MergeSort] ([examples/openmp/merge_sort.cc]): a merge sort with parallel sections,
      as a tree of actions; each section owns its window of the arrays ([runs]), so that
      every interleaving sorts.
    - [UringCopy] ([examples/io/io_uring/cp_liburing.cc]): a copy by requests that complete
      later and in any order; every byte of the file is in place or covered by a request.
    - [CppString] ([exercises/cpp/copying_and_assignment]): a class that owns memory refines
      strings as values; nothing is leaked or freed twice.
    - [PollDriver] ([kernel/mod_poll.c], [test_poll.cc]): descriptors that are woken through
      an ioctl.  The wait queues of the devices and the ready list of epoll are modelled:
      no readable descriptor is forgotten, and the wake-up of the queue ends the program.
    - [Ipow] ([examples/arithmetic/ipow.c]): powers in machine integers.
    - [TimeUtils], [Tables], [LowLevel], [Mersenne] (the other headers of
      [src/include]): arithmetic on times with aliased arguments, name tables,
      alignment, and the random generator against MT19937 as published.
    - [Servers], [ServersProofs], [ServersExamples] ([exercises/server_design]): the
      echo and web servers.  [start] is what precedes the service loop and [round] one
      pass of it; the maps of the program agree with the descriptors, timers and
      registrations of the kernel in every state of the loop, and no byte of an open
      connection is lost; what is in the buffer when a connection is closed is dropped,
      and blocking connections can stop a server, which the theorems say.
    - [SelectionSort], [Subsequence], [Phonebook], [PersonPool] ([exercises/cpp],
      [exercises/c] and [exercises/real_time]): sorting by selection, the longest
      increasing subsequence, a phone book behind a menu, and a pool of objects.
    - [KPipe], [KPipeProofs], [KPipeSystem], [KPipeAnswers], [KPipeWake],
      [KPipeExamples] ([kernel_standalone/pipe]): the pipe driver with processes that
      open, read, write and close one pipe in every interleaving: order of the bytes,
      bounds, counters, the mutex, what each call returns ([KPipeAnswers]), and that
      readers and writers wake up.
    - [SimplePipe] ([kernel_standalone/simple_pipe]): refines a bounded queue, and is
      equivalent to the locked parts of the pipe driver.
    - [PipeModules], [CharDrivers], [CharDriversProofs]: loading and unloading of the
      two pipe drivers and of fourteen small drivers, with every error path, and the
      reads and writes of the small ones.  Giving back a region, a cdev, a class or a
      device node that is not held is a fault too.
    - [SleepWake], [ClipboardDev] ([kernel_standalone/sleep_wakeup], [cant_kill],
      [clipboard]): sleeping drivers and the interrupt that wakes their readers.
    - [BlkDev] ([kernel_standalone/blkdev]): requests of the block device.
    - [MmapToUser] ([kernel/mod_mmap_to_user.c], [test_mmap_to_user.cc]): a buffer shared
      by driver and process, as one list of bytes; the test program against the driver.
    - [MmapDrivers] ([kernel/mod_mmap.c], [mod_mmap_simple.c]): mapping and unmapping
      gives all memory back, proved once for what both drivers promise ([MapsFresh]); the
      reserved marks that the first leaves on its pages; double frees of their ioctls.
    - [KList] ([kernel/list.inc], [mod_list.c]): circular lists refine a queue
      whose log shows pointers cut to 32 bits.
    - [SyscallHijack] ([kernel/mod_syscall_hijack.c]): replacing an entry of the table of
      system calls and putting it back, the argument being cut to [unsigned int].

    ** Reading the theorems

    A theorem whose comment begins with an identifier (C1, C2, ...) is one of the
    main properties; where it has hypotheses, the lemma of the same name with the
    suffix [_witness] applies it to a concrete input.  Theorems about threads
    quantify over every reachable state; "when no thread can go on" is [blocked], a
    state with no step, and the theorems say that such a state is the intended end.

    Fuel: loops of programs run by [iter] with a number of rounds.  The theorems give
    the number: linear in the length of the file for the copy programs (a round
    moves a byte into or out of the buffer, or ends), two more than the length of
    the input for the phone book (each pass of the menu reads a character), two per block
    for the copy with io_uring (each round handles a completion).  The recursion of the
    merge sort has depth at most 32.  A server's loop has no end, so its
    theorems are about one [round] from any state of the loop.  Thread counters are
    32-bit, so the locks are proved for fewer than 2^32 threads.

    Hypotheses on what surrounds the programs: the size the splice program with
    select(2) assumes is not larger than the pipe ([ZeroCopyProofs], with a failing
    run where it is), the memory pool hands out different addresses
    ([PersonPool]), a process does not open a pipe both ways ([KPipeWake]), the kernel
    grants what a mapping driver asks for ([MmapToUser], [MmapDrivers], with theorems on
    what is lost when it does not).

    ** Not modelled

    Programs that show one call of a library (ACE, ALSA, Boost, OpenGL, SDL, X11):
    their behaviour is the library's.  Programs that measure time, whose results the
    code does not determine.  Kernel modules that show one call of the kernel, or
    whose effect is on the network stack.  The crash daemon, whose output comes
    from the unwinder.  The io_uring program that works without the library, on memory shared
    with the kernel under a weak memory model.  Messages on the terminal are left out where
    nothing reads them.  Memory is sequentially consistent throughout. *)

From stdpp Require Import prelude gmap strings list fin_maps.
From Stdlib Require Import ZArith Lia.

Global Open Scope Z_scope.

(** * Machine integers *)

Declare Scope prog_scope.
Delimit Scope prog_scope with prog.

(** [wrapu w z] is the value of [z] stored in an unsigned [w]-bit C object and
    [wraps w z] its value in a signed two's-complement one. *)
Definition wrapu (w z : Z) : Z := z mod 2 ^ w.
Definition wraps (w z : Z) : Z := (z + 2 ^ (w - 1)) mod 2 ^ w - 2 ^ (w - 1).

Abbreviation u32 := (wrapu 32).
Abbreviation u64 := (wrapu 64).
Abbreviation s32 := (wraps 32).
Abbreviation s64 := (wraps 64).

Definition INT_MAX : Z := 2147483647.
Definition SIZE_MAX : Z := 18446744073709551615.

Lemma wrapu_range (w z : Z) : 0 <= w -> 0 <= wrapu w z < 2 ^ w.
Proof. intros. apply Z.mod_pos_bound. apply Z.pow_pos_nonneg; lia. Qed.

Lemma wrapu_small (w z : Z) : 0 <= z < 2 ^ w -> wrapu w z = z.
Proof. intros. by apply Z.mod_small. Qed.

Lemma wraps_range (w z : Z) : 0 < w -> - 2 ^ (w - 1) <= wraps w z < 2 ^ (w - 1).
Proof.
  intros. unfold wraps.
  assert (2 ^ w = 2 * 2 ^ (w - 1)) as E.
  { rewrite <- Z.pow_succ_r by lia. f_equal; lia. }
  pose proof (Z.mod_pos_bound (z + 2 ^ (w - 1)) (2 ^ w)).
  assert (0 < 2 ^ w) by (apply Z.pow_pos_nonneg; lia). lia.
Qed.

Lemma wraps_small (w z : Z) : 0 < w -> - 2 ^ (w - 1) <= z < 2 ^ (w - 1) -> wraps w z = z.
Proof.
  intros. unfold wraps.
  assert (2 ^ w = 2 * 2 ^ (w - 1)) as E.
  { rewrite <- Z.pow_succ_r by lia. f_equal; lia. }
  rewrite Z.mod_small; lia.
Qed.

Lemma u32_small z : 0 <= z < 4294967296 -> u32 z = z.
Proof. intros. by apply wrapu_small. Qed.
Lemma u64_small z : 0 <= z < 18446744073709551616 -> u64 z = z.
Proof. intros. by apply wrapu_small. Qed.
Lemma s32_small z : -2147483648 <= z < 2147483648 -> s32 z = z.
Proof. intros. by apply wraps_small. Qed.
Lemma s64_small z : -9223372036854775808 <= z < 9223372036854775808 -> s64 z = z.
Proof. intros. by apply wraps_small. Qed.

(** * Lists as byte buffers *)

Abbreviation zlen l := (Z.of_nat (length l)).

(** [buf_put off d b] stores the bytes [d] at offset [off] of the buffer [b];
    [buf_get off n b] reads [n] of them. *)
Definition buf_put {A} (off : Z) (d b : list A) : list A :=
  take (Z.to_nat off) b ++ d ++ drop (Z.to_nat off + length d) b.
Definition buf_get {A} (off n : Z) (b : list A) : list A :=
  take (Z.to_nat n) (drop (Z.to_nat off) b).

Section buffers.
Context {A : Type}.
Implicit Types (b d : list A) (off n : Z).

Lemma length_buf_put off d b :
  0 <= off -> off + zlen d <= zlen b -> length (buf_put off d b) = length b.
Proof. intros. unfold buf_put. rewrite !length_app, length_take, length_drop. lia. Qed.

Lemma length_buf_get off n b :
  0 <= off -> 0 <= n -> off + n <= zlen b -> zlen (buf_get off n b) = n.
Proof. intros. unfold buf_get. rewrite length_take, length_drop. lia. Qed.

Lemma buf_get_split off n m b :
  0 <= off -> 0 <= n -> 0 <= m ->
  buf_get off (n + m) b = buf_get off n b ++ buf_get (off + n) m b.
Proof.
  intros. unfold buf_get.
  rewrite Z2Nat.inj_add by lia. rewrite (Z2Nat.inj_add off n) by lia.
  rewrite <- drop_drop. by rewrite take_take_drop.
Qed.

Lemma buf_get_zero off b : buf_get off 0 b = [].
Proof. done. Qed.

Lemma buf_get_put_eq off d b :
  0 <= off -> off + zlen d <= zlen b -> buf_get off (zlen d) (buf_put off d b) = d.
Proof.
  intros. unfold buf_get, buf_put.
  rewrite drop_app_length' by (rewrite length_take; lia).
  by rewrite Nat2Z.id, take_app_length.
Qed.

Lemma buf_get_put_before off d b o n :
  0 <= o -> 0 <= n -> o + n <= off -> off + zlen d <= zlen b ->
  buf_get o n (buf_put off d b) = buf_get o n b.
Proof.
  intros. unfold buf_get, buf_put.
  rewrite drop_app_le by (rewrite length_take; lia).
  rewrite take_app_le by (rewrite length_drop, length_take; lia).
  rewrite skipn_firstn_comm, take_take. f_equal; lia.
Qed.

Lemma buf_get_put_after off d b o n :
  0 <= off -> 0 <= n -> off + zlen d <= o -> off + zlen d <= zlen b ->
  buf_get o n (buf_put off d b) = buf_get o n b.
Proof.
  intros. unfold buf_get, buf_put.
  rewrite app_assoc, drop_app_ge by (rewrite length_app, length_take; lia).
  rewrite drop_drop. do 2 f_equal. rewrite length_app, length_take. lia.
Qed.
End buffers.

(** The whole of a buffer, and one element of it. *)
Lemma buf_put_all {A} (d b : list A) : length d = length b -> buf_put 0 d b = d.
Proof. intros Hl. unfold buf_put. cbn. rewrite drop_ge by lia. by rewrite app_nil_r. Qed.
Lemma buf_get_all {A} (b : list A) : buf_get 0 (zlen b) b = b.
Proof. unfold buf_get. cbn. rewrite Nat2Z.id. by rewrite take_ge. Qed.
Lemma buf_put_one {A} (i : nat) (x : A) b : (i < length b)%nat -> buf_put (Z.of_nat i) [x] b = <[i := x]> b.
Proof.
  intros Hi. unfold buf_put. rewrite Nat2Z.id. rewrite insert_take_drop by done. by rewrite Nat.add_1_r.
Qed.
Lemma buf_get_one {A} (i : nat) (x : A) b : b !! i = Some x -> buf_get (Z.of_nat i) 1 b = [x].
Proof. intros Hx. unfold buf_get. rewrite Nat2Z.id. by rewrite (drop_S _ _ _ Hx). Qed.

Lemma take_prefix_app {A} (l : list A) (n : nat) (k : nat) :
  take n l ++ take k (drop n l) = take (n + k) l.
Proof. apply take_take_drop. Qed.

(** * Programs

    A C function with effects is a function from the state to an outcome and
    the state it leaves.  It returns a value, ends the process through
    [exit(3)], blocks forever or is undefined ([Stuck]), or did not finish within the loop
    fuel it was given ([NoFuel]). *)
Inductive outcome (A : Type) : Type :=
| Val (a : A)
| Exit (code : Z)
| Stuck
| NoFuel.
Arguments Val {A} _.
Arguments Exit {A} _.
Arguments Stuck {A}.
Arguments NoFuel {A}.

Definition prog (St A : Type) : Type := St -> outcome A * St.

Section programs.
Context {St : Type}.

Definition pret {A} (a : A) : prog St A := fun s => (Val a, s).
Definition pexit {A} (code : Z) : prog St A := fun s => (Exit code, s).
Definition pstuck {A} : prog St A := fun s => (Stuck, s).
Definition pget : prog St St := fun s => (Val s, s).
Definition pput (s : St) : prog St unit := fun _ => (Val tt, s).
Definition pmodify (f : St -> St) : prog St unit := fun s => (Val tt, f s).

Definition pbind {A B} (m : prog St A) (k : A -> prog St B) : prog St B :=
  fun s =>
    match m s with
    | (Val a, s') => k a s'
    | (Exit c, s') => (Exit c, s')
    | (Stuck, s') => (Stuck, s')
    | (NoFuel, s') => (NoFuel, s')
    end.

(** [iter fuel body x] is a C loop: [body] runs one round on the loop state
    and says whether to go on ([inl]) or to leave with a result ([inr]). *)
Fixpoint iter {X R} (fuel : nat) (body : X -> prog St (X + R)) (x : X) : prog St R :=
  match fuel with
  | O => fun s => (NoFuel, s)
  | S fuel' =>
      pbind (body x) (fun r =>
        match r with
        | inl x' => iter fuel' body x'
        | inr r => pret r
        end)
  end.

(** Weakest preconditions: [wp m Q X s] says that [m] run from [s] either
    returns with [Q] or exits with [X]; it does not block and its fuel was
    enough. *)
Definition wp {A} (m : prog St A) (Q : A -> St -> Prop) (X : Z -> St -> Prop) (s : St) : Prop :=
  match m s with
  | (Val a, s') => Q a s'
  | (Exit c, s') => X c s'
  | _ => False
  end.

Lemma wp_ret {A} (a : A) Q X s : Q a s -> wp (pret a) Q X s.
Proof. done. Qed.

Lemma wp_exit {A} c Q X s : X c s -> wp (A:=A) (pexit c) Q X s.
Proof. done. Qed.

Lemma wp_get Q X s : Q s s -> wp pget Q X s.
Proof. done. Qed.

Lemma wp_modify f Q X s : Q tt (f s) -> wp (pmodify f) Q X s.
Proof. done. Qed.

Lemma wp_bind {A B} (m : prog St A) (k : A -> prog St B) Q X s :
  wp m (fun a s' => wp (k a) Q X s') X s -> wp (pbind m k) Q X s.
Proof. unfold wp, pbind. by destruct (m s) as [[] ?]. Qed.

Lemma wp_mono {A} (m : prog St A) (Q Q' : A -> St -> Prop) (X X' : Z -> St -> Prop) s :
  wp m Q X s -> (forall a s', Q a s' -> Q' a s') -> (forall c s', X c s' -> X' c s') ->
  wp m Q' X' s.
Proof. unfold wp. destruct (m s) as [[] ?]; eauto. Qed.

(** Total-correctness loop rule: an invariant [I] and a measure [mu] that
    every round that goes on decreases; fuel above the measure suffices. *)
Lemma wp_iter {Y R} (I : Y -> St -> Prop) (mu : Y -> St -> nat)
    (body : Y -> prog St (Y + R)) (Q : R -> St -> Prop) (X : Z -> St -> Prop) :
  (forall y s, I y s ->
     wp (body y) (fun r s' =>
       match r with
       | inl y' => I y' s' /\ (mu y' s' < mu y s)%nat
       | inr r => Q r s'
       end) X s) ->
  forall fuel y s, I y s -> (mu y s < fuel)%nat -> wp (iter fuel body y) Q X s.
Proof.
  intros Hbody. induction fuel as [|fuel IH]; intros y s HI Hmu; [lia|].
  simpl. apply wp_bind. eapply wp_mono; [by apply Hbody| |done].
  intros [y'|r] s' H; [|done]. destruct H. apply IH; [done|lia].
Qed.
End programs.

Global Arguments wp : simpl never.
Global Arguments iter : simpl never.

Notation "'let!' x ':=' m 'in' k" := (pbind m (fun x => k))
  (at level 10, x name, m at level 100, k at level 200) : prog_scope.
Notation "'let!' ' p ':=' m 'in' k" := (pbind m (fun x => match x with p => k end))
  (at level 10, p pattern, m at level 100, k at level 200) : prog_scope.
Notation "m ;;; k" := (pbind m (fun _ => k))
  (at level 199, right associativity) : prog_scope.

Lemma iter_unfold {St Y R} fuel (body : Y -> prog St (Y + R)) y :
  iter (S fuel) body y =
    pbind (body y) (fun r => match r with inl y' => iter fuel body y' | inr r => pret r end).
Proof. done. Qed.

(** * Loops over an array *)

(** [for (i = first; i < first + n; i++)] over a loop state; [None] if the body
    accesses something outside an array. *)
Fixpoint for_loop {S} (n first : nat) (body : nat -> S -> option S) (s : S) : option S :=
  match n with
  | O => Some s
  | Datatypes.S n' => s' ← body first s; for_loop n' (Datatypes.S first) body s'
  end.

(** A loop whose body keeps an invariant. *)
Lemma for_loop_inv {S} (I : nat -> S -> Prop) n first body s :
  I first s ->
  (forall i s, (first <= i < first + n)%nat -> I i s -> exists s', body i s = Some s' /\ I (Datatypes.S i) s') ->
  exists s', for_loop n first body s = Some s' /\ I (first + n)%nat s'.
Proof.
  revert first s. induction n as [|n IH]; intros first s HI Hb; cbn [for_loop].
  - exists s. by rewrite Nat.add_0_r.
  - destruct (Hb first s ltac:(lia) HI) as (s1 & -> & HI1). cbn.
    destruct (IH (Datatypes.S first) s1 HI1) as (s' & -> & HI').
    + intros i s0 Hi. apply Hb. lia.
    + exists s'. split; [done|]. by replace (first + Datatypes.S n)%nat with (Datatypes.S first + n)%nat by lia.
Qed.

(** The values of an [int]. *)
Definition int32 (z : Z) : bool := (-2147483648 <=? z) && (z <=? 2147483647).
Lemma int32_spec z : int32 z = true <-> -2147483648 <= z <= 2147483647.
Proof. unfold int32. rewrite andb_true_iff, !Z.leb_le. done. Qed.

(** * Automation *)

(** Fold away machine-width wrap-arounds whose argument is in range. *)
Ltac cint1 :=
  match goal with
  | |- context [wrapu 64 ?z] => rewrite (u64_small z) by lia
  | |- context [wrapu 32 ?z] => rewrite (u32_small z) by lia
  | |- context [wraps 64 ?z] => rewrite (s64_small z) by lia
  | |- context [wraps 32 ?z] => rewrite (s32_small z) by lia
  | H : context [wrapu 64 ?z] |- _ => rewrite (u64_small z) in H by lia
  | H : context [wrapu 32 ?z] |- _ => rewrite (u32_small z) in H by lia
  | H : context [wraps 64 ?z] |- _ => rewrite (s64_small z) in H by lia
  | H : context [wraps 32 ?z] |- _ => rewrite (s32_small z) in H by lia
  end.
Ltac cint := repeat cint1.

(** One step through a program under [wp]. *)
Ltac wp_step :=
  lazymatch goal with
  | |- wp (pbind _ _) _ _ _ => apply wp_bind
  | |- wp (pret _) _ _ _ => apply wp_ret
  | |- wp (pexit _) _ _ _ => apply wp_exit
  | |- wp pget _ _ _ => apply wp_get
  | |- wp (pmodify _) _ _ _ => apply wp_modify
  | |- wp (if ?b then _ else _) _ _ _ => destruct b eqn:?
  | |- wp (match ?x with _ => _ end) _ _ _ => destruct x eqn:?
  | |- wp (let _ := _ in _) _ _ _ => cbv zeta
  end.

(** Boolean tests of the code as propositions. *)
Ltac zbool :=
  repeat match goal with
  | H : (_ =? _) = true |- _ => apply Z.eqb_eq in H
  | H : (_ =? _) = false |- _ => apply Z.eqb_neq in H
  | H : (_ <? _) = true |- _ => apply Z.ltb_lt in H
  | H : (_ <? _) = false |- _ => apply Z.ltb_ge in H
  | H : (_ <=? _) = true |- _ => apply Z.leb_le in H
  | H : (_ <=? _) = false |- _ => apply Z.leb_gt in H
  | H : andb _ _ = true |- _ => apply andb_true_iff in H as [? ?]
  | H : orb _ _ = false |- _ => apply orb_false_iff in H as [? ?]
  | H : negb _ = true |- _ => apply negb_true_iff in H
  | H : negb _ = false |- _ => apply negb_false_iff in H
  end.
