(* ===== verification/Posix.v ===== *)
(** The operating-system interface the modelled programs run against: files,
    descriptors, pipes, memory and the errno/-1 convention of section 2 of the
    Linux manual.  Nothing here translates code of the repository.  Whatever
    the manual leaves open (whether a call fails and with which errno, how many
    bytes a short read or write moves, when the peer of a pipe writes, which
    descriptors select(2) reports) is read from an oracle, one [answer] per
    call, so that a theorem quantified over the world covers every behaviour
    of the kernel. *)

From stdpp Require Import prelude gmap strings list fin_maps.
From Stdlib Require Import ZArith Lia.
From S2P Require Import Prelude.

Abbreviation byte := Byte.byte.

(** * Constants *)

Definition EXIT_SUCCESS : Z := 0.
Definition EXIT_FAILURE : Z := 1.
Definition ENOENT : Z := 2.
Definition EBADF : Z := 9.
Definition EAGAIN : Z := 11.

(** The kernel moves at most this many bytes in one call (read(2), NOTES). *)
Definition MAX_RW_COUNT : Z := 2147479552.
Definition PIPE_CAPACITY : Z := 65536.

Definition STDIN_FILENO : Z := 0.
Definition STDOUT_FILENO : Z := 1.

(** * State *)

(** What one call of the kernel decides. *)
Record answer := mkAnswer {
  a_errno : option positive;  (** fail with this errno *)
  a_count : Z;                (** how many bytes it is willing to move *)
  a_arrive : Z;               (** bytes a foreign writer added before the call *)
  a_ready : Z -> bool;        (** descriptors select(2) finds ready *)
  a_fill : byte;              (** content of fresh memory *)
  a_peer : nat -> Z * Z;      (** per connection: bytes that came in, room to send *)
  a_fds : list Z;             (** descriptors epoll_wait(2) looks at, in order *)
}.

(** A printf-style call: the format string and its arguments. *)
Inductive arg :=
| AInt (z : Z)
| AStr (s : string)
| AStrerror (e : Z)                  (** strerror(e) *)
| AStrsignal (s : Z).                (** strsignal(s) *)
Record msg := mkMsg { m_fmt : string; m_args : list arg }.

Inductive desc :=
| DFile (path : string) (off : Z) (readable writable : bool)
| DSource                            (** a pipe fed by a foreign process *)
| DSink                              (** a pipe drained by a foreign process *)
| DPipe (id : Z) (write_end : bool)  (** a pipe made by the program *)
| DConn (id : nat) (nonblock : bool) (** a connected stream socket *)
| DSocket (port : Z)                 (** a stream socket, bound to a port or to 0 *)
| DListen (port : Z)                 (** a listening socket *)
| DTimer (armed : bool)              (** timerfd_create(2) *)
| DEpoll.                            (** epoll_create(2) *)

Record pipe := mkPipe { p_data : list byte; p_cap : Z }.

(** A client's connection.  The client sends [c_stream] and then, if [c_shut],
    shuts its side down. *)
Record conn := mkConn {
  c_stream : list byte;       (** all the client sends *)
  c_shut : bool;
  c_future : list byte;       (** not yet arrived *)
  c_in : list byte;           (** arrived and not yet read *)
  c_sent : list byte;         (** all the program wrote to the client *)
  c_room : Z;                 (** room in the send buffer *)
}.

Record net := mkNet {
  n_conns : list conn;        (** every connection accepted so far *)
  n_queue : list conn;        (** clients waiting to be accepted *)
  n_epoll : gmap Z Z;         (** the interest list of the epoll instance *)
}.

Record world := mkWorld {
  w_env : nat -> answer;
  w_tick : nat;
  w_files : gmap string (list byte);
  w_fds : gmap Z desc;
  w_next : Z;                 (** every open descriptor and pipe id is below *)
  w_pipes : gmap Z pipe;
  w_in : list byte;           (** in the foreign input pipe now *)
  w_future : list byte;       (** what its writer will still write *)
  w_out : list byte;          (** all bytes given to the foreign reader *)
  w_errno : Z;
  w_stderr : list msg;
  w_pagesize : Z;
  w_net : net;
}.

Definition set_tick t w := mkWorld (w_env w) t (w_files w) (w_fds w) (w_next w) (w_pipes w)
  (w_in w) (w_future w) (w_out w) (w_errno w) (w_stderr w) (w_pagesize w) (w_net w).
Definition set_files f w := mkWorld (w_env w) (w_tick w) f (w_fds w) (w_next w) (w_pipes w)
  (w_in w) (w_future w) (w_out w) (w_errno w) (w_stderr w) (w_pagesize w) (w_net w).
Definition set_fds f w := mkWorld (w_env w) (w_tick w) (w_files w) f (w_next w) (w_pipes w)
  (w_in w) (w_future w) (w_out w) (w_errno w) (w_stderr w) (w_pagesize w) (w_net w).
Definition set_next n w := mkWorld (w_env w) (w_tick w) (w_files w) (w_fds w) n (w_pipes w)
  (w_in w) (w_future w) (w_out w) (w_errno w) (w_stderr w) (w_pagesize w) (w_net w).
Definition set_pipes p w := mkWorld (w_env w) (w_tick w) (w_files w) (w_fds w) (w_next w) p
  (w_in w) (w_future w) (w_out w) (w_errno w) (w_stderr w) (w_pagesize w) (w_net w).
Definition set_in i f w := mkWorld (w_env w) (w_tick w) (w_files w) (w_fds w) (w_next w) (w_pipes w)
  i f (w_out w) (w_errno w) (w_stderr w) (w_pagesize w) (w_net w).
Definition set_out o w := mkWorld (w_env w) (w_tick w) (w_files w) (w_fds w) (w_next w) (w_pipes w)
  (w_in w) (w_future w) o (w_errno w) (w_stderr w) (w_pagesize w) (w_net w).
Definition set_errno e w := mkWorld (w_env w) (w_tick w) (w_files w) (w_fds w) (w_next w) (w_pipes w)
  (w_in w) (w_future w) (w_out w) e (w_stderr w) (w_pagesize w) (w_net w).
Definition set_stderr l w := mkWorld (w_env w) (w_tick w) (w_files w) (w_fds w) (w_next w) (w_pipes w)
  (w_in w) (w_future w) (w_out w) (w_errno w) l (w_pagesize w) (w_net w).

Definition set_net n w := mkWorld (w_env w) (w_tick w) (w_files w) (w_fds w) (w_next w) (w_pipes w)
  (w_in w) (w_future w) (w_out w) (w_errno w) (w_stderr w) (w_pagesize w) n.

Definition set_conns (l : list conn) (w : world) : world :=
  set_net (mkNet l (n_queue (w_net w)) (n_epoll (w_net w))) w.

Abbreviation M := (prog world).

(** * Output and failure *)

Definition eprintf (fmt : string) (args : list arg) : M unit :=
  pmodify (fun w => set_stderr (w_stderr w ++ [mkMsg fmt args]) w).

(** exit(3): the parent sees the low eight bits of the code. *)
Definition c_exit {A} (code : Z) : M A := pexit (wrapu 8 code).

Definition fail_with {A} (e : Z) (r : A) : M A :=
  pbind (pmodify (set_errno e)) (fun _ => pret r).

Definition next_answer : M answer :=
  fun w => (Val (w_env w (w_tick w)), set_tick (S (w_tick w)) w).

(** A system call: it may fail with whatever errno the kernel likes. *)
Definition syscall {A} (bad : A) (k : answer -> M A) : M A :=
  pbind next_answer (fun a =>
    match a_errno a with
    | Some e => fail_with (Zpos e) bad
    | None => k a
    end).

(** How many bytes a call moves when [lim] could be moved: all calls here move
    at least one byte when they can. *)
Definition moved (a : answer) (lim : Z) : Z :=
  if lim <=? 0 then 0 else Z.max 1 (Z.min (a_count a) (Z.min lim MAX_RW_COUNT)).

Lemma moved_bounds a lim : 0 <= moved a lim <= Z.max 0 lim.
Proof. unfold moved, MAX_RW_COUNT. destruct (lim <=? 0) eqn:E; zbool; lia. Qed.

Lemma moved_int a lim : 0 <= moved a lim <= 2147479552.
Proof. unfold moved, MAX_RW_COUNT. destruct (lim <=? 0) eqn:E; zbool; lia. Qed.

Lemma moved_pos a lim : 0 < lim -> 0 < moved a lim.
Proof. unfold moved, MAX_RW_COUNT. intros. destruct (lim <=? 0) eqn:E; zbool; lia. Qed.

(** * Byte sources and sinks *)

(** The bytes a descriptor can deliver now, [None] if it cannot be read. *)
Definition avail (fd : Z) (w : world) : option (list byte) :=
  match w_fds w !! fd with
  | Some (DFile p off true _) =>
      match w_files w !! p with
      | Some d => Some (drop (Z.to_nat off) d)
      | None => None
      end
  | Some DSource => Some (w_in w)
  | Some (DPipe id false) =>
      match w_pipes w !! id with
      | Some p => Some (p_data p)
      | None => None
      end
  | Some (DConn id _) =>
      match n_conns (w_net w) !! id with
      | Some c => Some (c_in c)
      | None => None
      end
  | _ => None
  end.

(** Nothing more will ever come out of the descriptor once it is empty. *)
Definition at_end (fd : Z) (w : world) : bool :=
  match w_fds w !! fd with
  | Some DSource => bool_decide (w_future w = [])
  | Some (DPipe id false) =>
      negb (existsb (fun kd => match snd kd with
                               | DPipe i true => i =? id
                               | _ => false
                               end) (map_to_list (w_fds w)))
  | Some (DConn id _) =>
      match n_conns (w_net w) !! id with
      | Some c => c_shut c && bool_decide (c_future c = [])
      | None => true
      end
  | _ => true
  end.

Definition consume (fd n : Z) (w : world) : world :=
  match w_fds w !! fd with
  | Some (DFile p off r wr) => set_fds (<[fd := DFile p (off + n) r wr]> (w_fds w)) w
  | Some DSource => set_in (drop (Z.to_nat n) (w_in w)) (w_future w) w
  | Some (DPipe id false) =>
      match w_pipes w !! id with
      | Some p => set_pipes (<[id := mkPipe (drop (Z.to_nat n) (p_data p)) (p_cap p)]> (w_pipes w)) w
      | None => w
      end
  | Some (DConn id _) =>
      match n_conns (w_net w) !! id with
      | Some c =>
          set_conns (<[id := mkConn (c_stream c) (c_shut c) (c_future c) (drop (Z.to_nat n) (c_in c))
                               (c_sent c) (c_room c)]> (n_conns (w_net w))) w
      | None => w
      end
  | _ => w
  end.

(** Bytes of [d] stored at offset [off] of a file, the gap filled with zeros. *)
Definition file_put (off : Z) (d f : list byte) : list byte :=
  let f' := f ++ replicate (Z.to_nat off - length f) Byte.x00 in
  take (Z.to_nat off) f' ++ d ++ drop (Z.to_nat off + length d) f'.

(** Room for new bytes behind a descriptor, [None] if it cannot be written. *)
Definition room (fd : Z) (w : world) : option Z :=
  match w_fds w !! fd with
  | Some (DFile p _ _ true) => if decide (is_Some (w_files w !! p)) then Some MAX_RW_COUNT else None
  | Some DSink => Some MAX_RW_COUNT
  | Some (DPipe id true) =>
      match w_pipes w !! id with
      | Some p => Some (p_cap p - zlen (p_data p))
      | None => None
      end
  | Some (DConn id _) =>
      match n_conns (w_net w) !! id with
      | Some c => Some (c_room c)
      | None => None
      end
  | _ => None
  end.

(** A call that would have to wait fails with EAGAIN instead. *)
Definition nonblocking (fd : Z) (w : world) : bool :=
  match w_fds w !! fd with Some (DConn _ nb) => nb | _ => false end.

(** write(2) on a blocking socket returns only when all was taken. *)
Definition all_or_wait (fd : Z) (w : world) : bool :=
  match w_fds w !! fd with Some (DConn _ nb) => negb nb | _ => false end.

Definition emit (fd : Z) (d : list byte) (w : world) : world :=
  match w_fds w !! fd with
  | Some (DFile p off r wr) =>
      match w_files w !! p with
      | Some f => set_fds (<[fd := DFile p (off + zlen d) r wr]> (w_fds w))
                    (set_files (<[p := file_put off d f]> (w_files w)) w)
      | None => w
      end
  | Some DSink => set_out (w_out w ++ d) w
  | Some (DPipe id true) =>
      match w_pipes w !! id with
      | Some p => set_pipes (<[id := mkPipe (p_data p ++ d) (p_cap p)]> (w_pipes w)) w
      | None => w
      end
  | Some (DConn id _) =>
      match n_conns (w_net w) !! id with
      | Some c =>
          set_conns (<[id := mkConn (c_stream c) (c_shut c) (c_future c) (c_in c)
                               (c_sent c ++ d) (c_room c - zlen d)]> (n_conns (w_net w))) w
      | None => w
      end
  | _ => w
  end.

(** [k] more bytes reach the receive buffer of a connection. *)
Definition receive (k : nat) (c : conn) : conn :=
  mkConn (c_stream c) (c_shut c) (drop k (c_future c)) (c_in c ++ take k (c_future c)) (c_sent c) (c_room c).

(** The foreign writer adds bytes to the input pipe before a call; a blocking
    call on an empty pipe waits for at least one. *)
Definition arrive (a : answer) (fd : Z) (blocking : bool) (w : world) : world :=
  match w_fds w !! fd with
  | Some DSource =>
      let want := Z.max (if blocking then if decide (w_in w = []) then 1 else 0 else 0) (a_arrive a) in
      let k := Z.to_nat want in
      set_in (w_in w ++ take k (w_future w)) (drop k (w_future w)) w
  | Some (DConn id _) =>
      match n_conns (w_net w) !! id with
      | Some c =>
          let want := Z.max (if blocking then if decide (c_in c = []) then 1 else 0 else 0) (a_arrive a) in
          set_conns (<[id := receive (Z.to_nat want) c]> (n_conns (w_net w))) w
      | None => w
      end
  | _ => w
  end.

(** * System calls *)

Inductive accmode := O_RDONLY | O_WRONLY | O_RDWR.
Record oflags := mkOflags { o_acc : accmode; o_creat : bool; o_trunc : bool }.

Definition acc_r (m : accmode) : bool := match m with O_WRONLY => false | _ => true end.
Definition acc_w (m : accmode) : bool := match m with O_RDONLY => false | _ => true end.

Definition new_fd (d : desc) : M Z :=
  pbind pget (fun w =>
    pbind (pmodify (fun w => set_fds (<[w_next w := d]> (w_fds w)) (set_next (w_next w + 1) w)))
      (fun _ => pret (w_next w))).

Definition sys_open (path : string) (fl : oflags) : M Z :=
  syscall (-1) (fun _ =>
    pbind pget (fun w =>
      match w_files w !! path with
      | None =>
          if o_creat fl then
            pbind (pmodify (set_files (<[path := []]> (w_files w)))) (fun _ =>
              new_fd (DFile path 0 (acc_r (o_acc fl)) (acc_w (o_acc fl))))
          else fail_with ENOENT (-1)
      | Some _ =>
          pbind (if o_trunc fl then pmodify (set_files (<[path := []]> (w_files w))) else pret tt)
            (fun _ => new_fd (DFile path 0 (acc_r (o_acc fl)) (acc_w (o_acc fl))))
      end)).

Definition sys_close (fd : Z) : M Z :=
  syscall (-1) (fun _ =>
    pbind pget (fun w =>
      match w_fds w !! fd with
      | Some _ => pbind (pmodify (set_fds (delete fd (w_fds w)))) (fun _ => pret 0)
      | None => fail_with EBADF (-1)
      end)).

Definition sys_pipe : M (Z * (Z * Z)) :=
  syscall (-1, (0, 0)) (fun _ =>
    pbind pget (fun w =>
      let n := w_next w in
      pbind (pmodify (fun w =>
        set_pipes (<[n := mkPipe [] PIPE_CAPACITY]> (w_pipes w))
          (set_fds (<[n + 1 := DPipe n true]> (<[n := DPipe n false]> (w_fds w)))
            (set_next (n + 2) w))))
        (fun _ => pret (0, (n, n + 1))))).

(** fcntl(fd, F_SETPIPE_SZ, size): rounded up to a power of two of pages. *)
Definition sys_setpipe_sz (fd size : Z) : M Z :=
  syscall (-1) (fun _ =>
    pbind pget (fun w =>
      match w_fds w !! fd with
      | Some (DPipe id _) =>
          match w_pipes w !! id with
          | Some p =>
              let cap := 2 ^ Z.log2_up (Z.max size (w_pagesize w)) in
              pbind (pmodify (set_pipes (<[id := mkPipe (p_data p) cap]> (w_pipes w))))
                (fun _ => pret cap)
          | None => fail_with EBADF (-1)
          end
      | _ => fail_with EBADF (-1)
      end)).

(** A caller's buffer must hold [count] bytes from [off] on. *)
Definition fits (buf : list byte) (off count : Z) : bool :=
  (0 <=? off) && (0 <=? count) && (off + count <=? zlen buf).

(** read(2) into, and write(2) from, offset [off] of a buffer of the program.
    A buffer too small for the count is undefined behaviour ([Stuck]). *)
Definition sys_read (fd : Z) (buf : list byte) (off count : Z) : M (Z * list byte) :=
  if negb (fits buf off count) then pstuck else
  syscall (-1, buf) (fun a =>
    pbind (pmodify (fun w => arrive a fd ((0 <? count) && negb (nonblocking fd w)) w)) (fun _ =>
      pbind pget (fun w =>
        match avail fd w with
        | None => fail_with EBADF (-1, buf)
        | Some d =>
            if (0 <? count) && bool_decide (d = []) && negb (at_end fd w) then
              if nonblocking fd w then fail_with EAGAIN (-1, buf) else pstuck
            else
              let n := moved a (Z.min count (zlen d)) in
              pbind (pmodify (consume fd n)) (fun _ =>
                pret (n, buf_put off (take (Z.to_nat n) d) buf))
        end))).

Definition sys_write (fd : Z) (buf : list byte) (off count : Z) : M Z :=
  if negb (fits buf off count) then pstuck else
  syscall (-1) (fun a =>
    pbind pget (fun w =>
      match room fd w with
      | None => fail_with EBADF (-1)
      | Some r =>
          if (0 <? count) && (r <=? 0) then
            if nonblocking fd w then fail_with EAGAIN (-1) else pstuck
          else if all_or_wait fd w && (0 <? count) && (r <? count) then pstuck
          else
            let n := if all_or_wait fd w then Z.min count MAX_RW_COUNT else moved a (Z.min count r) in
            pbind (pmodify (emit fd (buf_get off n buf))) (fun _ => pret n)
      end)).

(** splice(2), sendfile(2) ([keep = false]) and tee(2) ([keep = true]): move or
    duplicate bytes between two descriptors inside the kernel. *)
Definition sys_transfer (keep : bool) (fdin fdout len : Z) (blocking : bool) : M Z :=
  syscall (-1) (fun a =>
    pbind (pmodify (arrive a fdin (blocking && (0 <? len)))) (fun _ =>
      pbind pget (fun w =>
        match avail fdin w, room fdout w with
        | Some d, Some r =>
            if (0 <? len) && bool_decide (d = []) && negb (at_end fdin w) then
              if blocking then pstuck else fail_with EAGAIN (-1)
            else if (0 <? len) && (r <=? 0) && bool_decide (d <> []) then
              if blocking then pstuck else fail_with EAGAIN (-1)
            else
              let n := moved a (Z.min len (Z.min (zlen d) r)) in
              pbind (pmodify (emit fdout (take (Z.to_nat n) d))) (fun _ =>
                pbind (pmodify (if keep then fun w => w else consume fdin n)) (fun _ => pret n))
        | _, _ => fail_with EBADF (-1)
        end))).

Abbreviation sys_splice := (sys_transfer false).
Abbreviation sys_sendfile := (fun fdout fdin len => sys_transfer false fdin fdout len true).
Abbreviation sys_tee := (sys_transfer true).

(** select(2) without a timeout: some non-empty part of what was asked for. *)
Definition sys_select (nfds : Z) (rfds wfds : gset Z) : M (Z * (gset Z * gset Z)) :=
  syscall (-1, (rfds, wfds)) (fun a =>
    let r := filter (fun fd => fd < nfds) rfds in
    let q := filter (fun fd => fd < nfds) wfds in
    if decide (r = ∅ /\ q = ∅) then pstuck
    else
      let r' := filter (fun fd => a_ready a fd = true) r in
      let q' := filter (fun fd => a_ready a fd = true) q in
      if decide (r' = ∅ /\ q' = ∅) then pret (Z.of_nat (size r + size q), (r, q))
      else pret (Z.of_nat (size r' + size q'), (r', q'))).

Definition sys_ftruncate (fd len : Z) : M Z :=
  syscall (-1) (fun _ =>
    pbind pget (fun w =>
      match w_fds w !! fd with
      | Some (DFile p _ _ true) =>
          match w_files w !! p with
          | Some f =>
              let f' := take (Z.to_nat len) f ++ replicate (Z.to_nat len - length f) Byte.x00 in
              pbind (pmodify (set_files (<[p := f']> (w_files w)))) (fun _ => pret 0)
          | None => fail_with EBADF (-1)
          end
      | _ => fail_with EBADF (-1)
      end)).

(** fstat(2): result, st_size and whether the descriptor is a FIFO.  When it
    fails the caller's structure keeps whatever it held. *)
Definition sys_fstat (fd : Z) : M (Z * (Z * bool)) :=
  pbind next_answer (fun a =>
    let garbage := (Z.abs (a_count a), a_ready a fd) in
    match a_errno a with
    | Some e => fail_with (Zpos e) (-1, garbage)
    | None =>
        pbind pget (fun w =>
          match w_fds w !! fd with
          | Some (DFile p _ _ _) =>
              pret (0, (match w_files w !! p with Some f => zlen f | None => 0 end, false))
          | Some _ => pret (0, (0, true))
          | None => fail_with EBADF (-1, garbage)
          end)
    end).

(** mmap(2) of the first [len] bytes of a file: the address ([MAP_FAILED] on
    error) and the file behind it. *)
Definition MAP_FAILED : Z := -1.
Definition EINVAL : Z := 22.
Definition sys_mmap (fd len : Z) : M (Z * string) :=
  syscall (MAP_FAILED, "") (fun _ =>
    pbind pget (fun w =>
      match w_fds w !! fd with
      | Some (DFile p _ _ _) =>
          if len <=? 0 then fail_with EINVAL (MAP_FAILED, "")
          else pret (4096 * (1 + fd), p)
      | _ => fail_with EBADF (MAP_FAILED, "")
      end)).

(** memcpy(3) between two mapped files; touching a mapping beyond the end of
    its file is a fault. *)
Definition memcpy_mapped (dst src : string) (len : Z) : M unit :=
  pbind pget (fun w =>
    match w_files w !! dst, w_files w !! src with
    | Some d, Some s =>
        if (len <=? zlen d) && (len <=? zlen s) then
          pmodify (set_files (<[dst := buf_put 0 (buf_get 0 len s) d]> (w_files w)))
        else pstuck
    | _, _ => pstuck
    end).

(** malloc(3): [None] is NULL; fresh memory has any content. *)
Definition malloc (n : Z) : M (option (list byte)) :=
  syscall None (fun a => pret (Some (replicate (Z.to_nat n) (a_fill a)))).

(** operator new[]: there is no failure result to test. *)
Definition new_array (n : Z) : M (list byte) :=
  pbind next_answer (fun a => pret (replicate (Z.to_nat n) (a_fill a))).

Definition getpagesize : M Z := pbind pget (fun w => pret (w_pagesize w)).

(** * atoi(3) *)

Definition is_space (c : Ascii.ascii) : bool :=
  let n := Z.of_nat (Ascii.nat_of_ascii c) in (n =? 32) || ((9 <=? n) && (n <=? 13)).
Definition digit (c : Ascii.ascii) : option Z :=
  let n := Z.of_nat (Ascii.nat_of_ascii c) in
  if (48 <=? n) && (n <=? 57) then Some (n - 48) else None.

Fixpoint digits (s : string) (acc : Z) : Z :=
  match s with
  | String c s' => match digit c with Some d => digits s' (10 * acc + d) | None => acc end
  | EmptyString => acc
  end.

Fixpoint atoi (s : string) : Z :=
  match s with
  | String c s' =>
      if is_space c then atoi s'
      else if (Ascii.nat_of_ascii c =? 45)%nat then s32 (- digits s' 0)
      else if (Ascii.nat_of_ascii c =? 43)%nat then s32 (digits s' 0)
      else s32 (digits (String c s') 0)
  | EmptyString => 0
  end.

Example atoi_ex : atoi " -42x" = -42 /\ atoi "8" = 8 /\ atoi "abc" = 0.
Proof. done. Qed.

(** * Specifications of the calls *)

Abbreviation tick w := (set_tick (S (w_tick w)) w).

Lemma wp_syscall {A} (bad : A) k (Q : A -> world -> Prop) X w :
  (forall e, Q bad (set_errno e (tick w))) ->
  (forall a, wp (k a) Q X (tick w)) ->
  wp (syscall bad k) Q X w.
Proof.
  intros Hbad Hk. unfold syscall. apply wp_bind. unfold wp, next_answer. simpl.
  destruct (a_errno _) as [e|]; [apply Hbad|apply Hk].
Qed.

Lemma fits_true buf off count :
  0 <= off -> 0 <= count -> off + count <= zlen buf -> fits buf off count = true.
Proof. intros. unfold fits. by rewrite !andb_true_iff, !Z.leb_le. Qed.

(** Descriptor [fd] stands at offset [o] of the file [p], whose content is [d]. *)
Definition file_at (w : world) (fd : Z) (p : string) (o : Z) (r wr : bool) (d : list byte) : Prop :=
  w_fds w !! fd = Some (DFile p o r wr) /\ w_files w !! p = Some d.

Lemma avail_file w fd p o wr d :
  file_at w fd p o true wr d -> avail fd w = Some (drop (Z.to_nat o) d).
Proof. intros [H1 H2]. unfold avail. by rewrite H1, H2. Qed.

Lemma room_file w fd p o r d :
  file_at w fd p o r true d -> room fd w = Some MAX_RW_COUNT.
Proof. intros [H1 H2]. unfold room. rewrite H1, H2. by rewrite decide_True by eauto. Qed.

Lemma arrive_file a w fd p o r wr d b :
  file_at w fd p o r wr d -> arrive a fd b w = w.
Proof. intros [H1 _]. unfold arrive. by rewrite H1. Qed.

Lemma at_end_file w fd p o r wr d : file_at w fd p o r wr d -> at_end fd w = true.
Proof. intros [H1 _]. unfold at_end. by rewrite H1. Qed.

Lemma consume_file w fd p o r wr d n :
  file_at w fd p o r wr d -> consume fd n w = set_fds (<[fd := DFile p (o + n) r wr]> (w_fds w)) w.
Proof. intros [H1 _]. unfold consume. by rewrite H1. Qed.

(** Appending: the descriptor stands at the end of its file. *)
Lemma emit_file w fd p r wr d x :
  file_at w fd p (zlen d) r wr d ->
  emit fd x w = set_fds (<[fd := DFile p (zlen (d ++ x)) r wr]> (w_fds w))
                  (set_files (<[p := d ++ x]> (w_files w)) w).
Proof.
  intros [H1 H2]. unfold emit. rewrite H1, H2. f_equal; [|f_equal].
  - do 2 f_equal. rewrite length_app. lia.
  - f_equal. unfold file_put. rewrite Nat2Z.id, Nat.sub_diag. simpl.
    rewrite app_nil_r, firstn_all, drop_ge by lia. by rewrite app_nil_r.
Qed.

Lemma wp_read_file fd buf off count p o wr d (Q : Z * list byte -> world -> Prop) X w :
  file_at w fd p o true wr d ->
  0 <= o <= zlen d -> 0 <= off -> 0 <= count -> off + count <= zlen buf ->
  (forall e, Q (-1, buf) (set_errno e (tick w))) ->
  (forall n, 0 <= n <= Z.min count (zlen d - o) -> n <= MAX_RW_COUNT ->
     (0 < count -> o < zlen d -> 0 < n) ->
     Q (n, buf_put off (buf_get o n d) buf)
       (set_fds (<[fd := DFile p (o + n) true wr]> (w_fds w)) (tick w))) ->
  wp (sys_read fd buf off count) Q X w.
Proof.
  intros Hf Ho Hoff Hc Hb Hbad Hok. unfold sys_read. rewrite fits_true by done. change (negb true) with false.
  apply wp_syscall; [done|]. intros a.
  assert (file_at (tick w) fd p o true wr d) as Hf' by exact Hf.
  wp_step. wp_step. rewrite (arrive_file _ _ _ _ _ _ _ _ _ Hf').
  wp_step. wp_step. rewrite (avail_file _ _ _ _ _ _ Hf'), (at_end_file _ _ _ _ _ _ _ Hf').
  rewrite andb_false_r. do 2 wp_step. rewrite (consume_file _ _ _ _ _ _ _ _ Hf'). wp_step.
  rewrite length_drop.
  set (lim := Z.min count _).
  pose proof (moved_bounds a lim). pose proof (moved_int a lim).
  apply (Hok (moved a lim)); unfold MAX_RW_COUNT; [lia|lia|].
  intros. apply moved_pos. lia.
Qed.

Lemma wp_write_file fd buf off count p r d (Q : Z -> world -> Prop) X w :
  file_at w fd p (zlen d) r true d ->
  0 <= off -> 0 <= count -> off + count <= zlen buf ->
  (forall e, Q (-1) (set_errno e (tick w))) ->
  (forall n, 0 <= n <= count -> n <= MAX_RW_COUNT -> (0 < count -> 0 < n) ->
     Q n (set_fds (<[fd := DFile p (zlen (d ++ buf_get off n buf)) r true]> (w_fds w))
           (set_files (<[p := d ++ buf_get off n buf]> (w_files w)) (tick w)))) ->
  wp (sys_write fd buf off count) Q X w.
Proof.
  intros Hf Ho Hc Hb Hbad Hok. unfold sys_write. rewrite fits_true by done. change (negb true) with false.
  apply wp_syscall; [done|]. intros a.
  assert (file_at (tick w) fd p (zlen d) r true d) as Hf' by exact Hf.
  wp_step. wp_step. rewrite (room_file _ _ _ _ _ _ Hf').
  replace (MAX_RW_COUNT <=? 0) with false by done. rewrite andb_false_r.
  unfold all_or_wait. rewrite (proj1 Hf'). cbn [andb].
  do 2 wp_step. rewrite (emit_file _ _ _ _ _ _ _ Hf'). wp_step.
  set (lim := Z.min count _).
  pose proof (moved_bounds a lim). pose proof (moved_int a lim).
  assert (lim <= count) by (unfold lim; lia).
  apply (Hok (moved a lim)); unfold MAX_RW_COUNT in *; [lia|lia|].
  intros. apply moved_pos. lia.
Qed.

(** A transfer inside the kernel, from what it finds after the foreign writer
    has had its turn. *)
Lemma wp_transfer (keep : bool) fdin fdout len (blk : bool) (Q : Z -> world -> Prop) X w :
  (forall e, Q (-1) (set_errno e (tick w))) ->
  (forall a, let w1 := arrive a fdin (blk && (0 <? len)) (tick w) in
     exists d r, avail fdin w1 = Some d /\ room fdout w1 = Some r /\
       (0 < len -> d = [] -> at_end fdin w1 = true) /\
       (0 < len -> d <> [] -> 0 < r) /\
       let n := moved a (Z.min len (Z.min (zlen d) r)) in
       let w2 := emit fdout (take (Z.to_nat n) d) w1 in
       Q n (if keep then w2 else consume fdin n w2)) ->
  wp (sys_transfer keep fdin fdout len blk) Q X w.
Proof.
  intros Hbad Hok. apply wp_syscall; [done|]. intros a.
  specialize (Hok a). set (w1 := arrive a fdin _ _) in *. cbv zeta in Hok.
  destruct Hok as (d & r & Hd & Hr & He & Hroom & HQ).
  do 4 wp_step. fold w1. rewrite Hd, Hr.
  assert ((0 <? len) && bool_decide (d = []) && negb (at_end fdin w1) = false) as ->.
  { destruct (0 <? len) eqn:?; [|done]; zbool. case_bool_decide; [|done]. by rewrite He. }
  assert ((0 <? len) && (r <=? 0) && bool_decide (d <> []) = false) as ->.
  { destruct (0 <? len) eqn:?; [|done]; zbool. destruct (r <=? 0) eqn:?; [|done]; zbool.
    case_bool_decide; [|done]. specialize (Hroom ltac:(lia) ltac:(done)). lia. }
  repeat wp_step. by destruct keep.
Qed.

(** * Concrete worlds, to evaluate programs in *)

(** A kernel that never fails and moves at most [n] bytes per call. *)
Definition calm (n : Z) : answer := mkAnswer None n n (fun _ => true) Byte.x00 (fun _ => (0, 0)) [].

Definition no_net : net := mkNet [] [] ∅.

Definition world_of (env : nat -> answer) (files : gmap string (list byte)) : world :=
  mkWorld env 0 files (<[0 := DSource]> (<[1 := DSink]> ∅)) 3 ∅ [] [] [] 0 [] 4096 no_net.

Definition world_with_input (env : nat -> answer) (future : list byte) : world :=
  mkWorld env 0 ∅ (<[0 := DSource]> (<[1 := DSink]> ∅)) 3 ∅ [] future [] 0 [] 4096 no_net.
