(* ===== verification/Ipow.v ===== *)
(** [src/examples/arithmetic/ipow.c]: integer powers by repeated squaring, unrolled into
    a switch.  The squares are kept in 32 bits although the result has 64, and an
    overflow of a signed multiplication has no defined result; the theorem says
    exactly for which arguments the function is defined, and that it then gives the
    power. *)

From stdpp Require Import prelude strings list.
From Stdlib Require Import ZArith Lia.
From S2P Require Import Prelude Posix.

Module Ipow.

(** The [highest_bit_set] of the numbers below 64, and the marker 255. *)
Definition highest_bit_set : list Z :=
  [0; 1; 2; 2; 3; 3; 3; 3;
   4; 4; 4; 4; 4; 4; 4; 4;
   5; 5; 5; 5; 5; 5; 5; 5;
   5; 5; 5; 5; 5; 5; 5; 5;
   6; 6; 6; 6; 6; 6; 6; 6;
   6; 6; 6; 6; 6; 6; 6; 6;
   6; 6; 6; 6; 6; 6; 6; 6;
   6; 6; 6; 6; 6; 6; 6; 255] ++ replicate 192 255.


(** [base *= base] on an [int32_t]: undefined on overflow. *)
Definition square (base : Z) : option Z := if int32 (base * base) then Some (base * base) else None.

(** [if (exp & 1) result *= base], on a [uint64_t]. *)
Definition multiply (result base exp : Z) : Z :=
  if Z.land exp 1 =? 0 then result else u64 (result * u64 base).

(** The cases from [n] down to [default], each falling through to the next. *)
Fixpoint cases (n : nat) (result base exp : Z) : option Z :=
  match n with
  | O => Some result
  | S O => Some (multiply result base exp)
  | S n' => match square base with
            | Some base' => cases n' (multiply result base exp) base' (Z.shiftr exp 1)
            | None => None
            end
  end.

Definition ipow (base exp : Z) : option Z :=
  let n := default 0 (highest_bit_set !! Z.to_nat exp) in
  if n =? 255 then
    Some (if base =? 1 then 1 else if base =? -1 then 1 - 2 * Z.land exp 1 else 0)
  else option_map s64 (cases (Z.to_nat n) 1 base exp).

(** The exit status and the number printed. *)
Definition main (argv : list string) : option (Z * list Z) :=
  match argv with
  | [_; base; exp] => option_map (fun r => (EXIT_SUCCESS, [r])) (ipow (s32 (atoi base)) (wrapu 8 (atoi exp)))
  | _ => Some (EXIT_FAILURE, [])
  end.

(** ** Proof *)

Lemma table_bits : forallb (fun e => default 0 (highest_bit_set !! Z.to_nat e) =?
    (if e =? 0 then 0 else Z.log2 e + 1)) (Z.of_nat <$> seq 0 63) = true.
Proof. reflexivity. Qed.
Lemma table_marker : forallb (fun e => default 0 (highest_bit_set !! Z.to_nat e) =? 255) (Z.of_nat <$> seq 63 193) = true.
Proof. vm_compute. reflexivity. Qed.

Lemma table_at P a n e :
  forallb P (Z.of_nat <$> seq a n) = true -> Z.of_nat a <= e < Z.of_nat a + Z.of_nat n -> P e = true.
Proof.
  rewrite forallb_forall. intros H He. apply H, list_elem_of_In, list_elem_of_fmap.
  exists (Z.to_nat e). rewrite Z2Nat.id by lia. split; [done|]. apply elem_of_seq. lia.
Qed.

Lemma land1 e : 0 <= e -> Z.land e 1 = e mod 2.
Proof. intros. change 1 with (Z.ones 1). by rewrite Z.land_ones by lia. Qed.

Lemma u64_mul_l a b : u64 (u64 a * b) = u64 (a * b).
Proof. unfold wrapu. by rewrite Z.mul_mod_idemp_l by lia. Qed.
Lemma u64_mul_r a b : u64 (a * u64 b) = u64 (a * b).
Proof. unfold wrapu. by rewrite Z.mul_mod_idemp_r by lia. Qed.
Lemma u64_idem a : u64 (u64 a) = u64 a.
Proof. unfold wrapu. by rewrite Z.mod_mod by lia. Qed.


(** A power of a square that fits has a base that fits. *)
Lemma square_fits b p : 0 < p -> int32 ((b * b) ^ p) = true -> int32 (b * b) = true.
Proof.
  rewrite !int32_spec. intros Hp H. pose proof (Z.square_nonneg b).
  destruct (decide (b * b = 0)) as [->|]; [lia|].
  pose proof (Z.pow_le_mono_r (b * b) 1 p ltac:(lia) ltac:(lia)) as Hm. rewrite Z.pow_1_r in Hm. lia.
Qed.

Lemma multiply_spec r b e : 0 <= e -> multiply (u64 r) b e = u64 (r * b ^ (e mod 2)).
Proof.
  intros He. unfold multiply. rewrite land1 by done.
  destruct (Z.mod_pos_bound e 2 ltac:(lia)). destruct (e mod 2 =? 0) eqn:E.
  - apply Z.eqb_eq in E. rewrite E, Z.pow_0_r, Z.mul_1_r. done.
  - apply Z.eqb_neq in E. replace (e mod 2) with 1 by lia. by rewrite Z.pow_1_r, u64_mul_l, u64_mul_r.
Qed.

Lemma pow_halves b e : 0 <= e -> b ^ e = b ^ (e mod 2) * (b * b) ^ (e / 2).
Proof.
  intros He. pose proof (Z.mod_pos_bound e 2 ltac:(lia)). pose proof (Z.div_pos e 2 He ltac:(lia)).
  rewrite <- Z.pow_2_r, <- Z.pow_mul_r, <- Z.pow_add_r by lia. f_equal. pose proof (Z.div_mod e 2). lia.
Qed.

Lemma cases_spec n : forall r b e, 0 <= e < 2 ^ Z.of_nat (S n) ->
  cases (S n) (u64 r) b e =
    if int32 b && negb (int32 (b ^ 2 ^ Z.of_nat n)) then None
    else if int32 b then Some (u64 (r * b ^ e)) else cases (S n) (u64 r) b e.
Proof.
  induction n as [|n IH]; intros r b e He.
  - change (Z.of_nat 0) with 0. rewrite Z.pow_0_r, Z.pow_1_r. destruct (int32 b); [|done]. cbn [cases].
    rewrite multiply_spec by lia. cbn in He. replace (e mod 2) with e; [done|]. symmetry. apply Z.mod_small. lia.
  - destruct (int32 b) eqn:Eb; [|done]. cbn [andb].
    assert (b ^ 2 ^ Z.of_nat (S n) = (b * b) ^ 2 ^ Z.of_nat n) as Hp.
    { rewrite Nat2Z.inj_succ, Z.pow_succ_r, Z.pow_mul_r, Z.pow_2_r by lia. done. }
    change (cases (S (S n)) (u64 r) b e) with
      (match square b with Some b' => cases (S n) (multiply (u64 r) b e) b' (Z.shiftr e 1) | None => None end).
    unfold square. destruct (int32 (b * b)) eqn:E2.
    + rewrite multiply_spec by lia. rewrite Z.shiftr_div_pow2 by lia. change (2 ^ 1) with 2.
      rewrite IH.
      * rewrite E2, Hp. destruct (int32 ((b * b) ^ _)); [|done]. cbn [negb andb]. f_equal. f_equal.
        by rewrite <- Z.mul_assoc, <- pow_halves by lia.
      * rewrite Nat2Z.inj_succ, Z.pow_succ_r in He by lia. split; [apply Z.div_pos; lia|].
        apply Z.div_lt_upper_bound; lia.
    + destruct (int32 (b ^ _)) eqn:E3; [|done]. rewrite Hp in E3.
      rewrite (square_fits b (2 ^ Z.of_nat n)) in E2; [done|apply Z.pow_pos_nonneg; lia|done].
Qed.

(** C39: For every 32-bit base and 8-bit exponent: up to exponent 62 [ipow] is defined
    exactly when the highest square it computes fits 32 bits, and then gives the
    power modulo 2^64; from 63 on it gives the power of 1 and -1, and 0 otherwise. *)
Theorem ipow_correct base exp :
  int32 base = true -> 0 <= exp <= 255 ->
  ipow base exp =
    if 62 <? exp then Some (if base =? 1 then 1 else if base =? -1 then (-1) ^ exp else 0)
    else if int32 (base ^ 2 ^ Z.log2 exp) then Some (s64 (base ^ exp)) else None.
Proof.
  intros Hb He. unfold ipow. destruct (62 <? exp) eqn:E62.
  - apply Z.ltb_lt in E62. pose proof (table_at _ 63 193 exp table_marker ltac:(lia)) as Ht. rewrite Ht.
    destruct (base =? 1); [done|]. destruct (base =? -1); [|done]. rewrite land1 by lia. f_equal.
    rewrite (pow_halves (-1) exp) by lia. change (-1 * -1) with 1. pose proof (Z.mod_pos_bound exp 2).
    rewrite Z.pow_1_l by (apply Z.div_pos; lia).
    assert (exp mod 2 = 0 \/ exp mod 2 = 1) as [->| ->] by lia; done.
  - apply Z.ltb_ge in E62. pose proof (table_at _ 0 63 exp table_bits ltac:(lia)) as Ht. apply Z.eqb_eq in Ht. rewrite Ht.
    destruct (exp =? 0) eqn:E0; [apply Z.eqb_eq in E0 as ->; cbn -[int32]; by rewrite Z.pow_1_r, Hb|].
    apply Z.eqb_neq in E0. pose proof (Z.log2_nonneg exp). pose proof (Z.log2_le_mono exp 62 ltac:(lia)) as Hl. cbn in Hl.
    rewrite (proj2 (Z.eqb_neq _ 255)) by lia.
    replace (Z.to_nat (Z.log2 exp + 1)) with (S (Z.to_nat (Z.log2 exp))) by lia.
    change 1 with (u64 1) at 1. rewrite cases_spec; rewrite ?Z2Nat.id by lia.
    + rewrite Hb. cbn [andb]. destruct (int32 (base ^ _)); [|done]. cbn [negb option_map]. rewrite Z.mul_1_l. f_equal.
      unfold wraps, wrapu. rewrite <- Zplus_mod_idemp_l. rewrite Z.mod_mod by lia. by rewrite Zplus_mod_idemp_l.
    + destruct (Z.log2_spec exp ltac:(lia)). rewrite Nat2Z.inj_succ, Z2Nat.id by lia. lia.
Qed.

Lemma ipow_correct_witness : ipow 10 15 = Some 1000000000000000.
Proof. rewrite (ipow_correct 10 15); [reflexivity|reflexivity|lia]. Defined.

(** Squares of 32 bits are too small for results of 64: powers of two from the
    thirty-second on, and powers of ten from the sixteenth, have no defined value. *)
Theorem ipow_undefined : ipow 2 31 = Some 2147483648 /\ ipow 2 32 = None /\ ipow 10 16 = None.
Proof. vm_compute. done. Qed.

Example main_usage : main ["ipow"; "7"] = Some (1, []) /\ main ["ipow"; "-3"; "259"] = Some (0, [-27]).
Proof. vm_compute. done. Qed.

(** The marker also catches a power that would fit. *)
Theorem ipow_min : (-2) ^ 63 = -9223372036854775808 /\ ipow (-2) 63 = Some 0.
Proof. vm_compute. done. Qed.
End Ipow.
