(* ===== verification/ErrUtils.v ===== *)
(** [src/include/err_utils.h]: the table that translates errno values to names
    and back, the handler every failed check ends in, and the [CHECK_*]
    functions that all programs of the repository wrap their system calls in.
    A check gets the value of the call as a C [int] and either returns it or
    prints a report on stderr and leaves the process. *)

From stdpp Require Import prelude gmap strings list fin_maps.
From Stdlib Require Import ZArith Lia.
From S2P Require Import Prelude Posix.

Open Scope prog_scope.

(** * The error table *)

(** [err_tbl]: one row per [entry(x)], the macro's name and its Linux value. *)
Definition err_tbl : list (string * Z) :=
  [
   ("E2BIG", 7); ("EACCES", 13); ("EADDRINUSE", 98);
   ("EADDRNOTAVAIL", 99); ("EAFNOSUPPORT", 97); ("EAGAIN", 11);
   ("EALREADY", 114); ("EBADE", 52); ("EBADF", 9);
   ("EBADFD", 77); ("EBADMSG", 74); ("EBADR", 53);
   ("EBADRQC", 56); ("EBADSLT", 57); ("EBUSY", 16);
   ("ECANCELED", 125); ("ECHILD", 10); ("ECHRNG", 44);
   ("ECOMM", 70); ("ECONNABORTED", 103); ("ECONNREFUSED", 111);
   ("ECONNRESET", 104); ("EDEADLK", 35); ("EDEADLOCK", 35);
   ("EDESTADDRREQ", 89); ("EDOM", 33); ("EDQUOT", 122);
   ("EEXIST", 17); ("EFAULT", 14); ("EFBIG", 27);
   ("EHOSTDOWN", 112); ("EHOSTUNREACH", 113); ("EIDRM", 43);
   ("EILSEQ", 84); ("EINPROGRESS", 115); ("EINTR", 4);
   ("EINVAL", 22); ("EIO", 5); ("EISCONN", 106);
   ("EISDIR", 21); ("EISNAM", 120); ("EKEYEXPIRED", 127);
   ("EKEYREJECTED", 129); ("EKEYREVOKED", 128); ("EL2HLT", 51);
   ("EL2NSYNC", 45); ("EL3HLT", 46); ("EL3RST", 47);
   ("ELIBACC", 79); ("ELIBBAD", 80); ("ELIBMAX", 82);
   ("ELIBSCN", 81); ("ELIBEXEC", 83); ("ELOOP", 40);
   ("EMEDIUMTYPE", 124); ("EMFILE", 24); ("EMLINK", 31);
   ("EMSGSIZE", 90); ("EMULTIHOP", 72); ("ENAMETOOLONG", 36);
   ("ENETDOWN", 100); ("ENETRESET", 102); ("ENETUNREACH", 101);
   ("ENFILE", 23); ("ENOBUFS", 105); ("ENODATA", 61);
   ("ENODEV", 19); ("ENOENT", 2); ("ENOEXEC", 8);
   ("ENOKEY", 126); ("ENOLCK", 37); ("ENOLINK", 67);
   ("ENOMEDIUM", 123); ("ENOMEM", 12); ("ENOMSG", 42);
   ("ENONET", 64); ("ENOPKG", 65); ("ENOPROTOOPT", 92);
   ("ENOSPC", 28); ("ENOSR", 63); ("ENOSTR", 60);
   ("ENOSYS", 38); ("ENOTBLK", 15); ("ENOTCONN", 107);
   ("ENOTDIR", 20); ("ENOTEMPTY", 39); ("ENOTSOCK", 88);
   ("ENOTSUP", 95); ("ENOTTY", 25); ("ENOTUNIQ", 76);
   ("ENXIO", 6); ("EOPNOTSUPP", 95); ("EOVERFLOW", 75);
   ("EPERM", 1); ("EPFNOSUPPORT", 96); ("EPIPE", 32);
   ("EPROTO", 71); ("EPROTONOSUPPORT", 93); ("EPROTOTYPE", 91);
   ("ERANGE", 34); ("EREMCHG", 78); ("EREMOTE", 66);
   ("EREMOTEIO", 121); ("ERESTART", 85); ("EROFS", 30);
   ("ESHUTDOWN", 108); ("ESPIPE", 29); ("ESOCKTNOSUPPORT", 94);
   ("ESRCH", 3); ("ESTALE", 116); ("ESTRPIPE", 86);
   ("ETIME", 62); ("ETIMEDOUT", 110); ("ETXTBSY", 26);
   ("EUCLEAN", 117); ("EUNATCH", 49); ("EUSERS", 87);
   ("EWOULDBLOCK", 11); ("EXDEV", 18); ("EXFULL", 54)
  ]%string.

(** err(3) prints its message and the text of errno and exits. *)
Definition err {A} (status : Z) (fmt : string) (args : list arg) : M A :=
  eprintf fmt args ;;; c_exit status.

Definition error_get_by_name (name : string) : M Z :=
  match list_find (fun row => row.1 = name) err_tbl with
  | Some (_, (_, val)) => pret val
  | None => err (-1) "bad error name %s" [AStr name]
  end.

Definition error_get_by_val (val : Z) : M string :=
  match list_find (fun row => row.2 = val) err_tbl with
  | Some (_, (name, _)) => pret name
  | None => err (-1) "bad error value %d" [AInt val]
  end.

(** [print_error_table], on the standard output. *)
Definition print_error_table : list msg :=
  mkMsg "number of error values is %zd\n" [AInt (zlen err_tbl)] ::
  imap (fun i row =>
    mkMsg "i=%d, sig=%d, in_code=%s, strerror(%d)=%s\n"
      [AInt (Z.of_nat i); AInt row.2; AStr row.1; AInt row.2; AStrerror row.2]) err_tbl.

(** * The handler *)

Definition errno : M Z := let! w := pget in pret (w_errno w).

Definition when (b : bool) (m : M unit) : M unit := if b then m else pret tt.

Definition handle_error {A} (printBadVal badVal replace_errno new_errno useerrno errnotouse : Z)
    (msg file function : string) (line : Z) (m : option string) : M A :=
  when (negb (replace_errno =? 0)) (pmodify (set_errno new_errno)) ;;;
  eprintf "============ ERROR ============\n" [] ;;;
  eprintf "file is [%s:%d]\n" [AStr file; AInt line] ;;;
  eprintf "function is [%s]\n" [AStr function] ;;;
  eprintf "text that caused the error was [%s]\n" [AStr msg] ;;;
  match m with
  | Some m => eprintf "message is [%s]\n" [AStr m]
  | None => pret tt
  end ;;;
  when (negb (printBadVal =? 0)) (eprintf "bad value is [%d]\n" [AInt badVal]) ;;;
  when (negb (useerrno =? 0))
    (eprintf "errno numeric is [%d]\n" [AInt errnotouse] ;;;
     let! name := error_get_by_val errnotouse in
     eprintf "errno symbolic is [%s]\n" [AStr name] ;;;
     eprintf "errno string is [%s]\n" [AStrerror errnotouse]) ;;;
  if negb (useerrno =? 0) then c_exit errnotouse else c_exit EXIT_FAILURE.

(** * The checks *)

Definition EOF : Z := -1.
Definition NULL : Z := 0.

Definition check_error {A} (v : Z) (msg file function : string) (line : Z) : M A :=
  let! e := errno in handle_error 0 0 0 0 1 e msg file function line None.

Definition check_zero (v : Z) (msg file function : string) (line : Z) (m : option string) : M Z :=
  let val := s32 v in
  if negb (val =? 0) then let! e := errno in handle_error 0 0 0 0 1 e msg file function line m
  else pret val.

Definition check_zero_errno (v : Z) (msg file function : string) (line : Z) : M Z :=
  let val := s32 v in
  if negb (val =? 0) then handle_error 0 0 1 val 0 val msg file function line None
  else pret val.

Definition check_not_zero (v : Z) (msg : string) (file function : string) (line : Z) : M Z :=
  let val := s32 v in
  if val =? 0 then let! e := errno in handle_error 0 0 0 0 1 e msg file function line None
  else pret val.

Definition check_not_m1 (v : Z) (msg : string) (file function : string) (line : Z) : M Z :=
  let val := s32 v in
  if val =? -1 then let! e := errno in handle_error 0 0 0 0 1 e msg file function line None
  else pret val.

Definition check_not_eof (v : Z) (msg : string) (file function : string) (line : Z) : M Z :=
  let val := s32 v in
  if val =? EOF then let! e := errno in handle_error 0 0 0 0 1 e msg file function line None
  else pret val.

Definition check_1 (v : Z) (msg : string) (file function : string) (line : Z) : M Z :=
  let val := s32 v in
  if negb (val =? 1) then let! e := errno in handle_error 0 0 0 0 1 e msg file function line None
  else pret val.

Definition check_not_negative (v : Z) (msg : string) (file function : string) (line : Z) : M Z :=
  let val := s32 v in
  if val <? 0 then let! e := errno in handle_error 0 0 0 0 1 e msg file function line None
  else pret val.

Definition check_oneoftwo (v : Z) (msg : string) (e1 e2 : Z) (file function : string) (line : Z) : M Z :=
  let val := s32 v in
  if negb (val =? e1) && negb (val =? e2) then let! e := errno in handle_error 0 0 0 0 1 e msg file function line None
  else pret val.

Definition check_assert (v : Z) (msg : string) (file function : string) (line : Z) : M Z :=
  let val := s32 v in
  if val =? 0 then handle_error 0 0 0 0 0 0 msg file function line None
  else pret val.

Definition check_int (v : Z) (msg : string) (expected : Z) (file function : string) (line : Z) : M Z :=
  let val := s32 v in
  if negb (val =? s32 expected) then let! e := errno in handle_error 0 0 0 0 1 e msg file function line None
  else pret val.

Definition check_int_noerrno (v : Z) (msg : string) (expected : Z) (file function : string) (line : Z) : M Z :=
  let val := s32 v in
  if negb (val =? s32 expected) then handle_error 1 val 0 0 0 0 msg file function line None
  else pret val.

Definition check_not_int (v : Z) (msg : string) (expected : Z) (file function : string) (line : Z) : M Z :=
  let val := s32 v in
  if val =? s32 expected then let! e := errno in handle_error 0 0 0 0 1 e msg file function line None
  else pret val.

Definition check_in_range (v : Z) (msg : string) (min max : Z) (file function : string) (line : Z) : M Z :=
  let val := s32 v in
  if (val <? min) || (max <=? val) then let! e := errno in handle_error 0 0 0 0 1 e msg file function line None
  else pret val.

Definition check_positive (v : Z) (msg : string) (file function : string) (line : Z) : M Z :=
  let val := s32 v in
  if val <=? 0 then let! e := errno in handle_error 0 0 0 0 1 e msg file function line None
  else pret val.

Definition check_gezero (v : Z) (msg : string) (file function : string) (line : Z) : M Z :=
  let val := s32 v in
  if val <? 0 then let! e := errno in handle_error 0 0 0 0 1 e msg file function line None
  else pret val.

(** Pointers are addresses, or [option] where the program owns the object. *)
Definition check_not_null {A} (val : option A) (msg file function : string) (line : Z) : M A :=
  match val with
  | None => handle_error 0 0 0 0 0 0 msg file function line None
  | Some p => pret p
  end.

Definition check_not_null_const (val : Z) (msg : string) (file function : string) (line : Z) : M Z :=
  if val =? NULL then handle_error 0 0 0 0 0 0 msg file function line None
  else pret val.

Definition check_not_null_filep (val : Z) (msg : string) (file function : string) (line : Z) : M Z :=
  if val =? NULL then handle_error 0 0 0 0 0 0 msg file function line None
  else pret val.

Definition check_not_null_charp (val : Z) (msg : string) (file function : string) (line : Z) : M Z :=
  if val =? NULL then handle_error 0 0 0 0 0 0 msg file function line None
  else pret val.

Definition check_not_voidp (val : Z) (msg : string) (errval : Z) (file function : string) (line : Z) : M Z :=
  if val =? errval then handle_error 0 0 0 0 0 0 msg file function line None
  else pret val.

Definition check_voidp (val : Z) (msg : string) (errval : Z) (file function : string) (line : Z) : M Z :=
  if negb (val =? errval) then handle_error 0 0 0 0 0 0 msg file function line None
  else pret val.

Definition check_not_sigt (val : Z) (msg : string) (errval : Z) (file function : string) (line : Z) : M Z :=
  if val =? errval then handle_error 0 0 0 0 0 0 msg file function line None
  else pret val.

Definition check_charp (val : Z) (msg : string) (expected : Z) (file function : string) (line : Z) : M Z :=
  if negb (val =? expected) then handle_error 0 0 0 0 0 0 msg file function line None
  else pret val.

(** * The macros

    Each passes the text of its argument and the place it stands at. *)
Record site := mkSite { s_file : string; s_func : string; s_line : Z }.

Definition CHECK_ZERO (s : site) (txt : string) (v : Z) : M Z :=
  check_zero v txt (s_file s) (s_func s) (s_line s) None.
Definition CHECK_MSG_ZERO (s : site) (txt : string) (v : Z) (m : string) : M Z :=
  check_zero v txt (s_file s) (s_func s) (s_line s) (Some m).
Definition CHECK_ZERO_ERRNO (s : site) (txt : string) (v : Z) : M Z :=
  check_zero_errno v txt (s_file s) (s_func s) (s_line s).
Definition CHECK_NOT_ZERO (s : site) (txt : string) (v : Z) : M Z :=
  check_not_zero v txt (s_file s) (s_func s) (s_line s).
Definition CHECK_NOT_M1 (s : site) (txt : string) (v : Z) : M Z :=
  check_not_m1 v txt (s_file s) (s_func s) (s_line s).
Definition CHECK_NOT_NULL {A} (s : site) (txt : string) (v : option A) : M A :=
  check_not_null v txt (s_file s) (s_func s) (s_line s).
Definition CHECK_ASSERT (s : site) (txt : string) (v : bool) : M Z :=
  check_assert (if v then 1 else 0) txt (s_file s) (s_func s) (s_line s).
Definition CHECK_NOT_VOIDP (s : site) (txt : string) (v e : Z) : M Z :=
  check_not_voidp v txt e (s_file s) (s_func s) (s_line s).
Definition CHECK_VOIDP (s : site) (txt : string) (v e : Z) : M Z :=
  check_not_voidp v txt e (s_file s) (s_func s) (s_line s).
Definition CHECK_INT (s : site) (txt : string) (v e : Z) : M Z :=
  check_int v txt e (s_file s) (s_func s) (s_line s).
Definition CHECK_ERROR {A} (s : site) (m : string) : M A :=
  check_error 0 m (s_file s) (s_func s) (s_line s).

(** * Lemmas *)

(** A failing exit status: what a shell calls an unsuccessful command. *)
Definition bad_status (c : Z) : Prop := 0 < c < 256.

Lemma err_tbl_range : Forall (fun row => 0 < row.2 < 256) err_tbl.
Proof. apply (bool_decide_unpack _). by vm_compute. Qed.

Lemma wp_error_get_by_val val (Q : string -> world -> Prop) X w :
  (forall name, (name, val) ∈ err_tbl -> Q name w) ->
  (forall m, val ∉ err_tbl.*2 -> X 255 (set_stderr (w_stderr w ++ [m]) w)) ->
  wp (error_get_by_val val) Q X w.
Proof.
  intros HQ HX. unfold error_get_by_val.
  destruct (list_find _ err_tbl) as [[i [name v]]|] eqn:E.
  - apply list_find_Some in E as (Hi & Hv & _). simpl in Hv. subst v.
    apply wp_ret, HQ. eapply list_elem_of_lookup_2; eauto.
  - unfold err. repeat wp_step. apply HX.
    apply list_find_None in E. rewrite Forall_forall in E.
    intros (row & -> & Hin)%list_elem_of_fmap. by apply (E row Hin).
Qed.

Lemma errno_status e name : (name, e) ∈ err_tbl -> wrapu 8 e = e /\ bad_status e.
Proof.
  intros H. pose proof err_tbl_range as T. rewrite Forall_forall in T.
  specialize (T _ H). simpl in T. unfold bad_status.
  rewrite wrapu_small; change (2 ^ 8) with 256; lia.
Qed.

(** Only the standard error and errno differ. *)
Definition quiet (w w' : world) : Prop := exists l e, w' = set_stderr l (set_errno e w).

(** The handler never returns and never reports success, and does nothing but
    print. *)
Lemma wp_handle_error_quiet {A} a1 a2 a3 a4 a5 a6 s1 s2 s3 l m (Q : A -> world -> Prop) X w :
  (forall c w', bad_status c -> quiet w w' -> X c w') ->
  wp (handle_error a1 a2 a3 a4 a5 a6 s1 s2 s3 l m) Q X w.
Proof.
  intros HX. unfold handle_error, when, eprintf.
  assert (forall l e, quiet w (set_stderr l (set_errno e w))) as Hq by (intros; by do 2 eexists).
  assert (forall l, quiet w (set_stderr l w)) as Hq2 by (intros l0; exists l0, (w_errno w); by destruct w).
  destruct (negb (a5 =? 0)); repeat wp_step.
  all: try (apply HX; [by vm_compute|first [apply Hq | apply Hq2]]).
  all: apply wp_error_get_by_val; [|intros; apply HX; [done|first [apply Hq | apply Hq2]]].
  all: intros name [He Hn]%errno_status; repeat wp_step;
    (apply HX; [by rewrite He|first [apply Hq | apply Hq2]]).
Qed.

Lemma wp_handle_error {A} a1 a2 a3 a4 a5 a6 s1 s2 s3 l m (Q : A -> world -> Prop) X w :
  (forall c w', bad_status c -> X c w') ->
  wp (handle_error a1 a2 a3 a4 a5 a6 s1 s2 s3 l m) Q X w.
Proof. intros HX. apply wp_handle_error_quiet. auto. Qed.

Lemma wp_check_not_m1 v s1 s2 s3 l (Q : Z -> world -> Prop) X w :
  (forall c w', bad_status c -> X c w') ->
  (s32 v <> -1 -> Q (s32 v) w) ->
  wp (check_not_m1 v s1 s2 s3 l) Q X w.
Proof.
  intros HX HQ. unfold check_not_m1, errno. repeat wp_step; zbool.
  - by apply wp_handle_error.
  - auto.
Qed.

Lemma wp_check_zero_errno v s1 s2 s3 l (Q : Z -> world -> Prop) X w :
  (forall c w', bad_status c -> X c w') ->
  (s32 v = 0 -> Q 0 w) ->
  wp (check_zero_errno v s1 s2 s3 l) Q X w.
Proof.
  intros HX HQ. unfold check_zero_errno. wp_step; zbool.
  - by apply wp_handle_error.
  - wp_step. rewrite Heqb. auto.
Qed.

Lemma wp_check_not_null {A} (v : option A) s1 s2 s3 l (Q : A -> world -> Prop) X w :
  (forall c w', bad_status c -> X c w') ->
  (forall p, v = Some p -> Q p w) ->
  wp (check_not_null v s1 s2 s3 l) Q X w.
Proof.
  intros HX HQ. unfold check_not_null. destruct v as [p|].
  - wp_step. by apply HQ.
  - by apply wp_handle_error.
Qed.

(** A check lets exactly the values of [ok] through, unchanged and without
    any effect; every other value ends the process with a failing status. *)
Definition guards {V} (chk : V -> M V) (ok : V -> bool) : Prop :=
  forall v w,
    wp (chk v) (fun r w' => ok v = true /\ r = v /\ w' = w)
               (fun c _ => ok v = false /\ bad_status c) w.

Definition guards_int (chk : Z -> M Z) (ok : Z -> bool) : Prop :=
  forall v w, -2147483648 <= v < 2147483648 ->
    wp (chk v) (fun r w' => ok v = true /\ r = v /\ w' = w)
               (fun c _ => ok v = false /\ bad_status c) w.

Ltac guard_tac :=
  match goal with
  | |- context [wp (?chk _ _ _ _ _) _ _ _] => unfold chk
  | |- context [wp (?chk _ _ _ _ _ _) _ _ _] => unfold chk
  | |- context [wp (?chk _ _ _ _ _ _ _) _ _ _] => unfold chk
  end;
  unfold errno, EOF, NULL; cint; repeat wp_step;
  try (apply wp_handle_error; intros; split; [|done]);
  repeat (case_bool_decide || split || done || lia || zbool).

(** C40: the checks on [int] results of [err_utils.h]: on an [int] argument each
    of them returns its argument, and touches nothing, exactly when the
    argument satisfies the condition the check is named after, and otherwise
    ends the process with a non-zero exit status. *)
Theorem checks_guard (msg file fn : string) (l e1 e2 : Z) (m : option string) :
  -2147483648 <= e1 < 2147483648 ->
  -2147483648 <= e2 < 2147483648 ->
  guards_int (fun v => check_zero v msg file fn l m) (fun v => v =? 0) /\
  guards_int (fun v => check_zero_errno v msg file fn l) (fun v => v =? 0) /\
  guards_int (fun v => check_not_zero v msg file fn l) (fun v => negb (v =? 0)) /\
  guards_int (fun v => check_not_m1 v msg file fn l) (fun v => negb (v =? -1)) /\
  guards_int (fun v => check_not_eof v msg file fn l) (fun v => negb (v =? EOF)) /\
  guards_int (fun v => check_1 v msg file fn l) (fun v => v =? 1) /\
  guards_int (fun v => check_not_negative v msg file fn l) (fun v => 0 <=? v) /\
  guards_int (fun v => check_gezero v msg file fn l) (fun v => 0 <=? v) /\
  guards_int (fun v => check_positive v msg file fn l) (fun v => 0 <? v) /\
  guards_int (fun v => check_oneoftwo v msg e1 e2 file fn l) (fun v => (v =? e1) || (v =? e2)) /\
  guards_int (fun v => check_assert v msg file fn l) (fun v => negb (v =? 0)) /\
  guards_int (fun v => check_int v msg e1 file fn l) (fun v => v =? e1) /\
  guards_int (fun v => check_int_noerrno v msg e1 file fn l) (fun v => v =? e1) /\
  guards_int (fun v => check_not_int v msg e1 file fn l) (fun v => negb (v =? e1)) /\
  guards_int (fun v => check_in_range v msg e1 e2 file fn l) (fun v => (e1 <=? v) && (v <? e2)).
Proof.
  intros He1 He2. repeat split; intros v w Hv; guard_tac.
Qed.

Lemma checks_guard_witness :
  wp (check_not_m1 3 "read" "f.cc" "main" 7) (fun r w' => negb (3 =? -1) = true /\ r = 3 /\ w' = w')
     (fun _ _ => False) (mkWorld (fun _ => mkAnswer None 0 0 (fun _ => true) Byte.x00 (fun _ => (0, 0)) []) 0 ∅ ∅ 3 ∅ [] [] [] 0 [] 4096 no_net).
Proof.
  pose proof (checks_guard "read" "f.cc" "main" 7 0 0 None ltac:(lia) ltac:(lia))
    as (_ & _ & _ & H & _).
  eapply wp_mono; [apply (H 3); lia| |]; simpl; intuition congruence.
Defined.

(** The pointer checks do what their names say: [check_not_null] and its
    three typed variants let everything but NULL through, [check_not_voidp] and
    [check_not_sigt] everything but the given value, [check_voidp] and
    [check_charp] only the given value; a refused pointer ends the process
    with a non-zero status. *)
Theorem pointer_checks_guard (msg file fn : string) (l e : Z) :
  (forall A (v : option A) w,
     wp (check_not_null v msg file fn l) (fun p w' => v = Some p /\ w' = w)
        (fun c _ => v = None /\ bad_status c) w) /\
  guards (fun v => check_not_null_const v msg file fn l) (fun v => negb (v =? NULL)) /\
  guards (fun v => check_not_null_filep v msg file fn l) (fun v => negb (v =? NULL)) /\
  guards (fun v => check_not_null_charp v msg file fn l) (fun v => negb (v =? NULL)) /\
  guards (fun v => check_not_voidp v msg e file fn l) (fun v => negb (v =? e)) /\
  guards (fun v => check_voidp v msg e file fn l) (fun v => v =? e) /\
  guards (fun v => check_not_sigt v msg e file fn l) (fun v => negb (v =? e)) /\
  guards (fun v => check_charp v msg e file fn l) (fun v => v =? e).
Proof.
  split.
  { intros A [p|] w; [by apply wp_ret|]. apply wp_handle_error. done. }
  repeat split; intros v w; guard_tac.
Qed.

(** The macro [CHECK_VOIDP(v, e)] does not check that [v] is [e]: it expands
    to [check_not_voidp], so it accepts every pointer different from the
    expected one and ends the process exactly on the expected one, the reverse
    of [check_voidp]. *)
Theorem CHECK_VOIDP_inverted (s : site) (txt : string) (v e : Z) (w : world) :
  (v <> e -> CHECK_VOIDP s txt v e w = (Val v, w)) /\
  wp (CHECK_VOIDP s txt e e) (fun _ _ => False) (fun c _ => bad_status c) w /\
  check_voidp e txt e (s_file s) (s_func s) (s_line s) w = (Val e, w).
Proof.
  unfold CHECK_VOIDP, check_not_voidp, check_voidp. rewrite Z.eqb_refl. split; [|split].
  - intros. by rewrite (proj2 (Z.eqb_neq v e)).
  - apply wp_handle_error. done.
  - done.
Qed.

(** The names of the table that [error_get_by_val] never answers: Linux gives
    them the value of a name that stands earlier. *)
Definition aliases : list string := ["EDEADLOCK"; "EOPNOTSUPP"; "EWOULDBLOCK"].

Definition row_roundtrip (row : string * Z) : bool :=
  bool_decide (snd <$> list_find (fun r => r.1 = row.1) err_tbl = Some row) &&
  match snd <$> list_find (fun r => r.2 = row.2) err_tbl with
  | Some (n, v) =>
      bool_decide (v = row.2) &&
      eqb (bool_decide (n = row.1)) (bool_decide (row.1 ∉ aliases))
  | None => false
  end.

Lemma err_tbl_roundtrip : Forall (fun row => row_roundtrip row = true) err_tbl.
Proof. apply (bool_decide_unpack _). by vm_compute. Qed.

Lemma error_get_by_name_row (name : string) (val : Z) (w : world) :
  (name, val) ∈ err_tbl -> error_get_by_name name w = (Val val, w).
Proof.
  intros Hin. pose proof err_tbl_roundtrip as T. rewrite Forall_forall in T.
  pose proof (T _ Hin) as H. unfold row_roundtrip in H.
  apply andb_true_iff in H as [H _]. apply bool_decide_eq_true in H.
  unfold error_get_by_name.
  destruct (list_find (fun r => r.1 = _) err_tbl) as [[i [n1 v1]]|]; [|done].
  by simplify_eq/=.
Qed.

(** Translating between names and values.  For every row of the table,
    looking its name up gives its value, looking its value up gives a name
    with the same value, and that name is the row's own exactly when the row
    is not one of the three aliases. *)
Theorem error_table_roundtrip (name : string) (val : Z) (w : world) :
  (name, val) ∈ err_tbl ->
  error_get_by_name name w = (Val val, w) /\
  exists name', error_get_by_val val w = (Val name', w) /\
    error_get_by_name name' w = (Val val, w) /\
    (name' = name <-> name ∉ aliases).
Proof.
  intros Hin. split; [by apply error_get_by_name_row|].
  pose proof err_tbl_roundtrip as T. rewrite Forall_forall in T.
  pose proof (T _ Hin) as H. unfold row_roundtrip in H. apply andb_true_iff in H as [_ H].
  unfold error_get_by_val.
  destruct (list_find (fun r => r.2 = _) err_tbl) as [[j [n2 v2]]|] eqn:E; [|done].
  simpl in H. apply andb_true_iff in H as [H2 H3]. apply bool_decide_eq_true in H2. subst v2.
  exists n2. split; [done|]. split.
  - apply list_find_Some in E as (Hj & _ & _). apply list_elem_of_lookup_2 in Hj.
    by apply error_get_by_name_row.
  - apply eqb_prop in H3. simpl in H3. split; intros Hx.
    + apply (bool_decide_eq_true_1 (name ∉ aliases)). rewrite <- H3. by apply bool_decide_eq_true_2.
    + apply (bool_decide_eq_true_1 (n2 = name)). rewrite H3. by apply bool_decide_eq_true_2.
Qed.

Lemma error_table_roundtrip_witness :
  error_get_by_name "EPIPE" (mkWorld (fun _ => mkAnswer None 0 0 (fun _ => true) Byte.x00 (fun _ => (0, 0)) []) 0 ∅ ∅ 3 ∅ [] [] [] 0 [] 4096 no_net)
  = (Val 32, mkWorld (fun _ => mkAnswer None 0 0 (fun _ => true) Byte.x00 (fun _ => (0, 0)) []) 0 ∅ ∅ 3 ∅ [] [] [] 0 [] 4096 no_net).
Proof. apply (error_table_roundtrip "EPIPE" 32). apply (bool_decide_unpack _). by vm_compute. Defined.

(** An errno that is missing from the table (0, which a failing check that
    sets no errno leaves, and 130, EOWNERDEAD, among others) makes
    [handle_error] end in [err(-1, ...)] before it has printed the symbolic
    name: the exit status is 255 and not the errno; an errno of the table is
    itself the exit status. *)
Theorem handle_error_status {A} (pbv bv re ne e : Z) (msg file fn : string) (l : Z)
    (m : option string) (w : world) :
  wp (A:=A) (handle_error pbv bv re ne 1 e msg file fn l m) (fun _ _ => False)
     (fun c _ => if decide (e ∈ err_tbl.*2) then c = e else c = 255) w.
Proof.
  unfold handle_error, when, eprintf. repeat wp_step; try done.
  all: apply wp_error_get_by_val; [|intros; by case_decide].
  all: intros name Hn; repeat wp_step.
  all: cbv beta; case_decide as Hd; [by apply (errno_status e name)|].
  all: destruct Hd; apply list_elem_of_fmap; eexists; split; [|exact Hn]; done.
Qed.
