(* ===== verification/CircularPipe.v ===== *)
(** [src/include/CircularPipe.hh] and [src/include/Selector.hh]: the ring buffer
    and the select(2) wrapper of the file-copy programs.  The ring is shown to
    implement a queue of bytes that holds up to [size - 1] of them, and to keep
    every read(2) and write(2) inside its buffer. *)

From stdpp Require Import prelude gmap strings list fin_maps.
From Stdlib Require Import ZArith Lia.
From S2P Require Import Prelude Posix ErrUtils.

Open Scope prog_scope.

(** * The class [CircularPipe] *)

Record CircularPipe := mkCircularPipe {
  cp_size : Z;
  cp_buf : list byte;
  cp_pos_read : Z;
  cp_pos_write : Z;
}.

Definition here (func : string) (line : Z) : site := mkSite "CircularPipe.hh" func line.

Definition CircularPipe_ctor (isize : Z) : M CircularPipe :=
  let! p := malloc isize in
  let! buf := CHECK_NOT_NULL (here "CircularPipe" 47) "malloc(size)" p in
  pret (mkCircularPipe isize buf 0 0).

(** return the occupied room of a pipe *)
Definition data (p : CircularPipe) : Z :=
  if cp_pos_read p <=? cp_pos_write p
  then u64 (cp_pos_write p - cp_pos_read p)
  else u64 (cp_size p - cp_pos_read p + cp_pos_write p).

(** return the empty room of a pipe *)
Definition cp_room (p : CircularPipe) : Z :=
  if cp_pos_read p <=? cp_pos_write p
  then u64 (cp_size p - cp_pos_write p + cp_pos_read p - 1)
  else u64 (cp_pos_read p - cp_pos_write p - 1).

Definition haveData (p : CircularPipe) : bool := 0 <? data p.
Definition haveRoom (p : CircularPipe) : bool := 0 <? cp_room p.
Definition canPush (p : CircularPipe) : bool := haveRoom p.
Definition canPull (p : CircularPipe) : bool := haveData p.

(** read data into the pipe *)
Definition push (p : CircularPipe) (fd : Z) : M (CircularPipe * bool) :=
  let count :=
    if cp_pos_read p <=? cp_pos_write p then
      let count := u64 (cp_size p - cp_pos_write p) in
      if cp_pos_read p =? 0 then u64 (count - 1) else count
    else u64 (cp_pos_read p - cp_pos_write p - 1) in
  let! '(ret, buf) := sys_read fd (cp_buf p) (cp_pos_write p) count in
  let! len := CHECK_NOT_M1 (here "push" 91) "read(fd, buf+pos_write, count)" ret in
  let pos_write := u64 (cp_pos_write p + len) in
  pret (mkCircularPipe (cp_size p) buf (cp_pos_read p) (pos_write mod cp_size p), len =? 0).

(** write data from the pipe *)
Definition pull (p : CircularPipe) (fd : Z) : M CircularPipe :=
  let count :=
    if cp_pos_read p <=? cp_pos_write p
    then u64 (cp_pos_write p - cp_pos_read p)
    else u64 (cp_size p - cp_pos_read p) in
  let! ret := sys_write fd (cp_buf p) (cp_pos_read p) count in
  let! len := CHECK_NOT_M1 (here "pull" 109) "write(fd, buf+pos_read, count)" ret in
  let pos_read := u64 (cp_pos_read p + len) in
  pret (mkCircularPipe (cp_size p) (cp_buf p) (pos_read mod cp_size p) (cp_pos_write p)).

(** * The class [Selector]

    An [fd_set] is the set of descriptors whose bit is set.  The constructor
    leaves the members unset; [null] sets all of them. *)
Record Selector := mkSelector {
  rfds : gset Z;
  wfds : gset Z;
  fd_max : Z;
}.

Definition my_max (a b : Z) : Z := if b <? a then a else b.

Definition null (s : Selector) : Selector := mkSelector ∅ ∅ 0.
Definition addReadFd (fd : Z) (s : Selector) : Selector :=
  mkSelector ({[fd]} ∪ rfds s) (wfds s) (my_max (fd_max s) fd).
Definition addWriteFd (fd : Z) (s : Selector) : Selector :=
  mkSelector (rfds s) ({[fd]} ∪ wfds s) (my_max (fd_max s) fd).
Definition isReadActive (fd : Z) (s : Selector) : bool := bool_decide (fd ∈ rfds s).
Definition isWriteActive (fd : Z) (s : Selector) : bool := bool_decide (fd ∈ wfds s).
Definition doSelect (s : Selector) : M Selector :=
  let! '(ret, (r, q)) := sys_select (fd_max s + 1) (rfds s) (wfds s) in
  CHECK_NOT_M1 (mkSite "Selector.hh" "doSelect" 59) "select(fd_max+1, &rfds, &wfds, NULL, NULL)" ret ;;;
  pret (mkSelector r q (fd_max s)).

(** * The ring implements a bounded queue of bytes *)

(** Data starts at [pos_read] and goes up to [pos_write], around the end. *)
Definition content (p : CircularPipe) : list byte :=
  if cp_pos_read p <=? cp_pos_write p
  then buf_get (cp_pos_read p) (cp_pos_write p - cp_pos_read p) (cp_buf p)
  else buf_get (cp_pos_read p) (cp_size p - cp_pos_read p) (cp_buf p)
       ++ buf_get 0 (cp_pos_write p) (cp_buf p).

Record wf (p : CircularPipe) : Prop := {
  wf_size : 0 < cp_size p < 18446744073709551616;
  wf_buf : zlen (cp_buf p) = cp_size p;
  wf_read : 0 <= cp_pos_read p < cp_size p;
  wf_write : 0 <= cp_pos_write p < cp_size p;
}.

Lemma data_content p : wf p -> data p = zlen (content p) /\ 0 <= data p < cp_size p.
Proof.
  intros []. unfold data, content. destruct (_ <=? _) eqn:E; zbool; cint.
  - rewrite length_buf_get; lia.
  - rewrite length_app, Nat2Z.inj_add, !length_buf_get; lia.
Qed.

Lemma room_data p : wf p -> cp_room p = cp_size p - 1 - data p.
Proof. intros []. unfold cp_room, data. destruct (_ <=? _) eqn:E; zbool; cint; lia. Qed.

Lemma mod_wrap x m : 0 < m -> 0 <= x <= m -> x mod m = if decide (x = m) then 0 else x.
Proof. intros. case_decide; [subst; by apply Z_mod_same_full|apply Z.mod_small; lia]. Qed.

(** Storing [d] behind the data, without reaching [pos_read]. *)
Lemma content_put p d :
  wf p ->
  cp_pos_write p + zlen d <= cp_size p ->
  zlen d <= cp_room p ->
  let p' := mkCircularPipe (cp_size p) (buf_put (cp_pos_write p) d (cp_buf p))
              (cp_pos_read p) ((cp_pos_write p + zlen d) mod cp_size p) in
  wf p' /\ content p' = content p ++ d.
Proof.
  intros Hwf Hfit Hroom. pose proof (room_data p Hwf). pose proof (data_content p Hwf) as [? ?].
  destruct Hwf as [Hs Hb Hr Hw].
  assert (zlen (buf_put (cp_pos_write p) d (cp_buf p)) = cp_size p) as Hlen
    by (rewrite length_buf_put; lia).
  pose proof (mod_wrap (cp_pos_write p + zlen d) (cp_size p) ltac:(lia) ltac:(lia)) as Hmod.
  simpl. rewrite Hmod. split; [constructor; simpl; try case_decide; lia|].
  unfold content in *; unfold data, cp_room in *; simpl.
  destruct (cp_pos_read p <=? cp_pos_write p) eqn:E; zbool; cint.
  - case_decide as Hd.
    + destruct (cp_pos_read p <=? 0) eqn:E2; zbool; [lia|].
      rewrite buf_get_zero, app_nil_r.
      replace (cp_size p - cp_pos_read p)
        with ((cp_pos_write p - cp_pos_read p) + zlen d) by lia.
      rewrite buf_get_split, buf_get_put_before by lia. f_equal.
      replace (cp_pos_read p + _) with (cp_pos_write p) by lia. by rewrite buf_get_put_eq by lia.
    + destruct (cp_pos_read p <=? cp_pos_write p + zlen d) eqn:E2; zbool; [|lia].
      replace (cp_pos_write p + zlen d - cp_pos_read p)
        with ((cp_pos_write p - cp_pos_read p) + zlen d) by lia.
      rewrite buf_get_split, buf_get_put_before by lia. f_equal.
      replace (cp_pos_read p + _) with (cp_pos_write p) by lia. by rewrite buf_get_put_eq by lia.
  - case_decide as Hd; [lia|].
    destruct (cp_pos_read p <=? cp_pos_write p + zlen d) eqn:E2; zbool; [lia|].
    rewrite buf_get_put_after by lia. rewrite <- app_assoc. f_equal.
    rewrite buf_get_split, buf_get_put_before by lia. f_equal. by rewrite buf_get_put_eq by lia.
Qed.

(** Taking [n] bytes from the front, without passing the end of the buffer. *)
Lemma content_get p n :
  wf p ->
  0 <= n <= data p -> cp_pos_read p + n <= cp_size p ->
  let p' := mkCircularPipe (cp_size p) (cp_buf p)
              ((cp_pos_read p + n) mod cp_size p) (cp_pos_write p) in
  wf p' /\ content p = buf_get (cp_pos_read p) n (cp_buf p) ++ content p'.
Proof.
  intros Hwf Hn Hfit. pose proof (data_content p Hwf) as [? ?].
  destruct Hwf as [Hs Hb Hr Hw].
  pose proof (mod_wrap (cp_pos_read p + n) (cp_size p) ltac:(lia) ltac:(lia)) as Hmod.
  simpl. rewrite Hmod. split; [constructor; simpl; try case_decide; lia|].
  unfold content in *; unfold data in *; simpl.
  destruct (cp_pos_read p <=? cp_pos_write p) eqn:E; zbool; cint.
  - rewrite decide_False by lia.
    destruct (cp_pos_read p + n <=? cp_pos_write p) eqn:E2; zbool; [|lia].
    rewrite <- buf_get_split by lia. f_equal; lia.
  - case_decide as Hd.
    + destruct (0 <=? cp_pos_write p) eqn:E2; zbool; [|lia].
      rewrite Z.sub_0_r. f_equal. f_equal; lia.
    + destruct (cp_pos_read p + n <=? cp_pos_write p) eqn:E2; zbool; [lia|].
      rewrite app_assoc, <- buf_get_split by lia. do 2 f_equal; lia.
Qed.

(** * The interface of a byte queue between two descriptors

    What a copy loop may assume about its buffer. *)
Class FdQueue (P : Type) := {
  q_wf : P -> Prop;
  q_content : P -> list byte;
  q_cap : P -> Z;
  q_can_push : P -> bool;
  q_can_pull : P -> bool;
  q_push : P -> Z -> M (P * bool);
  q_pull : P -> Z -> M P;
}.

Class FdQueueLaws (P : Type) `{FdQueue P} := {
  q_can_push_spec p : q_wf p -> q_can_push p = true <-> zlen (q_content p) < q_cap p;
  q_can_pull_spec p : q_wf p -> q_can_pull p = true <-> q_content p <> [];
  (** Pushing from a file appends the next bytes of the file, at least one of
      them, or finds and reports its end. *)
  q_push_spec p fd path o wr d Q X w :
    q_wf p -> zlen (q_content p) < q_cap p ->
    file_at w fd path o true wr d -> 0 <= o <= zlen d ->
    (forall c w', bad_status c -> X c w') ->
    (forall p' n, q_wf p' -> q_cap p' = q_cap p ->
       0 <= n -> o + n <= zlen d -> (n = 0 -> o = zlen d) ->
       zlen (q_content p') <= q_cap p' ->
       q_content p' = q_content p ++ buf_get o n d ->
       Q (p', n =? 0) (set_fds (<[fd := DFile path (o + n) true wr]> (w_fds w)) (tick w))) ->
    wp (q_push p fd) Q X w;
  (** Pulling appends the front of a non-empty queue to a file and drops it. *)
  q_pull_spec p fd path r d Q X w :
    q_wf p -> q_content p <> [] ->
    file_at w fd path (zlen d) r true d ->
    (forall c w', bad_status c -> X c w') ->
    (forall p' x, q_wf p' -> q_cap p' = q_cap p ->
       x <> [] -> q_content p = x ++ q_content p' ->
       Q p' (set_fds (<[fd := DFile path (zlen (d ++ x)) r true]> (w_fds w))
              (set_files (<[path := d ++ x]> (w_files w)) (tick w)))) ->
    wp (q_pull p fd) Q X w;
}.

#[export] Instance circular_queue : FdQueue CircularPipe := {
  q_wf := wf;
  q_content := content;
  q_cap p := cp_size p - 1;
  q_can_push := canPush;
  q_can_pull := canPull;
  q_push := push;
  q_pull := pull;
}.

(** The number of bytes [push] offers to read: all in one piece. *)
Lemma push_count p :
  wf p -> 0 < cp_room p ->
  let count :=
    if cp_pos_read p <=? cp_pos_write p then
      let count := u64 (cp_size p - cp_pos_write p) in
      if cp_pos_read p =? 0 then u64 (count - 1) else count
    else u64 (cp_pos_read p - cp_pos_write p - 1) in
  0 < count <= cp_room p /\ cp_pos_write p + count <= cp_size p.
Proof.
  intros [] Hr. unfold cp_room in *. cbv zeta. destruct (_ <=? _) eqn:E; zbool; cint; [|lia].
  destruct (cp_pos_read p =? 0) eqn:E2; zbool; cint; lia.
Qed.

Lemma pull_count p :
  wf p -> 0 < data p ->
  let count :=
    if cp_pos_read p <=? cp_pos_write p
    then u64 (cp_pos_write p - cp_pos_read p) else u64 (cp_size p - cp_pos_read p) in
  0 < count <= data p /\ cp_pos_read p + count <= cp_size p.
Proof. intros [] Hr. unfold data in *. destruct (_ <=? _) eqn:E; zbool; cint; lia. Qed.

Lemma wp_push p fd path o wr d (Q : CircularPipe * bool -> world -> Prop) X w :
  wf p -> 0 < cp_room p ->
  file_at w fd path o true wr d -> 0 <= o <= zlen d ->
  (forall c w', bad_status c -> X c w') ->
  (forall p' n, wf p' -> cp_size p' = cp_size p ->
     0 <= n -> o + n <= zlen d -> (n = 0 -> o = zlen d) ->
     content p' = content p ++ buf_get o n d ->
     Q (p', n =? 0) (set_fds (<[fd := DFile path (o + n) true wr]> (w_fds w)) (tick w))) ->
  wp (push p fd) Q X w.
Proof.
  intros Hwf Hroom Hf Ho HX HQ. pose proof (push_count p Hwf Hroom) as Hc.
  unfold push. cbv zeta in *. set (count := if _ <=? _ then _ else _) in *.
  pose proof Hwf as [Hs Hb Hr Hw].
  wp_step. apply (wp_read_file _ _ _ _ _ _ _ _ _ _ _ Hf); try lia.
  - intros e. wp_step. by apply wp_check_not_m1.
  - intros n Hn Hmax Hpos. unfold MAX_RW_COUNT in *.
    assert (zlen (buf_get o n d) = n) as Hlen by (rewrite length_buf_get; lia).
    wp_step. apply wp_check_not_m1; [done|]. cint. intros _. repeat wp_step.
    destruct (content_put p (buf_get o n d)) as [Hwf' Hc']; [done|lia|lia|].
    rewrite Hlen in Hwf', Hc'.
    apply HQ; [done|done|lia|lia| |done]. lia.
Qed.

Lemma wp_pull p fd path r d (Q : CircularPipe -> world -> Prop) X w :
  wf p -> 0 < data p ->
  file_at w fd path (zlen d) r true d ->
  (forall c w', bad_status c -> X c w') ->
  (forall p' x, wf p' -> cp_size p' = cp_size p ->
     x <> [] -> content p = x ++ content p' ->
     Q p' (set_fds (<[fd := DFile path (zlen (d ++ x)) r true]> (w_fds w))
            (set_files (<[path := d ++ x]> (w_files w)) (tick w)))) ->
  wp (pull p fd) Q X w.
Proof.
  intros Hwf Hdata Hf HX HQ. pose proof (pull_count p Hwf Hdata) as Hc.
  unfold pull. cbv zeta in *. set (count := if _ <=? _ then _ else _) in *.
  pose proof Hwf as [Hs Hb Hr Hw].
  wp_step. apply (wp_write_file _ _ _ _ _ _ _ _ _ _ Hf); try lia.
  - intros e. wp_step. by apply wp_check_not_m1.
  - intros n Hn Hmax Hpos. unfold MAX_RW_COUNT in *.
    wp_step. apply wp_check_not_m1; [done|]. cint. intros _. repeat wp_step.
    destruct (content_get p n) as [Hwf' Hc']; [done|lia|lia|].
    apply HQ; [done|done| |done].
    intros Hnil. apply (f_equal length), (f_equal Z.of_nat) in Hnil.
    rewrite length_buf_get in Hnil; simpl in Hnil; lia.
Qed.

#[export] Instance circular_queue_laws : FdQueueLaws CircularPipe.
Proof.
  split; simpl.
  - intros p Hwf. pose proof (room_data p Hwf). pose proof (data_content p Hwf) as [? ?].
    unfold canPush, haveRoom. rewrite Z.ltb_lt. lia.
  - intros p Hwf. pose proof (data_content p Hwf) as [Hd _].
    unfold canPull, haveData. rewrite Z.ltb_lt, Hd. destruct (content p); simpl; [|naive_solver lia].
    split; [lia|done].
  - intros. pose proof (room_data p H). pose proof (data_content p H) as [? ?].
    eapply wp_push; eauto; [lia|]. intros p' n Hwf' Hs. intros.
    pose proof (data_content p' Hwf') as [? ?]. apply H4; auto; simpl in *; lia.
  - intros. pose proof (data_content p H) as [Hd ?].
    eapply wp_pull; eauto.
    + rewrite Hd. destruct (content p); simpl; [done|lia].
    + intros p' x Hwf' Hs. intros. apply H3; auto. by rewrite Hs.
Qed.

Lemma wp_CircularPipe_ctor isize (Q : CircularPipe -> world -> Prop) X w :
  0 < isize < 18446744073709551616 ->
  (forall c w', bad_status c -> X c w') ->
  (forall p, wf p -> cp_size p = isize -> content p = [] -> Q p (tick w)) ->
  wp (CircularPipe_ctor isize) Q X w.
Proof.
  intros Hs HX HQ. unfold CircularPipe_ctor, CHECK_NOT_NULL, malloc. wp_step.
  apply wp_syscall.
  - intros e. wp_step. by apply wp_check_not_null.
  - intros a. repeat wp_step. apply wp_check_not_null; [done|]. intros buf [= <-]. wp_step.
    apply HQ; [|done|done]. constructor; simpl; rewrite ?length_replicate; lia.
Qed.

(** select(2) through the wrapper leaves a non-empty part of what was added. *)
Lemma wp_doSelect s (Q : Selector -> world -> Prop) X w :
  (exists fd, fd ∈ rfds s ∪ wfds s) ->
  (forall fd, fd ∈ rfds s ∪ wfds s -> fd <= fd_max s) ->
  (forall c w', bad_status c -> X c w') ->
  (forall s', rfds s' ⊆ rfds s -> wfds s' ⊆ wfds s -> (exists fd, fd ∈ rfds s' ∪ wfds s') ->
     Q s' (tick w)) ->
  wp (doSelect s) Q X w.
Proof.
  intros [fd Hfd] Hmax HX HQ. unfold doSelect, sys_select. wp_step. apply wp_syscall.
  { intros e. repeat wp_step. by apply wp_check_not_m1. }
  intros a. cbv zeta.
  set (r := filter _ (rfds s)). set (q := filter _ (wfds s)).
  assert (r = rfds s /\ q = wfds s) as [Er Eq].
  { split; apply set_eq; intros x; unfold r, q; rewrite elem_of_filter;
      (split; [by intros [_ ?]|intros Hx; split; [|done]]);
      assert (x <= fd_max s) by (apply Hmax; clear -Hx; set_solver); lia. }
  rewrite Er, Eq. clear r q Er Eq.
  case_decide as Hno; [destruct Hno; set_solver|].
  set (r' := filter _ _). set (q' := filter _ _).
  case_decide as Hno'; repeat wp_step; (apply wp_check_not_m1; [done|]); intros _; repeat wp_step;
    apply HQ; simpl.
  - done.
  - done.
  - by exists fd.
  - unfold r'. intros x [_ ?]%elem_of_filter. done.
  - unfold q'. intros x [_ ?]%elem_of_filter. done.
  - destruct (decide (r' = ∅)) as [E|E]; [destruct (decide (q' = ∅)) as [E'|E']; [naive_solver|]|].
    + apply set_choose_L in E' as [x ?]. exists x. set_solver.
    + apply set_choose_L in E as [x ?]. exists x. set_solver.
Qed.

(** * What the class promises *)

(** C36: the accounting of the ring.  [data] is the number of bytes stored, [room]
    what is missing to the capacity of [size - 1] bytes; [canPull] and [canPush]
    say exactly that the ring is not empty and not full, and the unsigned
    subtractions never wrap. *)
Theorem ring_accounting (p : CircularPipe) :
  wf p ->
  data p = zlen (content p) /\
  cp_room p = cp_size p - 1 - zlen (content p) /\
  (canPull p = true <-> content p <> []) /\
  (canPush p = true <-> zlen (content p) < cp_size p - 1).
Proof.
  intros Hwf. pose proof (data_content p Hwf) as [Hd ?]. pose proof (room_data p Hwf).
  split_and!; [done|lia|exact (q_can_pull_spec p Hwf)|exact (q_can_push_spec p Hwf)].
Qed.

(** A client that pushes ([true]) and pulls ([false]) in any order, each only
    when the ring says it can. *)
Definition ring_op (fdin fdout : Z) (op : bool) (p : CircularPipe) : M CircularPipe :=
  if op then if canPush p then let! '(p', _) := push p fdin in pret p' else pret p
  else if canPull p then pull p fdout else pret p.

Fixpoint ring_ops (fdin fdout : Z) (ops : list bool) (p : CircularPipe) : M CircularPipe :=
  match ops with
  | [] => pret p
  | op :: ops' => let! p' := ring_op fdin fdout op p in ring_ops fdin fdout ops' p'
  end.

(** The bytes taken from the source are those written out and, in order, those
    still in the ring. *)
Definition ring_between (src : list byte) (fi fo : string) (fdin fdout : Z)
    (p : CircularPipe) (w : world) : Prop :=
  wf p /\ exists o out,
    file_at w fdin fi o true false src /\ 0 <= o <= zlen src /\
    file_at w fdout fo (zlen out) false true out /\
    out ++ content p = buf_get 0 o src.

Lemma wp_ring_op src fi fo fdin fdout op p w :
  fi <> fo -> fdin <> fdout ->
  ring_between src fi fo fdin fdout p w ->
  wp (ring_op fdin fdout op p) (ring_between src fi fo fdin fdout) (fun c _ => bad_status c) w.
Proof.
  intros Hne Hfd [Hwf (o & out & Hi & Ho & Hout & Hsum)].
  pose proof (data_content p Hwf) as [Hd ?].
  assert (ring_between src fi fo fdin fdout p w) as Hsame by (split; eauto 10).
  unfold ring_op. do 2 wp_step; try (by wp_step).
  - wp_step. eapply wp_push; [done|by apply Z.ltb_lt|done|done|done|].
    intros p' n Hwf' _ Hn Hon _ Hc. repeat wp_step. split; [done|]. exists (o + n), out.
    destruct Hi as [Hi1 Hi2], Hout as [Ho1 Ho2].
    split_and!; simpl; try done; try lia.
    + split; simpl; [by apply lookup_insert_eq|done].
    + split; simpl; [by rewrite lookup_insert_ne|done].
    + rewrite Hc, app_assoc, Hsum. by rewrite (buf_get_split 0) by lia.
  - eapply wp_pull; [done|by apply Z.ltb_lt|done|done|].
    intros p' x Hwf' _ _ Hc. split; [done|]. exists o, (out ++ x).
    destruct Hi as [Hi1 Hi2], Hout as [Ho1 Ho2].
    split_and!; simpl; try done; try lia.
    + split; simpl; [by rewrite lookup_insert_ne|by rewrite lookup_insert_ne].
    + split; simpl; by apply lookup_insert_eq.
    + by rewrite <- app_assoc, <- Hc.
Qed.

(** C9: the ring is a FIFO.  For every sequence of pushes and pulls between two
    different files, each made when canPush or canPull allows it, every way the
    kernel splits the reads and writes and every wrap-around of the positions,
    what was written to the output followed by what is in the ring is exactly
    what was read from the input, no access leaves the buffer, and a call that
    fails ends the program with a failing status. *)
Theorem ring_fifo (src : list byte) (fi fo : string) (fdin fdout : Z) (ops : list bool)
    (p : CircularPipe) (w : world) :
  fi <> fo -> fdin <> fdout ->
  ring_between src fi fo fdin fdout p w ->
  wp (ring_ops fdin fdout ops p) (ring_between src fi fo fdin fdout) (fun c _ => bad_status c) w.
Proof.
  intros Hne Hfd. revert p w. induction ops as [|op ops IH]; intros p w Hr; simpl; [by wp_step|].
  wp_step. eapply wp_mono; [by apply wp_ring_op| |done]. intros p' w' Hr'. by apply IH.
Qed.

(** A ring of size 0 (which [copy_file_select] and [copy_file_threads] make
    when asked for 0 pages) is not refused: it claims to have room, and [push]
    asks read(2) for 2^64 - 1 bytes, past the end of the buffer. *)
Theorem empty_ring_overruns (fd : Z) (w : world) :
  let p := mkCircularPipe 0 [] 0 0 in
  wp (CircularPipe_ctor 0) (fun q _ => q = p) (fun c _ => bad_status c) w /\
  canPush p = true /\ push p fd w = (Stuck, w).
Proof.
  split_and!; [|done|done]. unfold CircularPipe_ctor, CHECK_NOT_NULL, malloc. wp_step.
  apply wp_syscall.
  - intros e. wp_step. by apply wp_check_not_null.
  - intros a. repeat wp_step. apply wp_check_not_null; [done|]. intros buf [= <-]. by wp_step.
Qed.

Lemma my_max_max a b : my_max a b = Z.max a b.
Proof. unfold my_max. destruct (b <? a) eqn:E; zbool; lia. Qed.

Lemma add_reads (l : list Z) (s : Selector) :
  rfds (foldr addReadFd s l) = list_to_set l ∪ rfds s /\
  wfds (foldr addReadFd s l) = wfds s /\
  (forall fd, fd ∈ l \/ fd <= fd_max s -> fd <= fd_max (foldr addReadFd s l)).
Proof.
  induction l as [|x l (IH1 & IH2 & IH3)]; simpl; [set_solver|].
  rewrite IH1, IH2, my_max_max. split_and!; [set_solver|done|].
  intros fd [[->|Hl]%elem_of_cons|Hs]; [lia| |]; (etrans; [apply IH3; eauto|lia]).
Qed.

Lemma add_writes (l : list Z) (s : Selector) :
  wfds (foldr addWriteFd s l) = list_to_set l ∪ wfds s /\
  rfds (foldr addWriteFd s l) = rfds s /\
  (forall fd, fd ∈ l \/ fd <= fd_max s -> fd <= fd_max (foldr addWriteFd s l)).
Proof.
  induction l as [|x l (IH1 & IH2 & IH3)]; simpl; [set_solver|].
  rewrite IH1, IH2, my_max_max. split_and!; [set_solver|done|].
  intros fd [[->|Hl]%elem_of_cons|Hs]; [lia| |]; (etrans; [apply IH3; eauto|lia]).
Qed.

(** [Selector]: after [null], [addReadFd] and [addWriteFd], [doSelect] leaves
    active only descriptors that were added, at least one of them, and never
    blocks on an [nfds] that is too small. *)
Theorem selector_select (rs ws : list Z) (s : Selector) (w : world) :
  rs ++ ws <> [] ->
  wp (doSelect (foldr addReadFd (foldr addWriteFd (null s) ws) rs))
     (fun s' w' => w' = tick w /\
        (forall fd, isReadActive fd s' = true -> fd ∈ rs) /\
        (forall fd, isWriteActive fd s' = true -> fd ∈ ws) /\
        (exists fd, isReadActive fd s' = true \/ isWriteActive fd s' = true))
     (fun c _ => bad_status c) w.
Proof.
  intros Hne.
  destruct (add_writes ws (null s)) as (Hw1 & Hw2 & Hw3).
  destruct (add_reads rs (foldr addWriteFd (null s) ws)) as (Hr1 & Hr2 & Hr3).
  set (s1 := foldr addReadFd _ rs) in *.
  assert (rfds s1 = list_to_set rs /\ wfds s1 = list_to_set ws) as [Er Ew].
  { rewrite Hr1, Hr2, Hw1, Hw2. simpl. set_solver. }
  apply wp_doSelect; [..|done|].
  - rewrite Er, Ew. destruct (rs ++ ws) as [|x l] eqn:E; [done|]. exists x.
    assert (x ∈ rs ++ ws) by (rewrite E; left). set_solver.
  - rewrite Er, Ew. intros fd [?%elem_of_list_to_set|?%elem_of_list_to_set]%elem_of_union; auto.
  - rewrite Er, Ew. intros s' Hr' Hw' [fd Hfd]. unfold isReadActive, isWriteActive.
    setoid_rewrite bool_decide_eq_true. split_and!; [done|set_solver|set_solver|].
    exists fd. set_solver.
Qed.

(** A ring of eight bytes between two files, the data across its end. *)
Definition demo_ring : CircularPipe :=
  mkCircularPipe 8 (replicate 8 Byte.x61) 6 2.
Definition ring_world : world :=
  set_fds (<[3 := DFile "a" 4 true false]> (<[4 := DFile "b" 0 false true]> ∅))
    (world_of (fun _ => calm 3) (<["b" := []]> {["a" := replicate 20 Byte.x61]})).

Lemma demo_ring_wf : wf demo_ring.
Proof. constructor; simpl; lia. Qed.

Lemma ring_accounting_witness : data demo_ring = 4 /\ cp_room demo_ring = 8 - 1 - 4.
Proof.
  destruct (ring_accounting demo_ring demo_ring_wf) as (Hd & Hr & _). split; [exact Hd|exact Hr].
Defined.

Lemma ring_fifo_witness :
  wp (ring_ops 3 4 [true; false; true; false] demo_ring)
     (ring_between (replicate 20 Byte.x61) "a" "b" 3 4) (fun c _ => bad_status c) ring_world.
Proof.
  apply ring_fifo; [done|done|]. split; [apply demo_ring_wf|].
  exists 4, []. split_and!; try done; simpl; lia.
Defined.

Lemma selector_select_witness :
  wp (doSelect (foldr addReadFd (foldr addWriteFd (null (mkSelector ∅ ∅ 0)) [4]) [3]))
     (fun s' w' => w' = tick ring_world /\
        (forall fd, isReadActive fd s' = true -> fd ∈ [3]) /\
        (forall fd, isWriteActive fd s' = true -> fd ∈ [4]) /\
        (exists fd, isReadActive fd s' = true \/ isWriteActive fd s' = true))
     (fun c _ => bad_status c) ring_world.
Proof. apply (selector_select [3] [4] (mkSelector ∅ ∅ 0) ring_world). done. Defined.
