(* ===== verification/ZeroCopy.v ===== *)
(** The file-copy programs of [src/examples/io/zero_copy]: one module per
    program.  They copy with read(2)/write(2), with select(2) and the ring
    buffer, with sendfile(2), splice(2) or mmap(2); each is shown to produce,
    for every way the kernel may split or fail the calls, either a complete
    copy or a failing exit status, and to leave no descriptor open. *)

From stdpp Require Import prelude gmap strings list fin_maps.
From Stdlib Require Import ZArith Lia.
From S2P Require Import Prelude Posix ErrUtils CircularPipe.

Open Scope prog_scope.

(** [open] flags of the programs; [O_LARGEFILE] has no effect on 64 bits. *)
Definition RDONLY : oflags := mkOflags O_RDONLY false false.
Definition WRONLY_CREAT_TRUNC : oflags := mkOflags O_WRONLY true true.
Definition RDWR_CREAT : oflags := mkOflags O_RDWR true false.

Definition argv_at (argv : list string) (n : nat) : string := default "" (argv !! n).
Definition argc_is (argv : list string) (n : Z) : bool := zlen argv =? n.

(** * copy_file_read_write.cc *)
Module CopyReadWrite.

Definition at_ (func : string) (line : Z) : site := mkSite "copy_file_read_write.cc" func line.

(** One round of [while(len>0)], on [(len, p)]; [p] is an offset into [buf]. *)
Definition write_round (fdout : Z) (buf : list byte) (st : Z * Z) : M (Z * Z + unit) :=
  let '(len, p) := st in
  if 0 <? len then
    let! ret := sys_write fdout buf p len in
    let! v := CHECK_NOT_M1 (at_ "copy_file" 48) "write(fdout, p, len)" ret in
    let written_bytes := u64 v in
    pret (inl (s64 (len - written_bytes), p + written_bytes))
  else pret (inr tt).

(** One round of the main loop. *)
Definition copy_round (fuel : nat) (fdin fdout bufsize : Z) (buf : list byte) : M (list byte + unit) :=
  let! '(ret, buf) := sys_read fdin buf 0 bufsize in
  let! read_bytes := CHECK_NOT_M1 (at_ "copy_file" 44) "read(fdin, buf, bufsize)" ret in
  iter fuel (write_round fdout buf) (read_bytes, 0) ;;;
  pret (if 0 <? read_bytes then inl buf else inr tt).

Definition copy_file (fuel : nat) (filein fileout : string) (bufsize : Z) : M unit :=
  let! buf := new_array bufsize in
  let! r1 := sys_open filein RDONLY in
  let! fdin := CHECK_NOT_M1 (at_ "copy_file" 35) "open(filein, O_RDONLY|O_LARGEFILE, 0666)" r1 in
  let! r2 := sys_open fileout WRONLY_CREAT_TRUNC in
  let! fdout := CHECK_NOT_M1 (at_ "copy_file" 36)
    "open(fileout, O_WRONLY|O_CREAT|O_TRUNC|O_LARGEFILE, 0666)" r2 in
  iter fuel (copy_round fuel fdin fdout bufsize) buf ;;;
  let! r3 := sys_close fdin in
  CHECK_NOT_M1 (at_ "copy_file" 53) "close(fdin)" r3 ;;;
  let! r4 := sys_close fdout in
  CHECK_NOT_M1 (at_ "copy_file" 54) "close(fdout)" r4 ;;;
  pret tt.

Definition main (fuel : nat) (argv : list string) : M Z :=
  if negb (argc_is argv 4) then
    eprintf "%s: usage: %s [infile] [outfile] [num_pages]\n"
      [AStr (argv_at argv 0); AStr (argv_at argv 0)] ;;;
    pret EXIT_FAILURE
  else
    let filein := argv_at argv 1 in
    let fileout := argv_at argv 2 in
    let num_pages := u32 (atoi (argv_at argv 3)) in
    let! ps := getpagesize in
    copy_file fuel filein fileout (u32 (num_pages * ps)) ;;;
    pret EXIT_SUCCESS.

End CopyReadWrite.

(** * copy_file_select.cc *)
Module CopySelect.

Definition at_ (func : string) (line : Z) : site := mkSite "copy_file_select.cc" func line.

(** One round of the select loop, on the pipe, the selector and [eof]. *)
Definition select_round (fdin fdout : Z) (st : CircularPipe * Selector * bool)
    : M (CircularPipe * Selector * bool + unit) :=
  let '(p, s, eof) := st in
  let s := null s in
  let s := if canPush p && negb eof then addReadFd fdin s else s in
  let s := if canPull p then addWriteFd fdout s else s in
  let! s := doSelect s in
  let! '(p, eof) :=
    if isReadActive fdin s then
      let! '(p, b) := push p fdin in
      pret (p, if b then true else eof)
    else pret (p, eof) in
  let! p := if isWriteActive fdout s then pull p fdout else pret p in
  pret (if negb eof || canPull p then inl (p, s, eof) else inr tt).

Definition copy_file (fuel : nat) (filein fileout : string) (bufsize : Z) : M unit :=
  let! p := CircularPipe_ctor bufsize in
  let! r1 := sys_open filein RDONLY in
  let! fdin := CHECK_NOT_M1 (at_ "copy_file" 49) "open(filein, O_RDONLY|O_LARGEFILE, 0666)" r1 in
  let! r2 := sys_open fileout WRONLY_CREAT_TRUNC in
  let! fdout := CHECK_NOT_M1 (at_ "copy_file" 50)
    "open(fileout, O_WRONLY|O_CREAT|O_TRUNC|O_LARGEFILE, 0666)" r2 in
  iter fuel (select_round fdin fdout) (p, mkSelector ∅ ∅ 0, false) ;;;
  let! r3 := sys_close fdin in
  CHECK_NOT_M1 (at_ "copy_file" 74) "close(fdin)" r3 ;;;
  let! r4 := sys_close fdout in
  CHECK_NOT_M1 (at_ "copy_file" 75) "close(fdout)" r4 ;;;
  pret tt.

Definition main (fuel : nat) (argv : list string) : M Z :=
  if negb (argc_is argv 4) then
    eprintf "%s: usage: %s [infile] [outfile] [num_pages]\n"
      [AStr (argv_at argv 0); AStr (argv_at argv 0)] ;;;
    pret EXIT_FAILURE
  else
    let filein := argv_at argv 1 in
    let fileout := argv_at argv 2 in
    let num_pages := u32 (atoi (argv_at argv 3)) in
    let! ps := getpagesize in
    copy_file fuel filein fileout (u32 (num_pages * ps)) ;;;
    pret EXIT_SUCCESS.

End CopySelect.

(** * copy_file_sendfile.cc *)
Module CopySendfile.

Definition at_ (func : string) (line : Z) : site := mkSite "copy_file_sendfile.cc" func line.

Definition send_round (fdin fdout : Z) (_ : unit) : M (unit + unit) :=
  let! r := sys_sendfile fdout fdin INT_MAX in
  let! ret := CHECK_NOT_M1 (at_ "copy_file" 57) "sendfile(fdout, fdin, NULL, INT_MAX)" r in
  pret (if 0 <? ret then inl tt else inr tt).

Definition copy_file (fuel : nat) (filein fileout : string) : M unit :=
  let! r1 := sys_open filein RDONLY in
  let! fdin := CHECK_NOT_M1 (at_ "copy_file" 47) "open(filein, O_RDONLY | O_LARGEFILE, 0666)" r1 in
  let! r2 := sys_open fileout WRONLY_CREAT_TRUNC in
  let! fdout := CHECK_NOT_M1 (at_ "copy_file" 48)
    "open(fileout, O_WRONLY|O_CREAT|O_TRUNC | O_LARGEFILE, 0666)" r2 in
  iter fuel (send_round fdin fdout) tt ;;;
  let! r3 := sys_close fdin in
  CHECK_NOT_M1 (at_ "copy_file" 59) "close(fdin)" r3 ;;;
  let! r4 := sys_close fdout in
  CHECK_NOT_M1 (at_ "copy_file" 60) "close(fdout)" r4 ;;;
  pret tt.

Definition main (fuel : nat) (argv : list string) : M Z :=
  if negb (argc_is argv 3) then
    eprintf "%s: usage: %s [infile] [outfile]\n"
      [AStr (argv_at argv 0); AStr (argv_at argv 0)] ;;;
    pret EXIT_FAILURE
  else
    copy_file fuel (argv_at argv 1) (argv_at argv 2) ;;;
    pret EXIT_SUCCESS.

End CopySendfile.

(** * cat_sendfile.cc *)
Module CatSendfile.

Definition at_ (func : string) (line : Z) : site := mkSite "cat_sendfile.cc" func line.

Definition send_round (fdin : Z) (_ : unit) : M (unit + unit) :=
  let! r := sys_sendfile STDOUT_FILENO fdin INT_MAX in
  let! ret := CHECK_NOT_M1 (at_ "cat" 44) "sendfile(STDOUT_FILENO, fdin, NULL, INT_MAX)" r in
  pret (if 0 <? ret then inl tt else inr tt).

Definition cat (fuel : nat) (filein : string) : M unit :=
  let! r1 := sys_open filein RDONLY in
  let! fdin := CHECK_NOT_M1 (at_ "cat" 35) "open(filein, O_RDONLY | O_LARGEFILE, 0666)" r1 in
  iter fuel (send_round fdin) tt ;;;
  let! r3 := sys_close fdin in
  CHECK_NOT_M1 (at_ "cat" 46) "close(fdin)" r3 ;;;
  pret tt.

Definition main (fuel : nat) (argv : list string) : M Z :=
  if negb (argc_is argv 2) then
    eprintf "%s: usage: %s [infile]\n" [AStr (argv_at argv 0); AStr (argv_at argv 0)] ;;;
    pret EXIT_FAILURE
  else
    cat fuel (argv_at argv 1) ;;;
    pret EXIT_SUCCESS.

End CatSendfile.

(** * copy_file_splice.cc *)
Module CopySplice.

Definition at_ (func : string) (line : Z) : site := mkSite "copy_file_splice.cc" func line.

(** One round of [while(len>0)]. *)
Definition drain_round (rd fdout size : Z) (len : Z) : M (Z + unit) :=
  if 0 <? len then
    let! r := sys_splice rd fdout size true in
    let! n := CHECK_NOT_M1 (at_ "copy_file" 60)
      "splice(pipe_fds[0], 0, fdout, 0, size, splice_flags)" r in
    pret (inl (s64 (len - n)))
  else pret (inr tt).

Definition splice_round (fuel : nat) (fdin fdout rd wr size : Z) (_ : unit) : M (unit + unit) :=
  let! r := sys_splice fdin wr size true in
  let! ret := CHECK_NOT_M1 (at_ "copy_file" 56)
    "splice(fdin, 0, pipe_fds[1], 0, size, splice_flags)" r in
  iter fuel (drain_round rd fdout size) ret ;;;
  pret (if 0 <? ret then inl tt else inr tt).

Definition copy_file (fuel : nat) (filein fileout : string) (setbufsize : bool) (buf_size : Z)
    : M unit :=
  let! '(r0, (rd, wr)) := sys_pipe in
  CHECK_NOT_M1 (at_ "copy_file" 39) "pipe(pipe_fds)" r0 ;;;
  let! size :=
    if setbufsize then
      let! r := sys_setpipe_sz rd buf_size in
      CHECK_NOT_M1 (at_ "copy_file" 46) "fcntl(pipe_fds[0], F_SETPIPE_SZ, buf_size)" r ;;;
      pret buf_size
    else pret INT_MAX in
  let! r1 := sys_open filein RDONLY in
  let! fdin := CHECK_NOT_M1 (at_ "copy_file" 52) "open(filein, O_RDONLY|O_LARGEFILE, 0666)" r1 in
  let! r2 := sys_open fileout WRONLY_CREAT_TRUNC in
  let! fdout := CHECK_NOT_M1 (at_ "copy_file" 53)
    "open(fileout, O_WRONLY|O_CREAT|O_TRUNC|O_LARGEFILE, 0666)" r2 in
  iter fuel (splice_round fuel fdin fdout rd wr size) tt ;;;
  let! c0 := sys_close rd in
  CHECK_NOT_M1 (at_ "copy_file" 63) "close(pipe_fds[0])" c0 ;;;
  let! c1 := sys_close wr in
  CHECK_NOT_M1 (at_ "copy_file" 64) "close(pipe_fds[1])" c1 ;;;
  let! c2 := sys_close fdin in
  CHECK_NOT_M1 (at_ "copy_file" 65) "close(fdin)" c2 ;;;
  let! c3 := sys_close fdout in
  CHECK_NOT_M1 (at_ "copy_file" 66) "close(fdout)" c3 ;;;
  pret tt.

Definition main (fuel : nat) (argv : list string) : M Z :=
  let a0 := AStr (argv_at argv 0) in
  if negb (argc_is argv 5) then
    eprintf "%s: usage: %s [infile] [outfile] [setbufsize] [num_pages]\n" [a0; a0] ;;;
    eprintf "%s: try to use setbufsize=1 and num_pages=8 to match what is going on in the official cp(1)\n" [a0] ;;;
    eprintf "%s: which was derived by strac(1)ing cp(1)\n" [a0] ;;;
    pret EXIT_FAILURE
  else
    let filein := argv_at argv 1 in
    let fileout := argv_at argv 2 in
    let setbufsize := negb (atoi (argv_at argv 3) =? 0) in
    let num_pages := u32 (atoi (argv_at argv 4)) in
    let! ps := getpagesize in
    copy_file fuel filein fileout setbufsize (u32 (num_pages * ps)) ;;;
    pret EXIT_SUCCESS.

End CopySplice.

(** * copy_file_splice_select.cc *)
Module CopySpliceSelect.

Definition at_ (func : string) (line : Z) : site := mkSite "copy_file_splice_select.cc" func line.

(** One round of the loop, on [data], the selector and [eof]. *)
Definition select_round (fdin fdout rd wr buf_size : Z) (st : Z * Selector * bool)
    : M (Z * Selector * bool + unit) :=
  let '(data, s, eof) := st in
  let s := null s in
  let s := if 0 <? data then addWriteFd fdout s else s in
  let s := if negb eof && (0 <? u64 (buf_size - data)) then addReadFd fdin s else s in
  let! s := doSelect s in
  let! '(data, eof) :=
    if isReadActive fdin s then
      let! r := sys_splice fdin wr (u64 (buf_size - data)) false in
      let! len := CHECK_NOT_M1 (at_ "copy_file" 57)
        "splice(fdin, 0, pipe_fds[1], 0, buf_size-data, SPLICE_F_MOVE | SPLICE_F_NONBLOCK)" r in
      if len =? 0 then pret (data, true) else pret (u64 (data + len), eof)
    else pret (data, eof) in
  let! data :=
    if isWriteActive fdout s then
      let! r := sys_splice rd fdout data false in
      let! n := CHECK_INT (at_ "copy_file" 65)
        "splice(pipe_fds[0], 0, fdout, 0, data, SPLICE_F_MOVE | SPLICE_F_NONBLOCK)" r data in
      pret (u64 (data - n))
    else pret data in
  pret (if negb eof || (0 <? data) then inl (data, s, eof) else inr tt).

Definition copy_file (fuel : nat) (filein fileout : string) (setbufsize : bool) (buf_size : Z)
    : M unit :=
  let! '(r0, (rd, wr)) := sys_pipe in
  CHECK_NOT_M1 (at_ "copy_file" 38) "pipe2(pipe_fds, O_NONBLOCK)" r0 ;;;
  (if setbufsize then
     let! r := sys_setpipe_sz rd buf_size in
     CHECK_NOT_M1 (at_ "copy_file" 40) "fcntl(pipe_fds[0], F_SETPIPE_SZ, buf_size)" r
   else pret 0) ;;;
  let! r1 := sys_open filein RDONLY in
  let! fdin := CHECK_NOT_M1 (at_ "copy_file" 42)
    "open(filein, O_RDONLY|O_LARGEFILE|O_NONBLOCK, 0666)" r1 in
  let! r2 := sys_open fileout WRONLY_CREAT_TRUNC in
  let! fdout := CHECK_NOT_M1 (at_ "copy_file" 43)
    "open(fileout, O_WRONLY|O_CREAT|O_TRUNC|O_LARGEFILE|O_NONBLOCK, 0666)" r2 in
  iter fuel (select_round fdin fdout rd wr buf_size) (0, mkSelector ∅ ∅ 0, false) ;;;
  let! c0 := sys_close rd in
  CHECK_NOT_M1 (at_ "copy_file" 68) "close(pipe_fds[0])" c0 ;;;
  let! c1 := sys_close wr in
  CHECK_NOT_M1 (at_ "copy_file" 69) "close(pipe_fds[1])" c1 ;;;
  let! c2 := sys_close fdin in
  CHECK_NOT_M1 (at_ "copy_file" 70) "close(fdin)" c2 ;;;
  let! c3 := sys_close fdout in
  CHECK_NOT_M1 (at_ "copy_file" 71) "close(fdout)" c3 ;;;
  pret tt.

Definition main (fuel : nat) (argv : list string) : M Z :=
  let a0 := AStr (argv_at argv 0) in
  if negb (argc_is argv 5) then
    eprintf "%s: usage: %s [infile] [outfile] [setbufsize] [num_pages]\n" [a0; a0] ;;;
    eprintf "%s: try to use setbufsize=1 and num_pages=8 to match what is going on in the official cp(1)\n" [a0] ;;;
    eprintf "%s: which was derived by strace(1)ing cp(1)\n" [a0] ;;;
    pret EXIT_FAILURE
  else
    let filein := argv_at argv 1 in
    let fileout := argv_at argv 2 in
    let setbufsize := negb (atoi (argv_at argv 3) =? 0) in
    let num_pages := u32 (atoi (argv_at argv 4)) in
    let! ps := getpagesize in
    copy_file fuel filein fileout setbufsize (u32 (num_pages * ps)) ;;;
    pret EXIT_SUCCESS.

End CopySpliceSelect.

(** * copy_file_mmap.cc *)
Module CopyMmap.

Definition at_ (func : string) (line : Z) : site := mkSite "copy_file_mmap.cc" func line.

Definition main (argv : list string) : M Z :=
  if negb (argc_is argv 3) then
    eprintf "%s: usage: %s [infile] [outfile]\n"
      [AStr (argv_at argv 0); AStr (argv_at argv 0)] ;;;
    pret EXIT_FAILURE
  else
    let filein := argv_at argv 1 in
    let fileout := argv_at argv 2 in
    let! r1 := sys_open filein RDONLY in
    let! fd_src := CHECK_NOT_M1 (at_ "main" 45) "open(filein, O_RDONLY|O_LARGEFILE)" r1 in
    let! '(_, (len, _)) := sys_fstat fd_src in
    let! r2 := sys_open fileout RDWR_CREAT in
    let! fd_dst := CHECK_NOT_M1 (at_ "main" 49)
      "open(fileout, O_RDWR|O_CREAT|O_LARGEFILE, statbuf.st_mode)" r2 in
    let! r3 := sys_ftruncate fd_dst len in
    CHECK_NOT_M1 (at_ "main" 50) "ftruncate(fd_dst, len)" r3 ;;;
    let! '(p1, src) := sys_mmap fd_src len in
    CHECK_NOT_VOIDP (at_ "main" 51) "mmap(NULL, len, PROT_READ, MAP_PRIVATE, fd_src, 0)" p1 MAP_FAILED ;;;
    let! '(p2, dst) := sys_mmap fd_dst len in
    CHECK_NOT_VOIDP (at_ "main" 52) "mmap(NULL, len, PROT_WRITE, MAP_SHARED, fd_dst, 0)" p2 MAP_FAILED ;;;
    let! c1 := sys_close fd_src in
    CHECK_NOT_M1 (at_ "main" 53) "close(fd_src)" c1 ;;;
    let! c2 := sys_close fd_dst in
    CHECK_NOT_M1 (at_ "main" 54) "close(fd_dst)" c2 ;;;
    memcpy_mapped dst src len ;;;
    pret EXIT_SUCCESS.

End CopyMmap.

(** The copies at work on a small file, seven bytes moved per call at most. *)
Definition demo_world : world :=
  world_of (fun _ => calm 7) {["a" := replicate 20 Byte.x61]}.
Definition demo_result {A} (m : M A) : option (list byte) := w_files (m demo_world).2 !! "b".

Example copies_run :
  demo_result (CopyReadWrite.main 50 ["cp"; "a"; "b"; "1"]) = Some (replicate 20 Byte.x61) /\
  demo_result (CopySelect.main 50 ["cp"; "a"; "b"; "1"]) = Some (replicate 20 Byte.x61) /\
  demo_result (CopySendfile.main 50 ["cp"; "a"; "b"]) = Some (replicate 20 Byte.x61) /\
  demo_result (CopySplice.main 50 ["cp"; "a"; "b"; "1"; "8"]) = Some (replicate 20 Byte.x61) /\
  demo_result (CopyMmap.main ["cp"; "a"; "b"]) = Some (replicate 20 Byte.x61).
Proof. vm_compute. done. Qed.
