(* ===== verification/ZeroCopyProofs.v ===== *)
(** Correctness of the copy programs of [ZeroCopy]: invariants of the copy
    loops, and for every program that a successful exit status means a complete
    copy, whatever the kernel does. *)

From stdpp Require Import prelude gmap strings list fin_maps.
From Stdlib Require Import ZArith Lia.
From S2P Require Import Prelude Posix ErrUtils CircularPipe ZeroCopy.

Open Scope prog_scope.

(** * Opening and closing *)

(** The descriptor table: everything from [w_next] on is free, and descriptors
    are far from the end of the [int] range. *)
Definition fds_below (bound : Z) (w : world) : Prop :=
  (forall fd, w_next w <= fd -> w_fds w !! fd = None) /\ 0 <= w_next w < bound.
Definition world_ok : world -> Prop := fds_below 1000000.

Lemma world_ok_below w : world_ok w -> fds_below 2000000 w.
Proof. intros [? ?]. split; [done|lia]. Qed.

Create HintDb posix.
#[export] Hint Resolve world_ok_below : posix.

Lemma wp_open_read path d (Q : Z -> world -> Prop) X w :
  w_files w !! path = Some d ->
  (forall e, Q (-1) (set_errno e (tick w))) ->
  Q (w_next w) (set_fds (<[w_next w := DFile path 0 true false]> (w_fds w))
                 (set_next (w_next w + 1) (tick w))) ->
  wp (sys_open path RDONLY) Q X w.
Proof.
  intros Hp Hbad Hok. apply wp_syscall; [done|]. intros a. do 2 wp_step.
  simpl. rewrite Hp. unfold new_fd. repeat wp_step. done.
Qed.

Lemma wp_open_trunc path (Q : Z -> world -> Prop) X w :
  (forall e, Q (-1) (set_errno e (tick w))) ->
  Q (w_next w) (set_fds (<[w_next w := DFile path 0 false true]> (w_fds w))
                 (set_next (w_next w + 1) (set_files (<[path := []]> (w_files w)) (tick w)))) ->
  wp (sys_open path WRONLY_CREAT_TRUNC) Q X w.
Proof.
  intros Hbad Hok. apply wp_syscall; [done|]. intros a. do 2 wp_step. simpl. unfold new_fd.
  destruct (w_files w !! path); repeat wp_step; done.
Qed.

Lemma wp_close fd d (Q : Z -> world -> Prop) X w :
  w_fds w !! fd = Some d ->
  (forall e, Q (-1) (set_errno e (tick w))) ->
  Q 0 (set_fds (delete fd (w_fds w)) (tick w)) ->
  wp (sys_close fd) Q X w.
Proof.
  intros Hd Hbad Hok. apply wp_syscall; [done|]. intros a. do 2 wp_step. simpl. rewrite Hd.
  repeat wp_step. done.
Qed.

(** * Copying from one file to another *)

(** In [w] a copy from [fi] to [fo] that began in [w0] has consumed [o] bytes of
    the source [src] and written [out]. *)
Record copying (w0 w : world) (fi fo : string) (fdin fdout : Z)
    (src : list byte) (o : Z) (out : list byte) : Prop := {
  cy_in : w_fds w !! fdin = Some (DFile fi o true false);
  cy_out : w_fds w !! fdout = Some (DFile fo (zlen out) false true);
  cy_files : w_files w = <[fo := out]> (w_files w0);
  cy_src : w_files w0 !! fi = Some src;
  cy_off : 0 <= o <= zlen src;
  cy_ne : fi <> fo;
  cy_fd : fdin <> fdout;
  cy_rest fd : fd <> fdin -> fd <> fdout -> w_fds w !! fd = w_fds w0 !! fd;
}.

Section copying.
Context {w0 w : world} {fi fo : string} {fdin fdout : Z} {src : list byte} {o : Z} {out : list byte}.
Hypothesis (Hc : copying w0 w fi fo fdin fdout src o out).

Lemma copying_file_in : file_at w fdin fi o true false src.
Proof. destruct Hc. split; [done|]. rewrite cy_files0. by rewrite lookup_insert_ne. Qed.

Lemma copying_file_out : file_at w fdout fo (zlen out) false true out.
Proof. destruct Hc. split; [done|]. rewrite cy_files0. by apply lookup_insert_eq. Qed.

Lemma copying_same w' :
  w_fds w' = w_fds w -> w_files w' = w_files w ->
  copying w0 w' fi fo fdin fdout src o out.
Proof. intros Hf Hs. destruct Hc. constructor; rewrite ?Hf, ?Hs; eauto. Qed.

Lemma copying_read w' n :
  w_fds w' = <[fdin := DFile fi (o + n) true false]> (w_fds w) -> w_files w' = w_files w ->
  0 <= n -> o + n <= zlen src ->
  copying w0 w' fi fo fdin fdout src (o + n) out.
Proof.
  intros Hf Hs Hn Ho. destruct Hc. constructor; rewrite ?Hf, ?Hs; try done.
  - by apply lookup_insert_eq.
  - by rewrite lookup_insert_ne.
  - lia.
  - intros. rewrite lookup_insert_ne by done. eauto.
Qed.

Lemma copying_write w' x :
  w_fds w' = <[fdout := DFile fo (zlen (out ++ x)) false true]> (w_fds w) ->
  w_files w' = <[fo := out ++ x]> (w_files w) ->
  copying w0 w' fi fo fdin fdout src o (out ++ x).
Proof.
  intros Hf Hs. destruct Hc. constructor; rewrite ?Hf, ?Hs; try done.
  - by rewrite lookup_insert_ne.
  - by apply lookup_insert_eq.
  - rewrite cy_files0. by rewrite insert_insert_eq.
  - intros. rewrite lookup_insert_ne by done. eauto.
Qed.
End copying.

(** The common beginning: open both files. *)
Lemma wp_open_both s1 t1 s2 t2 {A} (k : Z -> Z -> M A) fi fo src Q X w :
  fds_below 2000000 w -> w_files w !! fi = Some src -> fi <> fo ->
  (forall c w', bad_status c -> X c w') ->
  (forall fdin fdout w', copying w w' fi fo fdin fdout src 0 [] ->
     w_fds w !! fdin = None -> w_fds w !! fdout = None -> w_pipes w' = w_pipes w ->
     wp (k fdin fdout) Q X w') ->
  wp (let! r1 := sys_open fi RDONLY in
      let! fdin := CHECK_NOT_M1 s1 t1 r1 in
      let! r2 := sys_open fo WRONLY_CREAT_TRUNC in
      let! fdout := CHECK_NOT_M1 s2 t2 r2 in
      k fdin fdout) Q X w.
Proof.
  intros [Hfree Hnext] Hsrc Hne HX Hk.
  wp_step. apply (wp_open_read _ src); [done|intros; wp_step; by apply wp_check_not_m1|].
  wp_step. apply wp_check_not_m1; [done|]. intros _. cint.
  wp_step. apply wp_open_trunc; [intros; wp_step; by apply wp_check_not_m1|].
  wp_step. apply wp_check_not_m1; [done|]. intros _. simpl. cint.
  apply Hk; try (apply Hfree; lia); [|done].
  constructor; simpl; try done; try lia.
  - rewrite lookup_insert_ne by lia. by apply lookup_insert_eq.
  - by apply lookup_insert_eq.
  - intros. by rewrite !lookup_insert_ne by done.
Qed.

(** The common end: close both files. *)
Lemma wp_close_both s1 t1 s2 t2 fi fo fdin fdout src o out (Q : unit -> world -> Prop) X w0 w :
  copying w0 w fi fo fdin fdout src o out ->
  w_fds w0 !! fdin = None -> w_fds w0 !! fdout = None ->
  (forall c w', bad_status c -> X c w') ->
  (forall w', w_files w' = <[fo := out]> (w_files w0) -> w_fds w' = w_fds w0 -> Q tt w') ->
  wp (let! r3 := sys_close fdin in
      CHECK_NOT_M1 s1 t1 r3 ;;;
      let! r4 := sys_close fdout in
      CHECK_NOT_M1 s2 t2 r4 ;;;
      pret tt) Q X w.
Proof.
  intros [] Hi Ho HX HQ.
  wp_step. eapply wp_close; [done|intros; wp_step; by apply wp_check_not_m1|].
  wp_step. apply wp_check_not_m1; [done|]. intros _.
  wp_step. eapply wp_close;
    [by simpl; rewrite lookup_delete_ne|intros; wp_step; by apply wp_check_not_m1|].
  wp_step. apply wp_check_not_m1; [done|]. intros _. wp_step.
  apply HQ; [done|]. simpl. apply map_eq. intros fd.
  destruct (decide (fd = fdout)) as [->|]; [by rewrite lookup_delete_eq|].
  rewrite lookup_delete_ne by done.
  destruct (decide (fd = fdin)) as [->|]; [by rewrite lookup_delete_eq|].
  rewrite lookup_delete_ne by done. auto.
Qed.

(** A failed call: the check turns it into a failing exit status. *)
Ltac call_fails := intros; repeat wp_step; by apply wp_check_not_m1.

(** After a call that succeeded: pass the check. *)
Ltac pass_check := wp_step; apply wp_check_not_m1; [done|]; intros _; cint.

Lemma buf_get_next o n (l : list byte) :
  0 <= o -> 0 <= n -> buf_get 0 o l ++ buf_get o n l = buf_get 0 (o + n) l.
Proof. intros. by rewrite (buf_get_split 0) by lia. Qed.

(** * copy_file_read_write *)

Section read_write.
Context (w0 : world) (fi fo : string) (fdin fdout : Z) (src : list byte).
Context (X : Z -> world -> Prop) (HX : forall c w', bad_status c -> X c w').

(** The inner loop writes everything that was read. *)
Lemma wp_write_all buf rb o out fuel (Q : unit -> world -> Prop) w :
  copying w0 w fi fo fdin fdout src o out ->
  0 <= rb <= zlen buf -> rb <= MAX_RW_COUNT ->
  (Z.to_nat rb < fuel)%nat ->
  (forall w', copying w0 w' fi fo fdin fdout src o (out ++ buf_get 0 rb buf) -> Q tt w') ->
  wp (iter fuel (CopyReadWrite.write_round fdout buf) (rb, 0)) Q X w.
Proof.
  intros Hc Hrb Hmax Hfuel HQ. unfold MAX_RW_COUNT in *.
  apply (wp_iter
    (fun '(len, p) w => 0 <= len /\ 0 <= p /\ len + p = rb /\
       copying w0 w fi fo fdin fdout src o (out ++ buf_get 0 p buf))
    (fun '(len, _) _ => Z.to_nat len)); [|split_and!; try lia; by rewrite app_nil_r|lia].
  intros [len p] s (Hl & Hp & Hsum & Hcs). unfold CopyReadWrite.write_round.
  wp_step; zbool.
  - wp_step. apply (wp_write_file _ _ _ _ _ _ _ _ _ _ (copying_file_out Hcs)); try lia; [call_fails|].
    unfold MAX_RW_COUNT. intros n Hn Hm Hpos. pass_check. repeat wp_step.
    split_and!; try lia. rewrite <- buf_get_next, app_assoc by lia.
    by apply (copying_write Hcs).
  - wp_step. apply HQ. by replace rb with p by lia.
Qed.

(** One round of the outer loop moves a piece of the source, or finds its end. *)
Lemma wp_copy_loop bufsize buf fuel (Q : unit -> world -> Prop) w :
  copying w0 w fi fo fdin fdout src 0 [] ->
  0 < bufsize -> zlen buf = bufsize ->
  (length src < fuel)%nat ->
  (forall w', copying w0 w' fi fo fdin fdout src (zlen src) src -> Q tt w') ->
  wp (iter fuel (CopyReadWrite.copy_round fuel fdin fdout bufsize) buf) Q X w.
Proof.
  intros Hc Hb Hlen Hfuel HQ.
  apply (wp_iter
    (fun buf w => zlen buf = bufsize /\
       exists o, copying w0 w fi fo fdin fdout src o (buf_get 0 o src))
    (fun _ w => match w_fds w !! fdin with
                | Some (DFile _ o _ _) => Z.to_nat (zlen src - o) | _ => 0%nat end));
    [|split; [done|by exists 0]|rewrite (cy_in _ _ _ _ _ _ _ _ _ Hc); lia].
  clear Hc buf Hlen. intros buf s (Hlen & o & Hc). pose proof (cy_off _ _ _ _ _ _ _ _ _ Hc).
  unfold CopyReadWrite.copy_round. wp_step.
  apply (wp_read_file _ _ _ _ _ _ _ _ _ _ _ (copying_file_in Hc)); try lia; [call_fails|].
  unfold MAX_RW_COUNT. intros n Hn Hm Hpos. pass_check. wp_step.
  assert (zlen (buf_get o n src) = n) as Hg by (rewrite length_buf_get; lia).
  apply (wp_write_all _ _ (o + n) (buf_get 0 o src)).
  - apply (copying_read Hc); simpl; done || lia.
  - rewrite length_buf_put; lia.
  - unfold MAX_RW_COUNT. lia.
  - lia.
  - intros w'. rewrite <- Hg at 2. rewrite buf_get_put_eq, buf_get_next by lia. intros Hc'.
    wp_step. rewrite (cy_in _ _ _ _ _ _ _ _ _ Hc), (cy_in _ _ _ _ _ _ _ _ _ Hc').
    destruct (0 <? n) eqn:E; zbool.
    + split; [|lia]. rewrite length_buf_put by lia. eauto.
    + apply HQ. replace (o + n) with (zlen src) in Hc' by lia. by rewrite buf_get_all in Hc'.
Qed.
End read_write.

Lemma wp_copy_read_write fuel fi fo bufsize src (Q : unit -> world -> Prop) X w :
  world_ok w -> w_files w !! fi = Some src -> fi <> fo ->
  0 < bufsize -> (length src < fuel)%nat ->
  (forall c w', bad_status c -> X c w') ->
  (forall w', w_files w' = <[fo := src]> (w_files w) -> w_fds w' = w_fds w -> Q tt w') ->
  wp (CopyReadWrite.copy_file fuel fi fo bufsize) Q X w.
Proof.
  intros Hok Hsrc Hne Hb Hfuel HX HQ. unfold CopyReadWrite.copy_file, new_array.
  wp_step. wp_step. unfold wp at 1, next_answer. cbv iota beta.
  set (buf := replicate _ _).
  apply wp_ret. apply (wp_open_both _ _ _ _ _ fi fo src); try done; [by apply world_ok_below|].
  intros fdin fdout w' Hc Hi Ho _. wp_step.
  eapply wp_copy_loop; eauto.
  - unfold buf. rewrite length_replicate. lia.
  - intros w2 Hc2. eapply wp_close_both; eauto.
Qed.

(** * copy_file_select, against the interface of its buffer *)

Section select_copy.
Context {P : Type} `{FdQueueLaws P}.
Context (w0 : world) (fi fo : string) (fdin fdout : Z) (src : list byte).
Context (X : Z -> world -> Prop) (HX : forall c w', bad_status c -> X c w').

(** The round of the program with any buffer in place of [CircularPipe]. *)
Definition queue_round (st : P * Selector * bool) : M (P * Selector * bool + unit) :=
  let '(p, s, eof) := st in
  let s := null s in
  let s := if q_can_push p && negb eof then addReadFd fdin s else s in
  let s := if q_can_pull p then addWriteFd fdout s else s in
  let! s := doSelect s in
  let! '(p, eof) :=
    if isReadActive fdin s then
      let! '(p, b) := q_push p fdin in
      pret (p, if b then true else eof)
    else pret (p, eof) in
  let! p := if isWriteActive fdout s then q_pull p fdout else pret p in
  pret (if negb eof || q_can_pull p then inl (p, s, eof) else inr tt).

(** Written plus buffered is exactly what was read so far. *)
Definition round_inv (cap : Z) (st : P * Selector * bool) (w : world) : Prop :=
  let '(p, _, eof) := st in
  q_wf p /\ q_cap p = cap /\ zlen (q_content p) <= cap /\
  exists o out, copying w0 w fi fo fdin fdout src o out /\
    out ++ q_content p = buf_get 0 o src /\
    (eof = true -> o = zlen src).

Definition round_measure (st : P * Selector * bool) (w : world) : nat :=
  let '(p, _, eof) := st in
  match w_fds w !! fdin with
  | Some (DFile _ o _ _) =>
      (2 * Z.to_nat (zlen src - o) + length (q_content p) + if eof then 0 else 1)%nat
  | _ => 0%nat
  end.

Lemma q_can_pull_false p : q_wf p -> q_can_pull p = false -> q_content p = [].
Proof.
  intros Hwf Hf. destruct (q_content p) eqn:E; [done|].
  rewrite (proj2 (q_can_pull_spec p Hwf)) in Hf; congruence.
Qed.

(** What the loop asks select(2) for is never empty. *)
Lemma round_request cap p (eof : bool) s :
  q_wf p -> q_cap p = cap -> 0 < cap -> (eof = true -> q_content p <> []) ->
  let s := null s in
  let s := if q_can_push p && negb eof then addReadFd fdin s else s in
  let s := if q_can_pull p then addWriteFd fdout s else s in
  (exists fd, fd ∈ rfds s ∪ wfds s) /\ (forall fd, fd ∈ rfds s ∪ wfds s -> fd <= fd_max s) /\
  (forall fd, fd ∈ rfds s -> fd = fdin /\ zlen (q_content p) < cap /\ eof = false) /\
  (forall fd, fd ∈ wfds s -> fd = fdout /\ q_content p <> []).
Proof.
  intros Hwf Hcap Hpos Heof. cbv zeta.
  assert (q_can_pull p = false -> eof = false /\ zlen (q_content p) < q_cap p) as Hpull.
  { intros E. apply q_can_pull_false in E; [|done]. rewrite E.
    split; [destruct eof; [naive_solver|done]|simpl; lia]. }
  pose proof (q_can_push_spec p Hwf) as Hps. pose proof (q_can_pull_spec p Hwf) as Hpl.
  destruct (q_can_pull p) eqn:E1.
  - assert (q_content p <> []) by (by apply Hpl).
    destruct (q_can_push p && negb eof) eqn:E2; zbool; simpl; unfold my_max.
    + apply Hps in H2. split_and!; [exists fdin; set_solver| | set_solver | set_solver].
      intros fd Hfd. repeat case_match; zbool; set_unfold; lia.
    + split_and!; [exists fdout; set_solver| |set_solver|set_solver].
      intros fd Hfd. repeat case_match; zbool; set_unfold; lia.
  - destruct (Hpull eq_refl) as [-> Hlt].
    rewrite (proj2 Hps Hlt). simpl. unfold my_max.
    split_and!; [exists fdin; set_solver| |set_solver|set_solver].
    intros fd Hfd. repeat case_match; zbool; set_unfold; lia.
Qed.

(** The read half of a round: [n] more bytes are in the queue. *)
Definition read_half (cap o : Z) (out : list byte) (p : P) (eof active : bool)
    (r : P * bool) (w' : world) : Prop :=
  exists n, 0 <= n /\ q_wf r.1 /\ q_cap r.1 = cap /\ zlen (q_content r.1) <= cap /\
    q_content r.1 = q_content p ++ buf_get o n src /\
    copying w0 w' fi fo fdin fdout src (o + n) out /\
    (r.2 = true -> o + n = zlen src) /\
    (if active then eof = false /\ (n = 0 -> r.2 = true) else n = 0 /\ r.2 = eof).

Lemma wp_read_half cap o out p (eof : bool) s w :
  q_wf p -> q_cap p = cap -> zlen (q_content p) <= cap ->
  copying w0 w fi fo fdin fdout src o out ->
  (eof = true -> o = zlen src) ->
  (fdin ∈ rfds s -> zlen (q_content p) < cap /\ eof = false) ->
  wp (if isReadActive fdin s then
        let! '(p, b) := q_push p fdin in pret (p, if b then true else eof)
      else pret (p, eof))
    (read_half cap o out p eof (isReadActive fdin s)) X w.
Proof.
  intros Hwf Hc Hlen Hcy Heof Hr. pose proof (cy_off _ _ _ _ _ _ _ _ _ Hcy) as Ho.
  unfold isReadActive. case_bool_decide as Hin.
  - destruct (Hr Hin) as [Hroom ->].
    wp_step. eapply q_push_spec; [done|lia|exact (copying_file_in Hcy)|lia|done|].
    intros p' n Hwf' Hcap' Hn Hon Hz Hfull Hcont'. repeat wp_step.
    exists n. simpl in *. split_and!; try done || lia.
    + apply (copying_read Hcy); simpl; done || lia.
    + destruct (n =? 0) eqn:E; zbool; [lia|done].
    + by intros ->.
  - wp_step. exists 0. simpl. rewrite Z.add_0_r, buf_get_zero, app_nil_r.
    split_and!; try done || lia.
Qed.

(** The write half: a prefix [x] of the queue has moved to the file. *)
Definition write_half (cap o : Z) (out : list byte) (p : P) (active : bool)
    (p' : P) (w' : world) : Prop :=
  exists x, q_wf p' /\ q_cap p' = cap /\ zlen (q_content p') <= cap /\
    q_content p = x ++ q_content p' /\
    copying w0 w' fi fo fdin fdout src o (out ++ x) /\
    (active = true -> x <> []).

Lemma wp_write_half cap o out p s w :
  q_wf p -> q_cap p = cap -> zlen (q_content p) <= cap ->
  copying w0 w fi fo fdin fdout src o out ->
  (fdout ∈ wfds s -> q_content p <> []) ->
  wp (if isWriteActive fdout s then q_pull p fdout else pret p)
    (write_half cap o out p (isWriteActive fdout s)) X w.
Proof.
  intros Hwf Hc Hlen Hcy Hw. unfold isWriteActive. case_bool_decide as Hin.
  - eapply q_pull_spec; [done|by apply Hw|exact (copying_file_out Hcy)|done|].
    intros p2 x Hwf2 Hcap2 Hx Hcont2. exists x. split_and!; try done; try congruence.
    + rewrite Hcont2, length_app in Hlen. lia.
    + apply (copying_write Hcy); done.
  - wp_step. exists []. rewrite app_nil_r. split_and!; done.
Qed.

(** One round keeps the invariant, and either ends with everything copied or
    brings the end nearer. *)
Lemma wp_queue_round cap st w :
  0 < cap -> round_inv cap st w -> (let '(p, _, eof) := st in eof = true -> q_content p <> []) ->
  wp (queue_round st)
    (fun r w' => match r with
     | inl st' => round_inv cap st' w' /\
         (let '(p, _, eof) := st' in eof = true -> q_content p <> []) /\
         (round_measure st' w' < round_measure st w)%nat
     | inr _ => copying w0 w' fi fo fdin fdout src (zlen src) src
     end) X w.
Proof.
  destruct st as [[p s] eof]. intros Hcap (Hwf & Hc & Hlen & o & out & Hcy & Hcont & Heof) Hne.
  unfold queue_round.
  pose proof (round_request cap p eof s Hwf Hc Hcap Hne) as (Hex & Hmax & Hr & Hw). cbv zeta in *.
  set (sel := if q_can_pull p then _ else _) in *. clearbody sel.
  wp_step. apply wp_doSelect; [done|done|done|]. intros s' Hrs Hws Hact.
  assert (isReadActive fdin s' = true \/ isWriteActive fdout s' = true) as Hone.
  { unfold isReadActive, isWriteActive. rewrite !bool_decide_eq_true.
    destruct Hact as [fd [Hf|Hf]%elem_of_union].
    - left. by destruct (Hr fd) as [<- _]; [set_solver|].
    - right. by destruct (Hw fd) as [<- _]; [set_solver|]. }
  assert (copying w0 (tick w) fi fo fdin fdout src o out) as Hcy' by (by apply (copying_same Hcy)).
  wp_step. eapply wp_mono; [eapply (wp_read_half cap o out); try done|cbv beta|done].
  { intros Hi. destruct (Hr fdin) as (_ & ? & ?); [set_solver|done]. }
  intros [p1 eof1] w1 (n & Hn & Hwf1 & Hcap1 & Hlen1 & Hcont1 & Hcy1 & Heof1 & Hact1). simpl in *.
  pose proof (cy_off _ _ _ _ _ _ _ _ _ Hcy) as Ho. pose proof (cy_off _ _ _ _ _ _ _ _ _ Hcy1).
  wp_step. eapply wp_mono; [eapply (wp_write_half cap (o + n) out); try done|cbv beta|done].
  { intros Hi. destruct (Hw fdout) as [_ Hnz]; [set_solver|]. rewrite Hcont1.
    by destruct (q_content p). }
  intros p2 w2 (x & Hwf2 & Hcap2 & Hlen2 & Hcont2 & Hcy2 & Hx). wp_step.
  assert ((out ++ x) ++ q_content p2 = buf_get 0 (o + n) src) as Hall.
  { rewrite <- app_assoc, <- Hcont2, Hcont1, app_assoc, Hcont. apply buf_get_next; lia. }
  destruct (negb eof1 || q_can_pull p2) eqn:E.
  - split_and!.
    + split_and!; try done. by exists (o + n), (out ++ x).
    + intros ->. by apply q_can_pull_spec.
    + unfold round_measure. rewrite (cy_in _ _ _ _ _ _ _ _ _ Hcy), (cy_in _ _ _ _ _ _ _ _ _ Hcy2).
      apply (f_equal length) in Hcont1. rewrite Hcont2, !length_app in Hcont1.
      assert (zlen (buf_get o n src) = n) by (rewrite length_buf_get; lia).
      clear Hcy'. destruct (isReadActive fdin s'); destruct Hact1 as [? Hz].
      * subst eof. destruct (decide (n = 0)) as [->|]; [rewrite Hz by done|]; destruct eof1; lia.
      * subst n eof1. destruct Hone as [|Hone]; [done|]. destruct x; [by destruct (Hx Hone)|].
        simpl in *. lia.
  - apply orb_false_iff in E as [E1 E2]. apply negb_false_iff in E1. subst eof1.
    apply q_can_pull_false in E2; [|done].
    rewrite E2, app_nil_r in Hall. by rewrite Hall, (Heof1 eq_refl), buf_get_all in Hcy2.
Qed.

Lemma wp_queue_loop cap p s fuel (Q : unit -> world -> Prop) w :
  q_wf p -> q_cap p = cap -> 0 < cap -> q_content p = [] ->
  copying w0 w fi fo fdin fdout src 0 [] ->
  (2 * length src + 1 < fuel)%nat ->
  (forall w', copying w0 w' fi fo fdin fdout src (zlen src) src -> Q tt w') ->
  wp (iter fuel queue_round (p, s, false)) Q X w.
Proof.
  intros Hwf Hc Hpos Hcont Hcy Hfuel HQ.
  apply (wp_iter (fun st w => round_inv cap st w /\
      (let '(p, _, eof) := st in eof = true -> q_content p <> [])) round_measure).
  - intros st s1 [Hi Hne]. eapply wp_mono; [by apply (wp_queue_round cap)| |done].
    intros [st'|[]] s2 Hr; [naive_solver|auto].
  - split; [|done]. split_and!; try done; [by rewrite Hcont; simpl; lia|].
    exists 0, []. by rewrite Hcont.
  - unfold round_measure. rewrite (cy_in _ _ _ _ _ _ _ _ _ Hcy), Hcont. simpl. lia.
Qed.
End select_copy.

Lemma wp_copy_select fuel fi fo bufsize src (Q : unit -> world -> Prop) X w :
  world_ok w -> w_files w !! fi = Some src -> fi <> fo ->
  1 < bufsize < 18446744073709551616 -> (2 * length src + 1 < fuel)%nat ->
  (forall c w', bad_status c -> X c w') ->
  (forall w', w_files w' = <[fo := src]> (w_files w) -> w_fds w' = w_fds w -> Q tt w') ->
  wp (CopySelect.copy_file fuel fi fo bufsize) Q X w.
Proof.
  intros Hok Hsrc Hne Hb Hfuel HX HQ. unfold CopySelect.copy_file.
  wp_step. apply wp_CircularPipe_ctor; [lia|done|]. intros p Hwf Hs Hcont.
  apply (wp_open_both _ _ _ _ _ fi fo src); try done; [by apply world_ok_below|].
  intros fdin fdout w' Hc Hi Ho _. wp_step.
  change (CopySelect.select_round fdin fdout) with (queue_round (P:=CircularPipe) fdin fdout).
  apply (wp_queue_loop (P:=CircularPipe) (tick w) fi fo fdin fdout src X HX (bufsize - 1)); 
    [done|simpl; lia|lia|done|done|done|].
  intros w2 Hc2. eapply wp_close_both; eauto.
Qed.

(** * sendfile(2) *)

Lemma wp_sendfile_copy w0 fi fo fdin fdout src o len (Q : Z -> world -> Prop) X w :
  copying w0 w fi fo fdin fdout src o (buf_get 0 o src) -> 0 < len ->
  (forall e, Q (-1) (set_errno e (tick w))) ->
  (forall n w', 0 <= n <= MAX_RW_COUNT -> (n = 0 -> o = zlen src) ->
     copying w0 w' fi fo fdin fdout src (o + n) (buf_get 0 (o + n) src) -> Q n w') ->
  wp (sys_sendfile fdout fdin len) Q X w.
Proof.
  intros Hc Hl Hbad Hok. pose proof (cy_off _ _ _ _ _ _ _ _ _ Hc) as Ho.
  apply wp_transfer; [done|]. intros a. cbv zeta.
  assert (copying w0 (tick w) fi fo fdin fdout src o (buf_get 0 o src)) as Ht
    by (by apply (copying_same Hc)).
  rewrite (arrive_file _ _ _ _ _ _ _ _ _ (copying_file_in Ht)).
  exists (drop (Z.to_nat o) src), MAX_RW_COUNT.
  split; [by apply (avail_file _ _ _ _ _ _ (copying_file_in Ht))|].
  split; [by apply (room_file _ _ _ _ _ _ (copying_file_out Ht))|].
  split; [intros; by apply (at_end_file _ _ _ _ _ _ _ (copying_file_in Ht))|].
  split; [done|]. rewrite length_drop. set (lim := Z.min len _).
  pose proof (moved_bounds a lim). pose proof (moved_int a lim). pose proof (moved_pos a lim).
  unfold MAX_RW_COUNT in lim. set (n := moved a lim) in *. change (take _ (drop _ _)) with (buf_get o n src).
  assert (copying w0 (emit fdout (buf_get o n src) (tick w)) fi fo fdin fdout src o
            (buf_get 0 o src ++ buf_get o n src)) as H2.
  { rewrite (emit_file _ _ _ _ _ _ _ (copying_file_out Ht)). by apply (copying_write Ht). }
  apply Hok; [unfold MAX_RW_COUNT; lia|lia|].
  rewrite <- buf_get_next by lia. rewrite (consume_file _ _ _ _ _ _ _ _ (copying_file_in H2)).
  apply (copying_read H2); simpl; done || lia.
Qed.

Lemma wp_copy_sendfile fuel fi fo src (Q : unit -> world -> Prop) X w :
  world_ok w -> w_files w !! fi = Some src -> fi <> fo -> (length src < fuel)%nat ->
  (forall c w', bad_status c -> X c w') ->
  (forall w', w_files w' = <[fo := src]> (w_files w) -> w_fds w' = w_fds w -> Q tt w') ->
  wp (CopySendfile.copy_file fuel fi fo) Q X w.
Proof.
  intros Hok Hsrc Hne Hfuel HX HQ. unfold CopySendfile.copy_file.
  apply (wp_open_both _ _ _ _ _ fi fo src); try done; [by apply world_ok_below|].
  intros fdin fdout w' Hc Hi Ho _. wp_step.
  apply (wp_iter
    (fun _ s => exists o, copying w s fi fo fdin fdout src o (buf_get 0 o src))
    (fun _ s => match w_fds s !! fdin with
                | Some (DFile _ o _ _) => Z.to_nat (zlen src - o) | _ => 0%nat end));
    [|by exists 0|rewrite (cy_in _ _ _ _ _ _ _ _ _ Hc); lia].
  intros [] s [o Hs]. unfold CopySendfile.send_round. wp_step.
  apply (wp_sendfile_copy w fi fo fdin fdout src o); [done|done|call_fails|].
  unfold MAX_RW_COUNT. intros n s' Hn Hz Hs'. pass_check. wp_step.
  pose proof (cy_off _ _ _ _ _ _ _ _ _ Hs'). destruct (0 <? n) eqn:E; zbool.
  - split; [eauto|].
    rewrite (cy_in _ _ _ _ _ _ _ _ _ Hs), (cy_in _ _ _ _ _ _ _ _ _ Hs'). lia.
  - replace (o + n) with (zlen src) in Hs' by lia. rewrite buf_get_all in Hs'.
    eapply wp_close_both; eauto.
Qed.

(** * cat with sendfile(2) *)

(** [fdin] stands at offset [o] of the file, the standard output has received
    its first [o] bytes after [old]. *)
Record catting (w0 w : world) (fi : string) (fdin : Z) (src old : list byte) (o : Z) : Prop := {
  ct_in : w_fds w !! fdin = Some (DFile fi o true false);
  ct_out : w_fds w !! STDOUT_FILENO = Some DSink;
  ct_files : w_files w = w_files w0;
  ct_src : w_files w0 !! fi = Some src;
  ct_off : 0 <= o <= zlen src;
  ct_data : w_out w = old ++ buf_get 0 o src;
  ct_rest fd : fd <> fdin -> w_fds w !! fd = w_fds w0 !! fd;
}.

Lemma wp_sendfile_cat w0 fi fdin src old o len (Q : Z -> world -> Prop) X w :
  catting w0 w fi fdin src old o -> 0 < len -> fdin <> STDOUT_FILENO ->
  (forall e, Q (-1) (set_errno e (tick w))) ->
  (forall n w', 0 <= n <= MAX_RW_COUNT -> (n = 0 -> o = zlen src) ->
     catting w0 w' fi fdin src old (o + n) -> Q n w') ->
  wp (sys_sendfile STDOUT_FILENO fdin len) Q X w.
Proof.
  intros [] Hl Hne Hbad Hok. apply wp_transfer; [done|]. intros a. cbv zeta.
  assert (file_at (tick w) fdin fi o true false src) as Hf by (split; simpl; congruence).
  rewrite (arrive_file _ _ _ _ _ _ _ _ _ Hf).
  exists (drop (Z.to_nat o) src), MAX_RW_COUNT.
  split; [by apply (avail_file _ _ _ _ _ _ Hf)|].
  split; [unfold room; simpl; by rewrite ct_out0|].
  split; [intros; by apply (at_end_file _ _ _ _ _ _ _ Hf)|].
  split; [done|]. rewrite length_drop. set (lim := Z.min len _).
  pose proof (moved_bounds a lim). pose proof (moved_int a lim). pose proof (moved_pos a lim).
  unfold MAX_RW_COUNT in lim. set (n := moved a lim) in *.
  apply Hok; [unfold MAX_RW_COUNT; lia|lia|].
  unfold emit. simpl. rewrite ct_out0. unfold consume. simpl. rewrite ct_in0.
  constructor; simpl; try done.
  - by apply lookup_insert_eq.
  - by rewrite lookup_insert_ne.
  - lia.
  - rewrite ct_data0, <- app_assoc, <- buf_get_next by lia. done.
  - intros. rewrite lookup_insert_ne by done. auto.
Qed.

Lemma wp_cat fuel fi src (Q : unit -> world -> Prop) X w :
  world_ok w -> w_files w !! fi = Some src -> w_fds w !! STDOUT_FILENO = Some DSink ->
  (length src < fuel)%nat ->
  (forall c w', bad_status c -> X c w') ->
  (forall w', w_out w' = w_out w ++ src -> w_files w' = w_files w -> w_fds w' = w_fds w -> Q tt w') ->
  wp (CatSendfile.cat fuel fi) Q X w.
Proof.
  intros [Hfree Hnext] Hsrc Hout Hfuel HX HQ. unfold CatSendfile.cat.
  assert (w_next w <> STDOUT_FILENO) as Hne.
  { intros E. rewrite <- E, Hfree in Hout; [done|lia]. }
  wp_step. apply (wp_open_read _ src); [done|call_fails|]. pass_check. set (fdin := w_next w) in *. wp_step.
  apply (wp_iter (fun _ s => exists o, catting w s fi fdin src (w_out w) o)
    (fun _ s => match w_fds s !! fdin with
                | Some (DFile _ o _ _) => Z.to_nat (zlen src - o) | _ => 0%nat end)).
  - intros [] s [o Hs]. unfold CatSendfile.send_round. wp_step.
    apply (wp_sendfile_cat w fi fdin src (w_out w) o); [done|done|done|call_fails|].
    unfold MAX_RW_COUNT. intros n s' Hn Hz Hs'. pass_check. wp_step.
    pose proof (ct_off _ _ _ _ _ _ _ Hs'). destruct (0 <? n) eqn:E; zbool.
    + split; [eauto|]. rewrite (ct_in _ _ _ _ _ _ _ Hs), (ct_in _ _ _ _ _ _ _ Hs'). lia.
    + replace (o + n) with (zlen src) in Hs' by lia. destruct Hs'. rewrite buf_get_all in ct_data0.
      wp_step. eapply wp_close; [done|call_fails|]. pass_check. wp_step.
      apply HQ; [done|done|]. simpl. apply map_eq. intros fd.
      destruct (decide (fd = fdin)) as [->|]; [rewrite lookup_delete_eq; symmetry; apply Hfree; lia|].
      rewrite lookup_delete_ne by done. auto.
  - exists 0. constructor; simpl; try done; try lia.
    + by apply lookup_insert_eq.
    + by rewrite lookup_insert_ne.
    + by rewrite app_nil_r.
    + intros. by rewrite lookup_insert_ne.
  - simpl. rewrite lookup_insert_eq. lia.
Qed.

(** * splice(2) through a pipe *)

(** The pipe between [wr] and [rd] holds [d] and has room up to [cap]. *)
Definition pipe_at (w : world) (rd wr id : Z) (d : list byte) (cap : Z) : Prop :=
  w_fds w !! rd = Some (DPipe id false) /\ w_fds w !! wr = Some (DPipe id true) /\
  w_pipes w !! id = Some (mkPipe d cap).

(** The copy has [o] bytes consumed; all but the [d] in the pipe are written. *)
Definition splicing (w0 w : world) (fi fo : string) (fdin fdout rd wr id : Z)
    (src : list byte) (o : Z) (out d : list byte) (cap : Z) : Prop :=
  copying w0 w fi fo fdin fdout src o out /\ pipe_at w rd wr id d cap /\
  out ++ d = buf_get 0 o src /\ fdin <> rd /\ fdin <> wr /\ fdout <> rd /\ fdout <> wr.

Section splice.
Context (w0 : world) (fi fo : string) (fdin fdout rd wr id : Z) (src : list byte) (cap : Z).
Abbreviation splicing_ w o out d := (splicing w0 w fi fo fdin fdout rd wr id src o out d cap).

Lemma wp_splice_in o out d len blk (Q : Z -> world -> Prop) X w :
  splicing_ w o out d -> zlen d < cap -> 0 < len ->
  (forall e, Q (-1) (set_errno e (tick w))) ->
  (forall n w', 0 <= n <= MAX_RW_COUNT -> n <= len -> zlen d + n <= cap -> (n = 0 -> o = zlen src) ->
     splicing_ w' (o + n) out (d ++ buf_get o n src) -> Q n w') ->
  wp (sys_splice fdin wr len blk) Q X w.
Proof.
  intros (Hc & (Hrd & Hwr & Hp) & Hall & Hne) Hcap Hl Hbad Hok.
  pose proof (cy_off _ _ _ _ _ _ _ _ _ Hc) as Ho.
  apply wp_transfer; [done|]. intros a. cbv zeta.
  assert (copying w0 (tick w) fi fo fdin fdout src o out) as Ht by (by apply (copying_same Hc)).
  rewrite (arrive_file _ _ _ _ _ _ _ _ _ (copying_file_in Ht)).
  exists (drop (Z.to_nat o) src), (cap - zlen d).
  split; [by apply (avail_file _ _ _ _ _ _ (copying_file_in Ht))|].
  split; [unfold room; simpl; by rewrite Hwr, Hp|].
  split; [intros; by apply (at_end_file _ _ _ _ _ _ _ (copying_file_in Ht))|].
  split; [lia|]. rewrite length_drop. set (lim := Z.min len _).
  pose proof (moved_bounds a lim). pose proof (moved_int a lim). pose proof (moved_pos a lim).
  set (n := moved a lim) in *. change (take _ (drop _ _)) with (buf_get o n src).
  unfold emit. simpl. rewrite Hwr, Hp. simpl.
  erewrite consume_file by (by apply (copying_file_in Ht)).
  apply Hok; [unfold MAX_RW_COUNT; lia|lia|lia|lia|].
  split_and!; try tauto; simpl.
  - apply (copying_read Ht); simpl; done || lia.
  - split_and!; simpl; [by rewrite lookup_insert_ne by tauto..|by rewrite lookup_insert_eq].
  - rewrite app_assoc, Hall. apply buf_get_next; lia.
Qed.

Lemma wp_splice_out o out d len blk (Q : Z -> world -> Prop) X w :
  splicing_ w o out d -> d <> [] -> 0 < len ->
  (forall e, Q (-1) (set_errno e (tick w))) ->
  (forall n w', 0 < n <= MAX_RW_COUNT -> n <= len -> n <= zlen d ->
     splicing_ w' o (out ++ buf_get 0 n d) (drop (Z.to_nat n) d) -> Q n w') ->
  wp (sys_splice rd fdout len blk) Q X w.
Proof.
  intros (Hc & (Hrd & Hwr & Hp) & Hall & Hne) Hd Hl Hbad Hok.
  apply wp_transfer; [done|]. intros a. cbv zeta.
  assert (copying w0 (tick w) fi fo fdin fdout src o out) as Ht by (by apply (copying_same Hc)).
  assert (forall b, arrive a rd b (tick w) = tick w) as -> by (intros; unfold arrive; by simpl; rewrite Hrd).
  exists d, MAX_RW_COUNT.
  split; [unfold avail; simpl; by rewrite Hrd, Hp|].
  split; [by apply (room_file _ _ _ _ _ _ (copying_file_out Ht))|].
  split; [done|]. split; [done|]. set (lim := Z.min len _).
  assert (0 < zlen d) by (destruct d; simpl; [done|lia]).
  pose proof (moved_bounds a lim). pose proof (moved_int a lim). pose proof (moved_pos a lim).
  unfold MAX_RW_COUNT in lim. set (n := moved a lim) in *.
  change (take (Z.to_nat n) d) with (buf_get 0 n d).
  assert (copying w0 (emit fdout (buf_get 0 n d) (tick w)) fi fo fdin fdout src o
            (out ++ buf_get 0 n d)) as Hem.
  { rewrite (emit_file _ _ _ _ _ _ _ (copying_file_out Ht)). by apply (copying_write Ht). }
  rewrite (emit_file _ _ _ _ _ _ _ (copying_file_out Ht)) in Hem |- *.
  unfold consume. simpl. rewrite lookup_insert_ne by tauto. rewrite Hrd, Hp.
  apply Hok; [unfold MAX_RW_COUNT; lia|lia|lia|].
  split_and!; try tauto; simpl.
  - by apply (copying_same Hem).
  - split_and!; simpl; [by rewrite lookup_insert_ne by tauto..|by rewrite lookup_insert_eq].
  - rewrite <- app_assoc. unfold buf_get at 1. rewrite drop_0, take_drop. done.
Qed.

Context (X : Z -> world -> Prop) (HX : forall c w', bad_status c -> X c w').

(** The inner loop empties the pipe into the file. *)
Lemma wp_drain o out d size fuel (Q : unit -> world -> Prop) w :
  splicing_ w o out d -> 0 < size -> zlen d <= MAX_RW_COUNT -> (length d < fuel)%nat ->
  (forall w', splicing_ w' o (out ++ d) [] -> Q tt w') ->
  wp (iter fuel (CopySplice.drain_round rd fdout size) (zlen d)) Q X w.
Proof.
  intros Hs Hsize Hmax Hfuel HQ. unfold MAX_RW_COUNT in *.
  apply (wp_iter
    (fun len w => exists out' d', splicing_ w o out' d' /\ len = zlen d' /\
       out' ++ d' = out ++ d /\ zlen d' <= 2147479552)
    (fun len _ => Z.to_nat len)); [|by exists out, d|lia].
  intros len s (out' & d' & Hs' & -> & Heq & Hmax'). unfold CopySplice.drain_round.
  wp_step; zbool.
  - wp_step. apply (wp_splice_out o out' d'); [done|by destruct d'|done|call_fails|].
    unfold MAX_RW_COUNT. intros n s2 Hn _ Hnd Hs2. pass_check. wp_step.
    split; [|lia]. eexists _, _. split_and!; [exact Hs2| | |].
    + rewrite length_drop. lia.
    + rewrite <- app_assoc. unfold buf_get. by rewrite drop_0, take_drop.
    + rewrite length_drop. lia.
  - wp_step. destruct d'; [|simpl in *; lia]. rewrite app_nil_r in Heq. subst out'. auto.
Qed.

Lemma wp_splice_loop size fuel (Q : unit -> world -> Prop) w :
  splicing_ w 0 [] [] -> 0 < size -> 0 < cap -> (length src < fuel)%nat ->
  (forall w', copying w0 w' fi fo fdin fdout src (zlen src) src ->
     pipe_at w' rd wr id [] cap -> Q tt w') ->
  wp (iter fuel (CopySplice.splice_round fuel fdin fdout rd wr size) tt) Q X w.
Proof.
  intros Hs Hsize Hcap Hfuel HQ.
  apply (wp_iter (fun _ w => exists o out, splicing_ w o out [])
    (fun _ w => match w_fds w !! fdin with
                | Some (DFile _ o _ _) => Z.to_nat (zlen src - o) | _ => 0%nat end));
    [|by exists 0, []|destruct Hs as [Hc _]; rewrite (cy_in _ _ _ _ _ _ _ _ _ Hc); lia].
  intros [] s (o & out & Hs'). unfold CopySplice.splice_round. wp_step.
  assert (copying w0 s fi fo fdin fdout src o out) as Hc by apply Hs'.
  pose proof (cy_off _ _ _ _ _ _ _ _ _ Hc) as Ho.
  apply (wp_splice_in o out []); [done|simpl; lia|done|call_fails|].
  unfold MAX_RW_COUNT. intros n s2 Hn _ Hnc Hz Hs2. pass_check. wp_step. simpl app in Hs2.
  assert (copying w0 s2 fi fo fdin fdout src (o + n) out) as Hc2 by apply Hs2.
  pose proof (cy_off _ _ _ _ _ _ _ _ _ Hc2).
  assert (zlen (buf_get o n src) = n) as Hg by (rewrite length_buf_get; lia).
  rewrite <- Hg at 1. eapply wp_drain; [exact Hs2|done|unfold MAX_RW_COUNT; lia|lia|].
  intros s3 Hs3. wp_step.
  assert (copying w0 s3 fi fo fdin fdout src (o + n) (out ++ buf_get o n src)) as Hc3 by apply Hs3.
  destruct (0 <? n) eqn:E; zbool.
  - split; [eauto|]. rewrite (cy_in _ _ _ _ _ _ _ _ _ Hc), (cy_in _ _ _ _ _ _ _ _ _ Hc3). lia.
  - destruct Hs3 as (_ & Hp & Hall & _). rewrite app_nil_r in Hall. rewrite Hall in Hc3.
    replace (o + n) with (zlen src) in Hc3 by lia. rewrite buf_get_all in Hc3. auto.
Qed.
End splice.

(** The programs with a pipe close four descriptors. *)
Lemma wp_close_four s1 t1 s2 t2 s3 t3 s4 t4 fi fo fdin fdout rd wr id d cap src out
    (Q : unit -> world -> Prop) X w00 w0 w :
  copying w0 w fi fo fdin fdout src (zlen src) out -> pipe_at w rd wr id d cap ->
  fdin <> rd -> fdin <> wr -> fdout <> rd -> fdout <> wr -> rd <> wr ->
  w_files w0 = w_files w00 ->
  w_fds w0 = <[wr := DPipe id true]> (<[rd := DPipe id false]> (w_fds w00)) ->
  w_fds w00 !! fdin = None -> w_fds w00 !! fdout = None ->
  w_fds w00 !! rd = None -> w_fds w00 !! wr = None ->
  (forall c w', bad_status c -> X c w') ->
  (forall w', w_files w' = <[fo := out]> (w_files w00) -> w_fds w' = w_fds w00 -> Q tt w') ->
  wp (let! c0 := sys_close rd in
      CHECK_NOT_M1 s1 t1 c0 ;;;
      let! c1 := sys_close wr in
      CHECK_NOT_M1 s2 t2 c1 ;;;
      let! c2 := sys_close fdin in
      CHECK_NOT_M1 s3 t3 c2 ;;;
      let! c3 := sys_close fdout in
      CHECK_NOT_M1 s4 t4 c3 ;;;
      pret tt) Q X w.
Proof.
  intros Hc (Hrd & Hwr & _) ? ? ? ? ? Hfiles Hfds Hi Ho Hr Hw HX HQ.
  wp_step. eapply wp_close; [done|call_fails|]. pass_check.
  wp_step. eapply wp_close; [by simpl; rewrite lookup_delete_ne|call_fails|]. pass_check. simpl.
  apply (wp_close_both _ _ _ _ fi fo fdin fdout src (zlen src) out _ _ w00); try done.
  - destruct Hc. constructor; simpl; try done.
    + by rewrite !lookup_delete_ne by done.
    + by rewrite !lookup_delete_ne by done.
    + by rewrite cy_files0, Hfiles.
    + by rewrite <- Hfiles.
    + intros fd Hd1 Hd2.
      destruct (decide (fd = wr)) as [->|]; [by rewrite lookup_delete_eq|].
      rewrite lookup_delete_ne by done.
      destruct (decide (fd = rd)) as [->|]; [by rewrite lookup_delete_eq|].
      rewrite lookup_delete_ne by done. rewrite cy_rest0 by done.
      by rewrite Hfds, !lookup_insert_ne by done.
Qed.

Lemma wp_pipe (Q : Z * (Z * Z) -> world -> Prop) X w :
  (forall e, Q (-1, (0, 0)) (set_errno e (tick w))) ->
  (forall w',
     w_fds w' = <[w_next w + 1 := DPipe (w_next w) true]> (<[w_next w := DPipe (w_next w) false]> (w_fds w)) ->
     w_next w' = w_next w + 2 -> w_pipes w' !! w_next w = Some (mkPipe [] PIPE_CAPACITY) ->
     w_files w' = w_files w -> w_pagesize w' = w_pagesize w ->
     Q (0, (w_next w, w_next w + 1)) w') ->
  wp sys_pipe Q X w.
Proof.
  intros Hbad Hok. apply wp_syscall; [done|]. intros a. repeat wp_step.
  apply Hok; simpl; try done. by apply lookup_insert_eq.
Qed.

Lemma wp_setpipe_sz rd size id b d cap (Q : Z -> world -> Prop) X w :
  w_fds w !! rd = Some (DPipe id b) -> w_pipes w !! id = Some (mkPipe d cap) ->
  (forall e, Q (-1) (set_errno e (tick w))) ->
  (forall w', w_fds w' = w_fds w -> w_files w' = w_files w -> w_next w' = w_next w ->
     w_pipes w' !! id = Some (mkPipe d (2 ^ Z.log2_up (Z.max size (w_pagesize w)))) ->
     Q (2 ^ Z.log2_up (Z.max size (w_pagesize w))) w') ->
  wp (sys_setpipe_sz rd size) Q X w.
Proof.
  intros Hrd Hp Hbad Hok. apply wp_syscall; [done|]. intros a. do 2 wp_step. simpl.
  rewrite Hrd, Hp. repeat wp_step. apply Hok; try done. simpl. by apply lookup_insert_eq.
Qed.

(** Opening the two files once the pipe is there: the state both pipe programs
    start their loops in. *)
Lemma wp_open_pipe s1 t1 s2 t2 {A} (k : Z -> Z -> M A) fi fo src cap w00 w
    (Q : A -> world -> Prop) (X : Z -> world -> Prop) :
  world_ok w00 -> w_files w00 !! fi = Some src -> fi <> fo ->
  let n := w_next w00 in
  w_fds w = <[n + 1 := DPipe n true]> (<[n := DPipe n false]> (w_fds w00)) ->
  w_next w = n + 2 -> w_files w = w_files w00 -> w_pipes w !! n = Some (mkPipe [] cap) ->
  (forall c w', bad_status c -> X c w') ->
  (forall fdin fdout w',
     splicing w w' fi fo fdin fdout n (n + 1) n src 0 [] [] cap ->
     w_fds w00 !! fdin = None -> w_fds w00 !! fdout = None ->
     wp (k fdin fdout) Q X w') ->
  wp (let! r1 := sys_open fi RDONLY in
      let! fdin := CHECK_NOT_M1 s1 t1 r1 in
      let! r2 := sys_open fo WRONLY_CREAT_TRUNC in
      let! fdout := CHECK_NOT_M1 s2 t2 r2 in
      k fdin fdout) Q X w.
Proof.
  intros [Hfree Hnext] Hsrc Hne n Hfds Hn Hfiles Hp HX Hk.
  assert (w_fds w !! n = Some (DPipe n false) /\ w_fds w !! (n + 1) = Some (DPipe n true)) as [Hr Hw].
  { rewrite Hfds. split; [|by rewrite lookup_insert_eq].
    by rewrite lookup_insert_ne, lookup_insert_eq by lia. }
  apply (wp_open_both _ _ _ _ _ fi fo src); try done; [|congruence|].
  { split; [|lia]. intros fd Hfd. rewrite Hfds, !lookup_insert_ne by lia. apply Hfree. lia. }
  intros fdin fdout w' Hc Hi Ho Hpipes.
  assert (fdin <> n /\ fdin <> n + 1 /\ fdout <> n /\ fdout <> n + 1) as (? & ? & ? & ?)
    by (split_and!; congruence).
  apply Hk.
  - split_and!; try done. split_and!; [| |by rewrite Hpipes].
    + by rewrite (cy_rest _ _ _ _ _ _ _ _ _ Hc).
    + by rewrite (cy_rest _ _ _ _ _ _ _ _ _ Hc).
  - by rewrite Hfds, !lookup_insert_ne in Hi by done.
  - by rewrite Hfds, !lookup_insert_ne in Ho by done.
Qed.

Lemma pipe_cap_ge size ps : 0 < size -> size <= 2 ^ Z.log2_up (Z.max size ps).
Proof.
  intros. destruct (decide (Z.max size ps = 1)) as [E|]; [rewrite E; change (2 ^ _) with 1; lia|].
  destruct (Z.log2_up_spec (Z.max size ps)) as [_ ?]; [lia|]. lia.
Qed.

Lemma wp_copy_splice fuel fi fo (setbufsize : bool) buf_size src (Q : unit -> world -> Prop) X w :
  world_ok w -> w_files w !! fi = Some src -> fi <> fo ->
  (setbufsize = true -> 0 < buf_size) -> (length src < fuel)%nat ->
  (forall c w', bad_status c -> X c w') ->
  (forall w', w_files w' = <[fo := src]> (w_files w) -> w_fds w' = w_fds w -> Q tt w') ->
  wp (CopySplice.copy_file fuel fi fo setbufsize buf_size) Q X w.
Proof.
  intros Hok Hsrc Hne Hb Hfuel HX HQ. pose proof Hok as [Hfree Hnext].
  unfold CopySplice.copy_file. wp_step. apply wp_pipe; [call_fails|].
  intros w1 Hfds Hn Hp Hfiles _. wp_step. apply wp_check_not_m1; [done|]. intros _.
  assert (w_fds w1 !! w_next w = Some (DPipe (w_next w) false)) as Hrd
    by (rewrite Hfds, lookup_insert_ne, lookup_insert_eq by lia; done).
  wp_step. apply (wp_mono _ (fun size w2 => 0 < size /\ w_fds w2 = w_fds w1 /\ w_files w2 = w_files w1 /\
    w_next w2 = w_next w1 /\ exists cap, 0 < cap /\ w_pipes w2 !! w_next w = Some (mkPipe [] cap)) _ X).
  { destruct setbufsize.
    - wp_step. apply (wp_setpipe_sz _ _ (w_next w) false [] PIPE_CAPACITY); [done|done|call_fails|].
      intros w2 ? ? ? ?. wp_step. apply wp_check_not_m1; [done|]. intros _. wp_step.
      split_and!; try done; [by apply Hb|]. eexists. split; [|done].
      apply Z.pow_pos_nonneg; [lia|apply Z.log2_up_nonneg].
    - wp_step. split_and!; try done. by exists PIPE_CAPACITY. }
  2: done.
  intros size w2 (Hsize & Hf2 & Hfl2 & Hn2 & cap & Hcap & Hp2).
  apply (wp_open_pipe _ _ _ _ _ fi fo src cap w); try done; try congruence.
  intros fdin fdout w3 Hs Hi Ho. wp_step.
  pose proof Hs as (_ & _ & _ & ? & ? & ? & ?).
  eapply wp_splice_loop; eauto. intros w4 Hc4 Hp4.
  eapply (wp_close_four _ _ _ _ _ _ _ _ fi fo _ _ _ _ _ _ _ _ _ _ _ w); eauto; try congruence; try lia;
    apply Hfree; lia.
Qed.

(** * copy_file_splice_select *)

Lemma wp_check_int v s1 e s2 s3 l (Q : Z -> world -> Prop) X w :
  (forall c w', bad_status c -> X c w') ->
  (s32 v = s32 e -> Q (s32 v) w) ->
  wp (check_int v s1 e s2 s3 l) Q X w.
Proof.
  intros HX HQ. unfold check_int, errno. repeat wp_step; zbool.
  - by apply wp_handle_error.
  - auto.
Qed.

Section splice_select.
Context (w0 : world) (fi fo : string) (fdin fdout rd wr id : Z) (src : list byte) (cap buf_size : Z).
Context (X : Z -> world -> Prop) (HX : forall c w', bad_status c -> X c w').
Context (Hbuf : 0 < buf_size <= cap) (Hbuf32 : buf_size < 4294967295).
Abbreviation splicing_ w o out d := (splicing w0 w fi fo fdin fdout rd wr id src o out d cap).
Abbreviation round := (CopySpliceSelect.select_round fdin fdout rd wr buf_size).

(** [data] counts the bytes in the pipe. *)
Definition ss_inv (st : Z * Selector * bool) (w : world) : Prop :=
  let '(data, _, eof) := st in
  exists o out d, splicing_ w o out d /\ data = zlen d /\ data <= buf_size /\
    (eof = true -> o = zlen src /\ d <> []).

Definition ss_measure (st : Z * Selector * bool) (w : world) : nat :=
  let '(data, _, eof) := st in
  match w_fds w !! fdin with
  | Some (DFile _ o _ _) => (2 * Z.to_nat (zlen src - o) + Z.to_nat data + if eof then 0 else 1)%nat
  | _ => 0%nat
  end.

Lemma ss_request data (eof : bool) s :
  0 <= data <= buf_size -> (eof = true -> data <> 0) ->
  let s := null s in
  let s := if 0 <? data then addWriteFd fdout s else s in
  let s := if negb eof && (0 <? u64 (buf_size - data)) then addReadFd fdin s else s in
  (exists fd, fd ∈ rfds s ∪ wfds s) /\ (forall fd, fd ∈ rfds s ∪ wfds s -> fd <= fd_max s) /\
  (forall fd, fd ∈ rfds s -> fd = fdin /\ eof = false /\ data < buf_size) /\
  (forall fd, fd ∈ wfds s -> fd = fdout /\ 0 < data).
Proof.
  intros Hd Heof. cbv zeta. rewrite u64_small by lia.
  destruct (0 <? data) eqn:E1; zbool.
  - destruct (negb eof && _) eqn:E2; zbool; simpl; unfold my_max.
    + split_and!; [exists fdin; set_solver| |set_solver by lia|set_solver].
      intros fd Hfd. repeat case_match; zbool; set_unfold; lia.
    + split_and!; [exists fdout; set_solver| |set_solver|set_solver].
      intros fd Hfd. repeat case_match; zbool; set_unfold; lia.
  - destruct eof; [naive_solver lia|]. simpl. destruct (0 <? buf_size - data) eqn:E2; zbool; [|lia].
    simpl. unfold my_max. split_and!; [exists fdin; set_solver| |set_solver by lia|set_solver].
    intros fd Hfd. repeat case_match; zbool; set_unfold; lia.
Qed.

(** The read half: [n] more bytes in the pipe, [eof] set when there were none. *)
Definition ss_mid (o : Z) (out d : list byte) (eof active : bool) (r : Z * bool) (w' : world) : Prop :=
  exists n, 0 <= n /\ r.1 = zlen d + n /\ r.1 <= buf_size /\
    splicing_ w' (o + n) out (d ++ buf_get o n src) /\
    (r.2 = true -> o + n = zlen src) /\
    (if active then eof = false /\ (n = 0 -> r.2 = true) else n = 0 /\ r.2 = eof).

Lemma wp_ss_read o out d (eof : bool) s t1 t2 w :
  splicing_ w o out d -> zlen d <= buf_size -> (eof = true -> o = zlen src) ->
  (fdin ∈ rfds s -> eof = false /\ zlen d < buf_size) ->
  wp (if isReadActive fdin s then
        let! r := sys_splice fdin wr (u64 (buf_size - zlen d)) false in
        let! len := CHECK_NOT_M1 t1 t2 r in
        if len =? 0 then pret (zlen d, true) else pret (u64 (zlen d + len), eof)
      else pret (zlen d, eof))
    (ss_mid o out d eof (isReadActive fdin s)) X w.
Proof.
  intros Hs Hlen Heof Hr. unfold isReadActive. case_bool_decide as Hin.
  - destruct (Hr Hin) as [-> Hlt]. rewrite u64_small by lia.
    wp_step. apply (wp_splice_in w0 fi fo fdin fdout rd wr id src cap o out d); [done|lia|lia|call_fails|].
    unfold MAX_RW_COUNT. intros n w' Hn Hnl Hnc Hz Hs'. pass_check.
    destruct (n =? 0) eqn:E; zbool; wp_step; exists n; simpl; split_and!; try (done || lia || (intros; lia)).
  - wp_step. exists 0. simpl. rewrite !Z.add_0_r, buf_get_zero, app_nil_r. split_and!; try done || lia.
Qed.

(** The write half: the pipe is written out completely, or not at all. *)
Lemma wp_ss_write o out d s t1 t2 w :
  splicing_ w o out d -> zlen d <= buf_size -> (fdout ∈ wfds s -> d <> []) ->
  wp (if isWriteActive fdout s then
        let! r := sys_splice rd fdout (zlen d) false in
        let! n := CHECK_INT t1 t2 r (zlen d) in
        pret (u64 (zlen d - n))
      else pret (zlen d))
    (fun data w' => if isWriteActive fdout s
                    then data = 0 /\ splicing_ w' o (out ++ d) []
                    else data = zlen d /\ splicing_ w' o out d) X w.
Proof.
  intros Hs Hlen Hw. unfold isWriteActive. case_bool_decide as Hin; [|by wp_step].
  specialize (Hw Hin). assert (0 < zlen d) by (destruct d; simpl; [done|lia]).
  wp_step. apply (wp_splice_out w0 fi fo fdin fdout rd wr id src cap o out d); [done|done|lia| |].
  - intros e. wp_step. apply wp_check_int; [done|]. intros Heq. exfalso. revert Heq.
    rewrite (s32_small (-1)) by lia. unfold wraps. change (2 ^ 32) with 4294967296.
    change (2 ^ (32 - 1)) with 2147483648. Z.div_mod_to_equations. lia.
  - unfold MAX_RW_COUNT. intros n w' Hn _ Hnd Hs'. wp_step. apply wp_check_int; [done|]. intros Heq.
    assert (n = zlen d) as ->.
    { revert Heq. unfold wraps. change (2 ^ 32) with 4294967296.
      change (2 ^ (32 - 1)) with 2147483648. Z.div_mod_to_equations. lia. }
    wp_step. cint. split; [lia|].
    by rewrite buf_get_all, Nat2Z.id, drop_all in Hs'.
Qed.

Lemma wp_ss_round st w :
  ss_inv st w ->
  wp (round st)
    (fun r w' => match r with
     | inl st' => ss_inv st' w' /\ (ss_measure st' w' < ss_measure st w)%nat
     | inr _ => copying w0 w' fi fo fdin fdout src (zlen src) src /\ pipe_at w' rd wr id [] cap
     end) X w.
Proof.
  destruct st as [[data s] eof]. intros (o & out & d & Hs & -> & Hle & Heof).
  unfold CopySpliceSelect.select_round.
  destruct (ss_request (zlen d) eof s) as (Hex & Hmax & Hr & Hw); [lia| |].
  { intros E. destruct (Heof E) as [_ Hd]. destruct d; simpl; [done|lia]. }
  cbv zeta in *. set (sel := if _ && _ then _ else _) in *. clearbody sel.
  wp_step. apply wp_doSelect; [done|done|done|]. intros s' Hrs Hws Hact.
  assert (isReadActive fdin s' = true \/ isWriteActive fdout s' = true) as Hone.
  { unfold isReadActive, isWriteActive. rewrite !bool_decide_eq_true.
    destruct Hact as [fd [Hf|Hf]%elem_of_union].
    - left. by destruct (Hr fd) as [<- _]; [set_solver|].
    - right. by destruct (Hw fd) as [<- _]; [set_solver|]. }
  assert (splicing_ (tick w) o out d) as Ht.
  { destruct Hs as (Hc & ? & ?). split; [by apply (copying_same Hc)|done]. }
  wp_step. eapply wp_mono; [eapply (wp_ss_read o out d eof s'); try done|cbv beta|done].
  { intros E. by apply Heof. }
  { intros Hi. by destruct (Hr fdin) as (_ & ? & ?); [set_solver|]. }
  intros [data1 eof1] w1 (n & Hn & Hd1 & Hle1 & Hs1 & Heof1 & Hact1). simpl in *.
  assert (copying w0 w fi fo fdin fdout src o out) as Hc by apply Hs.
  assert (copying w0 w1 fi fo fdin fdout src (o + n) out) as Hc1 by apply Hs1.
  pose proof (cy_off _ _ _ _ _ _ _ _ _ Hc). pose proof (cy_off _ _ _ _ _ _ _ _ _ Hc1).
  assert (zlen (d ++ buf_get o n src) = data1) as Hlen
    by (rewrite length_app, Nat2Z.inj_add, length_buf_get; lia).
  rewrite <- Hlen.
  wp_step. eapply wp_mono; [eapply (wp_ss_write (o + n) out _ s'); [done|lia|]|cbv beta|done].
  { intros Hi. destruct (Hw fdout) as [_ ?]; [set_solver|]. destruct d; simpl in *; [lia|done]. }
  intros data2 w2 Hw2. wp_step.
  assert (exists out2 d2, data2 = zlen d2 /\ splicing_ w2 (o + n) out2 d2 /\
    (d2 = [] \/ isWriteActive fdout s' = false /\ zlen d2 = data1)) as (out2 & d2 & -> & Hs2 & Hd2).
  { destruct (isWriteActive fdout s'); destruct Hw2 as [-> ?];
      [exists (out ++ d ++ buf_get o n src), []|exists out, (d ++ buf_get o n src)]; auto. }
  assert (copying w0 w2 fi fo fdin fdout src (o + n) out2) as Hc2 by apply Hs2.
  destruct (negb eof1 || (0 <? zlen d2)) eqn:E.
  - split.
    + exists (o + n), out2, d2. split_and!; try done; [destruct Hd2 as [->|[_ ?]]; simpl; lia|].
      intros ->. simpl in E; zbool. split; [auto|]. by intros ->.
    + unfold ss_measure. rewrite (cy_in _ _ _ _ _ _ _ _ _ Hc), (cy_in _ _ _ _ _ _ _ _ _ Hc2).
      destruct (isReadActive fdin s'); destruct Hact1 as [? Hz].
      * subst eof. assert (zlen d2 <= data1) by (destruct Hd2 as [->|[_ ?]]; simpl; lia).
        destruct (decide (n = 0)) as [->|]; [rewrite Hz by done|]; destruct eof1; lia.
      * subst n eof1. destruct Hone as [|Hone]; [done|].
        destruct Hd2 as [->|[? _]]; [|congruence]. unfold isWriteActive in Hone.
        apply bool_decide_eq_true in Hone. destruct (Hw fdout) as [_ ?]; [set_solver|]. simpl. lia.
  - apply orb_false_iff in E as [E1 E2]. zbool. subst eof1. destruct d2; [|simpl in *; lia].
    destruct Hs2 as (_ & Hp2 & Hall & _). rewrite app_nil_r, (Heof1 eq_refl), buf_get_all in Hall.
    subst out2. rewrite (Heof1 eq_refl) in Hc2. done.
Qed.

Lemma wp_ss_loop s fuel (Q : unit -> world -> Prop) w :
  splicing_ w 0 [] [] -> (2 * length src + 1 < fuel)%nat ->
  (forall w', copying w0 w' fi fo fdin fdout src (zlen src) src ->
     pipe_at w' rd wr id [] cap -> Q tt w') ->
  wp (iter fuel round (0, s, false)) Q X w.
Proof.
  intros Hs Hfuel HQ. apply (wp_iter ss_inv ss_measure).
  - intros st s1 Hi. eapply wp_mono; [by apply wp_ss_round| |done].
    intros [st'|[]] s2 Hr; [done|]. destruct Hr. auto.
  - exists 0, [], []. split_and!; try done || (simpl; lia).
  - destruct Hs as [Hc _]. simpl. rewrite (cy_in _ _ _ _ _ _ _ _ _ Hc). lia.
Qed.
End splice_select.

Lemma wp_copy_splice_select fuel fi fo (setbufsize : bool) buf_size src
    (Q : unit -> world -> Prop) X w :
  world_ok w -> w_files w !! fi = Some src -> fi <> fo ->
  0 < buf_size < 4294967295 -> (setbufsize = false -> buf_size <= PIPE_CAPACITY) ->
  (2 * length src + 1 < fuel)%nat ->
  (forall c w', bad_status c -> X c w') ->
  (forall w', w_files w' = <[fo := src]> (w_files w) -> w_fds w' = w_fds w -> Q tt w') ->
  wp (CopySpliceSelect.copy_file fuel fi fo setbufsize buf_size) Q X w.
Proof.
  intros Hok Hsrc Hne Hb Hset Hfuel HX HQ. pose proof Hok as [Hfree Hnext].
  unfold CopySpliceSelect.copy_file. wp_step. apply wp_pipe; [call_fails|].
  intros w1 Hfds Hn Hp Hfiles _. wp_step. apply wp_check_not_m1; [done|]. intros _.
  assert (w_fds w1 !! w_next w = Some (DPipe (w_next w) false)) as Hrd
    by (rewrite Hfds, lookup_insert_ne, lookup_insert_eq by lia; done).
  wp_step. apply (wp_mono _ (fun _ w2 => w_fds w2 = w_fds w1 /\ w_files w2 = w_files w1 /\
    w_next w2 = w_next w1 /\
    exists cap, buf_size <= cap /\ w_pipes w2 !! w_next w = Some (mkPipe [] cap)) _ X).
  { destruct setbufsize.
    - wp_step. apply (wp_setpipe_sz _ _ (w_next w) false [] PIPE_CAPACITY); [done|done|call_fails|].
      intros w2 ? ? ? ?. apply wp_check_not_m1; [done|]. intros _.
      split_and!; try done. eexists. split; [|done]. apply pipe_cap_ge. lia.
    - wp_step. split_and!; try done. exists PIPE_CAPACITY. auto. }
  2: done.
  intros _ w2 (Hf2 & Hfl2 & Hn2 & cap & Hcap & Hp2).
  apply (wp_open_pipe _ _ _ _ _ fi fo src cap w); try done; try congruence.
  intros fdin fdout w3 Hs Hi Ho. wp_step.
  pose proof Hs as (_ & _ & _ & ? & ? & ? & ?).
  eapply wp_ss_loop; eauto; try lia. intros w4 Hc4 Hp4.
  eapply (wp_close_four _ _ _ _ _ _ _ _ fi fo _ _ _ _ _ _ _ _ _ _ _ w); eauto; try congruence; try lia;
    apply Hfree; lia.
Qed.

(** * The programs *)

(** The program copies [src] to the file [fo]: it ends with status 0, [fo] has
    exactly the content [src], all other files and the descriptor table are as
    before; or it ends with a failing status.  It does not hang, run out of
    fuel or touch memory outside its buffers. *)
Definition copies (m : M Z) (fo : string) (src : list byte) (w : world) : Prop :=
  wp m (fun code w' => code = EXIT_SUCCESS /\ w_files w' = <[fo := src]> (w_files w) /\
          w_fds w' = w_fds w)
       (fun c _ => bad_status c) w.

(** The buffer size the programs compute from the page-count argument. *)
Definition buffer_size (w : world) (num_pages : string) : Z :=
  u32 (u32 (atoi num_pages) * w_pagesize w).

Lemma u32_range z : 0 <= u32 z < 4294967296.
Proof. apply (wrapu_range 32). lia. Qed.

(** A copy of the file [fi], or a failing status when there is no such file. *)
Definition copies_file (m : M Z) (fi fo : string) (w : world) : Prop :=
  match w_files w !! fi with
  | Some src => copies m fo src w
  | None => wp m (fun _ _ => False) (fun c _ => bad_status c) w
  end.
Definition file_length (w : world) (fi : string) : nat := length (default [] (w_files w !! fi)).

Lemma wp_open_missing s t {A} (k : Z -> M A) path (Q : A -> world -> Prop) (X : Z -> world -> Prop) w :
  w_files w !! path = None -> (forall c w', bad_status c -> X c w') ->
  wp (let! r1 := sys_open path RDONLY in let! fdin := CHECK_NOT_M1 s t r1 in k fdin) Q X w.
Proof.
  intros Hp HX. wp_step. apply wp_syscall; [intros; wp_step; by apply wp_check_not_m1|]. intros a. do 2 wp_step.
  simpl. rewrite Hp. unfold fail_with. repeat wp_step. by apply wp_check_not_m1.
Qed.

(** C29: [copy_file_read_write] copies.  For every kernel behaviour (short
    reads, short writes, failing calls), every input and a different output, and every
    page count for which the computed buffer size is not 0: the program either
    makes a complete copy of the input and exits with 0, closing what it opened, or
    exits with a failing status, which it does when the input does not exist; loop
    fuel above the length of the file is enough. *)
Theorem read_write_copies (fuel : nat) (prog fi fo np : string) (w : world) :
  world_ok w -> fi <> fo -> 0 < buffer_size w np -> (file_length w fi < fuel)%nat ->
  copies_file (CopyReadWrite.main fuel [prog; fi; fo; np]) fi fo w.
Proof.
  intros Hok Hne Hb Hfuel. unfold copies_file, file_length in *. destruct (w_files w !! fi) as [src|] eqn:Hsrc; cbn in Hfuel.
  - unfold copies, CopyReadWrite.main, getpagesize. repeat wp_step; zbool; [done|].
    eapply wp_copy_read_write; eauto. intros w' ? ?. by wp_step.
  - unfold CopyReadWrite.main, getpagesize. repeat wp_step; zbool; [done|]. unfold CopyReadWrite.copy_file, new_array.
    wp_step. wp_step. unfold wp at 1, next_answer. cbv iota beta. apply wp_ret. by apply wp_open_missing.
Qed.

(** C7: [copy_file_select] copies, through the ring buffer of [CircularPipe] and
    the [Selector]: for every choice of ready descriptors select(2) makes and every
    kernel behaviour, every input and a different output, and every page count for
    which the computed buffer size is at least 2, the program makes a complete copy and
    exits with 0, closing what it opened, or exits with a failing status, which it does
    when the input does not exist; twice the length of the file plus two rounds
    suffice. *)
Theorem select_copies (fuel : nat) (prog fi fo np : string) (w : world) :
  world_ok w -> fi <> fo -> 1 < buffer_size w np -> (2 * file_length w fi + 1 < fuel)%nat ->
  copies_file (CopySelect.main fuel [prog; fi; fo; np]) fi fo w.
Proof.
  intros Hok Hne Hb Hfuel. unfold copies_file, file_length in *. destruct (w_files w !! fi) as [src|] eqn:Hsrc; cbn in Hfuel.
  - unfold copies, CopySelect.main, getpagesize. repeat wp_step; zbool; [done|]. unfold buffer_size in Hb.
    pose proof (u32_range (u32 (atoi np) * w_pagesize w)).
    eapply wp_copy_select; eauto; [change (argv_at _ 3) with np; lia|]. intros w' ? ?. by wp_step.
  - unfold CopySelect.main, getpagesize. repeat wp_step; zbool; [done|]. unfold CopySelect.copy_file.
    pose proof (u32_range (u32 (atoi np) * w_pagesize w)). unfold buffer_size in Hb.
    wp_step. apply wp_CircularPipe_ctor; [change (argv_at _ 3) with np; lia|done|]. intros p _ _ _. by apply wp_open_missing.
Qed.

(** [copy_file_sendfile] copies, for every split of the transfer the kernel
    chooses. *)
Theorem sendfile_copies (fuel : nat) (prog fi fo : string) (src : list byte) (w : world) :
  world_ok w -> w_files w !! fi = Some src -> fi <> fo -> (length src < fuel)%nat ->
  copies (CopySendfile.main fuel [prog; fi; fo]) fo src w.
Proof.
  intros Hok Hsrc Hne Hfuel. unfold copies, CopySendfile.main.
  repeat wp_step; zbool; [done|].
  eapply wp_copy_sendfile; eauto. intros w' ? ?. by wp_step.
Qed.

(** [cat_sendfile] appends the whole file to the standard output, changes no
    file and leaves the descriptor table as it was, or exits with a failing
    status. *)
Theorem cat_sendfile_prints (fuel : nat) (prog fi : string) (src : list byte) (w : world) :
  world_ok w -> w_files w !! fi = Some src -> w_fds w !! STDOUT_FILENO = Some DSink ->
  (length src < fuel)%nat ->
  wp (CatSendfile.main fuel [prog; fi])
     (fun code w' => code = EXIT_SUCCESS /\ w_out w' = w_out w ++ src /\
        w_files w' = w_files w /\ w_fds w' = w_fds w)
     (fun c _ => bad_status c) w.
Proof.
  intros Hok Hsrc Hout Hfuel. unfold CatSendfile.main.
  repeat wp_step; zbool; [done|].
  eapply wp_cat; eauto. intros w' ? ? ?. by wp_step.
Qed.

(** [copy_file_splice] copies through a pipe: with or without setting the
    pipe size, and whatever part of the data each splice(2) moves. *)
Theorem splice_copies (fuel : nat) (prog fi fo sb np : string) (src : list byte) (w : world) :
  world_ok w -> w_files w !! fi = Some src -> fi <> fo ->
  (atoi sb <> 0 -> 0 < buffer_size w np) -> (length src < fuel)%nat ->
  copies (CopySplice.main fuel [prog; fi; fo; sb; np]) fo src w.
Proof.
  intros Hok Hsrc Hne Hb Hfuel. unfold copies, CopySplice.main, getpagesize.
  repeat wp_step; zbool; [done|].
  eapply wp_copy_splice; eauto.
  - intros E. zbool. by apply Hb.
  - intros w' ? ?. by wp_step.
Qed.

(** [copy_file_splice_select] copies when its idea of the pipe size is not
    larger than the pipe: that is when it sets the size itself, or when the
    requested buffer fits the default pipe. *)
Theorem splice_select_copies (fuel : nat) (prog fi fo sb np : string) (src : list byte) (w : world) :
  world_ok w -> w_files w !! fi = Some src -> fi <> fo ->
  0 < buffer_size w np < 4294967295 ->
  (atoi sb = 0 -> buffer_size w np <= PIPE_CAPACITY) ->
  (2 * length src + 1 < fuel)%nat ->
  copies (CopySpliceSelect.main fuel [prog; fi; fo; sb; np]) fo src w.
Proof.
  intros Hok Hsrc Hne Hb Hcap Hfuel. unfold copies, CopySpliceSelect.main, getpagesize.
  repeat wp_step; zbool; [done|].
  eapply wp_copy_splice_select; eauto.
  - intros E. zbool. by apply Hcap.
  - intros w' ? ?. by wp_step.
Qed.

(** ** mmap(2) *)

Lemma wp_open_rdwr path (Q : Z -> world -> Prop) X w :
  (forall e, Q (-1) (set_errno e (tick w))) ->
  (forall old, (w_files w !! path = Some old \/ old = [] /\ w_files w !! path = None) ->
     Q (w_next w) (set_fds (<[w_next w := DFile path 0 true true]> (w_fds w))
       (set_next (w_next w + 1) (set_files (<[path := old]> (w_files w)) (tick w))))) ->
  wp (sys_open path RDWR_CREAT) Q X w.
Proof.
  intros Hbad Hok. apply wp_syscall; [done|]. intros a. do 2 wp_step. simpl. unfold new_fd.
  destruct (w_files w !! path) as [old|] eqn:E; repeat wp_step.
  - specialize (Hok old (or_introl eq_refl)). by rewrite (insert_id (w_files w)) in Hok.
  - apply Hok. auto.
Qed.

Lemma wp_mmap fd p o r wr len (Q : Z * string -> world -> Prop) X w :
  w_fds w !! fd = Some (DFile p o r wr) -> 0 <= fd -> 0 < len ->
  (forall e, Q (MAP_FAILED, ""%string) (set_errno e (tick w))) ->
  (forall addr, addr <> MAP_FAILED -> Q (addr, p) (tick w)) ->
  wp (sys_mmap fd len) Q X w.
Proof.
  intros Hfd Hpos Hl Hbad Hok. apply wp_syscall; [done|]. intros a. do 2 wp_step. simpl. rewrite Hfd.
  destruct (len <=? 0) eqn:E; zbool; [lia|]. wp_step. apply Hok. unfold MAP_FAILED. lia.
Qed.

Lemma wp_check_not_voidp v s1 e s2 s3 l (Q : Z -> world -> Prop) X w :
  (forall c w', bad_status c -> X c w') ->
  (v <> e -> Q v w) ->
  wp (check_not_voidp v s1 e s2 s3 l) Q X w.
Proof.
  intros HX HQ. unfold check_not_voidp. repeat wp_step; zbool; [by apply wp_handle_error|auto].
Qed.

Lemma ftruncate_length (f : list byte) n :
  length (take n f ++ replicate (n - length f) Byte.x00) = n.
Proof. rewrite length_app, length_take, length_replicate. lia. Qed.

Lemma wp_ftruncate fd p o r len f (Q : Z -> world -> Prop) X w :
  w_fds w !! fd = Some (DFile p o r true) -> w_files w !! p = Some f -> 0 <= len ->
  (forall e, Q (-1) (set_errno e (tick w))) ->
  (forall f', zlen f' = len -> Q 0 (set_files (<[p := f']> (w_files w)) (tick w))) ->
  wp (sys_ftruncate fd len) Q X w.
Proof.
  intros Hfd Hp Hl Hbad Hok. apply wp_syscall; [done|]. intros a. do 2 wp_step. simpl.
  rewrite Hfd, Hp. repeat wp_step. apply Hok. rewrite ftruncate_length. lia.
Qed.


Lemma two_fds_closed (n : Z) (a b : desc) (m : gmap Z desc) :
  m !! n = None -> m !! (n + 1) = None ->
  delete (n + 1) (delete n (<[n + 1 := a]> (<[n := b]> m))) = m.
Proof.
  intros Hn Hn1. rewrite delete_insert_ne by lia. rewrite delete_insert_eq.
  rewrite delete_insert_eq. rewrite (delete_id m n) by done. by apply delete_id.
Qed.

(** [copy_file_mmap] copies a non-empty file over a new or an existing one
    of any length, provided the unchecked fstat(2) call (the second call of
    the program) succeeds. *)
Theorem mmap_copies (prog fi fo : string) (src : list byte) (w : world) :
  world_ok w -> w_files w !! fi = Some src -> fi <> fo -> src <> [] ->
  a_errno (w_env w (S (w_tick w))) = None ->
  copies (CopyMmap.main [prog; fi; fo]) fo src w.
Proof.
  intros [Hfree Hnext] Hsrc Hne Hnil Hstat. unfold copies, CopyMmap.main.
  wp_step; [done|]. change (argv_at _ 1) with fi. change (argv_at _ 2) with fo.
  wp_step. apply (wp_open_read _ src); [done|call_fails|].
  pass_check. set (n := w_next w) in *. wp_step. unfold sys_fstat. wp_step.
  unfold wp at 1, next_answer. simpl. rewrite Hstat. do 2 wp_step. simpl.
  rewrite lookup_insert_eq. wp_step. simpl. rewrite Hsrc.
  wp_step. apply wp_open_rdwr; [call_fails|]. simpl. intros old _. pass_check.
  assert (0 < zlen src) by (destruct src; simpl; [done|lia]).
  wp_step. eapply wp_ftruncate; [simpl; by rewrite lookup_insert_eq|simpl; by rewrite lookup_insert_eq|lia|call_fails|].
  intros f' Hf'. pass_check. simpl. rewrite insert_insert_eq.
  wp_step. eapply (wp_mmap n); [simpl; by rewrite lookup_insert_ne, lookup_insert_eq by lia|lia|done| |].
  { intros e. wp_step. by apply wp_check_not_voidp. }
  intros a1 Ha1. wp_step. apply wp_check_not_voidp; [done|]. intros _.
  wp_step. eapply (wp_mmap (n + 1)); [simpl; by rewrite lookup_insert_eq|lia|done| |].
  { intros e. wp_step. by apply wp_check_not_voidp. }
  intros a2 Ha2. wp_step. apply wp_check_not_voidp; [done|]. intros _. simpl.
  wp_step. eapply wp_close; [simpl; by rewrite lookup_insert_ne, lookup_insert_eq by lia|call_fails|]. pass_check.
  wp_step. eapply wp_close; [simpl; by rewrite lookup_delete_ne, lookup_insert_eq by lia|call_fails|]. pass_check.
  wp_step. unfold memcpy_mapped. do 2 wp_step. simpl.
  rewrite lookup_insert_eq, lookup_insert_ne, Hsrc by done.
  rewrite Hf', Z.leb_refl. cbn [andb]. do 2 wp_step. simpl.
  rewrite insert_insert_eq, buf_get_all, buf_put_all by lia.
  split_and!; [done|done|]. by apply two_fds_closed; apply Hfree; lia.
Qed.

(** ** Wrong use and corner cases *)

(** [m] only prints to the standard error and returns [EXIT_FAILURE]. *)
Definition refuses (m : M Z) (w : world) : Prop :=
  exists msgs, msgs <> [] /\ m w = (Val EXIT_FAILURE, set_stderr (w_stderr w ++ msgs) w).

Lemma refuses_one fmt args w : refuses (eprintf fmt args ;;; pret EXIT_FAILURE) w.
Proof. by exists [mkMsg fmt args]. Qed.

Lemma refuses_more fmt args (m : M Z) w :
  (forall w', refuses m w') -> refuses (eprintf fmt args ;;; m) w.
Proof.
  intros Hm. unfold eprintf, pbind, pmodify, refuses.
  destruct (Hm (set_stderr (w_stderr w ++ [mkMsg fmt args]) w)) as (msgs & _ & E).
  exists (mkMsg fmt args :: msgs). split; [done|]. rewrite E. simpl. by rewrite <- app_assoc.
Qed.

Lemma argc_wrong (argv : list string) n : zlen argv <> n -> negb (argc_is argv n) = true.
Proof. intros. unfold argc_is. apply negb_true_iff. by apply Z.eqb_neq. Qed.

(** Called with the wrong number of arguments, every program of the group
    prints a usage text on the standard error and returns [EXIT_FAILURE]; no file
    is opened or changed and no system call is made. *)
Theorem usage_errors (fuel : nat) (argv : list string) (w : world) :
  (length argv <> 4%nat -> refuses (CopyReadWrite.main fuel argv) w /\ refuses (CopySelect.main fuel argv) w) /\
  (length argv <> 3%nat -> refuses (CopySendfile.main fuel argv) w /\ refuses (CopyMmap.main argv) w) /\
  (length argv <> 2%nat -> refuses (CatSendfile.main fuel argv) w) /\
  (length argv <> 5%nat -> refuses (CopySplice.main fuel argv) w /\ refuses (CopySpliceSelect.main fuel argv) w).
Proof.
  unfold CopyReadWrite.main, CopySelect.main, CopySendfile.main, CopyMmap.main, CatSendfile.main,
    CopySplice.main, CopySpliceSelect.main.
  split_and!; intros Hn; rewrite ?argc_wrong by lia; split_and?;
    repeat first [apply refuses_one | apply refuses_more; intros ?].
Qed.

Lemma usage_errors_witness : refuses (CopyReadWrite.main 0 ["cp"; "a"]) demo_world.
Proof. apply (usage_errors 0 ["cp"; "a"] demo_world). simpl. lia. Defined.

Lemma demo_ok : world_ok demo_world.
Proof.
  split; [|simpl; lia]. intros fd Hfd. simpl in *. by rewrite !lookup_insert_ne by lia.
Qed.

(** With an empty buffer the first read returns 0, which the loop takes for the
    end of the file. *)
Lemma wp_copy_empty_buffer fuel fi fo src (Q : unit -> world -> Prop) X w :
  world_ok w -> w_files w !! fi = Some src -> fi <> fo -> (1 < fuel)%nat ->
  (forall c w', bad_status c -> X c w') ->
  (forall w', w_files w' = <[fo := []]> (w_files w) -> w_fds w' = w_fds w -> Q tt w') ->
  wp (CopyReadWrite.copy_file fuel fi fo 0) Q X w.
Proof.
  intros Hok Hsrc Hne Hfuel HX HQ. unfold CopyReadWrite.copy_file, new_array.
  wp_step. wp_step. unfold wp at 1, next_answer. cbv iota beta.
  apply wp_ret. apply (wp_open_both _ _ _ _ _ fi fo src); try done; [by apply world_ok_below|].
  intros fdin fdout w' Hc Hi Ho _. wp_step.
  destruct fuel as [|fuel]; [lia|]. rewrite iter_unfold. wp_step.
  unfold CopyReadWrite.copy_round at 1. wp_step.
  pose proof (cy_off _ _ _ _ _ _ _ _ _ Hc).
  apply (wp_read_file _ _ _ _ _ _ _ _ _ _ _ (copying_file_in Hc)); try (simpl; lia); [call_fails|].
  intros n Hn _ _. assert (n = 0) as -> by lia. pass_check. wp_step.
  rewrite iter_unfold. repeat wp_step. simpl. do 4 wp_step.
  eapply wp_close_both; eauto. eapply (copying_same Hc); simpl; [|done].
  rewrite insert_id; [done|]. by rewrite Z.add_0_r, (cy_in _ _ _ _ _ _ _ _ _ Hc).
Qed.

(** The number of pages is not validated.  When the buffer size the program
    computes is 0 (zero pages, or a page count whose product with the page size
    wraps around 32 bits) [copy_file_read_write] reports success although it has
    replaced the output by an empty file. *)
Theorem read_write_empty_buffer (fuel : nat) (prog fi fo np : string) (src : list byte) (w : world) :
  world_ok w -> w_files w !! fi = Some src -> fi <> fo ->
  buffer_size w np = 0 -> (1 < fuel)%nat ->
  copies (CopyReadWrite.main fuel [prog; fi; fo; np]) fo [] w.
Proof.
  intros Hok Hsrc Hne Hb Hfuel. unfold copies, CopyReadWrite.main, getpagesize.
  repeat wp_step; zbool; [done|]. unfold buffer_size in Hb. change (argv_at _ 3) with np.
  rewrite Hb. eapply wp_copy_empty_buffer; eauto. intros w' ? ?. by wp_step.
Qed.

Lemma read_write_empty_buffer_witness :
  copies (CopyReadWrite.main 2 ["cp"; "a"; "b"; "1048576"]) "b" [] demo_world.
Proof.
  eapply (read_write_empty_buffer 2 "cp" "a" "b" "1048576" (replicate 20 Byte.x61) demo_world);
    [apply demo_ok|reflexivity|done|reflexivity|lia].
Defined.

(** A kernel that fills the pipe in one call and then reports only the input
    file (descriptor 5) ready. *)
Definition greedy_world (n : nat) : world :=
  world_of (fun _ => mkAnswer None 1000000 0 (fun fd => fd =? 5) Byte.x00 (fun _ => (0, 0)) []) {["a" := replicate n Byte.x61]}.

(** [copy_file_splice_select] can fail on a healthy kernel.  With
    [setbufsize] = 0 it never asks how large the pipe is: given 32 pages and a
    file of 70000 bytes it splices into the full 64 KiB pipe, gets [EAGAIN] and
    exits with status 11, leaving an empty copy. *)
Theorem splice_select_eagain :
  let '(r, w') := CopySpliceSelect.main 10 ["cp"; "a"; "b"; "0"; "32"] (greedy_world (Z.to_nat 70000)) in
  r = Exit EAGAIN /\ w_files w' !! "b" = Some [].
Proof. vm_compute. done. Qed.

Lemma demo_file : w_files demo_world !! "a" = Some (replicate 20 Byte.x61).
Proof. reflexivity. Qed.
Lemma read_write_copies_witness :
  copies (CopyReadWrite.main 30 ["cp"; "a"; "b"; "1"]) "b" (replicate 20 Byte.x61) demo_world.
Proof.
  pose proof (read_write_copies 30 "cp" "a" "b" "1" demo_world demo_ok ltac:(done) eq_refl) as H. unfold copies_file, file_length in H.
  rewrite demo_file in H. apply H. cbn. lia.
Defined.

Lemma select_copies_witness :
  copies (CopySelect.main 50 ["cp"; "a"; "b"; "1"]) "b" (replicate 20 Byte.x61) demo_world.
Proof.
  pose proof (select_copies 50 "cp" "a" "b" "1" demo_world demo_ok ltac:(done) eq_refl) as H. unfold copies_file, file_length in H.
  rewrite demo_file in H. apply H. cbn. lia.
Defined.

Lemma sendfile_copies_witness :
  copies (CopySendfile.main 30 ["cp"; "a"; "b"]) "b" (replicate 20 Byte.x61) demo_world.
Proof. apply sendfile_copies; [apply demo_ok|reflexivity|done|simpl; lia]. Defined.

Lemma cat_sendfile_prints_witness :
  wp (CatSendfile.main 30 ["cat"; "a"])
     (fun code w' => code = EXIT_SUCCESS /\ w_out w' = w_out demo_world ++ replicate 20 Byte.x61 /\
        w_files w' = w_files demo_world /\ w_fds w' = w_fds demo_world)
     (fun c _ => bad_status c) demo_world.
Proof. apply cat_sendfile_prints; [apply demo_ok|reflexivity|reflexivity|simpl; lia]. Defined.

Lemma splice_copies_witness :
  copies (CopySplice.main 30 ["cp"; "a"; "b"; "1"; "8"]) "b" (replicate 20 Byte.x61) demo_world.
Proof. apply splice_copies; [apply demo_ok|reflexivity|done|reflexivity|simpl; lia]. Defined.

Lemma splice_select_copies_witness :
  copies (CopySpliceSelect.main 50 ["cp"; "a"; "b"; "1"; "8"]) "b" (replicate 20 Byte.x61) demo_world.
Proof.
  apply splice_select_copies; [apply demo_ok|reflexivity|done|split; reflexivity|discriminate|simpl; lia].
Defined.

Lemma mmap_copies_witness :
  copies (CopyMmap.main ["cp"; "a"; "b"]) "b" (replicate 20 Byte.x61) demo_world.
Proof. apply mmap_copies; [apply demo_ok|reflexivity|done|done|reflexivity]. Defined.
