(* ===== verification/Threads.v ===== *)
(** Threads that share memory, one mutex and condition variables.  A thread runs
    a [stmt], the statements of a C function with the pthread calls made
    explicit; [compile] flattens it and [go] executes one instruction of one
    thread, so that the reachable states of a program are those of all
    interleavings, spurious wake-ups included.  Nothing here translates code
    of the repository.  The second half is a proof method: an outline gives for
    every program point the thread's contribution to the shared counters, and
    the conditions [ok] and [wakes] on single instructions imply a global
    invariant, that no assertion fails and that no deadlock is reachable. *)

From stdpp Require Import prelude list relations.
From Stdlib Require Import ZArith Lia.
From S2P Require Import Prelude.

Declare Scope stmt_scope.
Delimit Scope stmt_scope with stmt.

(** Proof outlines talk about ranges of program points, and count threads. *)
Definition span (a b pc : nat) : bool := (a <=? pc)%nat && (pc <=? b)%nat.
Definition b2z (b : bool) : Z := if b then 1 else 0.
Lemma span_sub a b c d pc : (c <= a)%nat -> (b <= d)%nat -> span a b pc = true -> span c d pc = true.
Proof. unfold span. rewrite !andb_true_iff, !Nat.leb_le. lia. Qed.

(** * Language *)

Section language.
Context {St L : Type}.

(** A statement; [St] is the shared memory, [L] the locals of a thread. *)
Inductive stmt :=
| SSkip
| SSeq (s1 s2 : stmt)
| SDo (f : St -> L -> St * L)                            (** assignments *)
| SIf (b : St -> L -> bool) (s1 s2 : stmt)
| SWhile (b : St -> L -> bool) (s : stmt)
| SAssert (b : St -> L -> bool)                          (** CHECK_ASSERT *)
| SAwait (b : St -> L -> bool) (f : St -> L -> St * L)   (** a blocking call *)
| SLock | SUnlock
| SWait (c : nat) | SSignal (c : nat) | SBroadcast (c : nat)
| SCall (s : stmt)                                       (** a function body *)
| SReturn.                                               (** leaves the nearest [SCall] *)

Inductive instr :=
| IDo (f : St -> L -> St * L)
| IBr (b : St -> L -> bool) (n : nat)   (** skip [n] instructions if false *)
| IJmp (n : nat)                        (** skip [n] instructions *)
| IBack (n : nat)                       (** back to the [n]-th instruction before *)
| IAssert (b : St -> L -> bool)
| IAwait (b : St -> L -> bool) (f : St -> L -> St * L)
| ILock | IUnlock
| IWait (c : nat) | ISignal (c : nat) | IBroadcast (c : nat).

(** [k] is the number of instructions between [s] and the end of the function. *)
Fixpoint compile_in (k : nat) (s : stmt) : list instr :=
  match s with
  | SSkip => []
  | SSeq s1 s2 => let c2 := compile_in k s2 in compile_in (length c2 + k) s1 ++ c2
  | SDo f => [IDo f]
  | SIf b s1 s2 =>
      let c2 := compile_in k s2 in let c1 := compile_in (S (length c2 + k)) s1 in
      IBr b (S (length c1)) :: c1 ++ IJmp (length c2) :: c2
  | SWhile b s =>
      let c := compile_in (S k) s in IBr b (S (length c)) :: c ++ [IBack (S (length c))]
  | SAssert b => [IAssert b]
  | SAwait b f => [IAwait b f]
  | SLock => [ILock]
  | SUnlock => [IUnlock]
  | SWait c => [IWait c]
  | SSignal c => [ISignal c]
  | SBroadcast c => [IBroadcast c]
  | SCall s => compile_in 0 s
  | SReturn => [IJmp k]
  end.
Definition compile (s : stmt) : list instr := compile_in 0 s.

(** A thread sleeps on a condition, has been woken and competes for the mutex,
    has failed an assertion, or runs. *)
Inductive status := Running | Asleep (c : nat) | Woken | Failed.
#[global] Instance status_eq_dec : EqDecision status.
Proof. solve_decision. Defined.

Record thread := mkThread { t_pc : nat; t_status : status; t_loc : L }.

Record config := mkConfig {
  mem : St;
  owner : option nat;        (** the thread that holds the mutex *)
  threads : list thread;
}.

Definition asleep_on (c : nat) (th : thread) : bool := bool_decide (t_status th = Asleep c).
Definition wake (th : thread) : thread := mkThread (t_pc th) Woken (t_loc th).
Definition wake_on (c : nat) (th : thread) : thread := if asleep_on c th then wake th else th.

Section execution.
Context (code : nat -> list instr).

(** Thread [t] runs one instruction; [k] is the sleeper a signal wakes. *)
Definition go (t k : nat) (cf : config) : option config :=
  let '(mkConfig m o ths) := cf in
  th ← ths !! t;
  let '(mkThread pc st l) := th in
  let run pc' l' := <[t := mkThread pc' Running l']> in
  match st with
  | Asleep _ | Failed => None
  | Woken => if decide (o = None) then Some (mkConfig m (Some t) (run (S pc) l ths)) else None
  | Running =>
      i ← code t !! pc;
      match i with
      | IDo f => let '(m', l') := f m l in Some (mkConfig m' o (run (S pc) l' ths))
      | IBr b n => Some (mkConfig m o (run (if b m l then S pc else S pc + n)%nat l ths))
      | IJmp n => Some (mkConfig m o (run (S pc + n)%nat l ths))
      | IBack n => Some (mkConfig m o (run (pc - n)%nat l ths))
      | IAssert b =>
          Some (mkConfig m o (if b m l then run (S pc) l ths else <[t := mkThread pc Failed l]> ths))
      | IAwait b f =>
          if b m l then let '(m', l') := f m l in Some (mkConfig m' o (run (S pc) l' ths)) else None
      | ILock => if decide (o = None) then Some (mkConfig m (Some t) (run (S pc) l ths)) else None
      | IUnlock => if decide (o = Some t) then Some (mkConfig m None (run (S pc) l ths)) else None
      | IWait c =>
          if decide (o = Some t) then Some (mkConfig m None (<[t := mkThread pc (Asleep c) l]> ths))
          else None
      | IBroadcast c => Some (mkConfig m o (wake_on c <$> run (S pc) l ths))
      | ISignal c =>
          match ths !! k with
          | Some sl =>
              if asleep_on c sl then Some (mkConfig m o (<[k := wake sl]> (run (S pc) l ths)))
              else if existsb (asleep_on c) ths then None
              else Some (mkConfig m o (run (S pc) l ths))
          | None => if existsb (asleep_on c) ths then None else Some (mkConfig m o (run (S pc) l ths))
          end
      end
  end.

(** POSIX lets a wait return without a signal. *)
Definition spurious (t : nat) (cf : config) : option config :=
  th ← threads cf !! t;
  match t_status th with
  | Asleep _ => Some (mkConfig (mem cf) (owner cf) (<[t := wake th]> (threads cf)))
  | _ => None
  end.

Inductive step (cf cf' : config) : Prop :=
| step_go t k : go t k cf = Some cf' -> step cf cf'
| step_spurious t : spurious t cf = Some cf' -> step cf cf'.

Abbreviation reachable := (rtc step).

(** Run a schedule of [(thread, sleeper)] pairs; a thread that cannot move is
    skipped. *)
Fixpoint run_schedule (l : list (nat * nat)) (cf : config) : config :=
  match l with
  | [] => cf
  | (t, k) :: l' => run_schedule l' (default cf (go t k cf))
  end.

Lemma run_schedule_reachable l cf : reachable cf (run_schedule l cf).
Proof.
  revert cf. induction l as [|[t k] l IH]; simpl; intros cf; [done|].
  destruct (go t k cf) as [cf'|] eqn:E; [|apply IH]. eapply rtc_l; [by eapply step_go|apply IH].
Qed.

(** No thread can take a step of its own. *)
Definition blocked (cf : config) : Prop := forall t k, go t k cf = None.
Definition finished (t : nat) (th : thread) : Prop :=
  t_status th = Running /\ code t !! t_pc th = None.
End execution.
End language.

Arguments stmt : clear implicits.
Arguments instr : clear implicits.
Arguments thread : clear implicits.
Arguments config : clear implicits.

Notation "s1 ;; s2" := (SSeq s1 s2) : stmt_scope.

(** * Proof outlines *)

Section outline.
Context {St L K : Type}.
Context (code : nat -> list (instr St L)).

(** Shared counters, and what a thread at a program point adds to each. *)
Context (count : K -> St -> Z) (weight : nat -> nat -> L -> K -> Z).
(** The points at which a running thread holds the mutex, and what it may
    assume there. *)
Context (inside : nat -> nat -> bool) (says : nat -> nat -> St -> L -> Prop).
(** What holds of its locals wherever it stands. *)
Context (lsays : nat -> nat -> L -> Prop).
(** An invariant of the memory alone, and the number of threads. *)
Context (G : St -> Prop) (N : Z).

Hypothesis weight_01 : forall t pc l k, 0 <= weight t pc l k <= 1.

Fixpoint total (k : K) (t0 : nat) (l : list (thread L)) : Z :=
  match l with
  | [] => 0
  | th :: l' => weight t0 (t_pc th) (t_loc th) k + total k (S t0) l'
  end.

Lemma total_insert k t0 l i th th' :
  l !! i = Some th ->
  total k t0 (<[i := th']> l) =
    total k t0 l - weight (t0 + i) (t_pc th) (t_loc th) k + weight (t0 + i) (t_pc th') (t_loc th') k.
Proof.
  revert t0 i. induction l as [|x l IH]; intros t0 [|i] H; simplify_eq/=.
  - rewrite Nat.add_0_r. lia.
  - rewrite (IH (S t0) i) by done. replace (S t0 + i)%nat with (t0 + S i)%nat by lia. lia.
Qed.

Lemma total_nonneg k t0 l : 0 <= total k t0 l <= Z.of_nat (length l).
Proof.
  revert t0. induction l as [|x l IH]; intros t0; simpl; [lia|].
  specialize (IH (S t0)). pose proof (weight_01 t0 (t_pc x) (t_loc x) k). lia.
Qed.

Lemma total_bounds k t0 l i th :
  l !! i = Some th ->
  weight (t0 + i) (t_pc th) (t_loc th) k <= total k t0 l <=
    weight (t0 + i) (t_pc th) (t_loc th) k + (Z.of_nat (length l) - 1).
Proof.
  revert t0 i. induction l as [|x l IH]; intros t0 [|i] H; simplify_eq/=.
  - rewrite Nat.add_0_r. pose proof (total_nonneg k (S t0) l). lia.
  - specialize (IH (S t0) i H). replace (S t0 + i)%nat with (t0 + S i)%nat in IH by lia.
    pose proof (weight_01 t0 (t_pc x) (t_loc x) k). lia.
Qed.

Lemma total_two k t0 l i j thi thj :
  i <> j -> l !! i = Some thi -> l !! j = Some thj ->
  weight (t0 + i) (t_pc thi) (t_loc thi) k + weight (t0 + j) (t_pc thj) (t_loc thj) k <= total k t0 l.
Proof.
  revert t0 i j. induction l as [|x l IH]; intros t0 [|i] [|j] Hne Hi Hj; simplify_eq/=.
  - pose proof (total_bounds k (S t0) l j thj Hj). rewrite Nat.add_0_r.
    replace (t0 + S j)%nat with (S t0 + j)%nat by lia. lia.
  - pose proof (total_bounds k (S t0) l i thi Hi). rewrite Nat.add_0_r.
    replace (t0 + S i)%nat with (S t0 + i)%nat by lia. lia.
  - specialize (IH (S t0) i j ltac:(lia) Hi Hj). pose proof (weight_01 t0 (t_pc x) (t_loc x) k).
    replace (t0 + S i)%nat with (S t0 + i)%nat by lia.
    replace (t0 + S j)%nat with (S t0 + j)%nat by lia. lia.
Qed.

Lemma total_filter k (P : thread L -> bool) t0 l :
  (forall i th, l !! i = Some th -> weight (t0 + i) (t_pc th) (t_loc th) k = if P th then 1 else 0) ->
  total k t0 l = Z.of_nat (length (List.filter P l)).
Proof.
  revert t0. induction l as [|x l IH]; intros t0 H; [done|]. simpl.
  rewrite (IH (S t0)).
  - specialize (H 0%nat x eq_refl). rewrite Nat.add_0_r in H. rewrite H. destruct (P x); simpl; lia.
  - intros i th Hi. replace (S t0 + i)%nat with (t0 + S i)%nat by lia. by apply H.
Qed.

Lemma total_own k t0 l i th :
  l !! i = Some th -> (forall t' pc' l', t' <> (t0 + i)%nat -> weight t' pc' l' k = 0) ->
  total k t0 l = weight (t0 + i) (t_pc th) (t_loc th) k.
Proof.
  intros Hi H.
  assert (forall l1 t1, (forall j, (j < length l1)%nat -> (t1 + j)%nat <> (t0 + i)%nat) -> total k t1 l1 = 0) as Hz.
  { induction l1 as [|x l1 IH]; intros t1 Hj; [done|]. simpl. rewrite IH, H; [done| |].
    - specialize (Hj 0%nat). rewrite Nat.add_0_r in Hj. apply Hj. simpl. lia.
    - intros j Hlt. specialize (Hj (S j)). replace (S t1 + j)%nat with (t1 + S j)%nat by lia. apply Hj. simpl. lia. }
  rewrite <- (list_insert_id l i th Hi) at 1. rewrite (total_insert k t0 l i th th Hi).
  revert t0 H Hz Hi. revert i. induction l as [|x l IH]; intros i t0 H Hz Hi; [done|].
  destruct i as [|i]; simplify_eq/=.
  - rewrite (Hz l (S t0)) by (intros; lia). rewrite Nat.add_0_r. lia.
  - rewrite (H t0) by lia. replace (t0 + S i)%nat with (S t0 + i)%nat in * by lia.
    specialize (IH i (S t0)). rewrite Z.add_0_l. apply IH; [|intros; apply Hz; intros|done].
    + intros. apply H. lia.
    + match goal with Hx : context [length _] |- _ => apply Hx end; lia.
Qed.

Definition dominated (k1 k2 : K) : Prop := forall t pc l, weight t pc l k1 <= weight t pc l k2.

Lemma total_le k1 k2 t0 l : dominated k1 k2 -> total k1 t0 l <= total k2 t0 l.
Proof.
  intros Hd. revert t0. induction l as [|x l IH]; intros t0; simpl; [lia|].
  specialize (IH (S t0)). specialize (Hd t0 (t_pc x) (t_loc x)). lia.
Qed.

Lemma total_dominated k1 k2 t0 l i th :
  dominated k1 k2 -> l !! i = Some th ->
  total k1 t0 l - weight (t0 + i) (t_pc th) (t_loc th) k1 <= total k2 t0 l - weight (t0 + i) (t_pc th) (t_loc th) k2.
Proof.
  intros Hd. revert t0 i. induction l as [|x l IH]; intros t0 [|i] H; simplify_eq/=.
  - rewrite Nat.add_0_r. pose proof (total_le k1 k2 (S t0) l Hd). lia.
  - specialize (IH (S t0) i H). replace (S t0 + i)%nat with (t0 + S i)%nat in IH by lia.
    specialize (Hd t0 (t_pc x) (t_loc x)). lia.
Qed.

Lemma total_pos k t0 l :
  0 < total k t0 l -> exists i th, l !! i = Some th /\ 0 < weight (t0 + i) (t_pc th) (t_loc th) k.
Proof.
  revert t0. induction l as [|x l IH]; intros t0; simpl; [lia|]. intros H.
  destruct (decide (0 < weight t0 (t_pc x) (t_loc x) k)).
  - exists 0%nat, x. by rewrite Nat.add_0_r.
  - destruct (IH (S t0) ltac:(lia)) as (i & th & ? & ?). exists (S i), th.
    by replace (t0 + S i)%nat with (S t0 + i)%nat by lia.
Qed.

Lemma total_map k t0 l (f : thread L -> thread L) :
  (forall th, t_pc (f th) = t_pc th /\ t_loc (f th) = t_loc th) ->
  total k t0 (f <$> l) = total k t0 l.
Proof.
  intros Hf. revert t0. induction l as [|x l IH]; intros t0; simpl; [done|].
  destruct (Hf x) as [-> ->]. by rewrite IH.
Qed.

(** ** Conditions on single instructions *)

(** What is known of the memory when thread [t] stands at [pc]: the counters
    are the sums of the threads' contributions. *)
Record facts (t pc : nat) (l : L) (m : St) : Prop := {
  f_count k : weight t pc l k <= count k m <= weight t pc l k + (N - 1);
  f_dom k1 k2 : dominated k1 k2 -> count k1 m - weight t pc l k1 <= count k2 m - weight t pc l k2;
  f_G : G m;
  f_own k : (forall t' pc' l', t' <> t -> weight t' pc' l' k = 0) -> count k m = weight t pc l k;
}.

Definition knows (t pc : nat) (m : St) (l : L) : Prop :=
  facts t pc l m /\ lsays t pc l /\ (inside t pc = true -> says t pc m l).

(** Control moves from [pc] to [pc'] when [cond] holds, nothing else changes;
    a move that cannot happen may end anywhere. *)
Definition moves (t pc pc' : nat) (cond : St -> L -> Prop) : Prop :=
  (inside t pc' = inside t pc \/ forall m l, knows t pc m l -> ~ cond m l) /\
  (forall m l, knows t pc m l -> cond m l ->
     (forall k, weight t pc' l k = weight t pc l k) /\ lsays t pc' l /\
     (inside t pc' = true -> says t pc' m l)).

(** Thread [t] updates memory and locals and goes to the next instruction. *)
Definition updates (t pc : nat) (b : St -> L -> bool) (f : St -> L -> St * L) : Prop :=
  inside t (S pc) = inside t pc /\
  (forall m l, knows t pc m l -> b m l = true ->
     (forall k, count k (f m l).1 = count k m + weight t (S pc) (f m l).2 k - weight t pc l k) /\
     G (f m l).1 /\ lsays t (S pc) (f m l).2 /\
     (inside t (S pc) = true -> says t (S pc) (f m l).1 (f m l).2) /\
     (inside t pc = false -> forall t' pc' l', says t' pc' m l' -> says t' pc' (f m l).1 l')).

Definition always {A B} (_ : A) (_ : B) : bool := true.

Definition ok (t pc : nat) : Prop :=
  match code t !! pc with
  | None => inside t pc = false
  | Some (IDo f) => updates t pc always f
  | Some (IAwait b f) => inside t pc = false /\ updates t pc b f
  | Some (IBr b n) =>
      moves t pc (S pc) (fun m l => b m l = true) /\ moves t pc (S pc + n) (fun m l => b m l = false)
  | Some (IJmp n) => moves t pc (S pc + n) (fun _ _ => True)
  | Some (IBack n) => moves t pc (pc - n) (fun _ _ => True)
  | Some (IAssert b) =>
      moves t pc (S pc) (fun _ _ => True) /\ (forall m l, knows t pc m l -> b m l = true)
  | Some ILock =>
      inside t pc = false /\ inside t (S pc) = true /\
      (forall l k, weight t (S pc) l k = weight t pc l k) /\
      (forall m l, facts t pc l m -> lsays t pc l -> lsays t (S pc) l /\ says t (S pc) m l)
  | Some IUnlock =>
      inside t pc = true /\ inside t (S pc) = false /\
      (forall l k, weight t (S pc) l k = weight t pc l k) /\ (forall l, lsays t pc l -> lsays t (S pc) l)
  | Some (IWait _) =>
      inside t pc = true /\ inside t (S pc) = true /\
      (forall l k, weight t (S pc) l k = weight t pc l k) /\
      (forall m l, facts t pc l m -> lsays t pc l -> lsays t (S pc) l /\ says t (S pc) m l)
  | Some (ISignal _) | Some (IBroadcast _) => moves t pc (S pc) (fun _ _ => True)
  end.

(** ** The invariant of a configuration *)

Definition at_wait (t : nat) (th : thread L) : Prop :=
  match t_status th with
  | Running => True
  | Asleep c => code t !! t_pc th = Some (IWait c)
  | Woken => exists c, code t !! t_pc th = Some (IWait c)
  | Failed => False
  end.

Definition holds_mutex (t : nat) (th : thread L) : Prop :=
  t_status th = Running /\ inside t (t_pc th) = true.

Record Inv (cf : config St L) : Prop := {
  inv_len : Z.of_nat (length (threads cf)) = N;
  inv_owner t : owner cf = Some t <-> exists th, threads cf !! t = Some th /\ holds_mutex t th;
  inv_says t th : threads cf !! t = Some th -> holds_mutex t th -> says t (t_pc th) (mem cf) (t_loc th);
  inv_count k : count k (mem cf) = total k 0 (threads cf);
  inv_G : G (mem cf);
  inv_wait t th : threads cf !! t = Some th -> at_wait t th;
  inv_lsays t th : threads cf !! t = Some th -> lsays t (t_pc th) (t_loc th);
}.

Hypothesis all_ok : forall t pc, ok t pc.

Lemma inv_facts cf t th : Inv cf -> threads cf !! t = Some th -> facts t (t_pc th) (t_loc th) (mem cf).
Proof.
  intros [Hlen _ _ Hc HG _ _] Ht. constructor; [|intros k1 k2 Hd|done|].
  - intros k. pose proof (total_bounds k 0 _ _ _ Ht). rewrite Hc. simpl in *. lia.
  - pose proof (total_dominated k1 k2 0 _ _ _ Hd Ht). rewrite !Hc. simpl in *. lia.
  - intros k Hk. rewrite Hc. by apply (total_own k 0 _ _ _ Ht).
Qed.

Lemma inv_knows cf t th :
  Inv cf -> threads cf !! t = Some th -> t_status th = Running -> knows t (t_pc th) (mem cf) (t_loc th).
Proof.
  intros HI Ht Hr. split_and!; [by apply inv_facts|by eapply inv_lsays|]. intros Hin. eapply inv_says; eauto. by split.
Qed.

(** One thread changes; every other one keeps its place. *)
Lemma inv_change cf t th th' m' o' :
  Inv cf -> threads cf !! t = Some th ->
  (forall k, count k m' = count k (mem cf) + weight t (t_pc th') (t_loc th') k - weight t (t_pc th) (t_loc th) k) ->
  G m' -> at_wait t th' -> lsays t (t_pc th') (t_loc th') ->
  (holds_mutex t th' -> says t (t_pc th') m' (t_loc th')) ->
  (o' = Some t <-> holds_mutex t th') ->
  (forall t2, t2 <> t -> o' = Some t2 <-> owner cf = Some t2) ->
  (m' = mem cf \/ (forall t2 pc2 l2, says t2 pc2 (mem cf) l2 -> says t2 pc2 m' l2) \/ owner cf = Some t) ->
  Inv (mkConfig m' o' (<[t := th']> (threads cf))).
Proof.
  intros HI Ht Hc HG Hw Hls Hs Ho Ho2 Hm. pose proof HI as [Hlen Hown Hsays Hcount _ Hwait Hlsays].
  assert (t < length (threads cf))%nat as Hlt by (by eapply lookup_lt_Some).
  constructor; simpl.
  - by rewrite length_insert.
  - intros t2. destruct (decide (t2 = t)) as [->|Hne].
    + rewrite Ho, list_lookup_insert_eq by done. naive_solver.
    + rewrite Ho2, list_lookup_insert_ne by done. apply Hown.
  - intros t2 th2. destruct (decide (t2 = t)) as [->|Hne].
    + rewrite list_lookup_insert_eq by done. by intros [= <-].
    + rewrite list_lookup_insert_ne by done. intros H2 Hh.
      destruct Hm as [->|[Hst|Hot]]; [eauto|eauto|].
      assert (owner cf = Some t2) by (apply Hown; eauto). congruence.
  - intros k. rewrite Hc, Hcount, (total_insert k 0 _ t th) by done. simpl. lia.
  - done.
  - intros t2 th2. destruct (decide (t2 = t)) as [->|Hne].
    + rewrite list_lookup_insert_eq by done. by intros [= <-].
    + rewrite list_lookup_insert_ne by done. eauto.
  - intros t2 th2. destruct (decide (t2 = t)) as [->|Hne].
    + rewrite list_lookup_insert_eq by done. by intros [= <-].
    + rewrite list_lookup_insert_ne by done. eauto.
Qed.

(** A thread that runs on without touching the mutex. *)
Lemma inv_run cf t th pc' m' l' :
  Inv cf -> threads cf !! t = Some th -> t_status th = Running ->
  inside t pc' = inside t (t_pc th) ->
  (forall k, count k m' = count k (mem cf) + weight t pc' l' k - weight t (t_pc th) (t_loc th) k) ->
  G m' -> lsays t pc' l' -> (inside t pc' = true -> says t pc' m' l') ->
  (m' = mem cf \/ (inside t (t_pc th) = false ->
     forall t2 pc2 l2, says t2 pc2 (mem cf) l2 -> says t2 pc2 m' l2)) ->
  Inv (mkConfig m' (owner cf) (<[t := mkThread pc' Running l']> (threads cf))).
Proof.
  intros HI Ht Hr Hin Hc HG Hls Hs Hm. pose proof HI as [_ Hown _ _ _ _ _].
  apply (inv_change cf t th); simpl; try done.
  - intros [_ H]. auto.
  - rewrite Hown. unfold holds_mutex. simpl. rewrite Hin. naive_solver.
  - destruct Hm as [->|Hm]; [by left|]. right.
    destruct (inside t (t_pc th)) eqn:E; [right|left; by apply Hm].
    apply Hown. exists th. by split.
Qed.

Lemma inv_moves cf t th pc' (cond : St -> L -> Prop) :
  Inv cf -> threads cf !! t = Some th -> t_status th = Running ->
  moves t (t_pc th) pc' cond -> cond (mem cf) (t_loc th) ->
  Inv (mkConfig (mem cf) (owner cf) (<[t := mkThread pc' Running (t_loc th)]> (threads cf))).
Proof.
  intros HI Ht Hr [[Hin|Hno] Hmv] Hc; [|by destruct (Hno _ _ (inv_knows _ _ _ HI Ht Hr))].
  destruct (Hmv _ _ (inv_knows _ _ _ HI Ht Hr) Hc) as (Hw & Hl & Hs).
  eapply inv_run; eauto; [intros k; rewrite Hw; lia|by eapply inv_G].
Qed.

Lemma inv_updates cf t th b f m' l' :
  Inv cf -> threads cf !! t = Some th -> t_status th = Running ->
  updates t (t_pc th) b f -> b (mem cf) (t_loc th) = true -> f (mem cf) (t_loc th) = (m', l') ->
  Inv (mkConfig m' (owner cf) (<[t := mkThread (S (t_pc th)) Running l']> (threads cf))).
Proof.
  intros HI Ht Hr [Hin Hup] Hb Hf.
  destruct (Hup _ _ (inv_knows _ _ _ HI Ht Hr) Hb) as (Hc & HG & Hl & Hs & Hst).
  rewrite Hf in *. simpl in *. eapply inv_run; eauto.
Qed.

(** The mutex is free and the thread takes it. *)
Lemma inv_acquire cf t th :
  Inv cf -> threads cf !! t = Some th -> owner cf = None ->
  inside t (S (t_pc th)) = true ->
  (forall l k, weight t (S (t_pc th)) l k = weight t (t_pc th) l k) ->
  (forall m l, facts t (t_pc th) l m -> lsays t (t_pc th) l ->
     lsays t (S (t_pc th)) l /\ says t (S (t_pc th)) m l) ->
  Inv (mkConfig (mem cf) (Some t) (<[t := mkThread (S (t_pc th)) Running (t_loc th)]> (threads cf))).
Proof.
  intros HI Ht Ho Hin Hw Hs.
  destruct (Hs _ _ (inv_facts _ _ _ HI Ht) (inv_lsays _ HI _ _ Ht)) as [Hl Hs'].
  apply (inv_change cf t th); simpl; try done.
  - intros k. rewrite Hw. lia.
  - by eapply inv_G.
  - naive_solver congruence.
  - by left.
Qed.

(** The thread gives the mutex back. *)
Lemma inv_release cf t th pc' st' :
  Inv cf -> threads cf !! t = Some th -> owner cf = Some t ->
  at_wait t (mkThread pc' st' (t_loc th)) -> lsays t pc' (t_loc th) ->
  ~ holds_mutex t (mkThread pc' st' (t_loc th)) ->
  (forall k, weight t pc' (t_loc th) k = weight t (t_pc th) (t_loc th) k) ->
  Inv (mkConfig (mem cf) None (<[t := mkThread pc' st' (t_loc th)]> (threads cf))).
Proof.
  intros HI Ht Ho Hat Hls Hno Hw. apply (inv_change cf t th); simpl; try done.
  - intros k. rewrite Hw. lia.
  - by eapply inv_G.
  - naive_solver congruence.
  - by left.
Qed.

(** Waking sleepers changes nothing else. *)
Lemma inv_wake cf t th :
  Inv cf -> threads cf !! t = Some th -> (exists c, t_status th = Asleep c) ->
  Inv (mkConfig (mem cf) (owner cf) (<[t := wake th]> (threads cf))).
Proof.
  intros HI Ht [c Hsl]. apply (inv_change cf t th); simpl; try done.
  - intros k. lia.
  - by eapply inv_G.
  - pose proof (inv_wait _ HI _ _ Ht) as Hw. unfold at_wait in *. rewrite Hsl in Hw. simpl. eauto.
  - by eapply (inv_lsays _ HI).
  - by intros [? _].
  - rewrite (inv_owner _ HI). unfold holds_mutex. simpl. naive_solver congruence.
  - by left.
Qed.

Lemma wake_on_pc c (th : thread L) : t_pc (wake_on c th) = t_pc th.
Proof. unfold wake_on. by destruct (asleep_on c th). Qed.

Lemma wake_on_running c (th : thread L) : t_status (wake_on c th) = Running <-> t_status th = Running.
Proof.
  unfold wake_on, asleep_on. case_bool_decide as E; simpl; [|done]. rewrite E. naive_solver.
Qed.

Lemma wake_on_loc c (th : thread L) : t_loc (wake_on c th) = t_loc th.
Proof. unfold wake_on. by destruct (asleep_on c th). Qed.

Lemma inv_wake_all cf c :
  Inv cf -> Inv (mkConfig (mem cf) (owner cf) (wake_on c <$> threads cf)).
Proof.
  intros [Hlen Hown Hsays Hcount HG Hwait Hlsays].
  assert (forall t th, holds_mutex t (wake_on c th) <-> holds_mutex t th) as Hh.
  { intros t th. unfold holds_mutex. by rewrite wake_on_running, wake_on_pc. }
  constructor; simpl.
  - by rewrite length_fmap.
  - intros t. rewrite Hown, list_lookup_fmap.
    destruct (threads cf !! t) as [th|]; simpl; [|naive_solver].
    split; intros (th' & [= <-] & ?); eexists; (split; [done|]); by apply Hh.
  - intros t th. rewrite list_lookup_fmap. intros (th0 & Ht & ->)%fmap_Some Hm.
    rewrite wake_on_pc, wake_on_loc. apply Hsays; [done|]. by apply Hh.
  - intros k. rewrite Hcount. symmetry. apply total_map. intros th. by rewrite wake_on_pc, wake_on_loc.
  - done.
  - intros t th. rewrite list_lookup_fmap. intros (th0 & Ht & ->)%fmap_Some.
    specialize (Hwait t th0 Ht). unfold at_wait, wake_on, asleep_on in *.
    case_bool_decide as E; [|done]. simpl. rewrite E in Hwait. eauto.
  - intros t th. rewrite list_lookup_fmap. intros (th0 & Ht & ->)%fmap_Some.
    rewrite wake_on_pc, wake_on_loc. eauto.
Qed.

Lemma inv_signal cf t k c th cf' :
  Inv cf -> threads cf !! t = Some th -> t_status th = Running ->
  code t !! t_pc th = Some (ISignal c) -> go code t k cf = Some cf' -> Inv cf'.
Proof.
  intros HI Ht Hr Hi Hgo. pose proof (all_ok t (t_pc th)) as Hok. unfold ok in Hok. rewrite Hi in Hok.
  assert (Inv (mkConfig (mem cf) (owner cf) (<[t := mkThread (S (t_pc th)) Running (t_loc th)]> (threads cf)))) as HI1
    by (by eapply inv_moves).
  destruct cf as [m o ths], th as [pc st l]; simpl in *; subst st. rewrite Ht in Hgo. simpl in Hgo. rewrite Hi in Hgo.
  simpl in Hgo. destruct (ths !! k) as [sl|] eqn:Hk.
  - destruct (asleep_on c sl) eqn:Hsl; [|destruct (existsb _ _); by simplify_eq].
    unfold asleep_on in Hsl. case_bool_decide as Ec; [|done].
    assert (k <> t) by (intros ->; simplify_eq/=; congruence). simplify_eq.
    apply (inv_wake (mkConfig m o _) k sl HI1); [|eauto].
    simpl. by rewrite list_lookup_insert_ne.
  - destruct (existsb _ _); by simplify_eq.
Qed.

(** Every step of every thread preserves the invariant. *)
Lemma inv_go cf t k cf' : Inv cf -> go code t k cf = Some cf' -> Inv cf'.
Proof.
  intros HI Hgo. destruct (threads cf !! t) as [th|] eqn:Ht; [|by destruct cf; simpl in *; rewrite Ht in Hgo].
  destruct (t_status th) eqn:Hst.
  2,4: destruct cf, th; simpl in *; rewrite Ht in Hgo; simpl in Hgo; by rewrite Hst in Hgo.
  - destruct (code t !! t_pc th) as [i|] eqn:Hi;
      [|destruct cf, th; simpl in *; subst; rewrite Ht in Hgo; simpl in Hgo; by rewrite Hi in Hgo].
    assert ((forall c, i <> ISignal c) -> Inv cf') as Hmain.
    2: { destruct i; try (by apply Hmain). by eapply inv_signal. }
    intros Hns. pose proof (all_ok t (t_pc th)) as Hok. unfold ok in Hok. rewrite Hi in Hok.
    destruct cf as [m o ths], th as [pc st l]; simpl in *; subst st.
    rewrite Ht in Hgo. simpl in Hgo. rewrite Hi in Hgo. simpl in Hgo.
    set (cf := mkConfig m o ths) in *. set (th := mkThread pc Running l).
    change (threads cf !! t = Some th) in Ht.
    destruct i; simpl in Hgo.
    + destruct (f m l) as [m' l'] eqn:Hf. simplify_eq. by eapply (inv_updates cf t th).
    + destruct Hok as [Hok1 Hok2]. destruct (b m l) eqn:Hb; simplify_eq.
      * by eapply (inv_moves cf t th _ _ HI Ht eq_refl Hok1).
      * by eapply (inv_moves cf t th _ _ HI Ht eq_refl Hok2).
    + simplify_eq. by eapply (inv_moves cf t th _ _ HI Ht eq_refl Hok).
    + simplify_eq. by eapply (inv_moves cf t th _ _ HI Ht eq_refl Hok).
    + destruct Hok as [Hok1 Hok2]. rewrite (Hok2 m l) in Hgo by (by apply (inv_knows cf t th)).
      simplify_eq. by eapply (inv_moves cf t th _ _ HI Ht eq_refl Hok1).
    + destruct Hok as [_ Hok]. destruct (b m l) eqn:Hb; [|done].
      destruct (f m l) as [m' l'] eqn:Hf. simplify_eq. by eapply (inv_updates cf t th).
    + destruct Hok as (_ & ? & ? & ?). case_decide as Ho; simplify_eq. by apply (inv_acquire cf t th).
    + destruct Hok as (_ & Hin & Hw & Hl). case_decide as Ho; simplify_eq.
      apply (inv_release cf t th); try done; [apply Hl; by eapply (inv_lsays cf HI t th)|].
      intros [_ ?]. simpl in *. congruence.
    + destruct Hok as (_ & Hin & Hw & Hl). case_decide as Ho; simplify_eq.
      apply (inv_release cf t th); try done; [by eapply (inv_lsays cf HI t th)|]. by intros [? _].
    + by destruct (Hns c).
    + simplify_eq. apply (inv_wake_all (mkConfig m o _)).
      by eapply (inv_moves cf t th _ _ HI Ht eq_refl Hok).
  - pose proof (inv_wait _ HI _ _ Ht) as Hw. unfold at_wait in Hw. rewrite Hst in Hw. destruct Hw as [c Hi].
    pose proof (all_ok t (t_pc th)) as Hok. unfold ok in Hok. rewrite Hi in Hok.
    destruct Hok as (_ & ? & ? & ?).
    destruct cf as [m o ths], th as [pc st l]; simpl in *; subst st. rewrite Ht in Hgo. simpl in Hgo.
    case_decide as Ho; simplify_eq. by apply (inv_acquire (mkConfig m None ths) t (mkThread pc Woken l)).
Qed.

Lemma inv_step cf cf' : Inv cf -> step code cf cf' -> Inv cf'.
Proof.
  intros HI [t k Hgo|t Hsp]; [by eapply inv_go|]. unfold spurious in Hsp.
  apply bind_Some in Hsp as (th & Ht & Hsp). destruct (t_status th) eqn:E; simplify_eq.
  apply inv_wake; eauto.
Qed.

Lemma inv_reachable cf cf' : Inv cf -> rtc (step code) cf cf' -> Inv cf'.
Proof. intros HI Hr. induction Hr as [|cf1 cf2 cf3 Hs _ IH]; [done|]. apply IH. by eapply inv_step. Qed.

(** ** Threads that cannot move

    [plain] code blocks only on the mutex and on conditions, and signals while
    it holds the mutex. *)
Definition plain (t pc : nat) : Prop :=
  match code t !! pc with
  | Some (IAwait _ _) => False
  | Some (ISignal _) => inside t pc = true
  | _ => True
  end.

Lemma existsb_asleep c (ths : list (thread L)) :
  existsb (asleep_on c) ths = true -> exists t th, ths !! t = Some th /\ t_status th = Asleep c.
Proof.
  intros (th & Hin & Hth)%existsb_exists. apply list_elem_of_In, list_elem_of_lookup in Hin as [t Ht].
  unfold asleep_on in Hth. case_bool_decide; [|done]. eauto.
Qed.

Lemma existsb_no_asleep c (ths : list (thread L)) t th :
  existsb (asleep_on c) ths = false -> ths !! t = Some th -> t_status th <> Asleep c.
Proof.
  intros Hno Ht Hs. assert (existsb (asleep_on c) ths = true); [|congruence].
  apply existsb_exists. exists th. split.
  - apply list_elem_of_In, list_elem_of_lookup. eauto.
  - unfold asleep_on. by rewrite bool_decide_true.
Qed.

Lemma owner_runs cf t th :
  Inv cf -> plain t (t_pc th) -> threads cf !! t = Some th -> holds_mutex t th ->
  exists k cf', go code t k cf = Some cf'.
Proof.
  intros HI Hpl Ht [Hr Hin]. unfold plain in Hpl.
  assert (owner cf = Some t) as Ho by (apply (inv_owner _ HI); exists th; by split).
  pose proof (all_ok t (t_pc th)) as Hok. unfold ok in Hok.
  destruct cf as [m o ths], th as [pc st l]; simpl in *; subst st o. rewrite Ht. simpl.
  destruct (code t !! pc) as [i|] eqn:Hi; rewrite ?Hi in *; [|congruence]. simpl.
  destruct i as [f| | | | |b f| | |c|c|c]; try done; try (exists 0%nat; case_decide; [by eexists|done]); try (exists 0%nat; by eexists).
  - exists 0%nat. destruct (f m l). by eexists.
  - destruct Hok. congruence.
  - destruct (existsb (asleep_on c) ths) eqn:E.
    + apply existsb_asleep in E as (k & sl & Hk & Hs). exists k. rewrite Hk. unfold asleep_on.
      rewrite bool_decide_true by done. by eexists.
    + exists (length ths). rewrite (proj2 (lookup_ge_None _ _)) by done. by eexists.
Qed.

(** When no thread can move, each sleeps or has finished. *)
Lemma blocked_rest cf :
  (forall t pc, plain t pc) -> Inv cf -> blocked code cf ->
  forall t th, threads cf !! t = Some th -> (exists c, t_status th = Asleep c) \/ finished code t th.
Proof.
  intros Hplain HI Hb.
  assert (owner cf = None) as Ho.
  { destruct (owner cf) as [t|] eqn:E; [|done]. apply (inv_owner _ HI) in E as (th & Ht & Hm).
    destruct (owner_runs _ _ _ HI (Hplain _ _) Ht Hm) as (k & cf' & Hgo). by rewrite Hb in Hgo. }
  intros t th Ht. specialize (Hb t 0%nat). pose proof (inv_wait _ HI _ _ Ht) as Hat. unfold at_wait in Hat.
  pose proof (Hplain t (t_pc th)) as Hpl. unfold plain in Hpl.
  pose proof (all_ok t (t_pc th)) as Hok. unfold ok in Hok.
  assert (~ holds_mutex t th) as Hnm.
  { intros Hm. assert (owner cf = Some t) by (apply (inv_owner _ HI); eauto). congruence. }
  destruct cf as [m o ths], th as [pc st l]; simpl in *. rewrite Ht in Hb. simpl in Hb.
  destruct st as [|c| |]; [|eauto|by rewrite decide_True in Hb|done].
  right. split; [done|]. simpl. destruct (code t !! pc) as [i|] eqn:Hi; [exfalso|done].
  simpl in Hb. rewrite ?Hi in *.
  assert (inside t pc = false) as Hin by (destruct (inside t pc) eqn:E; [by destruct Hnm|done]).
  destruct i as [f| | | | |b f| | |c|c|c]; try done.
  - by destruct (f m l).
  - by rewrite decide_True in Hb.
  - destruct Hok. congruence.
  - destruct Hok. congruence.
  - congruence.
Qed.

(** ** No lost wake-ups

    [hk] are the counters that tell whether the resource is held, [waits c] the
    counter of the threads waiting on condition [c], and a [hot] point is one at
    which a running thread is about to take the resource or to wake a sleeper. *)
Context (hot : nat -> nat -> bool) (waits : nat -> option K) (hk : list K).

Definition held (m : St) : Prop := exists k, k ∈ hk /\ 0 < count k m.
Definition idle (m : St) : Prop := forall c k, waits c = Some k -> count k m = 0.

Definition hot_moves (t pc pc' : nat) (cond : St -> L -> Prop) : Prop :=
  forall m l, knows t pc m l -> cond m l -> hot t pc = true -> hot t pc' = true \/ held m \/ idle m.

Definition wakes (t pc : nat) : Prop :=
  match code t !! pc with
  | None => hot t pc = false /\ forall l, lsays t pc l -> Forall (fun k => weight t pc l k = 0) hk
  | Some (IDo f) => forall m l, knows t pc m l -> hot t pc = true \/ held m ->
      hot t (S pc) = true \/ held (f m l).1 \/ idle (f m l).1
  | Some (IAwait _ _) => False
  | Some (IBr b n) =>
      hot_moves t pc (S pc) (fun m l => b m l = true) /\
      hot_moves t pc (S pc + n) (fun m l => b m l = false)
  | Some (IJmp n) => hot_moves t pc (S pc + n) (fun _ _ => True)
  | Some (IBack n) => hot_moves t pc (pc - n) (fun _ _ => True)
  | Some (IAssert _) | Some ILock | Some IUnlock => hot_moves t pc (S pc) (fun _ _ => True)
  | Some (IWait c) =>
      hot t (S pc) = true /\ (forall l, Forall (fun k => weight t pc l k = 0) hk) /\
      (exists k, waits c = Some k /\ forall l, weight t pc l k = 1) /\ (forall m l, knows t pc m l -> held m)
  | Some (ISignal c) => inside t pc = true /\ forall m l, knows t pc m l -> hot t pc = true ->
      hot t (S pc) = true \/ held m \/
      exists k, waits c = Some k /\ 0 < count k m /\ weight t pc l k = 0
  | Some (IBroadcast c) => forall m l, knows t pc m l -> hot t pc = true ->
      hot t (S pc) = true \/ held m \/ (forall c' k, c' <> c -> waits c' = Some k -> count k m = 0)
  end.

(** The waiting counters count waiting threads. *)
Definition wait_points : Prop := forall t pc l c k, waits c = Some k -> 0 < weight t pc l k ->
  inside t pc = true /\ (forall c', code t !! pc = Some (IWait c') -> c' = c).

Definition lively (cf : config St L) : Prop :=
  held (mem cf) \/ exists t th, threads cf !! t = Some th /\
    (t_status th = Woken \/ t_status th = Running /\ hot t (t_pc th) = true).

(** If somebody sleeps, somebody is going to wake the sleepers. *)
Definition NoLostWakeup (cf : config St L) : Prop := forall t th c,
  threads cf !! t = Some th -> t_status th = Asleep c -> lively cf.

Hypothesis all_wakes : forall t pc, wakes t pc.
Hypothesis Hpoints : wait_points.

Lemma asleep_counted cf t th c :
  Inv cf -> threads cf !! t = Some th -> t_status th = Asleep c ->
  code t !! t_pc th = Some (IWait c) /\ exists k, waits c = Some k /\ 0 < count k (mem cf).
Proof.
  intros HI Ht Hs. pose proof (inv_wait _ HI _ _ Ht) as Hw. unfold at_wait in Hw. rewrite Hs in Hw.
  split; [done|]. pose proof (all_wakes t (t_pc th)) as Hwk. unfold wakes in Hwk. rewrite Hw in Hwk.
  destruct Hwk as (_ & _ & (k & Hk & H1) & _). exists k. split; [done|].
  destruct (inv_facts cf t th HI Ht) as [Hc _ _ _]. specialize (Hc k). rewrite H1 in Hc. lia.
Qed.

Lemma idle_no_sleeper cf t th c :
  Inv cf -> idle (mem cf) -> threads cf !! t = Some th -> t_status th <> Asleep c.
Proof.
  intros HI Hid Ht Hs. destruct (asleep_counted _ _ _ _ HI Ht Hs) as (_ & k & Hk & H).
  specialize (Hid _ _ Hk). lia.
Qed.

(** The thread [t] ran from [th] to [th'], the others did not move. *)
Lemma lively_run cf t th th' m' o' :
  threads cf !! t = Some th -> t_status th = Running -> lively cf ->
  (hot t (t_pc th) = true \/ held (mem cf) ->
     lively (mkConfig m' o' (<[t := th']> (threads cf)))) ->
  lively (mkConfig m' o' (<[t := th']> (threads cf))).
Proof.
  intros Ht Hr [Hh|(t2 & th2 & Ht2 & Hl)] H; [auto|].
  destruct (decide (t2 = t)) as [->|Hne].
  - apply H. left. destruct Hl as [Hl|[_ Hl]]; simplify_eq; congruence.
  - right. exists t2, th2. simpl. by rewrite list_lookup_insert_ne.
Qed.

Lemma lively_hot m o ths t pc l :
  (t < length ths)%nat -> hot t pc = true ->
  lively (mkConfig m o (<[t := mkThread pc Running l]> ths)).
Proof.
  intros Hlt Hh. right. exists t, (mkThread pc Running l). simpl.
  rewrite list_lookup_insert_eq by done. auto.
Qed.

(** Running threads, before and after. *)
Lemma nlw_run cf t th pc' m' o' l' :
  Inv (mkConfig m' o' (<[t := mkThread pc' Running l']> (threads cf))) ->
  NoLostWakeup cf -> threads cf !! t = Some th -> t_status th = Running ->
  (hot t (t_pc th) = true \/ held (mem cf) -> hot t pc' = true \/ held m' \/ idle m') ->
  NoLostWakeup (mkConfig m' o' (<[t := mkThread pc' Running l']> (threads cf))).
Proof.
  intros HI' Hn Ht Hr Hrun t2 th2 c H2 Hs.
  assert (t < length (threads cf))%nat by (by eapply lookup_lt_Some).
  destruct (decide (t2 = t)) as [->|Hne].
  { simpl in H2. rewrite list_lookup_insert_eq in H2 by done. by simplify_eq. }
  assert (lively cf) as Hl.
  { simpl in H2. rewrite list_lookup_insert_ne in H2 by done. by eapply Hn. }
  eapply lively_run; [done|done|done|]. intros Hx. destruct (Hrun Hx) as [?|[?|Hid]].
  - by apply lively_hot.
  - by left.
  - by destruct (idle_no_sleeper _ _ _ c HI' Hid H2).
Qed.

Lemma nlw_moves cf t th pc' o' (cond : St -> L -> Prop) :
  Inv cf -> Inv (mkConfig (mem cf) o' (<[t := mkThread pc' Running (t_loc th)]> (threads cf))) ->
  NoLostWakeup cf -> threads cf !! t = Some th -> t_status th = Running ->
  hot_moves t (t_pc th) pc' cond -> cond (mem cf) (t_loc th) ->
  NoLostWakeup (mkConfig (mem cf) o' (<[t := mkThread pc' Running (t_loc th)]> (threads cf))).
Proof.
  intros HI HI' Hn Ht Hr Hmv Hc. eapply nlw_run; eauto. intros [Hh|Hh]; [|auto].
  by apply (Hmv _ _ (inv_knows _ _ _ HI Ht Hr) Hc).
Qed.

Lemma lively_woken cf t th : threads cf !! t = Some th -> t_status th = Woken -> lively cf.
Proof. intros. right. eauto. Qed.

(** Somebody waits on [c], nobody sleeps on it: somebody has been woken. *)
Lemma counted_woken cf t th c k :
  Inv cf -> threads cf !! t = Some th -> holds_mutex t th ->
  existsb (asleep_on c) (threads cf) = false ->
  waits c = Some k -> 0 < count k (mem cf) -> weight t (t_pc th) (t_loc th) k = 0 ->
  exists t2 th2, t2 <> t /\ threads cf !! t2 = Some th2 /\ t_status th2 = Woken.
Proof.
  intros HI Ht Hm Hno Hk Hpos H0. rewrite (inv_count _ HI) in Hpos.
  destruct (total_pos _ _ _ Hpos) as (t2 & th2 & Ht2 & Hw). simpl in Hw.
  assert (t2 <> t) by (intros ->; simplify_eq; lia).
  exists t2, th2. split_and!; [done|done|].
  destruct (Hpoints _ _ _ _ _ Hk Hw) as [Hin Hc].
  pose proof (inv_wait _ HI _ _ Ht2) as Hat. unfold at_wait in Hat.
  destruct (t_status th2) as [|c'| |] eqn:Hs; [|..|done|done].
  - assert (owner cf = Some t2) by (apply (inv_owner _ HI); exists th2; by split).
    assert (owner cf = Some t) by (apply (inv_owner _ HI); eauto). congruence.
  - rewrite (Hc _ Hat) in Hs. by destruct (existsb_no_asleep _ _ _ _ Hno Ht2).
Qed.

Lemma nlw_signal cf t k c th cf' :
  Inv cf -> Inv cf' -> NoLostWakeup cf -> threads cf !! t = Some th -> t_status th = Running ->
  code t !! t_pc th = Some (ISignal c) -> go code t k cf = Some cf' -> NoLostWakeup cf'.
Proof.
  intros HI HI' Hn Ht Hr Hi Hgo. pose proof (all_wakes t (t_pc th)) as Hok. unfold wakes in Hok.
  rewrite Hi in Hok. destruct Hok as [Hin Hok].
  assert (existsb (asleep_on c) (threads cf) = false -> forall cf1,
    cf1 = mkConfig (mem cf) (owner cf) (<[t := mkThread (S (t_pc th)) Running (t_loc th)]> (threads cf)) ->
    Inv cf1 -> NoLostWakeup cf1) as Hnone.
  { intros Hno cf1 -> HI1 t2 th2 c2 H2 Hs.
    assert (t < length (threads cf))%nat by (by eapply lookup_lt_Some).
    destruct (decide (t2 = t)) as [->|Hne].
    { simpl in H2. rewrite list_lookup_insert_eq in H2 by done. by simplify_eq. }
    simpl in H2. rewrite list_lookup_insert_ne in H2 by done.
    eapply lively_run; [done|done|by eapply Hn|]. intros [Hhot|?]; [|by left].
    destruct (Hok _ _ (inv_knows _ _ _ HI Ht Hr) Hhot) as [?|[?|(k' & Hk & Hpos & H0)]];
      [by apply lively_hot|by left|].
    destruct (counted_woken cf t th c k') as (t3 & th3 & ? & Ht3 & Hw3); try done.
    eapply (lively_woken _ t3 th3); [|done]. simpl. by rewrite list_lookup_insert_ne. }
  destruct cf as [m o ths], th as [pc st l]; simpl in *; subst st. rewrite Ht in Hgo. simpl in Hgo.
  rewrite Hi in Hgo. simpl in Hgo. destruct (ths !! k) as [sl|] eqn:Hk.
  - destruct (asleep_on c sl) eqn:Hsl; [|destruct (existsb _ _) eqn:E; simplify_eq; by eapply Hnone].
    simplify_eq. intros t2 th2 c2 _ _. apply (lively_woken _ k (wake sl)); [|done]. simpl.
    apply list_lookup_insert_eq. rewrite length_insert. by eapply lookup_lt_Some.
  - destruct (existsb _ _) eqn:E; simplify_eq. by eapply Hnone.
Qed.

Lemma lively_wake_all c m o ths :
  lively (mkConfig m o ths) -> lively (mkConfig m o (wake_on c <$> ths)).
Proof.
  intros [?|(t & th & Ht & Hl)]; [by left|]. right. exists t, (wake_on c th). simpl in *.
  rewrite list_lookup_fmap, Ht, wake_on_pc, wake_on_running. split; [done|].
  destruct Hl as [Hl|Hl]; [|auto]. left. unfold wake_on, asleep_on. case_bool_decide; congruence.
Qed.

Lemma nlw_broadcast m o ths t th c :
  Inv (mkConfig m o ths) -> NoLostWakeup (mkConfig m o ths) -> ths !! t = Some th ->
  t_status th = Running -> code t !! t_pc th = Some (IBroadcast c) ->
  NoLostWakeup (mkConfig m o (wake_on c <$> <[t := mkThread (S (t_pc th)) Running (t_loc th)]> ths)).
Proof.
  intros HI Hn Ht Hr Hi t2 th2 c2 H2 Hs. simpl in H2. rewrite list_lookup_fmap in H2.
  assert (t < length ths)%nat by (by eapply lookup_lt_Some).
  apply fmap_Some in H2 as (th0 & H2 & ->).
  assert (t_status th0 = Asleep c2 /\ c2 <> c) as [Hs0 Hne].
  { unfold wake_on, asleep_on in Hs. case_bool_decide; [done|]. naive_solver. }
  assert (t2 <> t) by (intros ->; rewrite list_lookup_insert_eq in H2 by done; by simplify_eq).
  rewrite list_lookup_insert_ne in H2 by done.
  destruct (existsb (asleep_on c) ths) eqn:E.
  - apply existsb_asleep in E as (t3 & th3 & Ht3 & Hs3).
    assert (t3 <> t) by (intros ->; simplify_eq; congruence).
    eapply (lively_woken _ t3 (wake_on c th3)); simpl.
    + by rewrite list_lookup_fmap, list_lookup_insert_ne, Ht3.
    + unfold wake_on, asleep_on. by rewrite bool_decide_true.
  - apply lively_wake_all. eapply (lively_run (mkConfig m o ths)); [done|done|by eapply Hn|].
    intros [Hhot|?]; [|by left].
    pose proof (all_wakes t (t_pc th)) as Hok. unfold wakes in Hok. rewrite Hi in Hok.
    destruct (Hok _ _ (inv_knows _ _ _ HI Ht Hr) Hhot) as [?|[?|Hother]];
      [by apply lively_hot|by left|].
    destruct (asleep_counted _ _ _ _ HI H2 Hs0) as (_ & k & Hk & Hpos).
    specialize (Hother _ _ Hne Hk). simpl in *. lia.
Qed.

(** What [go] finds: a thread that was woken, or one that runs an instruction. *)
Lemma go_inv cf t k cf' :
  go code t k cf = Some cf' ->
  exists th, threads cf !! t = Some th /\
    (t_status th = Woken /\ owner cf = None /\
       cf' = mkConfig (mem cf) (Some t) (<[t := mkThread (S (t_pc th)) Running (t_loc th)]> (threads cf)) \/
     t_status th = Running /\ exists i, code t !! t_pc th = Some i).
Proof.
  intros Hgo. destruct cf as [m o ths]. simpl in *. apply bind_Some in Hgo as ([pc st l] & Ht & Hgo).
  exists (mkThread pc st l). split; [done|]. simpl. destruct st; try done.
  - right. split; [done|]. apply bind_Some in Hgo as (i & Hi & _). eauto.
  - left. case_decide; simplify_eq. auto.
Qed.

Lemma nlw_go cf t k cf' : Inv cf -> NoLostWakeup cf -> go code t k cf = Some cf' -> NoLostWakeup cf'.
Proof.
  intros HI Hn Hgo. pose proof (inv_go _ _ _ _ HI Hgo) as HI'.
  destruct (go_inv _ _ _ _ Hgo) as (th & Ht & [(Hst & Ho & ->)|(Hst & i & Hi)]).
  { pose proof (inv_wait _ HI _ _ Ht) as Hat. unfold at_wait in Hat. rewrite Hst in Hat.
    destruct Hat as [c Hc]. pose proof (all_wakes t (t_pc th)) as Hok. unfold wakes in Hok.
    rewrite Hc in Hok. intros ? ? ? _ _. apply lively_hot; [|by apply Hok]. by eapply lookup_lt_Some. }
  assert ((exists c, i = ISignal c) \/ (forall c, i <> ISignal c)) as [[c ->]|Hns] by (destruct i; eauto);
    [by apply (nlw_signal cf t k c th)|].
  pose proof (all_wakes t (t_pc th)) as Hok. unfold wakes in Hok. rewrite Hi in Hok.
  destruct cf as [m o ths], th as [pc st l]; simpl in *; subst st.
  rewrite Ht in Hgo. simpl in Hgo. rewrite Hi in Hgo. simpl in Hgo.
  set (cf := mkConfig m o ths) in *. set (th := mkThread pc Running l) in *.
  change (threads cf !! t = Some th) in Ht.
  pose proof (inv_knows cf t th HI Ht eq_refl) as Hkn.
  destruct i; simpl in Hgo.
  - destruct (f m l) as [m' l'] eqn:Hf. simplify_eq. eapply (nlw_run cf t th); try done.
    intros Hx. specialize (Hok _ _ Hkn Hx). change (mem cf) with m in Hok. change (t_loc th) with l in Hok.
    by rewrite Hf in Hok.
  - destruct Hok as [Hok1 Hok2]. destruct (b m l) eqn:Hb; simplify_eq.
    + by eapply (nlw_moves cf t th).
    + by eapply (nlw_moves cf t th).
  - simplify_eq. by eapply (nlw_moves cf t th).
  - simplify_eq. by eapply (nlw_moves cf t th).
  - pose proof (all_ok t pc) as Hok2. unfold ok in Hok2. rewrite Hi in Hok2. destruct Hok2 as [_ Hok2].
    rewrite (Hok2 m l Hkn) in Hgo. simplify_eq. by eapply (nlw_moves cf t th).
  - done.
  - case_decide; simplify_eq. by eapply (nlw_moves cf t th).
  - case_decide; simplify_eq. by eapply (nlw_moves cf t th).
  - case_decide; simplify_eq. intros ? ? ? _ _. left. by apply (proj2 (proj2 (proj2 Hok)) m l).
  - by destruct (Hns c).
  - simplify_eq. by apply (nlw_broadcast m o ths t th c).
Qed.

Lemma nlw_step cf cf' : Inv cf -> NoLostWakeup cf -> step code cf cf' -> NoLostWakeup cf'.
Proof.
  intros HI Hn [t k Hgo|t Hsp]; [by eapply nlw_go|]. unfold spurious in Hsp.
  apply bind_Some in Hsp as (th & Ht & Hsp). destruct (t_status th) eqn:E; simplify_eq.
  intros ? ? ? _ _. apply (lively_woken _ t (wake th)); [|done]. simpl.
  apply list_lookup_insert_eq. by eapply lookup_lt_Some.
Qed.

Lemma nlw_reachable cf cf' :
  Inv cf -> NoLostWakeup cf -> rtc (step code) cf cf' -> Inv cf' /\ NoLostWakeup cf'.
Proof.
  intros HI Hn Hr. induction Hr as [|cf1 cf2 cf3 Hs _ IH]; [done|].
  apply IH; [by eapply inv_step|by eapply nlw_step].
Qed.

Lemma wakes_plain t pc : plain t pc.
Proof.
  pose proof (all_wakes t pc) as H. unfold wakes, plain in *.
  destruct (code t !! pc) as [[]|]; try done. by destruct H.
Qed.

(** No deadlock: when no thread can move, all have finished. *)
Theorem blocked_finished cf :
  Inv cf -> NoLostWakeup cf -> blocked code cf ->
  forall t th, threads cf !! t = Some th -> finished code t th.
Proof.
  intros HI Hn Hb. pose proof (blocked_rest cf wakes_plain HI Hb) as Hall.
  intros t th Ht. destruct (Hall t th Ht) as [[c Hs]|]; [exfalso|done].
  destruct (Hn t th c Ht Hs) as [(k & Hk & Hpos)|(t2 & th2 & Ht2 & Hl)].
  - rewrite (inv_count _ HI) in Hpos. destruct (total_pos _ _ _ Hpos) as (t2 & th2 & Ht2 & Hw). simpl in Hw.
    assert (Forall (fun k => weight t2 (t_pc th2) (t_loc th2) k = 0) hk) as Hz.
    { pose proof (all_wakes t2 (t_pc th2)) as Hwk. unfold wakes in Hwk.
      destruct (Hall t2 th2 Ht2) as [[c2 Hs2]|[_ Hf]].
      - destruct (asleep_counted _ _ _ _ HI Ht2 Hs2) as [Hc _]. rewrite Hc in Hwk. by apply Hwk.
      - rewrite Hf in Hwk. apply Hwk. by eapply inv_lsays. }
    rewrite Forall_forall in Hz. specialize (Hz k Hk). lia.
  - destruct (Hall t2 th2 Ht2) as [[c2 Hs2]|[Hr Hf]]; [naive_solver congruence|].
    pose proof (all_wakes t2 (t_pc th2)) as Hwk. unfold wakes in Hwk. rewrite Hf in Hwk.
    destruct Hwk as [Hwk _]. naive_solver congruence.
Qed.

(** ** Enough wake-ups

    For one condition on which threads wait for units of work: [need] is how
    many units wait to be taken and [kw] counts the waiting threads. *)
Context (need : St -> Z) (kw : K).

Definition hotz (t pc : nat) : Z := if hot t pc then 1 else 0.

Definition feeds_move (t pc pc' : nat) (cond : St -> L -> Prop) : Prop :=
  forall m l, knows t pc m l -> cond m l -> hot t pc = true ->
    hot t pc' = true \/ count kw m = 0 \/ need m <= 0.

Definition feeds (t pc : nat) : Prop :=
  match code t !! pc with
  | None => hot t pc = false
  | Some (IDo f) => forall m l, knows t pc m l ->
      count kw (f m l).1 = 0 \/ need (f m l).1 - hotz t (S pc) <= need m - hotz t pc
  | Some (IAwait _ _) => False
  | Some (IBr b n) =>
      feeds_move t pc (S pc) (fun m l => b m l = true) /\
      feeds_move t pc (S pc + n) (fun m l => b m l = false)
  | Some (IJmp n) => feeds_move t pc (S pc + n) (fun _ _ => True)
  | Some (IBack n) => feeds_move t pc (pc - n) (fun _ _ => True)
  | Some (IAssert _) | Some ILock | Some IUnlock => feeds_move t pc (S pc) (fun _ _ => True)
  | Some (IWait c) => c = 0%nat /\ hot t (S pc) = true /\ (forall l, weight t pc l kw = 1) /\
      (forall m l, knows t pc m l -> need m <= 0)
  | Some (ISignal c) => c = 0%nat /\ inside t pc = true
  | Some (IBroadcast c) => c = 0%nat
  end.

Definition alert (t : nat) (th : thread L) : Z :=
  match t_status th with
  | Woken => 1
  | Running => hotz t (t_pc th)
  | _ => 0
  end.

Fixpoint alerts (t0 : nat) (l : list (thread L)) : Z :=
  match l with
  | [] => 0
  | th :: l' => alert t0 th + alerts (S t0) l'
  end.

Lemma alert_nonneg t th : 0 <= alert t th <= 1.
Proof. unfold alert, hotz. destruct (t_status th); [destruct (hot _ _)|..]; lia. Qed.

Lemma alerts_nonneg t0 l : 0 <= alerts t0 l.
Proof.
  revert t0. induction l as [|x l IH]; intros t0; simpl; [lia|].
  specialize (IH (S t0)). pose proof (alert_nonneg t0 x). lia.
Qed.

Lemma alerts_insert t0 l i th th' :
  l !! i = Some th ->
  alerts t0 (<[i := th']> l) = alerts t0 l - alert (t0 + i) th + alert (t0 + i) th'.
Proof.
  revert t0 i. induction l as [|x l IH]; intros t0 [|i] H; simplify_eq/=.
  - rewrite Nat.add_0_r. lia.
  - rewrite (IH (S t0) i) by done. replace (S t0 + i)%nat with (t0 + S i)%nat by lia. lia.
Qed.

Lemma alerts_wake_on c t0 l :
  alerts t0 l <= alerts t0 (wake_on c <$> l) /\
  (existsb (asleep_on c) l = true -> alerts t0 l + 1 <= alerts t0 (wake_on c <$> l)).
Proof.
  revert t0. induction l as [|x l IH]; intros t0; [done|]. rewrite fmap_cons. cbn [alerts existsb].
  destruct (IH (S t0)) as [IH1 IH2].
  assert (alert t0 x <= alert t0 (wake_on c x) /\
          (asleep_on c x = true -> alert t0 x + 1 <= alert t0 (wake_on c x))) as [H1 H2].
  { unfold alert, wake_on, asleep_on. case_bool_decide as E; simpl; [rewrite E|]; lia. }
  split; [lia|]. intros [?|?]%orb_true_iff; [specialize (H2 ltac:(done))|specialize (IH2 ltac:(done))]; lia.
Qed.

Definition Fed (cf : config St L) : Prop := forall t th c,
  threads cf !! t = Some th -> t_status th = Asleep c -> need (mem cf) <= alerts 0 (threads cf).

Hypothesis all_feeds : forall t pc, feeds t pc.

Lemma sleeper_counted cf t th c :
  Inv cf -> threads cf !! t = Some th -> t_status th = Asleep c -> c = 0%nat /\ 0 < count kw (mem cf).
Proof.
  intros HI Ht Hs. pose proof (inv_wait _ HI _ _ Ht) as Hw. unfold at_wait in Hw. rewrite Hs in Hw.
  pose proof (all_feeds t (t_pc th)) as Hf. unfold feeds in Hf. rewrite Hw in Hf.
  destruct Hf as (-> & _ & Hk & _). split; [done|].
  destruct (inv_facts cf t th HI Ht) as [Hc _ _ _]. specialize (Hc kw). rewrite Hk in Hc. lia.
Qed.

(** A running thread moves; sleepers stay asleep. *)
Lemma fed_run cf t th pc' m' o' l' :
  Inv (mkConfig m' o' (<[t := mkThread pc' Running l']> (threads cf))) ->
  Fed cf -> threads cf !! t = Some th -> t_status th = Running ->
  count kw m' = 0 \/ need m' <= 0 \/ need m' - hotz t pc' <= need (mem cf) - hotz t (t_pc th) ->
  Fed (mkConfig m' o' (<[t := mkThread pc' Running l']> (threads cf))).
Proof.
  intros HI' Hf Ht Hr Hrun t2 th2 c H2 Hs. simpl.
  destruct (sleeper_counted _ _ _ _ HI' H2 Hs) as [_ Hpos]. simpl in Hpos, H2.
  assert (t < length (threads cf))%nat by (by eapply lookup_lt_Some).
  destruct (decide (t2 = t)) as [->|Hne].
  { rewrite list_lookup_insert_eq in H2 by done. by simplify_eq. }
  rewrite list_lookup_insert_ne in H2 by done. specialize (Hf _ _ _ H2 Hs).
  pose proof (alerts_nonneg 0 (<[t := mkThread pc' Running l']> (threads cf))).
  rewrite (alerts_insert 0 _ t th) in * by done. simpl in *.
  unfold alert in *. simpl in *. rewrite Hr in *. lia.
Qed.

Lemma fed_moves cf t th pc' o' (cond : St -> L -> Prop) :
  Inv cf -> Inv (mkConfig (mem cf) o' (<[t := mkThread pc' Running (t_loc th)]> (threads cf))) ->
  Fed cf -> threads cf !! t = Some th -> t_status th = Running ->
  feeds_move t (t_pc th) pc' cond -> cond (mem cf) (t_loc th) ->
  Fed (mkConfig (mem cf) o' (<[t := mkThread pc' Running (t_loc th)]> (threads cf))).
Proof.
  intros HI HI' Hf Ht Hr Hmv Hc. eapply fed_run; eauto. unfold hotz.
  destruct (hot t (t_pc th)) eqn:Hh; [|destruct (hot t pc'); lia].
  destruct (Hmv _ _ (inv_knows _ _ _ HI Ht Hr) Hc Hh) as [->|[?|?]]; lia.
Qed.

Lemma alert_woken t th : t_status th = Asleep 0%nat -> alert t (wake th) = 1 + alert t th.
Proof. intros E. unfold alert. rewrite E. done. Qed.

(** A signal pays for the thread that gave it. *)
Lemma fed_signal cf t k th cf' :
  Inv cf -> Inv cf' -> Fed cf -> threads cf !! t = Some th -> t_status th = Running ->
  code t !! t_pc th = Some (ISignal 0) -> go code t k cf = Some cf' -> Fed cf'.
Proof.
  intros HI HI' Hf Ht Hr Hi Hgo t2 th2 c2 H2 Hs.
  destruct (sleeper_counted _ _ _ _ HI' H2 Hs) as [-> _].
  destruct cf as [m o ths], th as [pc st l]; simpl in *; subst st. rewrite Ht in Hgo. simpl in Hgo.
  rewrite Hi in Hgo. simpl in Hgo.
  assert (t < length ths)%nat by (by eapply lookup_lt_Some).
  pose proof (alerts_insert 0 ths t _ (mkThread (S pc) Running l) Ht) as Hal. simpl in Hal.
  pose proof (alert_nonneg t (mkThread (S pc) Running l)).
  pose proof (alert_nonneg t (mkThread pc Running l)).
  destruct (ths !! k) as [sl|] eqn:Hk.
  - destruct (asleep_on 0 sl) eqn:Hsl.
    + unfold asleep_on in Hsl. case_bool_decide as Es; [|done]. simplify_eq. simpl.
      assert (k <> t) by (intros ->; simplify_eq/=; congruence).
      rewrite (alerts_insert 0 _ k sl) by (by rewrite list_lookup_insert_ne). simpl.
      rewrite alert_woken by done. specialize (Hf _ _ _ Hk Es). simpl in Hf. lia.
    + destruct (existsb _ _) eqn:E; simplify_eq. simpl in H2.
      destruct (decide (t2 = t)) as [->|]; [rewrite list_lookup_insert_eq in H2 by done; by simplify_eq|].
      rewrite list_lookup_insert_ne in H2 by done. by destruct (existsb_no_asleep _ _ _ _ E H2).
  - destruct (existsb _ _) eqn:E; simplify_eq. simpl in H2.
    destruct (decide (t2 = t)) as [->|]; [rewrite list_lookup_insert_eq in H2 by done; by simplify_eq|].
    rewrite list_lookup_insert_ne in H2 by done. by destruct (existsb_no_asleep _ _ _ _ E H2).
Qed.

Lemma fed_broadcast m o ths t th :
  Inv (mkConfig m o (wake_on 0 <$> <[t := mkThread (S (t_pc th)) Running (t_loc th)]> ths)) ->
  Fed (mkConfig m o (wake_on 0 <$> <[t := mkThread (S (t_pc th)) Running (t_loc th)]> ths)).
Proof.
  intros HI' t2 th2 c2 H2 Hs. destruct (sleeper_counted _ _ _ _ HI' H2 Hs) as [-> _].
  simpl in H2. rewrite list_lookup_fmap in H2. apply fmap_Some in H2 as (th0 & _ & ->).
  unfold wake_on, asleep_on in Hs. by case_bool_decide.
Qed.

Lemma fed_go cf t k cf' : Inv cf -> Fed cf -> go code t k cf = Some cf' -> Fed cf'.
Proof.
  intros HI Hf Hgo. pose proof (inv_go _ _ _ _ HI Hgo) as HI'.
  destruct (go_inv _ _ _ _ Hgo) as (th & Ht & [(Hst & Ho & ->)|(Hst & i & Hi)]).
  { pose proof (inv_wait _ HI _ _ Ht) as Hat. unfold at_wait in Hat. rewrite Hst in Hat.
    destruct Hat as [c Hc]. pose proof (all_feeds t (t_pc th)) as Hok. unfold feeds in Hok.
    rewrite Hc in Hok. destruct Hok as (_ & Hh & _).
    assert (t < length (threads cf))%nat by (by eapply lookup_lt_Some).
    intros t2 th2 c2 H2 Hs. simpl in *.
    destruct (decide (t2 = t)) as [->|]; [rewrite list_lookup_insert_eq in H2 by done; by simplify_eq|].
    rewrite list_lookup_insert_ne in H2 by done. specialize (Hf _ _ _ H2 Hs).
    rewrite (alerts_insert 0 _ t th) by done. unfold alert, hotz. simpl. rewrite Hst, Hh. lia. }
  pose proof (all_feeds t (t_pc th)) as Hok. unfold feeds in Hok. rewrite Hi in Hok.
  assert ((exists c, i = ISignal c) \/ (forall c, i <> ISignal c)) as [[c ->]|Hns] by (destruct i; eauto).
  { destruct Hok as [-> _]. by apply (fed_signal cf t k th). }
  destruct cf as [m o ths], th as [pc st l]; simpl in *; subst st.
  rewrite Ht in Hgo. simpl in Hgo. rewrite Hi in Hgo. simpl in Hgo.
  set (cf := mkConfig m o ths) in *. set (th := mkThread pc Running l) in *.
  change (threads cf !! t = Some th) in Ht.
  pose proof (inv_knows cf t th HI Ht eq_refl) as Hkn.
  destruct i; simpl in Hgo.
  - destruct (f m l) as [m' l'] eqn:Hfm. simplify_eq. eapply (fed_run cf t th); try done.
    specialize (Hok _ _ Hkn). change (mem cf) with m in Hok. change (t_loc th) with l in Hok.
    rewrite Hfm in Hok. simpl in *. tauto.
  - destruct Hok as [Hok1 Hok2]. destruct (b m l) eqn:Hb; simplify_eq; by eapply (fed_moves cf t th).
  - simplify_eq. by eapply (fed_moves cf t th).
  - simplify_eq. by eapply (fed_moves cf t th).
  - pose proof (all_ok t pc) as Hok2. unfold ok in Hok2. rewrite Hi in Hok2. destruct Hok2 as [_ Hok2].
    rewrite (Hok2 m l Hkn) in Hgo. simplify_eq. by eapply (fed_moves cf t th).
  - done.
  - case_decide; simplify_eq. by eapply (fed_moves cf t th).
  - case_decide; simplify_eq. by eapply (fed_moves cf t th).
  - case_decide; simplify_eq. intros t2 th2 c2 _ _. destruct Hok as (_ & _ & _ & Hn). simpl.
    specialize (Hn m l Hkn). pose proof (alerts_nonneg 0 (<[t := mkThread pc (Asleep c) l]> ths)). lia.
  - by destruct (Hns c).
  - simplify_eq. by apply (fed_broadcast m o ths t th).
Qed.

Lemma fed_step cf cf' : Inv cf -> Fed cf -> step code cf cf' -> Fed cf'.
Proof.
  intros HI Hf [t k Hgo|t Hsp]; [by eapply fed_go|]. unfold spurious in Hsp.
  apply bind_Some in Hsp as (th & Ht & Hsp). destruct (t_status th) as [|c| |] eqn:E; simplify_eq.
  intros t2 th2 c2 _ _. simpl. specialize (Hf _ _ _ Ht E).
  destruct (sleeper_counted _ _ _ _ HI Ht E) as [-> _].
  rewrite (alerts_insert 0 _ t th) by done. rewrite alert_woken by done. simpl. lia.
Qed.

Lemma fed_reachable cf cf' : Inv cf -> Fed cf -> rtc (step code) cf cf' -> Inv cf' /\ Fed cf'.
Proof.
  intros HI Hn Hr. induction Hr as [|cf1 cf2 cf3 Hs _ IH]; [done|].
  apply IH; [by eapply inv_step|by eapply fed_step].
Qed.

(** When no thread can move, those that have not finished sleep, and there is
    nothing for them to take. *)
Theorem blocked_hungry cf :
  Inv cf -> Fed cf -> blocked code cf ->
  forall t th, threads cf !! t = Some th ->
    finished code t th \/ t_status th = Asleep 0%nat /\ need (mem cf) <= 0.
Proof.
  intros HI Hf Hb.
  assert (forall t th, threads cf !! t = Some th -> (exists c, t_status th = Asleep c) \/ finished code t th) as Hall.
  { apply blocked_rest; [|done|done]. intros t pc. pose proof (all_feeds t pc) as H.
    unfold feeds, plain in *. destruct (code t !! pc) as [[]|]; try done. by destruct H. }
  assert (forall t0 l, (forall i th, l !! i = Some th -> (exists c, t_status th = Asleep c) \/ finished code (t0 + i) th) ->
            alerts t0 l = 0) as Hz.
  { clear -all_feeds. intros t0 l. revert t0. induction l as [|x l IH]; intros t0 H; [done|]. simpl.
    rewrite IH by (intros i th Hi; replace (S t0 + i)%nat with (t0 + S i)%nat by lia; by apply H).
    destruct (H 0%nat x eq_refl) as [[c E]|[E1 E2]]; unfold alert, hotz; [by rewrite E|].
    rewrite Nat.add_0_r in E2. rewrite E1. pose proof (all_feeds t0 (t_pc x)) as Hx. unfold feeds in Hx.
    rewrite E2 in Hx. by rewrite Hx. }
  intros t th Ht. destruct (Hall t th Ht) as [[c Hs]|]; [right|by left].
  destruct (sleeper_counted _ _ _ _ HI Ht Hs) as [-> _]. split; [done|].
  specialize (Hf _ _ _ Ht Hs). rewrite (Hz 0%nat) in Hf; [done|]. by apply Hall.
Qed.
End outline.
