(* ===== verification/RwLockProofs.v ===== *)
(** Correctness of the three readers/writer locks of [RwLock]: proof outlines of
    the test program for the method of [Threads], and what follows for every
    reachable state. *)

From stdpp Require Import prelude list relations.
From Stdlib Require Import ZArith Lia.
From S2P Require Import Prelude Threads RwLock.

(** * The outline *)

(** The counters: those of the lock, those of the test, and all waiters. *)
Inductive ctr := KR | KW | KRW | KWW | KGR | KGW | KAll.

Definition count (k : ctr) (m : shared) : Z :=
  match k with
  | KR => readers (lock m)
  | KW => writers (lock m)
  | KRW => readers_waiting (lock m)
  | KWW => writers_waiting (lock m)
  | KGR => g_readers m
  | KGW => g_writers m
  | KAll => readers_waiting (lock m) + writers_waiting (lock m)
  end.

(** A writer excludes everybody. *)
Definition exclusive (m : shared) : Prop :=
  (readers (lock m) = 0 \/ writers (lock m) = 0) /\ writers (lock m) <= 1.

(** The programs differ only in how long [unlock] is and what it does after the
    decrement, so the points of the outline are relative to a few addresses:
    a reader's dead [writers--] branch, its last [pthread_mutex_unlock], the
    writer's half, its [writers--] and last unlock. *)
Record layout := mkLayout {
  dead_from : nat; dead_to : nat; r_end : nat;
  w_base : nat; w_dec : nat; w_end : nat;
  after : nat -> rwlock -> Prop;      (** known after the decrement *)
  hot_after : list nat;               (** points that lead to a wake-up *)
}.

Section outline.
Context (y : layout).
Let wb := w_base y.

Definition weight (_ : nat) (pc : nat) (_ : local) (k : ctr) : Z :=
  b2z match k with
  | KR => span 10 17 pc
  | KW => span (wb + 9) (wb + 16) pc || (pc =? w_dec y)%nat
  | KRW => span 6 7 pc
  | KWW => span (wb + 5) (wb + 6) pc
  | KGR => span 13 14 pc
  | KGW => span (wb + 13) (wb + 14) pc
  | KAll => span 6 7 pc || span (wb + 5) (wb + 6) pc
  end.

Definition inside (_ : nat) (pc : nat) : bool :=
  span 4 10 pc || span 16 (r_end y) pc || span (wb + 3) (wb + 9) pc || span (wb + 16) (w_end y) pc.

Definition says (_ : nat) (pc : nat) (m : shared) (_ : local) : Prop :=
  let k := lock m in
  if span 5 6 pc then 0 < writers k
  else if (pc =? 9)%nat then writers k = 0
  else if span (dead_from y) (dead_to y) pc then False
  else if span (wb + 4) (wb + 5) pc then 0 < readers k \/ 0 < writers k
  else if (pc =? wb + 8)%nat then readers k = 0 /\ writers k = 0
  else if span (wb + 17) (w_dec y - 1) pc then False
  else after y pc k.

Definition hot (_ : nat) (pc : nat) : bool :=
  span 4 9 pc || span (wb + 3) (wb + 8) pc || existsb (Nat.eqb pc) (hot_after y).
End outline.

Lemma weight_01 y t pc l k : 0 <= weight y t pc l k <= 1.
Proof. unfold weight, b2z. destruct (match k with KR => _ | _ => _ end); lia. Qed.

Lemma test_readers_dominated y : dominated (weight y) KGR KR.
Proof.
  intros t pc l. unfold weight, b2z. destruct (span 13 14 pc) eqn:E; [|by destruct (span 10 17 pc)].
  apply (span_sub _ _ 10 17) in E; [rewrite E; lia|lia|lia].
Qed.

Lemma test_writers_dominated y : dominated (weight y) KGW KW.
Proof.
  intros t pc l. unfold weight, b2z. destruct (span (w_base y + 13) _ pc) eqn:E; [|by destruct (_ || _)].
  apply (span_sub _ _ (w_base y + 9) (w_base y + 16)) in E; [rewrite E; simpl; lia|lia|lia].
Qed.

Definition no_lsays (_ _ : nat) (_ : local) : Prop := True.
Definition no_after (_ : nat) (_ : rwlock) : Prop := True.
Definition layout1 : layout := mkLayout 19 19 21 26 45 47 no_after [18; 20; 46]%nat.

Definition code1 (_ : nat) : list (instr shared local) := compile Solution1.worker.

(** What is known at a program point, spelled out. *)
Lemma facts_unfold y N t pc l m :
  facts count (weight y) exclusive N t pc l m ->
  let w := weight y t pc l in
  (w KR <= count KR m <= w KR + (N - 1)) /\ (w KW <= count KW m <= w KW + (N - 1)) /\
  (w KRW <= count KRW m <= w KRW + (N - 1)) /\ (w KWW <= count KWW m <= w KWW + (N - 1)) /\
  (w KGR <= count KGR m <= w KGR + (N - 1)) /\ (w KGW <= count KGW m <= w KGW + (N - 1)) /\
  count KGR m - w KGR <= count KR m - w KR /\ count KGW m - w KGW <= count KW m - w KW /\
  exclusive m.
Proof.
  intros [Hc Hd HG _]. cbv zeta.
  pose proof (Hd KGR KR (test_readers_dominated y)). pose proof (Hd KGW KW (test_writers_dominated y)).
  split_and!; try apply Hc; done.
Qed.

Ltac use_facts :=
  match goal with
  | H : knows _ _ _ _ _ _ _ _ _ _ _ |- _ =>
      let Hs := fresh "Hs" in
      destruct H as (H & _ & Hs); first [specialize (Hs eq_refl); cbn in Hs | clear Hs];
      apply facts_unfold in H
  | H : facts _ _ _ _ _ _ _ _ |- _ => apply facts_unfold in H
  end.

Ltac numbers :=
  unfold test, weight, exclusive in *; cbn in *; cint; lia || naive_solver lia.

Ltac split_state :=
  match goal with m : shared |- _ => destruct m as [[? ? ? ?] ? ?] end.

(** One program point of the outline. *)
Ltac move_point :=
  split; [left; reflexivity|]; intros m l H ?; use_facts; split_state;
  split_and!; [intros []; numbers | done | first [intros _; numbers | done]].
Ltac update_point :=
  split; [reflexivity|]; intros m l H _; use_facts; split_state;
  split_and!; [intros []; numbers | numbers | done | first [intros _; numbers | done] | first [done | intros _ ? ? ? H'; exact H']].
Ltac lock_point :=
  split_and!; [reflexivity..|intros ? []; reflexivity|
    intros m l H _; split; first [done | use_facts; split_state; numbers]].
Ltac ok_point :=
  unfold ok; cbn;
  match goal with
  | |- updates _ _ _ _ _ _ _ _ _ _ _ => update_point
  | |- moves _ _ _ _ _ _ _ _ _ _ _ => move_point
  | |- moves _ _ _ _ _ _ _ _ _ _ _ /\ moves _ _ _ _ _ _ _ _ _ _ _ => split; move_point
  | |- moves _ _ _ _ _ _ _ _ _ _ _ /\ _ =>
      split; [move_point | intros m l H; use_facts; split_state; numbers]
  | |- _ => lock_point
  | |- _ => split_and!; [reflexivity..|intros ? []; reflexivity|done]
  end.

(** All points in turn; beyond the code a thread has finished. *)
Lemma ok1 N t pc : N < 4294967296 ->
  ok code1 count (weight layout1) (inside layout1) (says layout1) no_lsays exclusive N t pc.
Proof. intros HN. do 51 (destruct pc as [|pc]; [ok_point|]). reflexivity. Qed.

(** ** Wake-ups *)

Definition holds_lock : list ctr := [KR; KW].

Lemma held_lock m :
  held count holds_lock m <-> 0 < readers (lock m) \/ 0 < writers (lock m).
Proof. unfold held, holds_lock. set_solver. Qed.

(** In [solution.cc] and [solution2.cc] all wait on one condition. *)
Definition one_cond (c : nat) : option ctr := if (c =? 0)%nat then Some KAll else None.
Definition two_conds (c : nat) : option ctr :=
  if (c =? 0)%nat then Some KRW else if (c =? 1)%nat then Some KWW else None.

Lemma idle_one m :
  readers_waiting (lock m) + writers_waiting (lock m) = 0 -> idle count one_cond m.
Proof. intros H [|c] k Hk; unfold one_cond in Hk; by simplify_eq/=. Qed.

Lemma idle_two m :
  readers_waiting (lock m) = 0 /\ writers_waiting (lock m) = 0 -> idle count two_conds m.
Proof. intros [H1 H2] [|[|c]] k Hk; unfold two_conds in Hk; by simplify_eq/=. Qed.

Ltac leads_to_wakeup :=
  first [ left; reflexivity
        | right; left; apply held_lock; numbers
        | right; right; apply idle_one; numbers
        | right; right; apply idle_two; numbers ].
Ltac cases :=
  unfold test in *; cbn in *;
  repeat match goal with
  | H : andb _ _ = false |- _ => apply andb_false_iff in H
  | H : _ \/ _ |- _ => destruct H
  end.
Ltac hot_point :=
  intros m l H ? Hhot; first [discriminate Hhot | clear Hhot; use_facts; split_state;
    first [leads_to_wakeup | cases; leads_to_wakeup]].
Ltac wake_point :=
  unfold wakes; cbn;
  lazymatch goal with
  | |- hot_moves _ _ _ _ _ _ _ _ _ _ _ _ _ _ => hot_point
  | |- hot_moves _ _ _ _ _ _ _ _ _ _ _ _ _ _ /\ _ => split; hot_point
  | |- _ /\ (forall l, Forall _ _) /\ _ =>
      split_and!; [reflexivity|intros ?; repeat constructor|eexists; by split|
                   intros m l H; use_facts; split_state; apply held_lock; numbers]
  | |- true = true /\ (forall m l, _) =>
      split; [reflexivity|]; intros m l H Hhot; first [discriminate Hhot | clear Hhot];
      use_facts; split_state;
      first [ leads_to_wakeup | right; right; eexists; split_and!; [reflexivity|numbers|reflexivity] ]
  | |- forall m l, _ -> (_ \/ _) -> _ =>
      let Hh := fresh "Hh" in
      intros m l H [Hh|Hh]; [first [discriminate Hh | clear Hh]|apply held_lock in Hh];
      use_facts; split_state; leads_to_wakeup
  | |- _ => intros m l H Hhot; first [discriminate Hhot | clear Hhot]; use_facts; split_state;
      cases; first [ leads_to_wakeup |
        right; right; intros [|[|?]] k ? Hk; unfold one_cond, two_conds in Hk; simplify_eq/=; numbers ]
  end.

Lemma wakes1 N t pc : N < 4294967296 ->
  wakes code1 count (weight layout1) (inside layout1) (says layout1) no_lsays exclusive N
    (hot layout1) one_cond holds_lock t pc.
Proof. intros HN. do 51 (destruct pc as [|pc]; [wake_point|]). split; [done|]. intros l _. by repeat constructor. Qed.

(** * What a readers/writer lock promises *)

Section specification.
Context (rdlock wrlock unlock : code_t) (init : rwlock).

Definition rw_code (_ : nat) : list (instr shared local) := compile (worker_of rdlock wrlock unlock).

(** The program points between the return of [rdlock] (or [wrlock]) and the
    first action of [unlock]. *)
Definition reading_from : nat := 3 + length (compile rdlock).
Definition writing_from : nat :=
  2 + length (compile (for_loops (rdlock ;; reader_section ;; unlock ;; usleep)))
  + 2 + length (compile wrlock).
Definition reading (th : thread local) : bool :=
  span reading_from (reading_from + length (compile reader_section)) (t_pc th).
Definition writing (th : thread local) : bool :=
  span writing_from (writing_from + length (compile writer_section)) (t_pc th).

Record RwLockCorrect : Prop := {
  (** No assertion of the test program fails. *)
  rw_asserts n cf t th : Z.of_nat n < 4294967296 -> rtc (step rw_code) (start init n) cf ->
    threads cf !! t = Some th -> t_status th <> Failed;
  (** A writer is alone. *)
  rw_exclusion n cf t1 t2 th1 th2 :
    Z.of_nat n < 4294967296 -> rtc (step rw_code) (start init n) cf -> t1 <> t2 ->
    threads cf !! t1 = Some th1 -> threads cf !! t2 = Some th2 ->
    writing th1 = true -> reading th2 = false /\ writing th2 = false;
  (** While the mutex is free the counters of the lock are exact. *)
  rw_counters n cf : Z.of_nat n < 4294967296 -> rtc (step rw_code) (start init n) cf ->
    owner cf = None ->
    readers (lock (mem cf)) = Z.of_nat (length (List.filter reading (threads cf))) /\
    writers (lock (mem cf)) = Z.of_nat (length (List.filter writing (threads cf)));
  (** No deadlock: if no thread can move then all have returned from
      [worker], and the lock is as it was initialised. *)
  rw_progress n cf : Z.of_nat n < 4294967296 -> rtc (step rw_code) (start init n) cf ->
    blocked rw_code cf ->
    (forall t th, threads cf !! t = Some th -> finished rw_code t th) /\ lock (mem cf) = init;
}.
End specification.

(** ** From an outline to the specification *)

Section correct.
Context (rdlock wrlock unlock : code_t) (y : layout) (waits : nat -> option ctr).
Let code := rw_code rdlock wrlock unlock.
Let init := mkRw 0 0 0 0.
Hypothesis all_ok : forall N t pc, N < 4294967296 ->
  ok code count (weight y) (inside y) (says y) no_lsays exclusive N t pc.
Hypothesis all_wakes : forall N t pc, N < 4294967296 ->
  wakes code count (weight y) (inside y) (says y) no_lsays exclusive N (hot y) waits holds_lock t pc.
Hypothesis Hpoints : wait_points code (weight y) (inside y) waits.
(** The points outside the mutex at which a thread counts as a holder. *)
Hypothesis Hholders : forall t pc, inside y t pc = false \/ (exists c, code t !! pc = Some (IWait c)) ->
  forall st l, weight y t pc l KR = b2z (reading rdlock (mkThread pc st l)) /\
               weight y t pc l KW = b2z (writing rdlock wrlock unlock (mkThread pc st l)).
Hypothesis Hsections : forall pc st l,
  (reading rdlock (mkThread pc st l) = true -> forall t, weight y t pc l KR = 1) /\
  (writing rdlock wrlock unlock (mkThread pc st l) = true -> forall t, weight y t pc l KW = 1).
Hypothesis Hzero : forall t l k, weight y t 0 l k = 0 /\ inside y t 0 = false.
Hypothesis Hend : forall t pc l k, code t !! pc = None -> weight y t pc l k = 0.

Abbreviation INV n := (Inv code count (weight y) (inside y) (says y) no_lsays exclusive (Z.of_nat n)).

Lemma start_lookup (n t : nat) th :
  threads (start init n) !! t = Some th -> t_pc th = 0%nat /\ t_status th = Running.
Proof. simpl. rewrite list_lookup_fmap. by intros (? & _ & ->)%fmap_Some. Qed.

Lemma start_total n k t0 : total (weight y) k t0 (threads (start init n)) = 0.
Proof.
  simpl. generalize (seq 0 n) as l. intros l. revert t0.
  induction l as [|x l IH]; intros t0; [done|]. simpl. rewrite IH. by rewrite (proj1 (Hzero t0 _ k)).
Qed.

Lemma start_inv n : INV n (start init n).
Proof.
  constructor.
  - simpl. by rewrite length_fmap, length_seq.
  - intros t. split; [done|]. intros (th & Ht & _ & Hin).
    destruct (start_lookup _ _ _ Ht) as [E _].
    rewrite E in Hin. by rewrite (proj2 (Hzero t (t_loc th) KR)) in Hin.
  - intros t th Ht [_ Hin]. destruct (start_lookup _ _ _ Ht) as [E _]. rewrite E in Hin.
    by rewrite (proj2 (Hzero t (t_loc th) KR)) in Hin.
  - intros k. rewrite start_total. by destruct k.
  - split; simpl; [by left|lia].
  - intros t th Ht. destruct (start_lookup _ _ _ Ht) as [_ E]. unfold at_wait. by rewrite E.
  - done.
Qed.

Lemma start_nlw n : NoLostWakeup count (hot y) holds_lock (start init n).
Proof. intros t th c Ht Hs. destruct (start_lookup _ _ _ Ht) as [_ E]. congruence. Qed.

Lemma reach_inv n cf : Z.of_nat n < 4294967296 -> rtc (step code) (start init n) cf ->
  INV n cf /\ NoLostWakeup count (hot y) holds_lock cf.
Proof.
  intros Hn Hr.
  eapply (nlw_reachable code count (weight y) (inside y) (says y) no_lsays exclusive (Z.of_nat n));
    [apply weight_01|intros; by apply all_ok|intros; by apply all_wakes|done|apply start_inv|apply start_nlw|done].
Qed.

Lemma at_rest n cf t th : INV n cf -> owner cf = None -> threads cf !! t = Some th ->
  inside y t (t_pc th) = false \/ (exists c, code t !! t_pc th = Some (IWait c)).
Proof.
  intros HI Ho Ht. pose proof (inv_wait _ _ _ _ _ _ _ _ _ HI _ _ Ht) as Hw. unfold at_wait in Hw.
  destruct (t_status th) eqn:E; [|eauto|eauto|done]. left.
  destruct (inside y t (t_pc th)) eqn:Hin; [|done].
  assert (owner cf = Some t); [|congruence].
  apply (inv_owner _ _ _ _ _ _ _ _ _ HI). exists th. by split.
Qed.

Theorem outline_correct : RwLockCorrect rdlock wrlock unlock init.
Proof.
  constructor.
  - intros n cf t th Hn Hr Ht Hf. destruct (reach_inv _ _ Hn Hr) as [HI _].
    pose proof (inv_wait _ _ _ _ _ _ _ _ _ HI _ _ Ht) as Hw. unfold at_wait in Hw. by rewrite Hf in Hw.
  - intros n cf t1 t2 th1 th2 Hn Hr Hne Ht1 Ht2 Hw1. destruct (reach_inv _ _ Hn Hr) as [HI _].
    destruct th1 as [pc1 st1 l1], th2 as [pc2 st2 l2].
    destruct (Hsections pc1 st1 l1) as [_ HW1]. destruct (Hsections pc2 st2 l2) as [HR2 HW2].
    pose proof (inv_count _ _ _ _ _ _ _ _ _ HI) as Hc.
    destruct (inv_G _ _ _ _ _ _ _ _ _ HI) as [Hex Hone].
    pose proof (total_two _ (weight_01 y) KW 0 _ t1 t2 _ _ Hne Ht1 Ht2) as H2.
    pose proof (total_bounds _ (weight_01 y) KR 0 _ t2 _ Ht2) as H3.
    pose proof (weight_01 y t2 pc2 l2 KW). pose proof (HW1 Hw1 t1).
    rewrite <- (Hc KW) in H2. rewrite <- (Hc KR) in H3. simpl in *.
    split; apply not_true_is_false; intros Hx.
    + pose proof (HR2 Hx t2). lia.
    + pose proof (HW2 Hx t2). lia.
  - intros n cf Hn Hr Ho. destruct (reach_inv _ _ Hn Hr) as [HI _].
    pose proof (inv_count _ _ _ _ _ _ _ _ _ HI) as Hc.
    rewrite <- (total_filter (weight y) KR (reading rdlock) 0),
      <- (total_filter (weight y) KW (writing rdlock wrlock unlock) 0).
    + split; [apply (Hc KR)|apply (Hc KW)].
    + intros t [pc st l] Ht. by apply (Hholders t pc (at_rest _ _ _ _ HI Ho Ht) st l).
    + intros t [pc st l] Ht. by apply (Hholders t pc (at_rest _ _ _ _ HI Ho Ht) st l).
  - intros n cf Hn Hr Hb. destruct (reach_inv _ _ Hn Hr) as [HI Hl].
    assert (forall t th, threads cf !! t = Some th -> finished code t th) as Hfin.
    { eapply (blocked_finished code count (weight y) (inside y) (says y) no_lsays exclusive (Z.of_nat n));
        [apply weight_01|intros; by apply all_ok|intros; by apply all_wakes|done..]. }
    split; [done|].
    assert (forall k, count k (mem cf) = 0) as Hz.
    { intros k. rewrite (inv_count _ _ _ _ _ _ _ _ _ HI). rewrite (total_filter _ k (fun _ => false) 0).
      - generalize (threads cf). induction l; [done|]. simpl. done.
      - intros t th Ht. destruct (Hfin t th Ht) as [_ E]. by apply Hend. }
    pose proof (Hz KR). pose proof (Hz KW). pose proof (Hz KRW). pose proof (Hz KWW).
    simpl in *. destruct (lock (mem cf)) as [a b c d]. simpl in *. unfold init. by f_equal.
Qed.
End correct.

(** ** The remaining points of an outline, by computation *)

Ltac holder_point :=
  intros [Hin|[c Hc]] st l;
  first [discriminate Hin | discriminate Hc | split; reflexivity].
Ltac section_point := intros st l; split; intros Hx; first [discriminate Hx | intros ?; reflexivity].
Ltac wait_point :=
  intros [|[|c]] k Hk Hw; unfold one_cond, two_conds in Hk; simplify_eq/=;
  first [ exfalso; cbn in Hw; lia | split; [reflexivity|intros c' Hc'; cbn in Hc'; by simplify_eq] ].

(** * The three locks *)

Lemma points1 : wait_points code1 (weight layout1) (inside layout1) one_cond.
Proof. intros t pc l. do 51 (destruct pc as [|pc]; [wait_point|]). wait_point. Qed.

(** [solution.cc].  For any number of threads and every interleaving of the
    test program, spurious wake-ups included: the assertions hold, a writer
    excludes readers and other writers, the lock's counters are the numbers of
    threads that hold it, and no deadlock is reachable: when nothing can move
    every thread has finished and the lock is free again. *)
Theorem solution1_correct :
  RwLockCorrect Solution1.mypthread_rwlock_rdlock Solution1.mypthread_rwlock_wrlock
    Solution1.mypthread_rwlock_unlock Solution1.mypthread_rwlock_init.
Proof.
  apply (outline_correct _ _ _ layout1 one_cond).
  - apply ok1.
  - apply wakes1.
  - apply points1.
  - intros t pc. do 51 (destruct pc as [|pc]; [holder_point|]). holder_point.
  - intros pc. do 51 (destruct pc as [|pc]; [section_point|]). section_point.
  - intros t l []; split; reflexivity.
  - intros t pc l k. do 51 (destruct pc as [|pc]; [discriminate|]). intros _. by destruct k.
Qed.

Definition layout2 : layout := mkLayout 19 19 23 28 47 51 no_after [18; 20; 21; 48; 49]%nat.
Definition code2 (_ : nat) : list (instr shared local) := compile Solution2.worker.

Lemma ok2 N t pc : N < 4294967296 ->
  ok code2 count (weight layout2) (inside layout2) (says layout2) no_lsays exclusive N t pc.
Proof. intros HN. do 55 (destruct pc as [|pc]; [ok_point|]). reflexivity. Qed.

Lemma wakes2 N t pc : N < 4294967296 ->
  wakes code2 count (weight layout2) (inside layout2) (says layout2) no_lsays exclusive N
    (hot layout2) one_cond holds_lock t pc.
Proof. intros HN. do 55 (destruct pc as [|pc]; [wake_point|]). split; [done|]. intros l _. by repeat constructor. Qed.

Lemma points2 : wait_points code2 (weight layout2) (inside layout2) one_cond.
Proof. intros t pc l. do 55 (destruct pc as [|pc]; [wait_point|]). wait_point. Qed.

(** [solution2.cc], which skips the broadcast when nobody waits, keeps every
    promise of [solution.cc]: no wake-up is lost. *)
Theorem solution2_correct :
  RwLockCorrect Solution2.mypthread_rwlock_rdlock Solution2.mypthread_rwlock_wrlock
    Solution2.mypthread_rwlock_unlock Solution2.mypthread_rwlock_init.
Proof.
  apply (outline_correct _ _ _ layout2 one_cond).
  - apply ok2.
  - apply wakes2.
  - apply points2.
  - intros t pc. do 55 (destruct pc as [|pc]; [holder_point|]). holder_point.
  - intros pc. do 55 (destruct pc as [|pc]; [section_point|]). section_point.
  - intros t l []; split; reflexivity.
  - intros t pc l k. do 55 (destruct pc as [|pc]; [discriminate|]). intros _. by destruct k.
Qed.

(** In [solution3.cc] a thread that signals a writer has seen one waiting; one
    that looks at the readers has seen that no writer waits, or that the lock is
    still held. *)
Definition after3 (pc : nat) (k : rwlock) : Prop :=
  if existsb (Nat.eqb pc) [19; 64]%nat then 0 < writers_waiting k
  else if existsb (Nat.eqb pc) [21; 22; 66; 67]%nat then
    writers_waiting k = 0 \/ 0 < readers k \/ 0 < writers k
  else True.

Definition layout3 : layout :=
  mkLayout 25 31 32 37 62 69 after3 [18; 19; 21; 22; 63; 64; 66; 67]%nat.
Definition code3 (_ : nat) : list (instr shared local) := compile Solution3.worker.

Lemma ok3 N t pc : N < 4294967296 ->
  ok code3 count (weight layout3) (inside layout3) (says layout3) no_lsays exclusive N t pc.
Proof. intros HN. do 73 (destruct pc as [|pc]; [ok_point|]). reflexivity. Qed.

Lemma wakes3 N t pc : N < 4294967296 ->
  wakes code3 count (weight layout3) (inside layout3) (says layout3) no_lsays exclusive N
    (hot layout3) two_conds holds_lock t pc.
Proof. intros HN. do 73 (destruct pc as [|pc]; [wake_point|]). split; [done|]. intros l _. by repeat constructor. Qed.

Lemma points3 : wait_points code3 (weight layout3) (inside layout3) two_conds.
Proof. intros t pc l. do 73 (destruct pc as [|pc]; [wait_point|]). wait_point. Qed.

(** C3: [solution3.cc], which wakes a single writer or all readers, keeps the
    same promises, the counters being exact whenever the mutex is free:
    signalling one writer never leaves a sleeper behind with the lock free and
    nobody awake to take it. *)
Theorem solution3_correct :
  RwLockCorrect Solution3.mypthread_rwlock_rdlock Solution3.mypthread_rwlock_wrlock
    Solution3.mypthread_rwlock_unlock Solution3.mypthread_rwlock_init.
Proof.
  apply (outline_correct _ _ _ layout3 two_conds).
  - apply ok3.
  - apply wakes3.
  - apply points3.
  - intros t pc. do 73 (destruct pc as [|pc]; [holder_point|]). holder_point.
  - intros pc. do 73 (destruct pc as [|pc]; [section_point|]). section_point.
  - intros t l []; split; reflexivity.
  - intros t pc l k. do 73 (destruct pc as [|pc]; [discriminate|]). intros _. by destruct k.
Qed.
