(* ===== verification/SyncQueue.v ===== *)
(** [src/exercises/cpp/multi_threading/synchronized_queue_cpp/solution.cc]: the
    class [SynchronizedQueue] and its test program.  Shown for any number of
    threads and every interleaving: values leave the queue in the order they
    were put in, each once; [front] is never called on an empty list; no getter
    sleeps while there is something to get; and the test program ends. *)

From stdpp Require Import prelude list relations.
From Stdlib Require Import ZArith Lia.
From S2P Require Import Prelude Threads.

Open Scope stmt_scope.

(** * The class and the test program *)

(** The members of the queue, the arguments of the [put]s and the results of the
    [get]s so far. *)
Record queue := mkQueue {
  mylist : list Z;
  waiters : Z;
  log_put : list Z;
  log_got : list Z;
}.

Record thread_data := mkTd {
  num : Z; td_count : Z; max_sleep : Z; max_msg : Z; producer : bool;
}.

(** Locals of [worker], [put] and [get]; [rnd] are the values rand(3) returns. *)
Record local := mkLocal {
  td : thread_data;
  i_ : Z;            (** the loop variable, or the value just got *)
  t_ : Z;            (** the argument of [put], the result of [get] *)
  brk : bool;        (** [break] was executed *)
  rnd : nat -> Z;
  drawn : nat;
}.

Definition code_t : Type := stmt queue local.

Definition set_i (x : Z) (l : local) : local := mkLocal (td l) x (t_ l) (brk l) (rnd l) (drawn l).
Definition set_t (x : Z) (l : local) : local := mkLocal (td l) (i_ l) x (brk l) (rnd l) (drawn l).
Definition set_brk (b : bool) (l : local) : local := mkLocal (td l) (i_ l) (t_ l) b (rnd l) (drawn l).

Definition mycond : nat := 0.

Definition SynchronizedQueue : queue := mkQueue [] 0 [] [].

Definition push_back (m : queue) (l : local) : queue * local :=
  (mkQueue (mylist m ++ [t_ l]) (waiters m) (log_put m ++ [t_ l]) (log_got m), l).

(** [put(t)], on the argument [t_]. *)
Definition put : code_t :=
  SLock ;;
  SDo push_back ;;
  SIf (fun m _ => 0 <? waiters m) (SSignal mycond) SSkip ;;
  SUnlock.

Definition set_waiters (d : Z) (m : queue) (l : local) : queue * local :=
  (mkQueue (mylist m) (u32 (waiters m + d)) (log_put m) (log_got m), l).
Definition empty (m : queue) (_ : local) : bool := match mylist m with [] => true | _ => false end.
Definition front (m : queue) (l : local) : queue * local := (m, set_t (hd 0 (mylist m)) l).
Definition pop_front (m : queue) (l : local) : queue * local :=
  (mkQueue (tl (mylist m)) (waiters m) (log_put m) (log_got m ++ [t_ l]), l).

(** [get()], the result in [t_]: the value [front] gave, which [get] returns after
    the unlock and which the log of the [get]s records.  [front] and [pop_front]
    are undefined on an empty list. *)
Definition get : code_t :=
  SLock ;;
  SDo (set_waiters 1) ;;
  SWhile empty (SWait mycond) ;;
  SAssert (fun m l => negb (empty m l)) ;;
  SDo front ;;
  SDo pop_front ;;
  SDo (set_waiters (-1)) ;;
  SUnlock.

Definition usleep : code_t := SDo (fun m l => (m, l)).

Definition c_mod (a b : Z) : Z := a mod b.
Definition draw (m : queue) (l : local) : queue * local :=
  (m, mkLocal (td l) (i_ l) (c_mod (u32 (rnd l (drawn l))) (max_msg (td l))) (brk l) (rnd l) (S (drawn l))).

Definition worker : code_t :=
  SIf (fun _ l => producer (td l))
    (SDo (fun m l => (m, set_i 0 l)) ;;
     SWhile (fun _ l => i_ l <? td_count (td l))
       (SDo draw ;; put ;; usleep ;; SDo (fun m l => (m, set_i (u32 (i_ l + 1)) l))) ;;
     SDo (fun m l => (m, set_t (max_msg (td l)) l)) ;; put)
    (SDo (fun m l => (m, set_brk false l)) ;;
     SWhile (fun _ l => negb (brk l))
       (get ;; SDo (fun m l => (m, set_i (t_ l) l)) ;;
        SIf (fun _ l => i_ l =? max_msg (td l)) (SDo (fun m l => (m, set_brk true l))) SSkip)).

(** [main]: even threads produce, odd ones consume. *)
Definition tds (count : Z) (i : nat) : thread_data := mkTd (Z.of_nat i) count 100 100 (Nat.even i).
Definition main_with (count : Z) (rnds : nat -> nat -> Z) (thread_num : nat) : config queue local :=
  mkConfig SynchronizedQueue None
    ((fun i => mkThread 0 Running (mkLocal (tds count i) 0 0 false (rnds i) 0)) <$> seq 0 thread_num).
Definition main : (nat -> nat -> Z) -> nat -> config queue local := main_with 10000.

Definition code (_ : nat) : list (instr queue local) := compile worker.

(** * The outline *)

Definition MAX_MSG : Z := 100.
Definition sentinels (l : list Z) : Z := Z.of_nat (length (List.filter (Z.eqb MAX_MSG) l)).

(** Threads inside [get], producers that put their last message, consumers that
    got one. *)
Inductive ctr := KWait | KPut | KGot.

Definition count (k : ctr) (m : queue) : Z :=
  match k with
  | KWait => waiters m
  | KPut => sentinels (log_put m)
  | KGot => sentinels (log_got m)
  end.

Definition weight (t pc : nat) (l : local) (k : ctr) : Z :=
  b2z match k with
  | KWait => span 25 31 pc
  | KPut => if (38 <=? pc)%nat then Nat.even t else span 16 20 pc
  | KGot =>
      if (38 <=? pc)%nat then negb (Nat.even t)
      else if span 31 33 pc then t_ l =? MAX_MSG
      else if (pc =? 34)%nat then i_ l =? MAX_MSG
      else if (pc =? 35)%nat then true
      else if (pc =? 22)%nat || span 36 37 pc then brk l
      else false
  end.

Definition inside (_ pc : nat) : bool := span 5 9 pc || span 15 19 pc || span 24 32 pc.

Definition says (_ pc : nat) (m : queue) (l : local) : Prop :=
  if (pc =? 26)%nat then mylist m = []
  else if span 28 29 pc then mylist m <> []
  else if (pc =? 30)%nat then exists q, mylist m = t_ l :: q
  else True.

Definition lsays (t pc : nat) (l : local) : Prop :=
  producer (td l) = Nat.even t /\ max_msg (td l) = MAX_MSG /\
  (if span 1 20 pc then Nat.even t = true else if span 21 37 pc then Nat.even t = false else True) /\
  (if span 4 5 pc then t_ l <> MAX_MSG else if span 14 15 pc then t_ l = MAX_MSG else True) /\
  (if span 23 35 pc then brk l = false else True).

(** First in, first out. *)
Definition fifo (m : queue) : Prop := log_put m = log_got m ++ mylist m.

Definition hot (_ pc : nat) : bool :=
  existsb (Nat.eqb pc) [6; 7; 16; 17; 25; 27; 28; 29; 30]%nat.
Definition need (m : queue) : Z := zlen (mylist m).

Lemma queue_weight_01 t pc l k : 0 <= weight t pc l k <= 1.
Proof. unfold weight, b2z. destruct (match k with KWait => _ | _ => _ end); lia. Qed.

Lemma sentinels_app l x : sentinels (l ++ [x]) = sentinels l + b2z (x =? MAX_MSG).
Proof.
  unfold sentinels. rewrite List.filter_app, length_app. cbn [List.filter].
  rewrite (Z.eqb_sym MAX_MSG x). destruct (x =? MAX_MSG); simpl; lia.
Qed.

(** A random message is not the last one. *)
Lemma draw_small x : c_mod x 100 <> MAX_MSG.
Proof. unfold c_mod. pose proof (Z.mod_pos_bound x 100). unfold MAX_MSG. lia. Qed.

Lemma queue_facts N t pc l m :
  facts count weight fifo N t pc l m ->
  (weight t pc l KWait <= waiters m <= weight t pc l KWait + (N - 1)) /\ fifo m.
Proof. intros [Hc _ HG _]. split; [apply (Hc KWait)|done]. Qed.

Ltac use_facts :=
  match goal with
  | H : knows _ _ _ _ _ _ _ _ _ _ _ |- _ =>
      let Hs := fresh "Hs" in let Hl := fresh "Hl" in
      destruct H as (H & Hl & Hs); first [specialize (Hs eq_refl); cbn in Hs | clear Hs];
      unfold lsays in Hl; cbn in Hl; apply queue_facts in H
  end.
Ltac split_state :=
  repeat match goal with
  | m : queue |- _ => destruct m as [?lst ?wt ?puts ?gots]
  | l : local |- _ => destruct l as [[?nm ?ct ?sl ?mx ?pd] ?i ?v ?b ?r ?n]
  | H : _ /\ _ |- _ => destruct H
  | H : exists _, _ |- _ => destruct H
  end; cbn in *; subst; cbn in *.
Ltac crush :=
  unfold lsays, says, weight, fifo, front, pop_front, push_back, set_waiters, draw, empty, MAX_MSG in *;
  cbn in *; cint; rewrite ?sentinels_app; unfold MAX_MSG in *; cbn in *;
  repeat match goal with
  | H : negb _ = true |- _ => apply negb_true_iff in H
  | H : negb _ = false |- _ => apply negb_false_iff in H
  | H : (_ =? _) = true |- _ => apply Z.eqb_eq in H
  | H : (_ =? _) = false |- _ => rewrite H in *; clear H
  | H : ?v <> 100 |- _ => apply Z.eqb_neq in H
  | H : context [match ?x with [] => _ | _ => _ end] |- _ => destruct x; cbn in *; try discriminate
  | H : ?x <> [] |- _ => is_var x; destruct x; [done|clear H]; cbn in *
  | H : Nat.even _ = _ |- _ => rewrite H in *; clear H
  end; subst; cbn in *; split_and?;
  first [ done | lia | congruence | apply draw_small
        | by rewrite app_assoc | by rewrite <- app_assoc | by eexists ].
Ltac crush_list := match goal with x : list Z |- _ => destruct x; crush end.

Ltac move_point :=
  split; [left; reflexivity|]; intros m l H ?; use_facts; split_state;
  split_and!; [intros []; crush | crush | intros Hin; first [discriminate Hin | clear Hin; crush]].
Ltac update_point :=
  split; [reflexivity|]; intros m l H _; use_facts; split_state;
  split_and!; [intros []; crush | crush | crush | intros Hin; first [discriminate Hin | clear Hin; crush]
    | first [discriminate | intros _ ? ? ? H'; exact H']].
Ltac lock_point :=
  split_and!; [reflexivity..|intros ? []; reflexivity|
    intros m l _ Hl; split; [exact Hl|exact I]].
Ltac ok_point :=
  unfold ok; cbn;
  match goal with
  | |- updates _ _ _ _ _ _ _ _ _ _ _ => update_point
  | |- moves _ _ _ _ _ _ _ _ _ _ _ => move_point
  | |- moves _ _ _ _ _ _ _ _ _ _ _ /\ moves _ _ _ _ _ _ _ _ _ _ _ => split; move_point
  | |- moves _ _ _ _ _ _ _ _ _ _ _ /\ _ =>
      split; [move_point | intros m l H; use_facts; split_state; crush]
  | |- _ => lock_point
  | |- _ => split_and!; [reflexivity..|intros ? []; reflexivity|intros l Hl; exact Hl]
  end.

Lemma queue_ok_all N t pc : N < 4294967296 -> ok code count weight inside says lsays fifo N t pc.
Proof. intros HN. do 38 (destruct pc as [|pc]; [ok_point|]). reflexivity. Qed.

(** ** Wake-ups *)

Ltac feed_facts := use_facts; split_state; unfold need, fifo in *.
Ltac feed_lia := cbn in *; rewrite ?length_app; cbn; lia.
Ltac feed_move :=
  intros m l H ? Hhot; first [discriminate Hhot | clear Hhot; feed_facts;
    first [left; reflexivity | right; left; zbool; cbn in *; lia | right; right; crush ]].
Ltac feed_point :=
  unfold feeds; cbn;
  lazymatch goal with
  | |- feeds_move _ _ _ _ _ _ _ _ _ _ _ _ _ _ => feed_move
  | |- feeds_move _ _ _ _ _ _ _ _ _ _ _ _ _ _ /\ _ => split; feed_move
  | |- _ = _ /\ _ = _ /\ _ =>
      split_and!; [reflexivity|reflexivity|reflexivity|intros m l H; feed_facts; crush]
  | |- forall m l, _ -> _ =>
      intros m l H; feed_facts; right;
      unfold hotz, push_back, pop_front, front, set_waiters, draw in *;
      first [ feed_lia | match goal with Hs : exists _, _ |- _ => destruct Hs end; subst; feed_lia ]
  | |- _ => split; reflexivity
  | |- _ => reflexivity
  end.

Lemma feeds_all N t pc : N < 4294967296 ->
  feeds code count weight inside says lsays fifo N hot need KWait t pc.
Proof. intros HN. do 38 (destruct pc as [|pc]; [feed_point|]). reflexivity. Qed.

(** ** Reachable states *)

Abbreviation INV n := (Inv code count weight inside says lsays fifo (Z.of_nat n)).
Abbreviation FED := (Fed hot need).

Lemma main_lookup count0 rnds (n t : nat) th :
  threads (main_with count0 rnds n) !! t = Some th ->
  t_pc th = 0%nat /\ t_status th = Running /\ td (t_loc th) = tds count0 t.
Proof.
  simpl. rewrite list_lookup_fmap. intros (i & Hi & ->)%fmap_Some.
  apply lookup_seq in Hi as [-> _]. done.
Qed.

Lemma main_total count0 rnds n k t0 : total weight k t0 (threads (main_with count0 rnds n)) = 0.
Proof.
  simpl. generalize (seq 0 n) as l. intros l. revert t0.
  induction l as [|x l IH]; intros t0; [done|]. simpl. rewrite IH. by destruct k.
Qed.

Lemma main_inv count0 rnds n : INV n (main_with count0 rnds n).
Proof.
  constructor.
  - simpl. by rewrite length_fmap, length_seq.
  - intros t. split; [done|]. intros (th & Ht & _ & Hin).
    destruct (main_lookup _ _ _ _ _ Ht) as (E & _ & _). by rewrite E in Hin.
  - intros t th Ht [_ Hin]. destruct (main_lookup _ _ _ _ _ Ht) as (E & _ & _). by rewrite E in Hin.
  - intros k. rewrite main_total. by destruct k.
  - done.
  - intros t th Ht. destruct (main_lookup _ _ _ _ _ Ht) as (_ & E & _). unfold at_wait. by rewrite E.
  - intros t th Ht. destruct (main_lookup _ _ _ _ _ Ht) as (E & _ & Hd). rewrite E. unfold lsays. by rewrite Hd.
Qed.

Lemma main_reach count0 rnds n cf :
  Z.of_nat n < 4294967296 -> rtc (step code) (main_with count0 rnds n) cf -> INV n cf /\ FED cf.
Proof.
  intros Hn Hr. eapply (fed_reachable code count weight inside says lsays fifo (Z.of_nat n));
    [apply queue_weight_01|intros; by apply queue_ok_all|intros; by apply feeds_all|apply main_inv| |done].
  intros t th c Ht Hs. destruct (main_lookup _ _ _ _ _ Ht) as (_ & E & _). congruence.
Qed.

(** ** The end of the program *)

(** Consumers are not more than producers. *)
Definition odd_even (t0 n : nat) : Z := zlen (List.filter Nat.even (seq t0 n)) - zlen (List.filter Nat.odd (seq t0 n)).

Lemma odd_even_le n t0 : (if Nat.even t0 then 0 else -1) <= odd_even t0 n <= (if Nat.even t0 then 1 else 0).
Proof.
  revert t0. induction n as [|n IH]; intros t0; [destruct (Nat.even t0); cbv; done|].
  specialize (IH (S t0)). unfold odd_even in *. cbn [seq List.filter].
  rewrite <- Nat.negb_even in *. rewrite Nat.even_succ, <- Nat.negb_even in IH.
  destruct (Nat.even t0); cbn [length negb] in *; lia.
Qed.

(** Every producer has put its last message; only consumers that have finished
    have taken one. *)
Lemma total_ends (P : nat -> bool) k t0 l :
  (forall i th, l !! i = Some th -> b2z (P (t0 + i)%nat) <= weight (t0 + i) (t_pc th) (t_loc th) k) ->
  zlen (List.filter P (seq t0 (length l))) <= total weight k t0 l.
Proof.
  revert t0. induction l as [|x l IH]; intros t0 H; [done|]. cbn [total length seq List.filter].
  pose proof (H 0%nat x eq_refl) as H0. rewrite Nat.add_0_r in H0.
  assert (zlen (List.filter P (seq (S t0) (length l))) <= total weight k (S t0) l).
  { apply IH. intros i th Hi. replace (S t0 + i)%nat with (t0 + S i)%nat by lia. by apply H. }
  destruct (P t0); cbn [length b2z] in *; lia.
Qed.

Lemma total_takers (P : nat -> bool) k t0 l :
  (forall i th, l !! i = Some th -> weight (t0 + i) (t_pc th) (t_loc th) k <= b2z (P (t0 + i)%nat)) ->
  total weight k t0 l <= zlen (List.filter P (seq t0 (length l))) /\
  (forall i th, l !! i = Some th -> weight (t0 + i) (t_pc th) (t_loc th) k < b2z (P (t0 + i)%nat) ->
     total weight k t0 l < zlen (List.filter P (seq t0 (length l)))).
Proof.
  revert t0. induction l as [|x l IH]; intros t0 H; [done|]. cbn [total length seq List.filter].
  pose proof (H 0%nat x eq_refl) as H0. rewrite Nat.add_0_r in H0.
  destruct (IH (S t0)) as [IH1 IH2].
  { intros i th Hi. replace (S t0 + i)%nat with (t0 + S i)%nat by lia. by apply H. }
  split; [destruct (P t0); cbn [length b2z] in *; lia|].
  intros [|i] th Hi Hlt; simplify_eq/=.
  - rewrite Nat.add_0_r in Hlt. destruct (P t0); cbn [length b2z] in *; lia.
  - replace (t0 + S i)%nat with (S t0 + i)%nat in Hlt by lia. specialize (IH2 i th Hi Hlt).
    destruct (P t0); cbn [length b2z] in *; lia.
Qed.

(** A sleeping thread is a consumer that has not seen a last message. *)
Lemma sleeper_consumer n cf t th :
  INV n cf -> threads cf !! t = Some th -> t_status th = Asleep 0%nat ->
  t_pc th = 26%nat /\ Nat.even t = false.
Proof.
  intros HI Ht Hs. pose proof (inv_wait _ _ _ _ _ _ _ _ _ HI _ _ Ht) as Hw. unfold at_wait in Hw.
  rewrite Hs in Hw. pose proof (inv_lsays _ _ _ _ _ _ _ _ _ HI _ _ Ht) as (_ & _ & Hl & _).
  revert Hw Hl. generalize (t_pc th). intros pc.
  do 38 (destruct pc as [|pc]; [try discriminate; try done|]). done.
Qed.

Lemma finished_weight t th : finished code t th ->
  weight t (t_pc th) (t_loc th) KPut = b2z (Nat.even t) /\
  weight t (t_pc th) (t_loc th) KGot = b2z (negb (Nat.even t)).
Proof.
  intros [_ Hf]. revert Hf. generalize (t_pc th). intros pc.
  do 38 (destruct pc as [|pc]; [discriminate|]). done.
Qed.

Lemma blocked_all_finished n cf :
  Z.of_nat n < 4294967296 -> INV n cf -> FED cf -> blocked code cf ->
  forall t th, threads cf !! t = Some th -> finished code t th.
Proof.
  intros Hn HI Hf Hb.
  pose proof (blocked_hungry code count weight inside says lsays fifo (Z.of_nat n) queue_weight_01
    (fun t pc => queue_ok_all _ t pc Hn) hot need KWait (fun t pc => feeds_all _ t pc Hn) cf HI Hf Hb) as Hall.
  intros t th Ht. destruct (Hall t th Ht) as [?|[Hs Hneed]]; [done|exfalso].
  destruct (sleeper_consumer _ _ _ _ HI Ht Hs) as [Hpc Hodd].
  assert (mylist (mem cf) = []) as Hnil.
  { unfold need in Hneed. destruct (mylist (mem cf)); [done|]. cbn in Hneed. lia. }
  pose proof (inv_G _ _ _ _ _ _ _ _ _ HI) as Hfifo. unfold fifo in Hfifo. rewrite Hnil, app_nil_r in Hfifo.
  pose proof (inv_count _ _ _ _ _ _ _ _ _ HI KPut) as Hp. pose proof (inv_count _ _ _ _ _ _ _ _ _ HI KGot) as Hg.
  cbn [count] in Hp, Hg. rewrite Hfifo in Hp.
  assert (zlen (List.filter Nat.even (seq 0 (length (threads cf)))) <= total weight KPut 0 (threads cf)) as H1.
  { apply total_ends. intros i thi Hi. simpl. destruct (Hall i thi Hi) as [Hfin|[Hsi _]].
    - rewrite (proj1 (finished_weight _ _ Hfin)). lia.
    - destruct (sleeper_consumer _ _ _ _ HI Hi Hsi) as [E1 E2]. rewrite E1, E2. done. }
  destruct (total_takers Nat.odd KGot 0 (threads cf)) as [_ H2].
  { intros i thi Hi. simpl. rewrite <- Nat.negb_even. destruct (Hall i thi Hi) as [Hfin|[Hsi _]].
    - rewrite (proj2 (finished_weight _ _ Hfin)). lia.
    - destruct (sleeper_consumer _ _ _ _ HI Hi Hsi) as [E1 E2]. rewrite E1, E2. done. }
  specialize (H2 t th Ht). simpl in H2. rewrite <- Nat.negb_even, Hodd, Hpc in H2.
  specialize (H2 ltac:(done)). pose proof (odd_even_le (length (threads cf)) 0) as H3.
  unfold odd_even in H3. cbn in H3. lia.
Qed.

(** C31: [SynchronizedQueue] is a first-in first-out queue.  For any number of
    threads and of messages per producer ([main] has 10000), any random messages and every interleaving with spurious wake-ups:
    the values the [get]s return, in the order in which they leave the list,
    followed by what is in the list, are exactly the values the [put]s were given,
    in that order; and [front] is never called on an empty list. *)
Theorem queue_fifo (count0 : Z) (rnds : nat -> nat -> Z) (n : nat) (cf : config queue local) :
  Z.of_nat n < 4294967296 -> rtc (step code) (main_with count0 rnds n) cf ->
  log_put (mem cf) = log_got (mem cf) ++ mylist (mem cf) /\
  (forall t th, threads cf !! t = Some th -> t_status th <> Failed).
Proof.
  intros Hn Hr. destruct (main_reach _ _ _ _ Hn Hr) as [HI _]. split; [by apply (inv_G _ _ _ _ _ _ _ _ _ HI)|].
  intros t th Ht Hf. pose proof (inv_wait _ _ _ _ _ _ _ _ _ HI _ _ Ht) as Hw. unfold at_wait in Hw.
  by rewrite Hf in Hw.
Qed.

(** C4: the test program cannot hang.  In a reachable state in which no thread can
    take a step, every producer and every consumer has returned: signalling a
    single getter per [put] is enough, and every consumer finds a last message. *)
Theorem queue_test_ends (count0 : Z) (rnds : nat -> nat -> Z) (n : nat) (cf : config queue local) :
  Z.of_nat n < 4294967296 -> rtc (step code) (main_with count0 rnds n) cf -> blocked code cf ->
  forall t th, threads cf !! t = Some th -> finished code t th.
Proof.
  intros Hn Hr Hb. destruct (main_reach _ _ _ _ Hn Hr) as [HI Hf]. by eapply blocked_all_finished.
Qed.

(** No getter is forgotten.  Whenever a getter sleeps there are at least as many
    threads awake and about to take or hand over an element as there are
    elements in the list; in particular a sleeper and a non-empty list mean that
    some other getter has been woken. *)
Theorem queue_no_lost_wakeup (count0 : Z) (rnds : nat -> nat -> Z) (n : nat) (cf : config queue local) (t : nat) (th : thread local) :
  Z.of_nat n < 4294967296 -> rtc (step code) (main_with count0 rnds n) cf ->
  threads cf !! t = Some th -> t_status th = Asleep mycond ->
  zlen (mylist (mem cf)) <= alerts hot 0 (threads cf).
Proof. intros Hn Hr Ht Hs. destruct (main_reach _ _ _ _ Hn Hr) as [_ Hf]. by apply (Hf t th mycond). Qed.

(** A run with one producer of one message and one consumer, the consumer first. *)
Definition demo_start : config queue local := main_with 1 (fun _ _ => 7) 2.
Definition demo_asleep : config queue local :=
  run_schedule code (replicate 10 (1%nat, 0%nat)) demo_start.
Definition demo_end : config queue local :=
  run_schedule code (replicate 30 (0%nat, 1%nat) ++ replicate 40 (1%nat, 1%nat)) demo_asleep.

Lemma demo_reachable : rtc (step code) demo_start demo_asleep /\ rtc (step code) demo_start demo_end.
Proof.
  split; [apply run_schedule_reachable|].
  etrans; [apply run_schedule_reachable|apply (run_schedule_reachable code _ demo_asleep)].
Qed.

Lemma demo_end_blocked : blocked code demo_end.
Proof. intros t k. destruct t as [|[|t]]; vm_compute; reflexivity. Qed.

Lemma queue_fifo_witness : log_put (mem demo_end) = log_got (mem demo_end) ++ mylist (mem demo_end).
Proof.
  apply (queue_fifo 1 (fun _ _ => 7) 2 demo_end); [reflexivity|apply demo_reachable].
Defined.

Lemma queue_test_ends_witness : exists th, threads demo_end !! 1%nat = Some th /\ finished code 1 th.
Proof.
  eexists. split; [vm_compute; reflexivity|].
  apply (queue_test_ends 1 (fun _ _ => 7) 2 demo_end);
    [reflexivity|apply demo_reachable|apply demo_end_blocked|vm_compute; reflexivity].
Defined.

Lemma queue_no_lost_wakeup_witness : zlen (mylist (mem demo_asleep)) <= alerts hot 0 (threads demo_asleep).
Proof.
  eapply (queue_no_lost_wakeup 1 (fun _ _ => 7) 2 demo_asleep 1);
    [reflexivity|apply demo_reachable|vm_compute; reflexivity|reflexivity].
Defined.
