(* ===== verification/TimeUtils.v ===== *)
(** [src/include/timespec_utils.h], [timeval_utils.h] and [measure.h]: arithmetic
    on [struct timespec] and [struct timeval].  The functions take pointers that
    may be equal, so the structures live in a store and the assignments of a
    function happen one after the other.  Shown: on normalised times the
    operations agree with arithmetic on nanoseconds, also when the arguments
    are the same object, and where they do not. *)

From stdpp Require Import prelude gmap strings list.
From Stdlib Require Import ZArith Lia.
From S2P Require Import Prelude Posix ErrUtils.

Open Scope prog_scope.

(** * timespec_utils.h *)

Record timespec := mkTimespec { tv_sec : Z; tv_nsec : Z }.

(** Where the structures live; a pointer is its index. *)
Definition store : Type := nat -> timespec.
Definition put_ts (p : nat) (t : timespec) (s : store) : store := fun q => if decide (q = p) then t else s q.
Definition put_sec (p : nat) (v : Z) (s : store) : store := put_ts p (mkTimespec (s64 v) (tv_nsec (s p))) s.
Definition put_nsec (p : nat) (v : Z) (s : store) : store := put_ts p (mkTimespec (tv_sec (s p)) (s64 v)) s.

Definition NSEC_PER_SEC : Z := 1000000000.
Definition MSEC_PER_SEC : Z := 1000000.

(** Integer division of C truncates. *)
Definition timespec_add_nanos (t : nat) (nanos_count : Z) (s : store) : store :=
  let nsec := s64 (tv_nsec (s t) + nanos_count) in
  let s := put_nsec t (Z.rem nsec NSEC_PER_SEC) s in
  put_sec t (tv_sec (s t) + Z.quot nsec NSEC_PER_SEC) s.

Definition timespec_add_secs (t : nat) (secs_count : Z) (s : store) : store :=
  put_sec t (tv_sec (s t) + secs_count) s.

Definition timespec_add (to from : nat) (s : store) : store :=
  let nsec := s64 (tv_nsec (s to) + tv_nsec (s from)) in
  let s := put_nsec to (Z.rem nsec NSEC_PER_SEC) s in
  put_sec to (tv_sec (s to) + s64 (tv_sec (s from) + Z.quot nsec NSEC_PER_SEC)) s.

Definition ts_site (f : string) (l : Z) : site := mkSite "timespec_utils.h" f l.

Definition timespec_assert_ge (x y : nat) (s : store) : M unit :=
  if tv_sec (s y) <? tv_sec (s x) then pret tt
  else if tv_sec (s x) =? tv_sec (s y) then
    if tv_nsec (s y) <=? tv_nsec (s x) then pret tt
    else CHECK_ASSERT (ts_site "timespec_assert_ge" 71) "0" false ;;; pret tt
  else CHECK_ASSERT (ts_site "timespec_assert_ge" 74) "0" false ;;; pret tt.

Definition timespec_diff_nano (t_end t_start : nat) (s : store) : Z :=
  u64 (s64 (s64 (s64 (tv_sec (s t_end) - tv_sec (s t_start)) * NSEC_PER_SEC)
            + s64 (tv_nsec (s t_end) - tv_nsec (s t_start)))).

Definition timespec_sub (end_ start result : nat) (s : store) : store :=
  let s := put_sec result (tv_sec (s end_) - tv_sec (s start)) s in
  let s := put_nsec result (tv_nsec (s end_) - tv_nsec (s start)) s in
  if tv_nsec (s result) <? 0 then
    let s := put_sec result (tv_sec (s result) - 1) s in
    put_nsec result (tv_nsec (s result) + NSEC_PER_SEC) s
  else s.

Definition timespec_set_sec (t : nat) (secs : Z) (s : store) : store := put_sec t secs s.
Definition timespec_set_nsec (t : nat) (nsec : Z) (s : store) : store := put_nsec t nsec s.
Definition timespec_clear (t : nat) (s : store) : store := put_nsec t 0 (put_sec t 0 s).
Definition timespec_set (t : nat) (secs nsecs : Z) (s : store) : store :=
  put_nsec t nsecs (put_sec t secs s).
Definition timespec_copy (to from : nat) (s : store) : store :=
  let s := put_sec to (tv_sec (s from)) s in
  put_nsec to (tv_nsec (s from)) s.

Definition timespec_to_nanos (t : nat) (s : store) : Z :=
  u64 (s64 (s64 (tv_sec (s t) * NSEC_PER_SEC) + tv_nsec (s t))).
Definition timespec_to_micros (t : nat) (s : store) : Z :=
  u64 (s64 (s64 (tv_sec (s t) * MSEC_PER_SEC) + Z.quot (tv_nsec (s t)) 1000)).

(** * timeval_utils.h *)

Record timeval := mkTimeval { v_sec : Z; v_usec : Z }.

(** The conversion of an unsigned 64-bit number to [double]: 53 significant
    bits, halves to even. *)
Definition to_double (x : Z) : Z :=
  let e := Z.max 0 (Z.log2 x - 52) in
  let q := x / 2 ^ e in
  let r := x mod 2 ^ e in
  let q' := if 2 ^ e <? 2 * r then q + 1
            else if (2 ^ e =? 2 * r) && Z.odd q then q + 1 else q in
  q' * 2 ^ e.

Definition micro_diff (t1 t2 : timeval) : Z :=
  let u1 := u64 (u64 (u64 (v_sec t1) * 1000000) + v_usec t1) in
  let u2 := u64 (u64 (u64 (v_sec t2) * 1000000) + v_usec t2) in
  to_double (u64 (u2 - u1)).

Definition diff_timeval_in_micro (tv1 tv2 : timeval) : M Z :=
  (if v_sec tv2 <? v_sec tv1 then eprintf "tv1>tv2\n" [] ;;; c_exit EXIT_FAILURE
   else if v_sec tv1 =? v_sec tv2 then
     if v_usec tv2 <? v_usec tv1 then eprintf "tv1>tv2\n" [] ;;; c_exit EXIT_FAILURE
     else pret tt
   else pret tt) ;;;
  let diff := u64 (u64 (s64 (v_sec tv2 - v_sec tv1)) * 1000000) in
  pret (u64 (diff + s64 (v_usec tv2 - v_usec tv1))).

Definition print_timeval (tv : timeval) (name : string) : list msg :=
  [mkMsg "%s - sec is %lu\n" [AStr name; AInt (v_sec tv)];
   mkMsg "%s - usec is %lu\n" [AStr name; AInt (v_usec tv)]].

(** * measure.h *)

Record measure := mkMeasure { m_t1 : timeval; m_t2 : timeval; attempts : Z; m_name : string }.

Definition measure_init (m : measure) (name : string) (n : Z) : measure :=
  mkMeasure (m_t1 m) (m_t2 m) n name.
(** [now] is what gettimeofday(2) reports. *)
Definition measure_start (m : measure) (now : timeval) : measure :=
  mkMeasure now (m_t2 m) (attempts m) (m_name m).
Definition measure_end (m : measure) (now : timeval) : measure :=
  mkMeasure (m_t1 m) now (attempts m) (m_name m).
Definition measure_micro_diff (m : measure) : Z := micro_diff (m_t1 m) (m_t2 m).

(** * Agreement with arithmetic on nanoseconds *)

Definition nanos (t : timespec) : Z := tv_sec t * NSEC_PER_SEC + tv_nsec t.

(** Seconds far from the limits of a 64-bit count of nanoseconds: up to the year
    2116. *)
Definition normal (t : timespec) : Prop :=
  -4611686018 < tv_sec t < 4611686018 /\ 0 <= tv_nsec t < NSEC_PER_SEC.

Lemma put_same p t s : put_ts p t s p = t.
Proof. unfold put_ts. by rewrite decide_True. Qed.
Lemma put_other p q t s : q <> p -> put_ts p t s q = s q.
Proof. intros. unfold put_ts. by rewrite decide_False. Qed.

Lemma quot_rem_nanos n : 0 <= n ->
  0 <= Z.rem n NSEC_PER_SEC < NSEC_PER_SEC /\ n = NSEC_PER_SEC * Z.quot n NSEC_PER_SEC + Z.rem n NSEC_PER_SEC /\
  0 <= Z.quot n NSEC_PER_SEC.
Proof.
  intros. unfold NSEC_PER_SEC. pose proof (Z.quot_rem' n 1000000000).
  pose proof (Z.rem_bound_pos n 1000000000). pose proof (Z.quot_pos n 1000000000). lia.
Qed.

Ltac times := unfold nanos, NSEC_PER_SEC, MSEC_PER_SEC in *; cbn [tv_sec tv_nsec] in *; cint; lia.

(** Adding nanoseconds or another time.  On normalised times, and for a
    non-negative count, the result is normalised and is the sum in nanoseconds;
    the other objects keep their value.  [timespec_add(t, t)] doubles [t]. *)
Theorem timespec_add_spec (to from : nat) (n : Z) (s : store) :
  normal (s to) -> normal (s from) -> 0 <= n < 4611686018427387904 ->
  let s1 := timespec_add_nanos to n s in
  let s2 := timespec_add to from s in
  nanos (s1 to) = nanos (s to) + n /\ 0 <= tv_nsec (s1 to) < NSEC_PER_SEC /\
  nanos (s2 to) = nanos (s to) + nanos (s from) /\ 0 <= tv_nsec (s2 to) < NSEC_PER_SEC /\
  (forall q, q <> to -> s1 q = s q /\ s2 q = s q).
Proof.
  intros [? Hto] [? Hfrom] Hn. cbv zeta.
  unfold timespec_add_nanos, timespec_add, put_nsec, put_sec. cbv zeta. rewrite !put_same.
  pose proof (quot_rem_nanos (tv_nsec (s to) + n)) as (? & ? & ?); [lia|].
  pose proof (quot_rem_nanos (tv_nsec (s to) + tv_nsec (s from))) as (? & ? & ?); [lia|].
  assert (tv_sec (put_ts to (mkTimespec (tv_sec (s to)) (s64 (Z.rem (s64 (tv_nsec (s to) + tv_nsec (s from))) NSEC_PER_SEC))) s from)
    = tv_sec (s from)) as ->.
  { destruct (decide (from = to)) as [->|]; [by rewrite put_same|by rewrite put_other]. }
  rewrite (s64_small (tv_nsec (s to) + n)), (s64_small (tv_nsec (s to) + tv_nsec (s from))) by times.
  simpl. split_and!; try times.
  intros q Hq. by rewrite !put_other.
Qed.

Lemma sub_nanos (end_ start result : nat) (s : store) :
  normal (s end_) -> normal (s start) ->
  let s' := timespec_sub end_ start result s in
  nanos (s' result) = nanos (s end_) - nanos (s start) /\
  0 <= tv_nsec (s' result) < NSEC_PER_SEC /\
  (forall q, q <> result -> s' q = s q).
Proof.
  intros [? He] [? Hs]. cbv zeta. unfold timespec_sub, put_nsec, put_sec. cbv zeta.
  set (s1 := put_ts result _ s).
  assert (forall q, tv_nsec (s1 q) = tv_nsec (s q)) as Hn.
  { intros q. unfold s1. destruct (decide (q = result)) as [->|]; [by rewrite put_same|by rewrite put_other]. }
  assert (tv_sec (s1 result) = tv_sec (s end_) - tv_sec (s start)) as Hsec.
  { unfold s1. rewrite put_same. cbn. by rewrite s64_small by times. }
  rewrite !Hn, !put_same, Hsec. cbn [tv_sec tv_nsec].
  rewrite (s64_small (tv_nsec (s end_) - tv_nsec (s start))) by times.
  destruct (_ <? 0) eqn:E; zbool; rewrite !put_same; cbn [tv_sec tv_nsec];
    (split_and!; [times|times|times|]); intros q Hq; unfold s1; by rewrite !put_other.
Qed.

(** [timespec_sub] writes the difference in nanoseconds, normalised, whichever
    of its three arguments are the same object. *)
Theorem timespec_sub_spec (end_ start result : nat) (s : store) :
  normal (s end_) -> normal (s start) ->
  let s' := timespec_sub end_ start result s in
  nanos (s' result) = nanos (s end_) - nanos (s start) /\
  0 <= tv_nsec (s' result) < NSEC_PER_SEC /\
  (forall q, q <> result -> s' q = s q).
Proof. apply sub_nanos. Qed.

Lemma wp_check_assert_false {A} s txt (k : Z -> M A) (Q : A -> world -> Prop) X w :
  (forall c w', bad_status c -> X c w') -> wp (pbind (CHECK_ASSERT s txt false) k) Q X w.
Proof. intros HX. wp_step. unfold CHECK_ASSERT, check_assert. cbn. by apply wp_handle_error. Qed.

(** [timespec_assert_ge] returns exactly when the first time is not before the
    second; otherwise it ends the process with a failing status. *)
Theorem timespec_assert_ge_spec (x y : nat) (s : store) (w : world) :
  normal (s x) -> normal (s y) ->
  wp (timespec_assert_ge x y s) (fun _ w' => w' = w /\ nanos (s y) <= nanos (s x))
    (fun c _ => bad_status c /\ nanos (s x) < nanos (s y)) w.
Proof.
  intros [? Hx] [? Hy]. unfold timespec_assert_ge. repeat wp_step; zbool.
  - split; [done|times].
  - split; [done|times].
  - apply wp_handle_error. intros c w' ?. split; [done|times].
  - apply wp_handle_error. intros c w' ?. split; [done|times].
Qed.

(** The conversions.  [timespec_to_nanos] is the value in nanoseconds,
    [timespec_to_micros] rounds it down to microseconds (so [MSEC_PER_SEC] is in
    truth the number of microseconds), and [timespec_diff_nano] is the difference
    that [timespec_sub] computes. *)
Theorem timespec_conversions (a b r : nat) (s : store) :
  normal (s a) -> normal (s b) -> 0 <= nanos (s b) <= nanos (s a) ->
  timespec_to_nanos a s = nanos (s a) /\
  timespec_to_micros a s = nanos (s a) / 1000 /\
  timespec_diff_nano a b s = nanos (s a) - nanos (s b) /\
  timespec_to_nanos r (timespec_sub a b r s) = timespec_diff_nano a b s.
Proof.
  intros [Ha1 Ha2] [Hb1 Hb2] Hle.
  destruct (sub_nanos a b r s (conj Ha1 Ha2) (conj Hb1 Hb2)) as (Hr & Hrn & _).
  unfold timespec_to_nanos, timespec_to_micros, timespec_diff_nano, nanos, NSEC_PER_SEC, MSEC_PER_SEC in *.
  assert (0 <= tv_sec (s a)) by lia.
  assert (tv_nsec (s a) ÷ 1000 = tv_nsec (s a) / 1000) as -> by (apply Z.quot_div_nonneg; lia).
  pose proof (Z.div_mod (tv_nsec (s a)) 1000). pose proof (Z.mod_pos_bound (tv_nsec (s a)) 1000).
  pose proof (Z.div_mod (tv_sec (s a) * 1000000000 + tv_nsec (s a)) 1000).
  pose proof (Z.mod_pos_bound (tv_sec (s a) * 1000000000 + tv_nsec (s a)) 1000).
  split_and!; cint; lia.
Qed.

(** A negative count breaks the normal form.  [timespec_add_nanos] then still
    gives the right number of nanoseconds, but when the count reaches below the
    current nanosecond the truncating division leaves a negative [tv_nsec], which
    the kernel rejects. *)
Theorem timespec_add_negative (t : nat) (n : Z) (s : store) :
  normal (s t) -> -4611686018427387904 < n < 0 ->
  tv_nsec (s t) + n < 0 -> (tv_nsec (s t) + n) mod NSEC_PER_SEC <> 0 ->
  let s' := timespec_add_nanos t n s in
  nanos (s' t) = nanos (s t) + n /\ - NSEC_PER_SEC < tv_nsec (s' t) < 0.
Proof.
  intros [? Ht] Hn Hneg Hmod. cbv zeta. unfold timespec_add_nanos, put_nsec, put_sec. cbv zeta.
  rewrite !put_same. rewrite (s64_small (tv_nsec (s t) + n)) by times.
  set (x := tv_nsec (s t) + n) in *. cbn [tv_sec tv_nsec].
  pose proof (Z.quot_rem' x NSEC_PER_SEC). pose proof (Z.rem_bound_pos_neg x NSEC_PER_SEC ltac:(done) ltac:(lia)).
  assert (Z.rem x NSEC_PER_SEC <> 0).
  { intros E. apply Hmod. apply Z.rem_divide in E; [|done]. by apply Z.mod_divide. }
  assert (- 9223372036854775808 < Z.quot x NSEC_PER_SEC <= 0) as Hq.
  { unfold NSEC_PER_SEC, x in *. lia. }
  split; times.
Qed.

Lemma to_double_exact x : 0 <= x < 9007199254740992 -> to_double x = x.
Proof.
  intros Hx. unfold to_double.
  assert (Z.log2 x <= 52) as Hl.
  { destruct (decide (x = 0)) as [->|]; [done|].
    assert (Z.log2 x < 53); [|lia]. apply Z.log2_lt_pow2; [lia|]. by apply Hx. }
  rewrite Z.max_l by lia. change (2 ^ 0) with 1. rewrite Z.div_1_r, Z.mod_1_r. rewrite Z.mul_1_r. reflexivity.
Qed.

Lemma to_double_big x : 9223372036854775808 <= x -> 9223372036854775808 <= to_double x.
Proof.
  intros Hx. unfold to_double.
  set (e := Z.max 0 (Z.log2 x - 52)).
  assert (63 <= Z.log2 x) as Hl by (apply Z.log2_le_pow2; lia).
  assert (11 <= e) by lia. assert (0 < 2 ^ e) by (apply Z.pow_pos_nonneg; lia).
  assert (2 ^ 52 <= x / 2 ^ e) as Hq.
  { apply Z.div_le_lower_bound; [lia|]. rewrite <- Z.pow_add_r by lia.
    replace (e + 52) with (Z.log2 x) by lia. apply Z.log2_spec. lia. }
  assert (2 ^ 11 <= 2 ^ e) by (apply Z.pow_le_mono_r; lia).
  destruct (_ <? _); [|destruct (_ && _)]; nia.
Qed.

(** Differences of [struct timeval].  In the right order and within 2^53
    microseconds [micro_diff] (a [double]) and [diff_timeval_in_micro] both give
    the exact difference.  In the wrong order [diff_timeval_in_micro] prints a
    message and exits with [EXIT_FAILURE], but [micro_diff], which subtracts
    unsigned numbers, gives a huge positive number. *)
Theorem timeval_diffs (t1 t2 : timeval) (w : world) :
  0 <= v_sec t1 < 4611686018 -> 0 <= v_sec t2 < 4611686018 ->
  0 <= v_usec t1 < 1000000 -> 0 <= v_usec t2 < 1000000 ->
  let d := (v_sec t2 - v_sec t1) * 1000000 + (v_usec t2 - v_usec t1) in
  (0 <= d -> d < 9007199254740992 ->
     micro_diff t1 t2 = d /\ diff_timeval_in_micro t1 t2 w = (Val d, w)) /\
  (d < 0 ->
     9223372036854775808 <= micro_diff t1 t2 /\
     diff_timeval_in_micro t1 t2 w =
       (Exit EXIT_FAILURE, set_stderr (w_stderr w ++ [mkMsg "tv1>tv2\n" []]) w)).
Proof.
  intros H1 H2 H3 H4 d. assert (micro_diff t1 t2 = to_double (u64 d)) as Hm.
  { unfold micro_diff. cint. do 2 f_equal. unfold d. lia. }
  assert (diff_timeval_in_micro t1 t2 w =
    if d <? 0 then (Exit EXIT_FAILURE, set_stderr (w_stderr w ++ [mkMsg "tv1>tv2\n" []]) w)
    else (Val (u64 d), w)) as Hd.
  { unfold diff_timeval_in_micro, pbind, pret.
    destruct (v_sec t2 <? v_sec t1) eqn:E1; destruct (v_sec t1 =? v_sec t2) eqn:E2;
      destruct (v_usec t2 <? v_usec t1) eqn:E3; destruct (d <? 0) eqn:E4; zbool;
      try (unfold d in *; lia); try reflexivity; do 2 f_equal;
      rewrite (s64_small (v_sec t2 - _)), (s64_small (v_usec t2 - _)), (u64_small (v_sec t2 - _)),
        (u64_small (_ * 1000000)) by lia; f_equal; unfold d; lia. }
  rewrite Hm, Hd. split.
  - intros Hpos Hlt. rewrite u64_small by lia. rewrite to_double_exact by lia.
    destruct (d <? 0) eqn:E; zbool; [lia|done].
  - intros Hneg. assert (u64 d = d + 18446744073709551616) as ->.
    { unfold wrapu. rewrite <- (Z.mod_add d 1) by done. apply Z.mod_small. unfold d in *. lia. }
    split; [apply to_double_big; unfold d in *; lia|]. destruct (d <? 0) eqn:E; zbool; [done|lia].
Qed.

Definition demo_store : store := fun p => if decide (p = 0%nat) then mkTimespec 5 700000000 else mkTimespec 2 800000000.

Lemma demo_normal p : normal (demo_store p).
Proof. unfold demo_store, normal, NSEC_PER_SEC. case_decide; simpl; lia. Qed.

Lemma timespec_add_spec_witness : nanos (timespec_add 0 1 demo_store 0%nat) = 8500000000.
Proof. apply (timespec_add_spec 0 1 7 demo_store (demo_normal 0) (demo_normal 1)). lia. Defined.

Lemma timespec_sub_spec_witness : nanos (timespec_sub 0 1 1 demo_store 1%nat) = 2900000000.
Proof. apply (timespec_sub_spec 0 1 1 demo_store (demo_normal 0) (demo_normal 1)). Defined.

Lemma timespec_assert_ge_spec_witness :
  wp (timespec_assert_ge 0 1 demo_store) (fun _ w' => w' = world_of (fun _ => calm 1) ∅ /\ 2800000000 <= 5700000000)
    (fun c _ => bad_status c /\ 5700000000 < 2800000000) (world_of (fun _ => calm 1) ∅).
Proof. exact (timespec_assert_ge_spec 0 1 demo_store _ (demo_normal 0) (demo_normal 1)). Defined.

Lemma timespec_conversions_witness : timespec_to_micros 0 demo_store = 5700000.
Proof.
  apply (timespec_conversions 0 1 2 demo_store (demo_normal 0) (demo_normal 1)).
  split; vm_compute; discriminate.
Defined.

Lemma timespec_add_negative_witness :
  let s' := timespec_add_nanos 0 (-800000000) demo_store in
  nanos (s' 0%nat) = 4900000000 /\ -1000000000 < tv_nsec (s' 0%nat) < 0.
Proof. apply (timespec_add_negative 0 (-800000000) demo_store (demo_normal 0)); [lia|done|done]. Defined.

Lemma timeval_diffs_witness : micro_diff (mkTimeval 3 10) (mkTimeval 4 5) = 999995.
Proof.
  apply (timeval_diffs (mkTimeval 3 10) (mkTimeval 4 5) (world_of (fun _ => calm 1) ∅)); cbn; lia.
Defined.
