(* ===== verification/Tables.v ===== *)
(** The name tables of [src/include/signal_utils.h], [sched_utils.h] and
    [clock_utils.h], and the decoding of a child's status in
    [multiproc_utils.h].  Shown: looking up a name and looking up a value are
    inverse up to the aliases of the table, a lookup that fails ends the process
    with a failing status, and every status wait(2) can report is decoded in
    exactly one way. *)

From stdpp Require Import prelude gmap strings list.
From Stdlib Require Import ZArith Lia.
From S2P Require Import Prelude Posix ErrUtils.

Open Scope prog_scope.

(** * Tables of names and values *)

Abbreviation table := (list (string * Z)).

(** The loops [for(i=0; i<ARRAY_SIZEOF(tbl); i++)] of the lookups. *)
Definition find_name (name : string) (tbl : table) : option Z :=
  (fun r => r.2.2) <$> list_find (fun row => row.1 = name) tbl.
Definition find_val (val : Z) (tbl : table) : option string :=
  (fun r => r.2.1) <$> list_find (fun row => row.2 = val) tbl.

(** * signal_utils.h *)
Module Signal.

Definition signal_tbl : table :=
  [("SIGHUP", 1); ("SIGINT", 2); ("SIGQUIT", 3); ("SIGILL", 4); ("SIGTRAP", 5); ("SIGABRT", 6);
   ("SIGIOT", 6); ("SIGBUS", 7); ("SIGFPE", 8); ("SIGKILL", 9); ("SIGUSR1", 10); ("SIGSEGV", 11);
   ("SIGUSR2", 12); ("SIGPIPE", 13); ("SIGALRM", 14); ("SIGTERM", 15); ("SIGSTKFLT", 16);
   ("SIGCHLD", 17); ("SIGCONT", 18); ("SIGSTOP", 19); ("SIGTSTP", 20); ("SIGTTIN", 21);
   ("SIGTTOU", 22); ("SIGURG", 23); ("SIGXCPU", 24); ("SIGXFSZ", 25); ("SIGVTALRM", 26);
   ("SIGPROF", 27); ("SIGWINCH", 28); ("SIGIO", 29); ("SIGPOLL", 29); ("SIGPWR", 30);
   ("SIGSYS", 31); ("__SIGRTMIN", 32); ("__SIGRTMAX", 64)].

Definition at_ (f : string) (l : Z) : site := mkSite "signal_utils.h" f l.

Definition signal_get_by_name (name : string) : M Z :=
  match find_name name signal_tbl with
  | Some v => pret v
  | None => CHECK_ERROR (at_ "signal_get_by_name" 111) "bad signal name"
  end.

Definition signal_get_by_val (val : Z) : M string :=
  match find_val val signal_tbl with
  | Some n => pret n
  | None => CHECK_ERROR (at_ "signal_get_by_val" 124) "bad signal value"
  end.

Definition signal_print_table : list msg :=
  mkMsg "number of signal values is %zd\n" [AInt (zlen signal_tbl)] ::
  imap (fun i row =>
    mkMsg "i=%d, sig=%d, in_code=%s, strsignal(%d)=%s\n"
      [AInt (Z.of_nat i); AInt row.2; AStr row.1; AInt row.2; AStrsignal row.2]) signal_tbl.

(** The handlers the process has installed.  [sigaction_ok sig] is whether the
    kernel accepts a new handler for [sig]; [SIG_ERR] is -1. *)
Definition handlers : Type := Z -> Z.
Definition install (sig h : Z) (hs : handlers) : handlers := fun s => if s =? sig then h else hs s.

Definition signal_register_handler_signal (sigaction_ok : Z -> bool) (signum handler : Z)
    (hs : handlers) : M (Z * handlers) :=
  let r := if sigaction_ok signum then hs signum else -1 in
  let! v := check_not_sigt r "signal(signum, handler)" (-1) "signal_utils.h"
              "signal_register_handler_signal" 160 in
  pret (v, install signum handler hs).

Definition signal_register_handler_sigaction (sigaction_ok : Z -> bool) (sig handler : Z)
    (hs : handlers) : M (Z * handlers) :=
  let r := if sigaction_ok sig then 0 else -1 in
  CHECK_NOT_M1 (at_ "signal_register_handler_sigaction" 173) "sigaction(sig, &sa, &old)" r ;;;
  pret (hs sig, install sig handler hs).

End Signal.

(** * sched_utils.h *)
Module Sched.

Definition sched_tbl : table :=
  [("SCHED_OTHER", 0); ("SCHED_FIFO", 1); ("SCHED_RR", 2); ("SCHED_BATCH", 3); ("SCHED_IDLE", 5)].

Definition at_ (f : string) (l : Z) : site := mkSite "sched_utils.h" f l.

Definition sched_get_by_name (name : string) : M Z :=
  match find_name name sched_tbl with
  | Some v => pret v
  | None => CHECK_ERROR (at_ "sched_get_by_name" 64) "bad policy name"
  end.

Definition sched_get_name (policy : Z) : M string :=
  match find_val policy sched_tbl with
  | Some n => pret n
  | None => CHECK_ERROR (at_ "sched_get_name" 74) "bad policy value"
  end.

(** [sched_print_table]; [lo] and [hi] are what sched_get_priority_min(2) and
    sched_get_priority_max(2) return. *)
Fixpoint print_rows (lo hi : Z -> Z) (rows : table) : M (list msg) :=
  match rows with
  | [] => pret []
  | (name, val) :: rows' =>
      let! a := CHECK_NOT_M1 (at_ "sched_print_table" 102) "sched_get_priority_min(val)" (lo val) in
      let! b := CHECK_NOT_M1 (at_ "sched_print_table" 103) "sched_get_priority_max(val)" (hi val) in
      let! rest := print_rows lo hi rows' in
      pret (mkMsg "%s is %d (min=%d, max=%d)\n" [AStr name; AInt val; AInt a; AInt b] :: rest)
  end.
Definition sched_print_table (lo hi : Z -> Z) : M (list msg) := print_rows lo hi sched_tbl.

Definition sched_check_policy (policy : Z) : M unit :=
  match list_find (fun row : string * Z => policy = row.2) sched_tbl with
  | Some _ => pret tt
  | None => CHECK_ERROR (at_ "sched_check_policy" 117) "bad policy value"
  end.

Definition SCHED_FIFO : Z := 1.

(** What the created thread is asked to run with: the attributes, if any were
    given (inherit flag, policy, priority). *)
Definition sched_attr : Type := option (Z * Z * Z).
Definition PTHREAD_EXPLICIT_SCHED : Z := 1.

(** pthread_create(3) and pthread_join(3) return 0 or an error number; [func]
    is the function the thread runs. *)
Definition pthread_call : M Z :=
  pbind next_answer (fun a => pret (match a_errno a with Some e => Zpos e | None => 0 end)).

Definition sched_run_priority {A B} (func : A -> B) (pval : A) (prio policy : Z)
    : M (sched_attr * B) :=
  sched_check_policy policy ;;;
  let! attr :=
    if policy =? SCHED_FIFO then
      let myattr := Some (PTHREAD_EXPLICIT_SCHED, SCHED_FIFO, prio) in
      let! r := pthread_call in
      CHECK_ZERO_ERRNO (at_ "sched_run_priority" 144) "pthread_create(&mythread, &myattr, func, pval)" r ;;;
      pret myattr
    else
      let! r := pthread_call in
      CHECK_ZERO_ERRNO (at_ "sched_run_priority" 146) "pthread_create(&mythread, NULL, func, pval)" r ;;;
      pret None in
  let! r := pthread_call in
  CHECK_ZERO_ERRNO (at_ "sched_run_priority" 148) "pthread_join(mythread, &retval)" r ;;;
  pret (attr, func pval).

End Sched.

(** * clock_utils.h *)
Module Clock.

Definition clock_tbl : table :=
  [("CLOCK_REALTIME", 0); ("CLOCK_MONOTONIC", 1); ("CLOCK_PROCESS_CPUTIME_ID", 2);
   ("CLOCK_THREAD_CPUTIME_ID", 3); ("CLOCK_MONOTONIC_RAW", 4); ("CLOCK_REALTIME_COARSE", 5);
   ("CLOCK_MONOTONIC_COARSE", 6)].

Definition at_ (f : string) (l : Z) : site := mkSite "clock_utils.h" f l.

(** The kernel's answers about a clock, seconds and nanoseconds of its resolution
    and of its time, or a failure. *)
Definition answered (r : option (Z * Z)) : Z := match r with Some _ => 0 | None => -1 end.

Fixpoint print_rows (clock_getres clock_gettime : Z -> option (Z * Z)) (rows : table) : M (list msg) :=
  match rows with
  | [] => pret []
  | (name, clk_id) :: rows' =>
      CHECK_NOT_M1 (at_ "clock_print_table" 74) "clock_getres(clk_id, &res)" (answered (clock_getres clk_id)) ;;;
      CHECK_NOT_M1 (at_ "clock_print_table" 75) "clock_gettime(clk_id, &ts)" (answered (clock_gettime clk_id)) ;;;
      let '(rs, rn) := default (0, 0) (clock_getres clk_id) in
      let '(ts, tn) := default (0, 0) (clock_gettime clk_id) in
      let! rest := print_rows clock_getres clock_gettime rows' in
      pret (mkMsg "clock resolution for clock %s (%d) is %ld (sec) %ld (nsec), time %ld.%09ld\n"
              [AStr name; AInt clk_id; AInt rs; AInt rn; AInt ts; AInt tn] :: rest)
  end.
Definition clock_print_table (clock_getres clock_gettime : Z -> option (Z * Z)) : M (list msg) :=
  print_rows clock_getres clock_gettime clock_tbl.

Definition clock_get_by_name (name : string) : M Z :=
  match find_name name clock_tbl with
  | Some v => pret v
  | None => CHECK_ERROR (at_ "clock_get_by_name" 90) "bad clock name"
  end.

End Clock.

(** * multiproc_utils.h: the status of a child *)
Module MultiProc.

(** The macros of <sys/wait.h>. *)
Definition WTERMSIG (s : Z) : Z := Z.land s 127.
Definition WEXITSTATUS (s : Z) : Z := Z.shiftr (Z.land s 65280) 8.
Definition WSTOPSIG (s : Z) : Z := WEXITSTATUS s.
Definition WIFEXITED (s : Z) : bool := WTERMSIG s =? 0.
Definition WIFSTOPPED (s : Z) : bool := Z.land s 255 =? 127.
Definition WIFSIGNALED (s : Z) : bool := 0 <? Z.shiftr (wraps 8 (Z.land s 127 + 1)) 1.

Definition child_ok (status : Z) : Z :=
  if WIFEXITED status then if negb (WEXITSTATUS status =? 0) then 0 else 1 else 0.

Definition print_status (status : Z) : list msg :=
  [mkMsg "analyzing code [%d]" [AInt status]] ++
  (if WIFEXITED status then [mkMsg "child exited normally with status %d" [AInt (WEXITSTATUS status)]] else []) ++
  (if WIFSTOPPED status then
     [mkMsg "child was stopped with signal %d, %s" [AInt (WSTOPSIG status); AStrsignal (WSTOPSIG status)]] else []) ++
  (if WIFSIGNALED status then
     [mkMsg "child was signaled with signal %d, %s" [AInt (WTERMSIG status); AStrsignal (WTERMSIG status)]] else []).

Definition print_code (code : Z) : list msg :=
  if code =? 1 then [mkMsg "child exited of it's own accord" []]
  else if code =? 2 then [mkMsg "child was killed" []]
  else if code =? 5 then [mkMsg "child was stopped" []]
  else if code =? 6 then [mkMsg "child was continued" []]
  else [].

(** [my_system]: [formatted] is what vsnprintf(3) would write without a limit,
    [system] the result of system(3). *)
Definition cmd_size : Z := 1024.
Definition my_system (system : string -> Z) (formatted : string) : M string :=
  let str := String.substring 0 (Z.to_nat (cmd_size - 1)) formatted in
  CHECK_ZERO (mkSite "multiproc_utils.h" "my_system" 99) "system(str)" (system str) ;;;
  pret str.

End MultiProc.

(** * Lookups *)

Lemma find_name_row (tbl : table) name val :
  NoDup tbl.*1 -> (name, val) ∈ tbl -> find_name name tbl = Some val.
Proof.
  intros Hnd Hin. apply list_elem_of_lookup in Hin as [i Hi]. unfold find_name.
  destruct (list_find _ tbl) as [[j [n v]]|] eqn:E.
  - apply list_find_Some in E as (Hj & Hn & _). simpl in *. subst n.
    assert (i = j) as <-; [|by simplify_eq].
    eapply NoDup_lookup; [done|rewrite list_lookup_fmap, Hi; done|by rewrite list_lookup_fmap, Hj].
  - apply list_find_None in E. rewrite Forall_lookup in E. by destruct (E _ _ Hi).
Qed.

Lemma find_val_row (tbl : table) name val :
  (name, val) ∈ tbl -> exists name', find_val val tbl = Some name' /\ (name', val) ∈ tbl.
Proof.
  intros Hin. unfold find_val. destruct (list_find _ tbl) as [[j [n v]]|] eqn:E.
  - apply list_find_Some in E as (Hj & Hn & _). simpl in *. subst v.
    exists n. split; [done|]. by eapply list_elem_of_lookup_2.
  - apply list_find_None in E. rewrite Forall_forall in E. by destruct (E _ Hin).
Qed.

Lemma find_name_none (tbl : table) name : name ∉ tbl.*1 -> find_name name tbl = None.
Proof.
  intros Hn. unfold find_name. destruct (list_find _ tbl) as [[j row]|] eqn:E; [exfalso|done].
  apply list_find_Some in E as (Hj & Hrow & _). apply Hn. apply list_elem_of_fmap.
  exists row. split; [done|]. by eapply list_elem_of_lookup_2.
Qed.

Lemma find_val_none (tbl : table) val : val ∉ tbl.*2 -> find_val val tbl = None.
Proof.
  intros Hn. unfold find_val. destruct (list_find _ tbl) as [[j row]|] eqn:E; [exfalso|done].
  apply list_find_Some in E as (Hj & Hrow & _). apply Hn. apply list_elem_of_fmap.
  exists row. split; [done|]. by eapply list_elem_of_lookup_2.
Qed.

Lemma wp_CHECK_ERROR {A} s m (Q : A -> world -> Prop) X w :
  (forall c w', bad_status c -> X c w') -> wp (CHECK_ERROR s m) Q X w.
Proof. intros HX. unfold CHECK_ERROR, check_error, errno. repeat wp_step. by apply wp_handle_error. Qed.

Definition signal_aliases : list string := ["SIGIOT"; "SIGPOLL"].

(** The name a value is translated to is the first of the table. *)
Lemma signal_first : Forall (fun row =>
  match find_val row.2 Signal.signal_tbl with
  | Some n => bool_decide (n = row.1) = bool_decide (row.1 ∉ signal_aliases)
  | None => False
  end) Signal.signal_tbl.
Proof. unfold Signal.signal_tbl. repeat (apply Forall_cons_2; [vm_compute; reflexivity|]). apply Forall_nil_2. Qed.

Lemma signal_names : NoDup Signal.signal_tbl.*1.
Proof. apply (bool_decide_unpack _). by vm_compute. Qed.

(** Signal names and numbers.  Every row of [signal_tbl] is found by its name;
    by its number a name with the same number is found, the row's own unless it
    is [SIGIOT] or [SIGPOLL], which share the number of an earlier row; any other
    name or number ends the process with a failing status. *)
Theorem signal_table_roundtrip (name : string) (val : Z) (w : world) :
  ((name, val) ∈ Signal.signal_tbl ->
     Signal.signal_get_by_name name w = (Val val, w) /\
     exists name', Signal.signal_get_by_val val w = (Val name', w) /\
       Signal.signal_get_by_name name' w = (Val val, w) /\ (name' = name <-> name ∉ signal_aliases)) /\
  (name ∉ Signal.signal_tbl.*1 ->
     wp (Signal.signal_get_by_name name) (fun _ _ => False) (fun c _ => bad_status c) w) /\
  (val ∉ Signal.signal_tbl.*2 ->
     wp (Signal.signal_get_by_val val) (fun _ _ => False) (fun c _ => bad_status c) w).
Proof.
  unfold Signal.signal_get_by_name, Signal.signal_get_by_val. split_and!.
  - intros Hin. rewrite (find_name_row _ _ _ signal_names Hin). split; [done|].
    destruct (find_val_row _ _ _ Hin) as (n & Hn & Hin'). exists n.
    rewrite Hn, (find_name_row _ _ _ signal_names Hin'). split_and!; [done|done|].
    pose proof signal_first as T. rewrite Forall_forall in T. pose proof (T _ Hin) as H.
    simpl in H. rewrite Hn in H. split; intros Hx.
    + apply (bool_decide_eq_true_1 (name ∉ signal_aliases)). rewrite <- H. by apply bool_decide_eq_true_2.
    + apply (bool_decide_eq_true_1 (n = name)). rewrite H. by apply bool_decide_eq_true_2.
  - intros Hno. rewrite find_name_none by done. by apply wp_CHECK_ERROR.
  - intros Hno. rewrite find_val_none by done. by apply wp_CHECK_ERROR.
Qed.

Lemma sched_names : NoDup Sched.sched_tbl.*1 /\ NoDup Sched.sched_tbl.*2.
Proof. split; apply (bool_decide_unpack _); by vm_compute. Qed.

Lemma wp_pthread_call s txt {A} (k : Z -> M A) (Q : A -> world -> Prop) X w :
  (forall c w', bad_status c -> X c w') ->
  (forall w', wp (k 0) Q X w') ->
  wp (pbind Sched.pthread_call (fun r => pbind (CHECK_ZERO_ERRNO s txt r) k)) Q X w.
Proof.
  intros HX Hk. unfold Sched.pthread_call. wp_step. wp_step. unfold wp at 1, next_answer.
  destruct (a_errno _) as [e|]; wp_step; wp_step; (apply wp_check_zero_errno; [done|]); auto.
Qed.

(** Scheduling policies.  [sched_get_by_name] and [sched_get_name] are inverse
    on the table; [sched_run_priority] returns what the function returns, run in
    a thread with explicit [SCHED_FIFO] attributes exactly for that policy; a
    policy that is not in the table ends the process before any thread is made. *)
Theorem sched_policies {A B} (func : A -> B) (pval : A) (prio policy : Z) (name : string) (w : world) :
  ((name, policy) ∈ Sched.sched_tbl ->
     Sched.sched_get_by_name name w = (Val policy, w) /\
     Sched.sched_get_name policy w = (Val name, w) /\
     wp (Sched.sched_run_priority func pval prio policy)
       (fun r _ => r = (if decide (policy = Sched.SCHED_FIFO)
                        then Some (Sched.PTHREAD_EXPLICIT_SCHED, Sched.SCHED_FIFO, prio) else None, func pval))
       (fun c _ => bad_status c) w) /\
  (policy ∉ Sched.sched_tbl.*2 ->
     wp (Sched.sched_run_priority func pval prio policy)
       (fun _ _ => False) (fun c w' => bad_status c /\ w_tick w' = w_tick w) w).
Proof.
  unfold Sched.sched_get_by_name, Sched.sched_get_name, Sched.sched_run_priority, Sched.sched_check_policy.
  destruct sched_names as [Hn1 Hn2]. split.
  - intros Hin. rewrite (find_name_row _ _ _ Hn1 Hin). split_and!; [done| |].
    + destruct (find_val_row _ _ _ Hin) as (n & -> & Hin'). unfold pret. do 2 f_equal.
      apply list_elem_of_lookup in Hin as [i Hi]. apply list_elem_of_lookup in Hin' as [j Hj].
      assert (i = j) as <-; [|by simplify_eq].
      eapply NoDup_lookup; [apply Hn2|rewrite list_lookup_fmap, Hi; done|by rewrite list_lookup_fmap, Hj].
    + destruct (list_find _ _) as [r|] eqn:E.
      2: { apply list_find_None in E. rewrite Forall_forall in E. by destruct (E _ Hin). }
      do 2 wp_step. wp_step. wp_step; zbool.
      * apply wp_pthread_call; [done|]. intros w1. wp_step. apply wp_pthread_call; [done|].
        intros w2. wp_step. by rewrite decide_True.
      * apply wp_pthread_call; [done|]. intros w1. wp_step. apply wp_pthread_call; [done|].
        intros w2. wp_step. by rewrite decide_False.
  - intros Hno. destruct (list_find _ _) as [[j row]|] eqn:E.
    { apply list_find_Some in E as (Hj & Hrow & _). destruct Hno. apply list_elem_of_fmap.
      exists row. split; [done|]. by eapply list_elem_of_lookup_2. }
    wp_step. unfold CHECK_ERROR, check_error, errno. repeat wp_step.
    apply wp_handle_error_quiet. intros c w' Hc (l & e & ->). by split.
Qed.

(** ** The status of a child *)

#[global] Instance arg_eq_dec : EqDecision arg.
Proof. solve_decision. Defined.
#[global] Instance msg_eq_dec : EqDecision msg.
Proof. solve_decision. Defined.

(** The status words of wait(2): a normal exit, death by a signal (with or
    without a core dump), a stop. *)
Definition exited (code : Z) : Z := Z.shiftl code 8.
Definition signaled (sig : Z) (core : bool) : Z := Z.lor sig (if core then 128 else 0).
Definition stopped (sig : Z) : Z := Z.lor (Z.shiftl sig 8) 127.

Definition decoded (status : Z) (m : msg) (good : Z) : Prop :=
  MultiProc.print_status status = [mkMsg "analyzing code [%d]" [AInt status]; m] /\
  MultiProc.child_ok status = good.
#[global] Instance decoded_dec status m good : Decision (decoded status m good).
Proof. unfold decoded. apply _. Defined.

(** A property of a byte-sized number, by trying all of them. *)
Lemma for_range (P : Z -> Prop) `{forall z, Decision (P z)} (a : Z) (n : nat) :
  forallb (fun i => bool_decide (P (a + Z.of_nat i))) (seq 0 n) = true ->
  forall z, a <= z < a + Z.of_nat n -> P z.
Proof.
  rewrite forallb_forall. intros Hall z Hz. specialize (Hall (Z.to_nat (z - a))).
  rewrite in_seq in Hall. specialize (Hall ltac:(lia)). apply bool_decide_eq_true in Hall.
  by replace (a + Z.of_nat (Z.to_nat (z - a))) with z in Hall by lia.
Qed.

(** [print_status] and [child_ok] decode every status wait(2) reports: exit
    codes 0 to 255, deaths by signals 1 to 126 with and without core dump, and
    stops.  One line says what happened, and [child_ok] is 1 only for exit
    code 0. *)
Theorem child_status (code sig : Z) (core : bool) :
  (0 <= code < 256 ->
     decoded (exited code) (mkMsg "child exited normally with status %d" [AInt code]) (if code =? 0 then 1 else 0)) /\
  (1 <= sig < 127 ->
     decoded (signaled sig core) (mkMsg "child was signaled with signal %d, %s" [AInt sig; AStrsignal sig]) 0 /\
     decoded (stopped sig) (mkMsg "child was stopped with signal %d, %s" [AInt sig; AStrsignal sig]) 0).
Proof.
  split; [|intros Hs; split].
  - apply (for_range (fun c => decoded (exited c) (mkMsg "child exited normally with status %d" [AInt c])
      (if c =? 0 then 1 else 0)) 0 256). by vm_compute.
  - revert sig Hs. apply (for_range (fun s => decoded (signaled s core)
      (mkMsg "child was signaled with signal %d, %s" [AInt s; AStrsignal s]) 0) 1 126).
    destruct core; by vm_compute.
  - revert sig Hs. apply (for_range (fun s => decoded (stopped s)
      (mkMsg "child was stopped with signal %d, %s" [AInt s; AStrsignal s]) 0) 1 126). by vm_compute.
Qed.

Definition table_world : world := world_of (fun _ => calm 1) ∅.

Lemma signal_table_roundtrip_witness : Signal.signal_get_by_name "SIGPIPE" table_world = (Val 13, table_world).
Proof.
  apply (signal_table_roundtrip "SIGPIPE" 13 table_world). apply (bool_decide_unpack _). by vm_compute.
Defined.

Lemma sched_policies_witness : Sched.sched_get_name 2 table_world = (Val "SCHED_RR", table_world).
Proof.
  apply (sched_policies (fun x : Z => x) 0 0 2 "SCHED_RR" table_world). apply (bool_decide_unpack _). by vm_compute.
Defined.

Lemma child_status_witness : MultiProc.child_ok (exited 0) = 1.
Proof. apply (child_status 0 9 false). lia. Defined.
