(* ===== verification/LowLevel.v ===== *)
(** [src/include/lowlevel_utils.h] and the helpers of [us_helper.h]: page and
    stack alignment, the direction of the stack, time stamp counters, and small
    checks.  Addresses of local variables, the page size, the cycle counter and
    the frequency limits of the processor are arguments. *)

From stdpp Require Import prelude gmap strings list.
From Stdlib Require Import ZArith Lia.
From S2P Require Import Prelude Posix ErrUtils CircularPipe.

Open Scope prog_scope.

(** * us_helper.h *)

Definition min (a b : Z) : Z := if a <? b then a else b.

Definition us_site (f : string) (l : Z) : site := mkSite "us_helper.h" f l.

(** The characters of a buffer, compared as [char]. *)
Fixpoint memcheck_from (i : Z) (buf : list byte) (val : byte) (size : nat) {struct size} : M unit :=
  match size with
  | O => pret tt
  | S size' =>
      match buf with
      | [] => pstuck
      | c :: buf' =>
          if negb (Byte.eqb c val) then
            eprintf "ERROR: value at %u is %c and not %c\n"
              [AInt i; AInt (Z.of_N (Byte.to_N c)); AInt (Z.of_N (Byte.to_N val))] ;;;
            c_exit EXIT_FAILURE
          else memcheck_from (i + 1) buf' val size'
      end
  end.
Definition memcheck (buf : list byte) (val : byte) (size : Z) : M unit :=
  memcheck_from 0 buf val (Z.to_nat size).

Definition no_params (argc : Z) (argv0 : string) : M unit :=
  if 1 <? argc then
    eprintf "%s: usage: %s (without parameters)\n" [AStr argv0; AStr argv0] ;;; c_exit EXIT_FAILURE
  else pret tt.

Definition page_adr (pagesize adr : Z) : Z := u64 (adr - adr mod pagesize).

(** * lowlevel_utils.h *)

Definition ll_site (f : string) (l : Z) : site := mkSite "lowlevel_utils.h" f l.

(** [pa] and [pu] are the addresses of the locals. *)
Definition stack_vars_direction_up (pa pu : Z) : M bool :=
  if pa =? u64 (pu + 4) then pret false
  else if pa =? u64 (pu - 4) then pret true
  else CHECK_ERROR (ll_site "stack_vars_direction_up" 50) "strange stack you have here".

(** [pa] is the address of the caller's local, [adr] of the callee's. *)
Definition stack_function_direction_up (pa adr : Z) : M bool :=
  if pa <? adr then pret true
  else if adr <? pa then pret false
  else CHECK_ERROR (ll_site "stack_function_direction_up" 77) "strange stack you have here".

Definition page_align (pagesize adr : Z) : Z := Z.land adr (u64 (Z.lnot (pagesize - 1))).

Definition stack_align (pagesize pa callee adr : Z) : M Z :=
  let! up := stack_function_direction_up pa callee in
  if up then pret (Z.land adr (u64 (Z.lnot (pagesize - 1))))
  else
    let m := adr mod pagesize in
    if m =? 0 then pret adr else pret (u64 (adr - m + pagesize)).

(** The union [timestamp] on a little-endian machine, after [rdtsc]. *)
Definition getticks (low high : Z) : Z := Z.lor (u32 low) (Z.shiftl (u32 high) 32).

(** [max] is the upper frequency limit cpufreq reports, in kHz. *)
Definition get_mic_diff (max t1 t2 : Z) : M Z :=
  CHECK_ASSERT (ll_site "get_mic_diff" 196) "t2 >= t1" (t1 <=? t2) ;;;
  let diff := u64 (t2 - t1) in
  let freq := u64 (max * 1000) in
  CHECK_ASSERT (ll_site "get_mic_diff" 210) "freq!=0" (negb (freq =? 0)) ;;;
  let mpart := freq / 1000000 in
  CHECK_ASSERT (ll_site "get_mic_diff" 213) "mpart!=0" (negb (mpart =? 0)) ;;;
  let mdiff := diff / mpart in
  pret (u32 mdiff).

(** * Alignment *)

Lemma land_page (k adr : Z) :
  0 <= k < 64 -> 0 <= adr < 2 ^ 64 -> Z.land adr (u64 (Z.lnot (2 ^ k - 1))) = adr - adr mod 2 ^ k.
Proof.
  intros Hk Ha. assert (2 ^ k - 1 = Z.ones k) as -> by (rewrite Z.ones_equiv; lia).
  unfold wrapu. rewrite <- (Z.land_ones _ 64) by lia.
  rewrite (Z.land_comm (Z.lnot _)), Z.land_assoc, (Z.land_ones adr 64) by lia.
  rewrite (Z.mod_small adr) by lia.
  rewrite <- Z.ldiff_land, Z.ldiff_ones_r, Z.shiftl_mul_pow2, Z.shiftr_div_pow2 by lia.
  pose proof (Z.div_mod adr (2 ^ k)). assert (0 < 2 ^ k) by (apply Z.pow_pos_nonneg; lia). lia.
Qed.

(** [x] is the last page boundary not above [adr]. *)
Definition boundary_below (ps adr x : Z) : Prop := (ps | x) /\ x <= adr < x + ps.

(** Aligning to pages.  For a page size that is a power of two,
    [page_align] (a mask) and [page_adr] (a remainder) are the same function:
    the last page boundary not above the address. *)
Theorem page_alignment (k adr : Z) :
  0 <= k < 64 -> 0 <= adr < 2 ^ 64 ->
  boundary_below (2 ^ k) adr (page_align (2 ^ k) adr) /\ page_adr (2 ^ k) adr = page_align (2 ^ k) adr.
Proof.
  intros Hk Ha. unfold page_align, page_adr, boundary_below. rewrite land_page by done.
  assert (0 < 2 ^ k) by (apply Z.pow_pos_nonneg; lia).
  pose proof (Z.mod_pos_bound adr (2 ^ k)). pose proof (Z.mod_le adr (2 ^ k)).
  split; [split; [|lia]|by rewrite u64_small by lia].
  exists (adr / 2 ^ k). pose proof (Z.div_mod adr (2 ^ k)). lia.
Qed.

Lemma mult_gap p a q : 0 < p -> q * p - p < p * a -> p * a < q * p -> False.
Proof. intros. destruct (Z.le_gt_cases q a); nia. Qed.

(** Aligning to the stack.  When the stack grows down [stack_align] gives the
    first page boundary not below the address, and wraps to 0 in the last page of
    the address space; when it grows up, the last boundary not above it.  Two
    locals at one address end the process. *)
Theorem stack_alignment (k pa callee adr : Z) (w : world) :
  0 <= k < 64 -> 0 <= adr < 2 ^ 64 ->
  wp (stack_align (2 ^ k) pa callee adr)
    (fun r w' => w' = w /\
       (pa < callee -> boundary_below (2 ^ k) adr r) /\
       (callee < pa -> adr <= 2 ^ 64 - 2 ^ k -> (2 ^ k | r) /\ r - 2 ^ k < adr <= r) /\
       (callee < pa -> 2 ^ 64 - 2 ^ k < adr -> r = 0))
    (fun c _ => bad_status c /\ pa = callee) w.
Proof.
  intros Hk Ha. unfold stack_align, stack_function_direction_up.
  assert (0 < 2 ^ k) by (apply Z.pow_pos_nonneg; lia).
  pose proof (Z.mod_pos_bound adr (2 ^ k)). pose proof (Z.mod_le adr (2 ^ k)).
  pose proof (Z.div_mod adr (2 ^ k)). pose proof (Z.div_pos adr (2 ^ k)).
  assert ((2 ^ k | 2 ^ 64)) as [q Hq] by (exists (2 ^ (64 - k)); rewrite <- Z.pow_add_r by lia; f_equal; lia).
  wp_step. wp_step; [|wp_step]; zbool.
  - repeat wp_step. rewrite land_page by done. split_and!; [done| |lia|lia].
    intros _. split; [|lia]. exists (adr / 2 ^ k). lia.
  - repeat wp_step; zbool.
    + split_and!; [done|lia| |]; intros _ ?.
      * split; [|lia]. exists (adr / 2 ^ k). lia.
      * exfalso. apply (mult_gap (2 ^ k) (adr / 2 ^ k) q); lia.
    + split_and!; [done|lia| |]; intros _ Hadr.
      * assert (adr - adr mod 2 ^ k + 2 ^ k <= 2 ^ 64) by lia.
        assert (adr - adr mod 2 ^ k + 2 ^ k <> 2 ^ 64).
        { intros E. lia. }
        rewrite u64_small by lia. split; [|lia]. exists (adr / 2 ^ k + 1). lia.
      * assert (adr - adr mod 2 ^ k + 2 ^ k = 2 ^ 64) as ->; [|done].
        destruct (Z.le_gt_cases (q * 2 ^ k) (2 ^ k * (adr / 2 ^ k) + 2 ^ k)); [|exfalso;
          apply (mult_gap (2 ^ k) (adr / 2 ^ k + 1) q); lia].
        destruct (Z.le_gt_cases (2 ^ k * (adr / 2 ^ k) + 2 ^ k) (q * 2 ^ k)); [lia|exfalso].
        apply (mult_gap (2 ^ k) (adr / 2 ^ k) q); lia.
  - unfold CHECK_ERROR, check_error, errno. repeat wp_step. apply wp_handle_error. intros. split; [done|lia].
Qed.

(** * Ticks *)

Lemma lor_halves (lo hi : Z) : 0 <= lo < 2 ^ 32 -> 0 <= hi -> Z.lor lo (Z.shiftl hi 32) = hi * 2 ^ 32 + lo.
Proof.
  intros Hlo Hhi. rewrite Z.shiftl_mul_pow2 by lia.
  rewrite (Z.lor_comm lo), <- Z.add_lor_land.
  assert (Z.land (hi * 2 ^ 32) lo = 0) as ->; [|lia].
  rewrite <- (Z.mod_small lo (2 ^ 32)) by lia. rewrite <- Z.land_ones by lia.
  rewrite (Z.land_comm lo), Z.land_assoc, Z.land_ones by lia.
  by rewrite Z.mod_mul by lia.
Qed.

Lemma wp_CHECK_ASSERT s txt (b : bool) (Q : Z -> world -> Prop) X w :
  (b = true -> Q 1 w) -> (b = false -> forall c w', bad_status c -> X c w') ->
  wp (CHECK_ASSERT s txt b) Q X w.
Proof.
  intros Ht Hf. unfold CHECK_ASSERT, check_assert. destruct b.
  - apply Ht. done.
  - apply wp_handle_error. auto.
Qed.

(** [getticks] assembles the two halves of the counter, and [get_mic_diff]
    divides the difference by the ticks of a microsecond: it returns only for
    counters in order and a frequency of at least 1 MHz, and the result is cut
    to 32 bits, so it is exact only below 2^32 microseconds (71 minutes). *)
Theorem ticks_to_micros (lo hi max t1 t2 : Z) (w : world) :
  0 <= lo < 2 ^ 32 -> 0 <= hi < 2 ^ 32 -> 0 <= max < 18446744073709551 ->
  0 <= t1 < 2 ^ 64 -> 0 <= t2 < 2 ^ 64 ->
  getticks lo hi = hi * 2 ^ 32 + lo /\
  wp (get_mic_diff max t1 t2)
    (fun r w' => w' = w /\ t1 <= t2 /\ 1000 <= max /\
       r = ((t2 - t1) / (max / 1000)) mod 2 ^ 32 /\
       ((t2 - t1) / (max / 1000) < 2 ^ 32 -> r = (t2 - t1) / (max / 1000)))
    (fun c _ => bad_status c /\ (t2 < t1 \/ max < 1000)) w.
Proof.
  intros Hlo Hhi Hmax H1 H2. split.
  { unfold getticks. rewrite !u32_small by lia. apply lor_halves; lia. }
  unfold get_mic_diff.
  rewrite (u64_small (max * 1000)) by lia.
  assert (max * 1000 / 1000000 = max / 1000) as ->.
  { change 1000000 with (1000 * 1000). rewrite <- Z.div_div by lia. by rewrite Z.div_mul. }
  pose proof (Z.div_mod max 1000). pose proof (Z.mod_pos_bound max 1000).
  wp_step. apply wp_CHECK_ASSERT; intros E1; zbool; [|intros; split; [done|lia]].
  wp_step. apply wp_CHECK_ASSERT; intros E2; zbool; [|intros; split; [done|lia]].
  wp_step. apply wp_CHECK_ASSERT; intros E3; zbool; [|intros; split; [done|lia]].
  wp_step. rewrite (u64_small (t2 - t1)) by lia.
  assert (0 <= (t2 - t1) / (max / 1000)) by (apply Z.div_pos; lia).
  split_and!; [done|lia|lia|done|]. intros. apply u32_small. lia.
Qed.

Definition memcheck_msg (i : Z) (c val : byte) : msg :=
  mkMsg "ERROR: value at %u is %c and not %c\n"
    [AInt i; AInt (Z.of_N (Byte.to_N c)); AInt (Z.of_N (Byte.to_N val))].

(** The loop of [memcheck] after [n0] bytes that had the value. *)
Lemma wp_memcheck_from (val : byte) (size n0 : nat) (buf : list byte) (w : world) :
  (size <= length buf)%nat ->
  wp (memcheck_from (Z.of_nat n0) buf val size)
    (fun _ w' => w' = w /\ take size buf = replicate size val)
    (fun c w' => c = 1 /\ exists (i : nat) b, buf !! i = Some b /\ (i < size)%nat /\ b <> val /\
       take i buf = replicate i val /\
       w' = set_stderr (w_stderr w ++ [memcheck_msg (Z.of_nat (n0 + i)) b val]) w) w.
Proof.
  revert n0 buf. induction size as [|size IH]; intros n0 buf Hl; [done|].
  destruct buf as [|c buf]; cbn in Hl; [lia|]. cbn [memcheck_from].
  destruct (Byte.eqb c val) eqn:E; cbn [negb].
  - apply Byte.byte_dec_bl in E as ->. replace (Z.of_nat n0 + 1) with (Z.of_nat (S n0)) by lia.
    eapply wp_mono; [apply IH; lia| |].
    + intros _ w' [-> Ht]. cbn. by rewrite Ht.
    + intros st w' (-> & i & b & Hi & Hlt & Hne & Ht & ->). split; [done|].
      exists (S i), b. cbn. rewrite Ht. split_and!; try done; [lia|].
      by replace (n0 + S i)%nat with (S n0 + i)%nat by lia.
  - assert (c <> val) by (intros ->; by rewrite (Byte.byte_dec_lb eq_refl) in E).
    unfold eprintf, c_exit. repeat wp_step. split; [done|]. exists 0%nat, c.
    rewrite Nat.add_0_r. split_and!; try done. lia.
Qed.

(** [memcheck] returns exactly when the first [size] bytes of the buffer
    have the value; otherwise it prints the index of the first byte that has
    not, with both bytes, and exits with status 1. *)
Theorem memcheck_spec (buf : list byte) (val : byte) (size : Z) (w : world) :
  0 <= size <= Z.of_nat (length buf) ->
  wp (memcheck buf val size)
    (fun _ w' => w' = w /\ take (Z.to_nat size) buf = replicate (Z.to_nat size) val)
    (fun c w' => c = 1 /\ exists (i : nat) b, buf !! i = Some b /\ Z.of_nat i < size /\ b <> val /\
       take i buf = replicate i val /\
       w' = set_stderr (w_stderr w ++ [memcheck_msg (Z.of_nat i) b val]) w) w.
Proof.
  intros Hs. eapply wp_mono; [apply (wp_memcheck_from val (Z.to_nat size) 0); lia|done|].
  intros c w' (-> & i & b & Hi & Hlt & Hne & Ht & ->). split; [done|].
  exists i, b. split_and!; [done|lia|done..].
Qed.

Lemma page_alignment_witness :
  page_adr 4096 8200 = page_align 4096 8200 /\ page_align 4096 8200 = 8192.
Proof.
  split; [|reflexivity].
  destruct (page_alignment 12 8200) as [_ H]; [split; vm_compute; congruence|split; vm_compute; congruence|exact H].
Defined.

Lemma stack_alignment_witness :
  exists w, (stack_align 4096 200 100 8200 w).1 = Val 12288 /\
    (exists r, (stack_align 4096 200 100 8200 w).1 = Val r /\ r - 4096 < 8200 <= r).
Proof.
  exists (world_of (fun _ => calm 1) ∅). split; [reflexivity|].
  pose proof (stack_alignment 12 200 100 8200 (world_of (fun _ => calm 1) ∅)) as H.
  exists 12288. split; [reflexivity|].
  destruct H as (_ & _ & H & _); [lia|lia|]. apply H; lia.
Defined.

Lemma ticks_to_micros_witness :
  getticks 5 1 = 4294967301 /\
  exists r, (get_mic_diff 2000000 100 20100 (world_of (fun _ => calm 1) ∅)).1 = Val r /\ r = 10.
Proof.
  destruct (ticks_to_micros 5 1 2000000 100 20100 (world_of (fun _ => calm 1) ∅)) as [H1 H2]; [lia..|].
  split; [exact H1|]. exists 10. split; [reflexivity|].
  destruct H2 as (_ & _ & _ & H & _). exact H.
Defined.

Lemma memcheck_spec_witness :
  exists w', memcheck [Byte.x41; Byte.x41; Byte.x42] Byte.x41 3 (world_of (fun _ => calm 1) ∅) = (Exit 1, w').
Proof.
  eexists. 
  pose proof (memcheck_spec [Byte.x41; Byte.x41; Byte.x42] Byte.x41 3 (world_of (fun _ => calm 1) ∅)) as H.
  destruct H as (_ & i & b & _ & _ & _ & _ & H); [cbn; lia|].
  reflexivity.
Defined.
