(* ===== verification/Mersenne.v ===== *)
(** [src/include/random_utils.hh]: the Mersenne twister the memory reordering
    example draws its delays from.  The class keeps a ring of 624 words and an
    index; [integer] replaces one word of the ring and returns it tempered.
    The theorems compare it with the recurrence that defines the generator. *)

From stdpp Require Import prelude list.
From Stdlib Require Import ZArith Lia.
From S2P Require Import Prelude.

Open Scope Z_scope.

(** * The class *)

Definition MT_IA : Z := 397.
Definition MT_LEN : Z := 624.

Record MersenneTwister := mkMT { m_buffer : list Z; m_index : Z }.

(** An array access: [None] outside the array. *)
Definition array_get (a : list Z) (i : Z) : option Z :=
  if i <? 0 then None else a !! Z.to_nat i.
Definition array_set (a : list Z) (i v : Z) : option (list Z) :=
  if (i <? 0) || (Z.of_nat (length a) <=? i) then None else Some (<[Z.to_nat i := v]> a).

Definition twist (x0 x1 xm : Z) : Z :=
  let s := Z.lor (Z.land x0 0x80000000) (Z.land x1 0x7fffffff) in
  Z.lxor (Z.lxor xm (Z.shiftr s 1)) (u32 (Z.land s 1 * 0x9908B0DF)).

(** The four swizzles; the left shifts are on [unsigned int], the masks are
    [unsigned long] and the assignment cuts back to 32 bits. *)
Definition swizzle1 (r : Z) : Z := Z.lxor r (Z.shiftr r 11).
Definition swizzle2 (r : Z) : Z := u32 (Z.lxor r (Z.land (u32 (Z.shiftl r 7)) 0x9d2c5680)).
Definition swizzle3 (r : Z) : Z := u32 (Z.lxor r (Z.land (u32 (Z.shiftl r 15)) 0xefc60000)).
Definition swizzle4 (r : Z) : Z := Z.lxor r (Z.shiftr r 18).
Definition swizzle (r : Z) : Z := swizzle4 (swizzle3 (swizzle2 (swizzle1 r))).

Definition integer (m : MersenneTwister) : option (Z * MersenneTwister) :=
  let i := m_index m in
  let i2 := m_index m + 1 in
  let i2 := if MT_LEN <=? i2 then 0 else i2 in
  let j := m_index m + MT_IA in
  let j := if MT_LEN <=? j then j - MT_LEN else j in
  xi ← array_get (m_buffer m) i;
  xi2 ← array_get (m_buffer m) i2;
  xj ← array_get (m_buffer m) j;
  let r := twist xi xi2 xj in
  b ← array_set (m_buffer m) (m_index m) r;
  Some (swizzle r, mkMT b i2).

(** [n] calls: the values in order, and the object after them. *)
Fixpoint integers (n : nat) (m : MersenneTwister) : option (list Z * MersenneTwister) :=
  match n with
  | O => Some ([], m)
  | S n' =>
      '(r, m1) ← integer m;
      '(rs, m2) ← integers n' m1;
      Some (r :: rs, m2)
  end.

(** The constructor: the buffer filled with the seed, then [MT_LEN * 100] calls. *)
Definition seeded (seed : Z) : MersenneTwister := mkMT (replicate (Z.to_nat MT_LEN) seed) 0.
Definition warm_up : nat := Z.to_nat (MT_LEN * 100).
Definition construct (seed : Z) : option MersenneTwister :=
  snd <$> integers warm_up (seeded seed).

(** * The reference: the recurrence on an ever longer sequence *)

(** MT19937 as it is published, with the operations written arithmetically and
    the constants of the published parameters: word size 32, separation point
    31, twist matrix 2567483615, tempering shifts 11, 7, 15 and 18 with the
    masks 2636928640 and 4022730752.

    The word formed of the highest bit of [x0] and the low 31 bits of [x1]. *)
Definition mt_joined (x0 x1 : Z) : Z := 2 ^ 31 * (x0 / 2 ^ 31 mod 2) + x1 mod 2 ^ 31.

(** The word times the twist matrix, added to [xm]. *)
Definition mt_next (x0 x1 xm : Z) : Z :=
  let y := mt_joined x0 x1 in
  if Z.odd y then Z.lxor (Z.lxor xm (y / 2)) 2567483615 else Z.lxor xm (y / 2).

Definition mt_temper (x : Z) : Z :=
  let y := Z.lxor x (x / 2 ^ 11) in
  let y := Z.lxor y (Z.land (y * 2 ^ 7) 2636928640) mod 2 ^ 32 in
  let y := Z.lxor y (Z.land (y * 2 ^ 15) 4022730752) mod 2 ^ 32 in
  Z.lxor y (y / 2 ^ 18).

(** [sequence b n] is the words [b] and the [n] words that follow: word
    [k + 624] comes from words [k], [k + 1] and [k + 397]. *)
Fixpoint sequence (b : list Z) (n : nat) : list Z :=
  match n with
  | O => b
  | S k => let l := sequence b k in
           l ++ [mt_next (l !!! k) (l !!! (k + 1)%nat) (l !!! (k + 397)%nat)]
  end.

(** Where ring slot [j] lies in the sequence after [n] calls: the only position
    in [n, n + 624) that is [j] modulo 624. *)
Definition slot_pos (n : nat) (j : Z) : Z := Z.of_nat n + (j - Z.of_nat n) mod MT_LEN.

(** The object after [n] calls holds the last 624 words of the sequence. *)
Record window (b : list Z) (n : nat) (m : MersenneTwister) : Prop := {
  win_len : length (m_buffer m) = Z.to_nat MT_LEN;
  win_index : m_index m = Z.of_nat n mod MT_LEN;
  win_slots : forall j, 0 <= j < MT_LEN ->
    m_buffer m !!! Z.to_nat j = sequence b n !!! Z.to_nat (slot_pos n j)
}.

(** * The bit operations are the published ones *)

Lemma u32_bit z i : 0 <= i -> Z.testbit (u32 z) i = (i <? 32) && Z.testbit z i.
Proof.
  intros Hi. unfold wrapu. destruct (Z.ltb_spec i 32).
  - by rewrite Z.mod_pow2_bits_low.
  - by rewrite Z.mod_pow2_bits_high by lia.
Qed.

(** A number times [2 ^ k] and a number below [2 ^ k] have no bit in common. *)
Lemma lor_add k a b : 0 <= k -> 0 <= b < 2 ^ k -> Z.lor (a * 2 ^ k) b = a * 2 ^ k + b.
Proof.
  intros Hk Hb. rewrite <- Z.lxor_lor, <- Z.add_nocarry_lxor; try done;
    apply Z.bits_inj'; intros i Hi; rewrite Z.land_spec, Z.bits_0, <- Z.shiftl_mul_pow2, Z.shiftl_spec by done;
    (destruct (Z.lt_ge_cases i k); [by rewrite Z.testbit_neg_r by lia|]);
    rewrite <- (Z.mod_small b (2 ^ k)), Z.mod_pow2_bits_high by lia; by rewrite andb_false_r.
Qed.

Lemma land_bit31 x : Z.land x 0x80000000 = x / 2 ^ 31 mod 2 * 2 ^ 31.
Proof.
  change 0x80000000 with (2 ^ 31). apply Z.bits_inj'. intros i Hi.
  rewrite <- Z.shiftl_mul_pow2, Z.shiftl_spec, Z.land_spec, Z.pow2_bits_eqb by lia.
  change (x / 2 ^ 31 mod 2) with ((x / 2 ^ 31) mod 2 ^ 1). destruct (Z.eqb_spec 31 i) as [<-|].
  - rewrite Z.mod_pow2_bits_low, Z.div_pow2_bits by lia. by rewrite andb_true_r.
  - rewrite andb_false_r. destruct (Z.lt_ge_cases i 31); [by rewrite Z.testbit_neg_r by lia|].
    by rewrite Z.mod_pow2_bits_high by lia.
Qed.

Lemma joined_bits x0 x1 :
  Z.lor (Z.land x0 0x80000000) (Z.land x1 0x7fffffff) = mt_joined x0 x1.
Proof.
  rewrite land_bit31. change 0x7fffffff with (Z.ones 31). rewrite Z.land_ones by lia.
  rewrite lor_add by (try apply Z.mod_pos_bound; lia). unfold mt_joined. lia.
Qed.

Lemma twist_next x0 x1 xm : twist x0 x1 xm = mt_next x0 x1 xm.
Proof.
  unfold twist, mt_next. rewrite joined_bits. generalize (mt_joined x0 x1) as y. intros y.
  rewrite Z.shiftr_div_pow2 by lia. change 1 with (Z.ones 1) at 2. rewrite Z.land_ones by lia.
  change (2 ^ 1) with 2. rewrite Zmod_odd.
  destruct (Z.odd y); [done|]. change (u32 (0 * 0x9908B0DF)) with 0. apply Z.lxor_0_r.
Qed.

(** A mask below [2 ^ 32] makes the cut of the shifted word redundant. *)
Lemma land_u32 z mask : 0 <= mask < 2 ^ 32 -> Z.land (u32 z) mask = Z.land z mask.
Proof.
  intros Hm. apply Z.bits_inj'. intros i Hi. rewrite !Z.land_spec, u32_bit by done.
  destruct (Z.ltb_spec i 32); [done|].
  rewrite <- (Z.mod_small mask (2 ^ 32)), Z.mod_pow2_bits_high by lia. by rewrite !andb_false_r.
Qed.

Lemma swizzle_temper r : swizzle r = mt_temper r.
Proof.
  unfold swizzle, swizzle1, swizzle2, swizzle3, swizzle4, mt_temper.
  rewrite !land_u32, !Z.shiftr_div_pow2, !Z.shiftl_mul_pow2 by lia. done.
Qed.

(** * Ring and recurrence *)

Ltac ring_lia := unfold slot_pos, MT_LEN, MT_IA in *; Z.div_mod_to_equations; lia.

Lemma length_sequence b n : length (sequence b n) = (length b + n)%nat.
Proof. induction n as [|n IH]; cbn; [lia|]. rewrite length_app, IH. cbn. lia. Qed.

Lemma sequence_old b n k : (k < length b + n)%nat -> sequence b (S n) !!! k = sequence b n !!! k.
Proof.
  intros Hk. cbn. rewrite lookup_total_app_l; [done|]. by rewrite length_sequence.
Qed.

Lemma sequence_new b n :
  let l := sequence b n in
  sequence b (S n) !!! (length b + n)%nat = mt_next (l !!! n) (l !!! (n + 1)%nat) (l !!! (n + 397)%nat).
Proof.
  cbn. rewrite lookup_total_app_r; rewrite length_sequence; [|lia]. by rewrite Nat.sub_diag.
Qed.

Lemma array_get_in a i : 0 <= i < Z.of_nat (length a) -> array_get a i = Some (a !!! Z.to_nat i).
Proof.
  intros Hi. unfold array_get. destruct (Z.ltb_spec i 0); [lia|].
  apply list_lookup_lookup_total_lt. lia.
Qed.

Lemma array_set_in a i v :
  0 <= i < Z.of_nat (length a) -> array_set a i v = Some (<[Z.to_nat i := v]> a).
Proof.
  intros Hi. unfold array_set. destruct (Z.ltb_spec i 0), (Z.leb_spec (Z.of_nat (length a)) i); try lia.
  done.
Qed.

Section ring.
Context (b : list Z) (n : nat) (m : MersenneTwister).
Context (Hb : length b = Z.to_nat MT_LEN) (Hw : window b n m).

(** Ring slot [(n + d) mod 624] holds word [n + d] of the sequence. *)
Lemma window_get d :
  0 <= d < MT_LEN ->
  array_get (m_buffer m) ((Z.of_nat n + d) mod MT_LEN) = Some (sequence b n !!! (n + Z.to_nat d)%nat).
Proof using Hb Hw.
  intros Hd. assert (0 <= (Z.of_nat n + d) mod MT_LEN < MT_LEN) by ring_lia.
  rewrite array_get_in by (rewrite (win_len _ _ _ Hw); lia).
  rewrite (win_slots _ _ _ Hw) by done. do 2 f_equal. ring_lia.
Qed.

(** One call moves the window by one word and returns that word tempered. *)
Lemma integer_window :
  exists m', integer m = Some (mt_temper (sequence b (S n) !!! (624 + n)%nat), m') /\ window b (S n) m'.
Proof using Hb Hw.
  pose proof (win_index _ _ _ Hw) as Hi. pose proof (win_len _ _ _ Hw) as Hl.
  pose proof (window_get 0) as G0. pose proof (window_get 1) as G1. pose proof (window_get 397) as G397.
  assert ((if MT_LEN <=? m_index m + 1 then 0 else m_index m + 1) = (Z.of_nat n + 1) mod MT_LEN) as E1.
  { destruct (Z.leb_spec MT_LEN (m_index m + 1)); ring_lia. }
  assert ((if MT_LEN <=? m_index m + MT_IA then m_index m + MT_IA - MT_LEN else m_index m + MT_IA)
          = (Z.of_nat n + 397) mod MT_LEN) as E2.
  { destruct (Z.leb_spec MT_LEN (m_index m + MT_IA)); ring_lia. }
  rewrite Z.add_0_r, Nat.add_0_r, <- Hi in G0.
  unfold integer. rewrite E1, E2, G0, G1, G397 by done. cbn [mbind option_bind].
  assert (0 <= m_index m < MT_LEN) as Hr by ring_lia.
  rewrite array_set_in by lia. cbn [mbind option_bind]. rewrite twist_next, swizzle_temper.
  pose proof (sequence_new b n) as Hn. cbn zeta in Hn. rewrite Hb in Hn.
  change (Z.to_nat MT_LEN) with 624%nat in Hn. rewrite Hn.
  eexists. split; [reflexivity|]. split; cbn [m_buffer m_index].
  - by rewrite length_insert.
  - f_equal. lia.
  - intros j Hj. destruct (decide (j = m_index m)) as [->|Hne].
    + rewrite list_lookup_total_insert_eq by lia.
      replace (Z.to_nat (slot_pos (S n) (m_index m))) with (624 + n)%nat by ring_lia. by rewrite Hn.
    + rewrite list_lookup_total_insert_ne by lia. rewrite (win_slots _ _ _ Hw) by done.
      rewrite sequence_old by ring_lia. f_equal. ring_lia.
Qed.
End ring.

Lemma integers_window b m k n :
  length b = Z.to_nat MT_LEN -> window b k m ->
  exists rs m', integers n m = Some (rs, m') /\ window b (k + n) m' /\ length rs = n /\
    forall i, (i < n)%nat -> rs !!! i = mt_temper (sequence b (S (k + i)) !!! (624 + (k + i))%nat).
Proof.
  intros Hb. revert k m. induction n as [|n IH]; intros k m Hw.
  { exists [], m. rewrite Nat.add_0_r. split_and!; try done. intros. lia. }
  destruct (integer_window b k m Hb Hw) as (m1 & E1 & Hw1).
  destruct (IH (S k) m1 Hw1) as (rs & m2 & E2 & Hw2 & Hl & Hrs).
  exists (mt_temper (sequence b (S k) !!! (624 + k)%nat) :: rs), m2. cbn [integers]. rewrite E1. cbn [mbind option_bind].
  rewrite E2. split_and!; [done|by replace (k + S n)%nat with (S k + n)%nat by lia|by cbn; f_equal|].
  intros [|i] Hi; [by rewrite Nat.add_0_r|].
  change ((mt_temper (sequence b (S k) !!! (624 + k)%nat) :: rs) !!! S i) with (rs !!! i).
  rewrite Hrs by lia. by replace (k + S i)%nat with (S k + i)%nat by lia.
Qed.

Lemma sequence_prefix b n k i :
  (n <= k)%nat -> (i < length b + n)%nat -> sequence b k !!! i = sequence b n !!! i.
Proof.
  intros Hnk Hi. induction Hnk as [|k Hnk IH]; [done|]. rewrite sequence_old by lia. exact IH.
Qed.

Lemma seeded_window seed : window (m_buffer (seeded seed)) 0 (seeded seed).
Proof.
  split; [done|done|]. intros j Hj. cbn [sequence]. do 2 f_equal. ring_lia.
Qed.

(** C10: the class generates MT19937.  For every seed the constructor stays inside
    its array and returns, and from then on any number of calls returns, in
    order and tempered, the words of the published recurrence, in which word
    k + 624 comes from words k, k + 1 and k + 397, started on 624 copies of
    the seed, from word 624 + 62400 on. *)
Theorem twister_recurrence (seed : Z) (n : nat) :
  exists m rs m', construct seed = Some m /\ integers n m = Some (rs, m') /\ length rs = n /\
    forall i, (i < n)%nat ->
      rs !!! i = mt_temper (sequence (replicate 624 seed) (warm_up + n) !!! (624 + (warm_up + i))%nat).
Proof.
  unfold construct. generalize warm_up as k. intros k.
  destruct (integers_window (m_buffer (seeded seed)) _ 0 k eq_refl (seeded_window seed)) as (r0 & m & E0 & Hw & _).
  destruct (integers_window (m_buffer (seeded seed)) m k n eq_refl Hw) as (rs & m' & E & _ & Hl & Hrs).
  exists m, rs, m'. rewrite E0. split_and!; [done|done|done|]. intros i Hi.
  rewrite Hrs by done. f_equal. symmetry. apply (sequence_prefix (replicate 624 seed)); [lia|].
  rewrite length_replicate. lia.
Qed.

(** * Ranges *)

Definition word32 (z : Z) : Prop := 0 <= z < 2 ^ 32.

Lemma word32_bits z : 0 <= z -> (forall i, 32 <= i -> Z.testbit z i = false) -> word32 z.
Proof.
  intros Hz Hb. split; [done|]. destruct (decide (z = 0)) as [->|]; [done|].
  apply Z.log2_lt_pow2; [lia|]. apply Z.nle_gt. intros Hl.
  specialize (Hb _ Hl). rewrite Z.bit_log2 in Hb by lia. done.
Qed.

Lemma word32_high z i : word32 z -> 32 <= i -> Z.testbit z i = false.
Proof.
  intros [Hz Hlt] Hi. rewrite <- (Z.mod_small z (2 ^ 32)) by lia.
  apply Z.mod_pow2_bits_high. lia.
Qed.

Lemma u32_word z : word32 (u32 z).
Proof. apply wrapu_range. lia. Qed.

Lemma u32_id z : word32 z -> u32 z = z.
Proof. intros. apply wrapu_small. done. Qed.

Lemma lxor_word a b : word32 a -> word32 b -> word32 (Z.lxor a b).
Proof.
  intros Ha Hb. apply word32_bits.
  - apply Z.lxor_nonneg. unfold word32 in *. lia.
  - intros i Hi. rewrite Z.lxor_spec, !word32_high by done. done.
Qed.

Lemma shiftr_word a k : word32 a -> 0 <= k -> word32 (Z.shiftr a k).
Proof.
  intros Ha Hk. apply word32_bits; [apply Z.shiftr_nonneg, Ha|].
  intros i Hi. rewrite Z.shiftr_spec by lia. apply word32_high; [done|lia].
Qed.

Lemma land_word_l a b : word32 a -> word32 (Z.land a b).
Proof.
  intros Ha. apply word32_bits; [apply Z.land_nonneg; left; apply Ha|].
  intros i Hi. rewrite Z.land_spec, word32_high; done.
Qed.

(** * Tempering *)

(** A map on words that commutes with xor, and the step [x ^= a(x)]. *)
Definition linear (a : Z -> Z) : Prop := forall x y, a (Z.lxor x y) = Z.lxor (a x) (a y).
Definition xor_step (a : Z -> Z) (x : Z) : Z := Z.lxor x (a x).

(** Two steps of a linear map are one step of its square. *)
Lemma xor_step_twice a x : linear a -> xor_step a (xor_step a x) = xor_step (fun y => a (a y)) x.
Proof.
  intros Ha. unfold xor_step. rewrite Ha. rewrite <- (Z.lxor_assoc _ (a x)), (Z.lxor_assoc x (a x)).
  by rewrite Z.lxor_nilpotent, Z.lxor_0_r.
Qed.

Lemma linear_square a : linear a -> linear (fun y => a (a y)).
Proof. intros Ha x y. by rewrite !Ha. Qed.

(** Eight steps are the identity when the eighth power of the map is zero. *)
Lemma xor_step_eight a x :
  linear a -> a (a (a (a (a (a (a (a x))))))) = 0 -> Nat.iter 8 (xor_step a) x = x.
Proof.
  intros Ha Hz. cbn [Nat.iter nat_rect]. pose proof (linear_square _ Ha) as H2. pose proof (linear_square _ H2) as H4.
  rewrite !(xor_step_twice a) by done. rewrite !(xor_step_twice (fun y => a (a y))) by done.
  rewrite xor_step_twice by done. unfold xor_step. by rewrite Hz, Z.lxor_0_r.
Qed.

Definition shift_right (k x : Z) : Z := Z.shiftr x k.
Definition shift_left_mask (k mask x : Z) : Z := Z.land (u32 (Z.shiftl x k)) mask.

Lemma linear_shift_right k : linear (shift_right k).
Proof. intros x y. apply Z.shiftr_lxor. Qed.

Lemma linear_shift_left_mask k mask : linear (shift_left_mask k mask).
Proof.
  intros x y. apply Z.bits_inj'. intros i Hi. unfold shift_left_mask.
  rewrite Z.lxor_spec, !Z.land_spec, !u32_bit by done. rewrite Z.shiftl_lxor, Z.lxor_spec.
  by destruct (i <? 32), (Z.testbit mask i), (Z.testbit (Z.shiftl x k) i), (Z.testbit (Z.shiftl y k) i).
Qed.

(** A left shift clears [k] more low bits. *)
Definition low_clear (n x : Z) : Prop := forall i, i < n -> Z.testbit x i = false.

Lemma low_clear_shift k mask n x :
  0 <= k -> low_clear n x -> low_clear (n + k) (shift_left_mask k mask x).
Proof.
  intros Hk Hx i Hi. destruct (Z.lt_ge_cases i 0) as [|Hi0]; [by apply Z.testbit_neg_r|].
  unfold shift_left_mask. rewrite Z.land_spec, u32_bit by done.
  rewrite Z.shiftl_spec by done. rewrite (Hx (i - k)) by lia. by rewrite andb_false_r.
Qed.

Lemma low_clear_word x : word32 x -> low_clear 32 x -> x = 0.
Proof.
  intros Hx Hl. apply Z.bits_inj'. intros i Hi. rewrite Z.bits_0.
  destruct (Z.lt_ge_cases i 32); [by apply Hl|by apply word32_high].
Qed.

Lemma shift_left_mask_word k mask x : word32 (shift_left_mask k mask x).
Proof. apply land_word_l, u32_word. Qed.

Lemma swizzle2_step r : word32 r -> swizzle2 r = xor_step (shift_left_mask 7 0x9d2c5680) r.
Proof. intros. apply u32_id, lxor_word, shift_left_mask_word. done. Qed.
Lemma swizzle3_step r : word32 r -> swizzle3 r = xor_step (shift_left_mask 15 0xefc60000) r.
Proof. intros. apply u32_id, lxor_word, shift_left_mask_word. done. Qed.

Lemma xor_step_left_word k mask r : word32 r -> word32 (xor_step (shift_left_mask k mask) r).
Proof. intros. apply lxor_word; [done|apply shift_left_mask_word]. Qed.
Lemma xor_step_right_word k r : 0 <= k -> word32 r -> word32 (xor_step (shift_right k) r).
Proof. intros. apply lxor_word; [done|by apply shiftr_word]. Qed.

(** Each swizzle has order eight on words. *)
Lemma left_eight k mask r :
  4 <= k -> word32 r -> Nat.iter 8 (xor_step (shift_left_mask k mask)) r = r.
Proof.
  intros Hk Hr. apply xor_step_eight; [apply linear_shift_left_mask|].
  apply low_clear_word; [apply shift_left_mask_word|].
  assert (low_clear 0 r) as H0 by (intros i Hi; by apply Z.testbit_neg_r).
  do 8 apply (low_clear_shift k mask) in H0; [|lia..]. intros i Hi. apply H0. lia.
Qed.

Lemma right_eight k r : 4 <= k -> word32 r -> Nat.iter 8 (xor_step (shift_right k)) r = r.
Proof.
  intros Hk Hr. apply xor_step_eight; [apply linear_shift_right|].
  unfold shift_right. rewrite !Z.shiftr_shiftr by lia. rewrite Z.shiftr_div_pow2 by lia.
  apply Z.div_small. destruct Hr. split; [done|].
  eapply Z.lt_le_trans; [done|]. apply Z.pow_le_mono_r; lia.
Qed.

(** The inverse of a swizzle is seven more of it. *)
Definition undo (f : Z -> Z) (y : Z) : Z := Nat.iter 7 f y.
Definition unswizzle (y : Z) : Z :=
  undo (xor_step (shift_right 11))
    (undo (xor_step (shift_left_mask 7 0x9d2c5680))
      (undo (xor_step (shift_left_mask 15 0xefc60000))
        (undo (xor_step (shift_right 18)) y))).

Lemma undo_word (f : Z -> Z) x :
  (forall y, word32 y -> word32 (f y)) -> word32 x -> word32 (undo f x).
Proof. intros Hf Hx. unfold undo. generalize 7%nat as n; intros n; induction n; cbn; auto. Qed.

Lemma undo_eight (f : Z -> Z) x : Nat.iter 8 f x = x -> undo f (f x) = x /\ f (undo f x) = x.
Proof. intros H. split; [|exact H]. unfold undo. rewrite <- Nat.iter_succ_r. exact H. Qed.

Section undo.
Context (k mask x : Z) (Hk : 4 <= k) (Hx : word32 x).
Let left := xor_step (shift_left_mask k mask).
Let right := xor_step (shift_right k).

Lemma undo_after_left : undo left (left x) = x.
Proof using Hk Hx. by apply undo_eight, left_eight. Qed.
Lemma left_after_undo : left (undo left x) = x.
Proof using Hk Hx. by apply undo_eight, left_eight. Qed.
Lemma undo_after_right : undo right (right x) = x.
Proof using Hk Hx. by apply undo_eight, right_eight. Qed.
Lemma right_after_undo : right (undo right x) = x.
Proof using Hk Hx. by apply undo_eight, right_eight. Qed.
End undo.

Lemma swizzle_steps r :
  word32 r ->
  swizzle r = xor_step (shift_right 18) (xor_step (shift_left_mask 15 0xefc60000)
                (xor_step (shift_left_mask 7 0x9d2c5680) (xor_step (shift_right 11) r))).
Proof.
  intros Hr. unfold swizzle. change (swizzle1 r) with (xor_step (shift_right 11) r).
  rewrite swizzle2_step by (by apply xor_step_right_word).
  rewrite swizzle3_step by (by apply xor_step_left_word, xor_step_right_word). done.
Qed.

Lemma swizzle_word r : word32 r -> word32 (swizzle r).
Proof.
  intros Hr. rewrite swizzle_steps by done.
  by apply xor_step_right_word, xor_step_left_word, xor_step_left_word, xor_step_right_word.
Qed.

Create HintDb word32.
#[export] Hint Resolve undo_word xor_step_left_word : word32.
#[export] Hint Extern 1 (word32 (xor_step (shift_right _) _)) =>
  apply xor_step_right_word; [lia|] : word32.
#[export] Hint Extern 2 (_ <= _) => lia : word32.

(** Tempering loses nothing.  The four swizzles map 32-bit words to 32-bit
    words one to one and onto: [unswizzle] is their inverse on both sides, so
    two calls of [integer] return the same value only if they wrote the same
    word to the ring. *)
Theorem swizzle_bijective (r : Z) :
  word32 r ->
  word32 (swizzle r) /\ unswizzle (swizzle r) = r /\
  word32 (unswizzle r) /\ swizzle (unswizzle r) = r.
Proof.
  intros Hr. assert (word32 (unswizzle r)) as Hu by (unfold unswizzle; eauto 10 with word32).
  split; [by apply swizzle_word|]. split; [|split; [exact Hu|]].
  - rewrite swizzle_steps by exact Hr. unfold unswizzle.
    rewrite undo_after_right by eauto 10 with word32.
    rewrite !undo_after_left by eauto 10 with word32.
    apply undo_after_right; [lia|exact Hr].
  - rewrite (swizzle_steps _ Hu). unfold unswizzle.
    rewrite right_after_undo by eauto 10 with word32.
    rewrite !left_after_undo by eauto 10 with word32.
    apply right_after_undo; [lia|exact Hr].
Qed.

Lemma swizzle_bijective_witness : unswizzle (swizzle 123456789) = 123456789.
Proof. apply (swizzle_bijective 123456789). unfold word32. lia. Defined.

(** * A seed that gives no randomness *)

Lemma next_zero : mt_next 0 0 0 = 0.
Proof. done. Qed.

Lemma sequence_zero n : sequence (replicate 624 0) n = replicate (624 + n) 0.
Proof.
  induction n as [|n IH]; [done|]. cbn [sequence]. rewrite IH.
  rewrite !lookup_total_replicate_2 by lia. rewrite next_zero.
  replace (624 + S n)%nat with ((624 + n) + 1)%nat by lia. by rewrite (replicate_add (624 + n) 1).
Qed.

(** With seed 0 the state stays zero: however often the generator is called
    it returns 0, the 62400 shuffling calls of the constructor notwithstanding. *)
Theorem seed_zero_constant (n : nat) :
  exists m m', construct 0 = Some m /\ integers n m = Some (replicate n 0, m').
Proof.
  unfold construct. generalize warm_up as k. intros k.
  destruct (integers_window (m_buffer (seeded 0)) _ 0 k eq_refl (seeded_window 0)) as (r0 & m & E0 & Hw & _).
  destruct (integers_window (m_buffer (seeded 0)) m k n eq_refl Hw) as (rs & m' & E & _ & Hl & Hrs).
  exists m, m'. rewrite E0. split; [done|]. rewrite E. do 2 f_equal.
  apply list_eq_same_length with n; [by rewrite length_replicate|done|].
  intros i x y Hi Hx Hy. apply lookup_replicate in Hy as [-> _].
  apply list_lookup_total_correct in Hx. rewrite <- Hx, Hrs by done.
  change (m_buffer (seeded 0)) with (replicate 624 0). rewrite sequence_zero.
  by rewrite lookup_total_replicate_2 by lia.
Qed.
