(* ===== verification/Net.v ===== *)
(** The system calls of the event-driven servers: stream sockets, timerfd(2) and
    epoll(7), on the world of [Posix].  Nothing here translates code of the
    repository.  The second half says what a server that keeps its books has
    of the kernel ([serving]) and how each call changes it. *)

From stdpp Require Import prelude gmap strings list fin_maps.
From Stdlib Require Import ZArith Lia.
From S2P Require Import Prelude Posix ErrUtils.

Open Scope prog_scope.

(** * Constants *)

Definition EPOLLIN : Z := 1.
Definition EPOLLOUT : Z := 4.
Definition EPOLLRDHUP : Z := 8192.
Definition EEXIST : Z := 17.

Inductive epoll_op := EPOLL_CTL_ADD | EPOLL_CTL_DEL | EPOLL_CTL_MOD.

(** [events & bit] as a condition. *)
Definition has (events bit : Z) : bool := negb (Z.land events bit =? 0).

(** * Descriptors *)

(** The kernel hands out the lowest free descriptor. *)
Fixpoint first_free (n : nat) (i : Z) (m : gmap Z desc) : Z :=
  match n with
  | O => i
  | S n' => match m !! i with None => i | Some _ => first_free n' (i + 1) m end
  end.
Definition lowest (m : gmap Z desc) : Z := first_free (size m) 0 m.

(** The limit on open descriptors. *)
Definition OPEN_MAX : Z := 1048576.
Definition EMFILE : Z := 24.
Definition full (w : world) : Prop := OPEN_MAX <= lowest (w_fds w).

Definition net_fd (d : desc) : M Z :=
  let! w := pget in
  let fd := lowest (w_fds w) in
  if OPEN_MAX <=? fd then fail_with EMFILE (-1) else
  pmodify (fun w => set_fds (<[fd := d]> (w_fds w)) (set_next (Z.max (w_next w) (fd + 1)) w)) ;;;
  pret fd.

Definition set_epoll (e : gmap Z Z) (w : world) : world :=
  set_net (mkNet (n_conns (w_net w)) (n_queue (w_net w)) e) w.

(** * Sockets *)

Definition sys_socket : M Z := syscall (-1) (fun _ => net_fd (DSocket 0)).

Definition on_fd (fd : Z) (k : desc -> option (desc * Z)) : M Z :=
  syscall (-1) (fun _ =>
    let! w := pget in
    match w_fds w !! fd with
    | None => fail_with EBADF (-1)
    | Some d =>
        match k d with
        | None => fail_with EINVAL (-1)
        | Some (d', r) => pmodify (fun w => set_fds (<[fd := d']> (w_fds w)) w) ;;; pret r
        end
    end).

Definition sys_setsockopt (fd : Z) : M Z :=
  on_fd fd (fun d => match d with DSocket _ => Some (d, 0) | _ => None end).
(** The port as it stands in [sin_port]. *)
Definition sys_bind (fd port : Z) : M Z :=
  on_fd fd (fun d => match d with DSocket _ => Some (DSocket port, 0) | _ => None end).
Definition sys_listen (fd backlog : Z) : M Z :=
  on_fd fd (fun d => match d with DSocket p => Some (DListen p, 0) | _ => None end).

(** accept4(2) on a blocking listening socket: the first waiting client, or wait. *)
Definition sys_accept4 (fd : Z) (nonblock : bool) : M Z :=
  syscall (-1) (fun _ =>
    let! w := pget in
    match w_fds w !! fd with
    | Some (DListen _) =>
        match n_queue (w_net w) with
        | [] => pstuck
        | c :: q =>
            let! r := net_fd (DConn (length (n_conns (w_net w))) nonblock) in
            if r =? -1 then pret r else
            pmodify (fun w => set_net (mkNet (n_conns (w_net w) ++ [c]) q (n_epoll (w_net w))) w) ;;;
            pret r
        end
    | Some _ => fail_with EINVAL (-1)
    | None => fail_with EBADF (-1)
    end).

(** * Timers *)

Definition sys_timerfd_create : M Z := syscall (-1) (fun _ => net_fd (DTimer false)).
(** A relative time; zero disarms. *)
Definition sys_timerfd_settime (fd sec nsec : Z) : M Z :=
  on_fd fd (fun d => match d with
                     | DTimer _ => Some (DTimer (negb ((sec =? 0) && (nsec =? 0))), 0)
                     | _ => None
                     end).

(** * epoll *)

Definition sys_epoll_create : M Z := syscall (-1) (fun _ => net_fd DEpoll).

Definition sys_epoll_ctl (epfd : Z) (op : epoll_op) (fd events : Z) : M Z :=
  syscall (-1) (fun _ =>
    let! w := pget in
    match w_fds w !! epfd, w_fds w !! fd with
    | Some DEpoll, Some _ =>
        let e := n_epoll (w_net w) in
        match op, e !! fd with
        | EPOLL_CTL_ADD, None | EPOLL_CTL_MOD, Some _ =>
            pmodify (set_epoll (<[fd := events]> e)) ;;; pret 0
        | EPOLL_CTL_DEL, Some _ => pmodify (set_epoll (delete fd e)) ;;; pret 0
        | EPOLL_CTL_ADD, Some _ => fail_with EEXIST (-1)
        | _, None => fail_with ENOENT (-1)
        end
    | _, _ => fail_with EBADF (-1)
    end).

(** close(2); a closed descriptor leaves the interest list. *)
Definition net_close (fd : Z) : M Z :=
  syscall (-1) (fun _ =>
    let! w := pget in
    match w_fds w !! fd with
    | Some _ =>
        pmodify (fun w => set_epoll (delete fd (n_epoll (w_net w))) (set_fds (delete fd (w_fds w)) w)) ;;;
        pret 0
    | None => fail_with EBADF (-1)
    end).

(** What the clients did while the server waited: bytes arrived, send buffers
    drained. *)
Definition peer_moves (p : Z * Z) (c : conn) : conn :=
  let c' := receive (Z.to_nat (p.1)) c in
  mkConn (c_stream c') (c_shut c') (c_future c') (c_in c') (c_sent c') (p.2).
Definition peers (a : answer) (w : world) : world :=
  set_conns (imap (fun i c => peer_moves (a_peer a i) c) (n_conns (w_net w))) w.

(** The events a descriptor is ready for; [expired] says whether a timer is. *)
Definition ready (expired : bool) (fd : Z) (w : world) : Z :=
  match w_fds w !! fd with
  | Some (DConn id _) =>
      match n_conns (w_net w) !! id with
      | Some c =>
          let over := c_shut c && bool_decide (c_future c = []) in
          Z.lor (if bool_decide (c_in c <> []) || over then EPOLLIN else 0)
            (Z.lor (if 0 <? c_room c then EPOLLOUT else 0) (if over then EPOLLRDHUP else 0))
      | None => 0
      end
  | Some (DListen _) => if bool_decide (n_queue (w_net w) = []) then 0 else EPOLLIN
  | Some (DTimer armed) => if armed && expired then EPOLLIN else 0
  | _ => 0
  end.

Definition event_of (a : answer) (w : world) (fd : Z) : option (Z * Z) :=
  match n_epoll (w_net w) !! fd with
  | Some m =>
      let e := Z.land m (ready (a_ready a fd) fd w) in
      if e =? 0 then None else Some (fd, e)
  | None => None
  end.

(** epoll_wait(2) without a timeout, level triggered: some of the ready
    descriptors, in any order, at most [max]; it waits while there is none. *)
Definition sys_epoll_wait (epfd max : Z) : M (Z * list (Z * Z)) :=
  syscall (-1, []) (fun a =>
    if max <=? 0 then fail_with EINVAL (-1, []) else
    pmodify (peers a) ;;;
    let! w := pget in
    let evs := take (Z.to_nat max) (omap (event_of a w) (remove_dups (a_fds a))) in
    match evs with
    | [] => pstuck
    | _ => pret (zlen evs, evs)
    end).

(** CHECK_NOT_M1(call). *)
Definition not_m1 (s : site) (txt : string) (m : M Z) : M Z :=
  let! r := m in CHECK_NOT_M1 s txt r.
