(* ===== verification/NetProofs.v ===== *)
(** How the calls of [Net] change what a server has of the kernel.  [serving] is
    the abstract state: the open connections with the bytes the server holds
    for each, the timers, and what is registered with epoll.  Every lemma is
    for one call, whatever the kernel answers. *)

From stdpp Require Import prelude gmap strings list fin_maps.
From Stdlib Require Import ZArith Lia.
From S2P Require Import Prelude Posix ErrUtils CircularPipe Net.

Open Scope prog_scope.

(** * Programs that may wait *)

(** As [wp], but the program may stop at a call that waits for ever, in a state in which
    [B] holds. *)
Definition wpb {A} (B : world -> Prop) (m : M A) (Q : A -> world -> Prop) (X : Z -> world -> Prop) (w : world) : Prop :=
  match m w with
  | (Val a, w') => Q a w'
  | (Exit c, w') => X c w'
  | (Stuck, w') => B w'
  | (NoFuel, _) => False
  end.

Abbreviation never := (fun _ : world => False).
Abbreviation anytime := (fun _ : world => True).

Section wpb.
Context {A : Type} (B : world -> Prop).
Implicit Types (Q : A -> world -> Prop) (X : Z -> world -> Prop).

Lemma wpb_ret (a : A) Q X w : Q a w -> wpb B (pret a) Q X w.
Proof. done. Qed.
Lemma wpb_stuck Q X w : B w -> wpb B pstuck Q X w.
Proof. done. Qed.
Lemma wpb_bind {C} (m : M C) (k : C -> M A) Q X w :
  wpb B m (fun a w' => wpb B (k a) Q X w') X w -> wpb B (pbind m k) Q X w.
Proof. unfold wpb, pbind. by destruct (m w) as [[] ?]. Qed.
Lemma wpb_mono (m : M A) (Q Q' : A -> world -> Prop) (X X' : Z -> world -> Prop) w :
  wpb B m Q X w -> (forall a w', Q a w' -> Q' a w') -> (forall c w', X c w' -> X' c w') ->
  wpb B m Q' X' w.
Proof. unfold wpb. destruct (m w) as [[] ?]; eauto. Qed.
Lemma wpb_of_wp (m : M A) Q X w : wp m Q X w -> wpb B m Q X w.
Proof. unfold wpb, wp. by destruct (m w) as [[] ?]. Qed.
End wpb.

Lemma wp_of_wpb {A} (m : M A) Q X w : wpb never m Q X w -> wp m Q X w.
Proof. unfold wpb, wp. by destruct (m w) as [[] ?]. Qed.

Global Arguments wpb : simpl never.

Ltac wpb_step :=
  match goal with
  | |- wpb _ (pbind _ _) _ _ _ => apply wpb_bind
  | |- wpb _ (pret _) _ _ _ => apply wpb_ret
  | |- wpb _ pget _ _ _ => apply wpb_of_wp, wp_get
  | |- wpb _ (pmodify _) _ _ _ => apply wpb_of_wp, wp_modify
  | |- wpb _ (fail_with _ _) _ _ _ => unfold fail_with
  | |- wpb _ (if ?b then _ else _) _ _ _ => destruct b eqn:?
  end.

(** * Event masks *)

Lemma has_testbit x k : 0 <= k -> has x (2 ^ k) = Z.testbit x k.
Proof.
  intros Hk. unfold has. destruct (Z.testbit x k) eqn:E.
  - destruct (Z.eqb_spec (Z.land x (2 ^ k)) 0) as [H|]; [|done].
    apply (f_equal (fun z => Z.testbit z k)) in H.
    rewrite Z.land_spec, E, Z.pow2_bits_true, Z.bits_0 in H by done. done.
  - destruct (Z.eqb_spec (Z.land x (2 ^ k)) 0) as [|H]; [done|]. destruct H. apply Z.bits_inj'. intros i Hi.
    rewrite Z.land_spec, Z.bits_0. destruct (decide (i = k)) as [->|]; [by rewrite E|].
    by rewrite Z.pow2_bits_false, andb_false_r.
Qed.

Lemma has_in x : has x EPOLLIN = Z.testbit x 0.
Proof. apply (has_testbit x 0). lia. Qed.
Lemma has_out x : has x EPOLLOUT = Z.testbit x 2.
Proof. apply (has_testbit x 2). lia. Qed.
Lemma has_land x y b : b = EPOLLIN \/ b = EPOLLOUT -> has (Z.land x y) b = has x b && has y b.
Proof. intros [->| ->]; rewrite ?has_in, ?has_out; apply Z.land_spec. Qed.
Lemma has_rdhup x : has x EPOLLRDHUP = Z.testbit x 13.
Proof. apply (has_testbit x 13). lia. Qed.

(** * Free descriptors *)

Lemma first_free_spec n i m :
  m !! first_free n i m = None \/
  (first_free n i m = i + Z.of_nat n /\ forall j, i <= j < i + Z.of_nat n -> is_Some (m !! j)).
Proof.
  revert i. induction n as [|n IH]; intros i; cbn [first_free]; [right; split; [lia|intros; lia]|].
  destruct (m !! i) as [d|] eqn:E; [|by left].
  destruct (IH (i + 1)) as [|[Hend Hall]]; [by left|right]. split; [lia|]. intros j Hj.
  destruct (decide (j = i)) as [->|]; [by eauto|apply Hall; lia].
Qed.

Lemma first_free_low n i m : i <= first_free n i m.
Proof.
  revert i. induction n as [|n IH]; intros i; cbn [first_free]; [lia|].
  destruct (m !! i); [|lia]. specialize (IH (i + 1)). lia.
Qed.

Lemma size_interval (n : nat) (m : gmap Z desc) :
  (forall j, 0 <= j < Z.of_nat n -> is_Some (m !! j)) -> (n <= size m)%nat.
Proof.
  intros H. rewrite <- size_dom.
  assert (size (list_to_set (Z.of_nat <$> seq 0 n) : gset Z) = n) as <-.
  { rewrite size_list_to_set; [by rewrite length_fmap, length_seq|].
    apply NoDup_fmap_2; [intros ? ?; lia|apply NoDup_seq]. }
  apply subseteq_size. intros j Hj. apply elem_of_list_to_set, list_elem_of_fmap in Hj as (k & -> & Hk).
  apply elem_of_seq in Hk. apply elem_of_dom, H. lia.
Qed.

Lemma lowest_free m : m !! lowest m = None.
Proof.
  unfold lowest. destruct (first_free_spec (size m) 0 m) as [|[-> Hall]]; [done|].
  destruct (m !! (0 + Z.of_nat (size m))) as [d|] eqn:E; [exfalso|done].
  enough (S (size m) <= size m)%nat by lia. apply size_interval. intros j Hj.
  destruct (decide (j = Z.of_nat (size m))) as [->|]; [by eauto|apply Hall; lia].
Qed.

(** * The abstract state of a server *)

Definition echoed (c : conn) : Prop := c_sent c `prefix_of` c_stream c.
Definition untouched (c : conn) : Prop := c_sent c = [] /\ c_in c ++ c_future c = c_stream c.
(** The server has read and holds [d]: nothing of the stream is lost. *)
Definition carries (d : list byte) (c : conn) : Prop :=
  c_sent c ++ d ++ c_in c ++ c_future c = c_stream c.

(** Nothing has arrived and the client is still there. *)
Definition over (c : conn) : bool := c_shut c && bool_decide (c_future c = []).
Definition starved (c : conn) : Prop := c_in c = [] /\ over c = false.

Lemma starved_receive k c : starved (receive k c) -> starved c.
Proof.
  unfold starved, over, receive. cbn. intros [Hin Hov]. apply app_nil in Hin as [Hin _]. split; [done|].
  destruct (c_shut c); [|done]. cbn in *. apply bool_decide_eq_false in Hov. apply bool_decide_eq_false.
  intros E. apply Hov. by rewrite E, drop_nil.
Qed.

Lemma carries_receive d k c : carries d c -> carries d (receive k c).
Proof. unfold carries, receive. cbn. intros <-. by rewrite <- (app_assoc (c_in c)), take_drop. Qed.

(** Reading [n] bytes moves them to the server. *)
Lemma carries_read d n c :
  carries d c ->
  carries (d ++ take n (c_in c))
    (mkConn (c_stream c) (c_shut c) (c_future c) (drop n (c_in c)) (c_sent c) (c_room c)).
Proof.
  unfold carries. cbn. intros <-. f_equal. rewrite <- !app_assoc. f_equal.
  by rewrite (app_assoc (take n _)), take_drop.
Qed.

(** Writing the first [n] bytes it holds moves them to the client. *)
Lemma carries_write d n c r :
  carries d c ->
  carries (drop n d) (mkConn (c_stream c) (c_shut c) (c_future c) (c_in c) (c_sent c ++ take n d) r).
Proof.
  unfold carries. cbn. intros <-. rewrite <- app_assoc. f_equal. by rewrite app_assoc, take_drop.
Qed.

(** The calls of [Posix] on the descriptor of a connection. *)
Section conn_fd.
Context (w : world) (fd : Z) (id : nat) (b : bool) (c : conn).
Context (Hd : w_fds w !! fd = Some (DConn id b)) (Hc : n_conns (w_net w) !! id = Some c).

Lemma arrive_conn a blocking :
  exists k, arrive a fd blocking w = set_conns (<[id := receive k c]> (n_conns (w_net w))) w.
Proof using Hd Hc. unfold arrive. rewrite Hd, Hc. by eexists. Qed.
Lemma avail_conn : avail fd w = Some (c_in c).
Proof using Hd Hc. unfold avail. by rewrite Hd, Hc. Qed.
Lemma at_end_conn : at_end fd w = over c.
Proof using Hd Hc. unfold at_end. by rewrite Hd, Hc. Qed.
Lemma room_conn : room fd w = Some (c_room c).
Proof using Hd Hc. unfold room. by rewrite Hd, Hc. Qed.
Lemma nonblocking_conn : nonblocking fd w = b.
Proof using Hd. unfold nonblocking. by rewrite Hd. Qed.
Lemma all_or_wait_conn : all_or_wait fd w = negb b.
Proof using Hd. unfold all_or_wait. by rewrite Hd. Qed.
Lemma consume_conn n :
  consume fd n w =
  set_conns (<[id := mkConn (c_stream c) (c_shut c) (c_future c) (drop (Z.to_nat n) (c_in c))
                       (c_sent c) (c_room c)]> (n_conns (w_net w))) w.
Proof using Hd Hc. unfold consume. by rewrite Hd, Hc. Qed.
Lemma emit_conn x :
  emit fd x w =
  set_conns (<[id := mkConn (c_stream c) (c_shut c) (c_future c) (c_in c) (c_sent c ++ x)
                       (c_room c - zlen x)]> (n_conns (w_net w))) w.
Proof using Hd Hc. unfold emit. by rewrite Hd, Hc. Qed.
Lemma ready_conn ex :
  (has (ready ex fd w) EPOLLIN = true -> ~ starved c) /\
  (has (ready ex fd w) EPOLLOUT = true -> 0 < c_room c).
Proof using Hd Hc.
  rewrite has_in, has_out. unfold ready. rewrite Hd, Hc. fold (over c). split; intros H.
  - intros [Hin Hov]. rewrite Hov, bool_decide_false in H by (intros Hne; by apply Hne).
    by destruct (0 <? c_room c).
  - apply Z.ltb_lt. destruct (0 <? c_room c); [done|]. by destruct (bool_decide _ || _), (over c).
Qed.
Lemma insert_conn c' : <[id := c']> (n_conns (w_net w)) !! id = Some c'.
Proof using Hc. apply list_lookup_insert_eq. by eapply lookup_lt_Some. Qed.
End conn_fd.

(** The client at the other end of a descriptor. *)
Definition conn_of (w : world) (fd : Z) : option conn :=
  match w_fds w !! fd with Some (DConn id _) => n_conns (w_net w) !! id | _ => None end.

(** Nothing happened to the connections other than [fd], nor to the queue. *)
Definition others (fd : Z) (w w' : world) : Prop :=
  forall fd', fd' <> fd -> conn_of w' fd' = conn_of w fd'.
Definition same_queue (w w' : world) : Prop := n_queue (w_net w') = n_queue (w_net w).
Definition undisturbed (w w' : world) : Prop :=
  same_queue w w' /\ forall fd', conn_of w' fd' = conn_of w fd'.

Lemma undisturbed_others w w' fd : undisturbed w w' -> others fd w w'.
Proof. intros [_ H] fd' _. apply H. Qed.

Section serving.
Context (env : nat -> answer) (sockfd epollfd : Z) (nb : bool).

(** The kernel turned a call down. *)
Definition refuses : Prop := exists n e, a_errno (env n) = Some e.

(** [T] gives for each connection the bytes held and the events registered,
    [TM] for each timer whether it is armed and the events registered. *)
Implicit Types (T : gmap Z (list byte * option Z)) (TM : gmap Z (bool * option Z)).

Record srv T TM (fds : gmap Z desc) (conns queue : list conn) (ep : gmap Z Z) : Prop := {
  sv_listen : exists port, fds !! sockfd = Some (DListen port);
  sv_epfd : fds !! epollfd = Some DEpoll;
  sv_sock : ep !! sockfd = Some EPOLLIN;
  sv_conn fd d m : T !! fd = Some (d, m) ->
    ep !! fd = m /\ exists id c, fds !! fd = Some (DConn id nb) /\ conns !! id = Some c /\ carries d c;
  sv_timer t b m : TM !! t = Some (b, m) -> ep !! t = m /\ fds !! t = Some (DTimer b);
  sv_ids fd1 fd2 id b1 b2 :
    fds !! fd1 = Some (DConn id b1) -> fds !! fd2 = Some (DConn id b2) -> fd1 = fd2;
  sv_open fd id b : fds !! fd = Some (DConn id b) -> is_Some (T !! fd);
  sv_topen t b : fds !! t = Some (DTimer b) -> is_Some (TM !! t);
  sv_reg fd : is_Some (ep !! fd) -> fd = sockfd \/ is_Some (T !! fd) \/ is_Some (TM !! fd);
  sv_echo : Forall echoed conns;
  sv_queue : Forall untouched queue;
}.

Definition serving T TM (w : world) : Prop :=
  w_env w = env /\
  srv T TM (w_fds w) (n_conns (w_net w)) (n_queue (w_net w)) (n_epoll (w_net w)).

Lemma srv_free T TM fds conns q ep fd :
  srv T TM fds conns q ep -> fds !! fd = None ->
  T !! fd = None /\ TM !! fd = None /\ ep !! fd = None /\ fd <> sockfd /\ fd <> epollfd.
Proof.
  intros H Hfd. destruct (sv_listen _ _ _ _ _ _ H) as [port Hs]. pose proof (sv_epfd _ _ _ _ _ _ H) as He.
  assert (T !! fd = None) as HT.
  { destruct (T !! fd) as [[d m]|] eqn:E; [|done].
    destruct (sv_conn _ _ _ _ _ _ H _ _ _ E) as (_ & id & c & ? & _). congruence. }
  assert (TM !! fd = None) as HTM.
  { destruct (TM !! fd) as [[b m]|] eqn:E; [|done].
    destruct (sv_timer _ _ _ _ _ _ H _ _ _ E) as (_ & ?). congruence. }
  split_and!; [done|done| |congruence|congruence].
  destruct (ep !! fd) eqn:E; [|done].
  destruct (sv_reg _ _ _ _ _ _ H fd) as [->|[[? ?]|[? ?]]]; [by eauto|congruence..].
Qed.

(** The three kinds of descriptors are distinct. *)
Lemma srv_distinct T TM fds conns q ep fd t :
  srv T TM fds conns q ep -> is_Some (T !! fd) -> is_Some (TM !! t) ->
  fd <> t /\ fd <> sockfd /\ t <> sockfd /\ fd <> epollfd /\ t <> epollfd.
Proof.
  intros H [[d m] Hf] [[b m'] Ht]. destruct (sv_listen _ _ _ _ _ _ H) as [port Hs].
  pose proof (sv_epfd _ _ _ _ _ _ H).
  destruct (sv_conn _ _ _ _ _ _ H _ _ _ Hf) as (_ & id & c & ? & _).
  destruct (sv_timer _ _ _ _ _ _ H _ _ _ Ht) as (_ & ?).
  split_and!; congruence.
Qed.

Lemma srv_conn_fd T TM fds conns q ep fd :
  srv T TM fds conns q ep -> is_Some (T !! fd) -> fd <> sockfd /\ fd <> epollfd /\ TM !! fd = None.
Proof.
  intros H [[d m] Hf]. destruct (sv_listen _ _ _ _ _ _ H) as [port Hs]. pose proof (sv_epfd _ _ _ _ _ _ H).
  destruct (sv_conn _ _ _ _ _ _ H _ _ _ Hf) as (_ & id & c & ? & _).
  split_and!; [congruence|congruence|]. destruct (TM !! fd) as [[b m']|] eqn:E; [|done].
  destruct (sv_timer _ _ _ _ _ _ H _ _ _ E) as (_ & ?). congruence.
Qed.

Ltac keys :=
  repeat match goal with
  | H : <[_ := _]> _ !! _ = Some _ |- _ => apply lookup_insert_Some in H as [[? ?]|[? ?]]
  | H : delete _ _ !! _ = Some _ |- _ => apply lookup_delete_Some in H as [? ?]
  | H : is_Some (<[_ := _]> _ !! _) |- _ => apply lookup_insert_is_Some' in H as [?|?]
  | H : is_Some (delete _ _ !! _) |- _ => apply lookup_delete_is_Some in H as [? ?]
  | |- is_Some (<[_ := _]> _ !! _) => apply lookup_insert_is_Some'
  | |- is_Some (delete _ _ !! _) => apply lookup_delete_is_Some
  end; simplify_eq.

Lemma srv_accept T TM fds conns q ep fd c :
  srv T TM fds conns (c :: q) ep -> fds !! fd = None ->
  srv (<[fd := ([], None)]> T) TM (<[fd := DConn (length conns) nb]> fds) (conns ++ [c]) q ep.
Proof.
  intros H' Hfd. destruct (srv_free _ _ _ _ _ _ fd H' Hfd) as (HT & HTM & Hep & Hs & He).
  pose proof (sv_queue _ _ _ _ _ _ H') as Hq. apply Forall_cons in Hq as [[Hsent Hin] Hq].
  assert (forall fd' b, fds !! fd' = Some (DConn (length conns) b) -> False) as Hfresh.
  { intros fd' b Hb. destruct (sv_open _ _ _ _ _ _ H' _ _ _ Hb) as [[d m] Hd].
    destruct (sv_conn _ _ _ _ _ _ H' _ _ _ Hd) as (_ & id & c' & Hb' & Hc & _).
    simplify_eq. apply lookup_lt_Some in Hc. lia. }
  destruct H'. constructor; intros; keys; rewrite ?lookup_insert_ne by done; eauto.
  - split; [done|]. exists (length conns), c. rewrite lookup_insert_eq, list_lookup_middle by done.
    split_and!; [done|done|]. unfold carries. by rewrite Hsent.
  - destruct (sv_conn0 _ _ _ ltac:(eassumption)) as (? & id & c' & ? & Hc & ?).
    split; [done|]. exists id, c'. split_and!; [done| |done]. by apply lookup_app_l_Some.
  - destruct (sv_timer0 _ _ _ ltac:(eassumption)). split; [done|]. rewrite lookup_insert_ne by congruence. done.
  - exfalso; eauto.
  - exfalso; eauto.
  - destruct (sv_reg0 _ ltac:(eassumption)) as [|[|]]; eauto.
    right. left. keys. eauto.
  - apply Forall_app. split; [done|]. apply Forall_singleton. unfold echoed. rewrite Hsent. apply prefix_nil.
Qed.

Section changes.
Context T TM fds conns q ep (H : srv T TM fds conns q ep).

(** Registering, changing or withdrawing the events of a connection. *)
Lemma srv_conn_events fd d m0 (m : option Z) (ep' : gmap Z Z) :
  T !! fd = Some (d, m0) ->
  ep' !! fd = m -> (forall fd', fd' <> fd -> ep' !! fd' = ep !! fd') ->
  srv (<[fd := (d, m)]> T) TM fds conns q ep'.
Proof using H.
  intros Hfd Hm Hep'. destruct (srv_conn_fd _ _ _ _ _ _ fd H) as (Hs & He & HTM); [by eauto|].
  destruct H. constructor; intros; keys; eauto.
  - by rewrite Hep'.
  - split; [done|]. by apply (sv_conn0 _ _ _ Hfd).
  - rewrite Hep' by done. by apply sv_conn0.
  - rewrite Hep' by congruence. by apply sv_timer0.
  - destruct (decide (fd0 = fd)) as [->|]; [right; left; keys; by left|].
    rewrite Hep' in * by done. destruct (sv_reg0 fd0) as [|[|]]; [done|by left| |by eauto].
    right; left; keys; by right.
Qed.

Lemma srv_timer_events t b m0 (m : option Z) (ep' : gmap Z Z) :
  TM !! t = Some (b, m0) ->
  ep' !! t = m -> (forall fd', fd' <> t -> ep' !! fd' = ep !! fd') ->
  srv T (<[t := (b, m)]> TM) fds conns q ep'.
Proof using H.
  intros Ht Hm Hep'. destruct H. assert (t <> sockfd) as Hs.
  { destruct sv_listen0 as [port Hs]. destruct (sv_timer0 _ _ _ Ht). congruence. }
  constructor; intros; keys; eauto.
  - by rewrite Hep'.
  - destruct (sv_conn0 _ _ _ ltac:(eassumption)) as (? & id & c & ? & ?).
    rewrite Hep'; [split; [done|by exists id, c]|]. intros ->. destruct (sv_timer0 _ _ _ Ht). congruence.
  - split; [done|]. by apply (sv_timer0 _ _ _ Ht).
  - rewrite Hep' by done. by apply sv_timer0.
  - destruct (decide (fd = t)) as [->|]; [right; right; keys; by left|].
    rewrite Hep' in * by done. destruct (sv_reg0 fd) as [|[|]]; [done|by left|by eauto|].
    right; right; keys; by right.
Qed.

Lemma srv_close_conn fd d m :
  T !! fd = Some (d, m) -> srv (delete fd T) TM (delete fd fds) conns q (delete fd ep).
Proof using H.
  intros Hfd. destruct (srv_conn_fd _ _ _ _ _ _ fd H) as (Hs & He & HTM); [by eauto|].
  destruct H. constructor; intros; keys; rewrite ?lookup_delete_ne by done; eauto.
  - destruct (sv_timer0 _ _ _ ltac:(eassumption)). rewrite !lookup_delete_ne by congruence. done.
Qed.

Lemma srv_close_timer t b m :
  TM !! t = Some (b, m) -> srv T (delete t TM) (delete t fds) conns q (delete t ep).
Proof using H.
  intros Ht. destruct H. destruct sv_listen0 as [port Hs]. destruct (sv_timer0 _ _ _ Ht) as [_ Hd].
  assert (t <> sockfd /\ t <> epollfd) as [? ?] by (split; congruence).
  constructor; intros; keys; rewrite ?lookup_delete_ne by done; eauto.
  - destruct (sv_conn0 _ _ _ ltac:(eassumption)) as (? & id & c & ? & ?).
    rewrite !lookup_delete_ne by congruence. split; [done|by exists id, c].
Qed.

Lemma srv_new_timer t :
  fds !! t = None -> srv T (<[t := (false, None)]> TM) (<[t := DTimer false]> fds) conns q ep.
Proof using H.
  intros Ht. destruct (srv_free _ _ _ _ _ _ t H Ht) as (HT & HTM & Hep & Hs & He).
  destruct H. constructor; intros; keys; rewrite ?lookup_insert_ne by done; eauto.
  - destruct (sv_conn0 _ _ _ ltac:(eassumption)) as (? & id & c & ? & ?).
    rewrite !lookup_insert_ne by congruence. split; [done|by exists id, c].
  - split; [done|]. by rewrite lookup_insert_eq.
  - destruct (sv_reg0 fd) as [|[|]]; [done|by left|by eauto|]. right; right; keys; by right.
Qed.

Lemma srv_set_timer t b b' m :
  TM !! t = Some (b, m) -> srv T (<[t := (b', m)]> TM) (<[t := DTimer b']> fds) conns q ep.
Proof using H.
  intros Ht. destruct H. destruct sv_listen0 as [port Hs]. destruct (sv_timer0 _ _ _ Ht) as [Hm Hd].
  assert (t <> sockfd /\ t <> epollfd) as [? ?] by (split; congruence).
  constructor; intros; keys; rewrite ?lookup_insert_ne by done; eauto.
  - destruct (sv_conn0 _ _ _ ltac:(eassumption)) as (? & id & c & ? & ?).
    rewrite !lookup_insert_ne by congruence. split; [done|by exists id, c].
  - split; [done|]. by rewrite lookup_insert_eq.
  - destruct (sv_reg0 fd) as [|[|]]; [done|by left|by eauto|]. right; right; keys; by right.
Qed.

(** One connection moves on. *)
Lemma srv_move fd id d d' m c c' :
  T !! fd = Some (d, m) -> fds !! fd = Some (DConn id nb) -> conns !! id = Some c ->
  carries d' c' ->
  srv (<[fd := (d', m)]> T) TM fds (<[id := c']> conns) q ep.
Proof using H.
  intros Hfd Hd Hc Hc'. destruct H. constructor; intros; keys; eauto.
  - destruct (sv_conn0 _ _ _ Hfd) as [? _]. split; [done|]. exists id, c'.
    rewrite list_lookup_insert_eq by (by eapply lookup_lt_Some). done.
  - destruct (sv_conn0 _ _ _ ltac:(eassumption)) as (? & id' & c1 & Hd' & Hc1 & ?).
    split; [done|]. exists id', c1. rewrite list_lookup_insert_ne; [done|]. intros <-.
    by destruct (sv_ids0 _ _ _ _ _ Hd Hd').
  - destruct (sv_reg0 fd0) as [|[|]]; [done|by left| |by eauto]. right; left; keys; by right.
  - apply Forall_insert; [done|]. unfold echoed. rewrite <- Hc'. by apply prefix_app_r.
Qed.

(** All clients move while the server waits. *)
Lemma srv_peers (f : nat -> conn -> conn) :
  (forall i c d, carries d c -> carries d (f i c)) ->
  (forall i c, c_sent (f i c) = c_sent c /\ c_stream (f i c) = c_stream c) ->
  srv T TM fds (imap f conns) q ep.
Proof using H.
  intros Hf Hs. destruct H. constructor; eauto.
  - intros fd d m Hfd. destruct (sv_conn0 _ _ _ Hfd) as (? & id & c & ? & Hc & ?). split; [done|].
    exists id, (f id c). rewrite list_lookup_imap, Hc. cbn. eauto.
  - apply Forall_lookup. intros i c'. rewrite list_lookup_imap. destruct (conns !! i) as [c|] eqn:E; [|done].
    cbn. intros [= <-]. unfold echoed. destruct (Hs i c) as [-> ->].
    eapply Forall_lookup in sv_echo0; eauto.
Qed.
End changes.

(** ** Calls *)

(** The server reacts to a failed call by exiting; [refuses] or a full
    descriptor table is the only reason in the lemmas below. *)
Definition pressed (w : world) : Prop := refuses \/ full w.

Lemma pressed_quiet w w' : pressed w -> quiet w w' -> pressed w'.
Proof. intros [Hr|Hf] (l & e & ->); [by left|by right]. Qed.

Lemma wpb_check_not_m1 B s txt v (Q : Z -> world -> Prop) X w :
  (s32 v = -1 -> forall c w', bad_status c -> quiet w w' -> X c w') ->
  (s32 v <> -1 -> Q (s32 v) w) ->
  wpb B (CHECK_NOT_M1 s txt v) Q X w.
Proof.
  intros HX HQ. apply wpb_of_wp. unfold CHECK_NOT_M1, check_not_m1, errno. repeat wp_step; zbool.
  - apply wp_handle_error_quiet. auto.
  - auto.
Qed.

Lemma serving_world T TM w w' :
  serving T TM w -> w_env w' = w_env w -> w_fds w' = w_fds w -> w_net w' = w_net w -> serving T TM w'.
Proof. intros [He Hs] E1 E2 E3. split; [congruence|]. by rewrite E2, E3. Qed.

Section calls.
Context (B : world -> Prop) (X : Z -> world -> Prop).
Context (HX : forall c w', bad_status c -> pressed w' -> X c w').

Lemma wpb_syscall {A} (bad : A) k (Q : A -> world -> Prop) w :
  w_env w = env -> (forall e, refuses -> Q bad (set_errno e (tick w))) ->
  (forall a, wpb B (k a) Q X (tick w)) -> wpb B (syscall bad k) Q X w.
Proof.
  intros He Hbad Hk. unfold syscall. apply wpb_bind. unfold next_answer, wpb at 1.
  destruct (a_errno _) as [e|] eqn:E; rewrite He in E; [|apply Hk].
  unfold fail_with. repeat wpb_step. apply Hbad. red. eauto.
Qed.

(** CHECK_NOT_M1 around a system call that the books allow. *)
Lemma wpb_not_m1 s txt (k : answer -> M Z) (Q : Z -> world -> Prop) w :
  w_env w = env ->
  (forall a, wpb B (k a) (fun r w' => (r = -1 /\ pressed w') \/ (0 <= r < 2147483648 /\ Q r w')) X (tick w)) ->
  wpb B (not_m1 s txt (syscall (-1) k)) Q X w.
Proof using HX.
  intros He Hk. unfold not_m1. apply wpb_bind.
  eapply (wpb_mono _ _ (fun r w' => (r = -1 /\ pressed w') \/ (0 <= r < 2147483648 /\ Q r w'))); [|intros r w'|done].
  - apply wpb_syscall; [done|intros e Hr; left; split; [done|by left]|done].
  - intros [[-> Hp]|[Hr HQ]].
    + apply wpb_check_not_m1; [|done]. intros _ c w'' Hc Hq. apply HX; [done|]. by eapply pressed_quiet.
    + apply wpb_check_not_m1; rewrite s32_small by lia; [lia|done].
Qed.

(** A fresh descriptor, if the table has room. *)
Lemma wpb_net_fd_max d (Q : Z -> world -> Prop) w :
  (forall w', Q (-1) w') ->
  (let fd := lowest (w_fds w) in 0 <= fd < OPEN_MAX -> w_fds w !! fd = None ->
     Q fd (set_fds (<[fd := d]> (w_fds w)) (set_next (Z.max (w_next w) (fd + 1)) w))) ->
  wpb B (net_fd d) Q X w.
Proof.
  intros Hbad HQ. unfold net_fd. do 2 wpb_step. wpb_step; zbool.
  - unfold fail_with. repeat wpb_step. by apply Hbad.
  - repeat wpb_step. apply HQ; [|apply lowest_free]. split; [apply first_free_low|done].
Qed.

Lemma wpb_net_fd d (Q : Z -> world -> Prop) w :
  (forall e, full w -> Q (-1) (set_errno e w)) ->
  (let fd := lowest (w_fds w) in 0 <= fd < 2147483648 -> w_fds w !! fd = None ->
     Q fd (set_fds (<[fd := d]> (w_fds w)) (set_next (Z.max (w_next w) (fd + 1)) w))) ->
  wpb B (net_fd d) Q X w.
Proof.
  intros Hbad HQ. unfold net_fd. do 2 wpb_step. wpb_step; zbool.
  - unfold fail_with. repeat wpb_step. by apply Hbad.
  - repeat wpb_step. apply HQ; [|apply lowest_free]. split; [apply first_free_low|unfold OPEN_MAX in *; lia].
Qed.

Lemma wpb_accept s txt T TM (Q : Z -> world -> Prop) w :
  serving T TM w -> (n_queue (w_net w) = [] -> B (tick w)) ->
  (forall fd w', serving (<[fd := ([], None)]> T) TM w' -> T !! fd = None -> TM !! fd = None ->
     fd <> sockfd -> others fd w w' -> n_queue (w_net w') = tail (n_queue (w_net w)) -> Q fd w') ->
  wpb B (not_m1 s txt (sys_accept4 sockfd nb)) Q X w.
Proof using HX.
  intros [He Hs] HB HQ. destruct (sv_listen _ _ _ _ _ _ Hs) as [port Hl].
  apply wpb_not_m1; [done|]. intros a. do 2 wpb_step. cbn. rewrite Hl.
  destruct (n_queue (w_net w)) as [|c q] eqn:Hq; [by apply wpb_stuck, HB|].
  wpb_step. apply wpb_net_fd; [intros e Hf; do 2 wpb_step; [left; split; [done|by right]|done]|].
  cbn. set (fd := lowest (w_fds w)). intros Hfd Hnone.
  destruct (Z.eqb_spec fd (-1)); [lia|]. do 3 wpb_step. right. split; [done|].
  destruct (srv_free _ _ _ _ _ _ fd Hs Hnone) as (? & ? & _ & ? & _).
  apply HQ; [|done|done|done| |done].
  - split; [done|]. cbn. apply srv_accept; [done|done].
  - intros fd' Hne. unfold conn_of. cbn. rewrite lookup_insert_ne by done.
    destruct (w_fds w !! fd') as [[]|] eqn:E; try done.
    destruct (sv_open _ _ _ _ _ _ Hs _ _ _ E) as [[d m] Hd].
    destruct (sv_conn _ _ _ _ _ _ Hs _ _ _ Hd) as (_ & id' & c' & ? & Hc & _). simplify_eq.
    rewrite Hc. by apply lookup_app_l_Some.
Qed.

(** epoll_ctl(2) on a descriptor that is open and, as the operation wants, in
    the interest list or not. *)
Lemma wpb_ctl s txt (op : epoll_op) fd ev (Q : Z -> world -> Prop) w :
  w_env w = env -> w_fds w !! epollfd = Some DEpoll -> is_Some (w_fds w !! fd) ->
  (op = EPOLL_CTL_ADD <-> n_epoll (w_net w) !! fd = None) ->
  Q 0 (set_epoll (if op is EPOLL_CTL_DEL then delete fd (n_epoll (w_net w))
                  else <[fd := ev]> (n_epoll (w_net w))) (tick w)) ->
  wpb B (not_m1 s txt (sys_epoll_ctl epollfd op fd ev)) Q X w.
Proof using HX.
  intros He Hep [d Hfd] Hop HQ. apply wpb_not_m1; [done|]. intros a. do 2 wpb_step. cbn.
  rewrite Hep, Hfd.
  destruct op, (n_epoll (w_net w) !! fd) eqn:E; try (naive_solver congruence);
    repeat wpb_step; right; (split; [lia|exact HQ]).
Qed.

(** What [op] makes of a registration. *)
Definition registers (op : epoll_op) (m : option Z) : Prop := op = EPOLL_CTL_ADD <-> m = None.
Definition registered (op : epoll_op) (ev : Z) : option Z :=
  if op is EPOLL_CTL_DEL then None else Some ev.

Lemma wpb_ctl_conn s txt op fd ev d m T TM (Q : Z -> world -> Prop) w :
  serving T TM w -> T !! fd = Some (d, m) -> registers op m ->
  (forall w', serving (<[fd := (d, registered op ev)]> T) TM w' -> undisturbed w w' -> Q 0 w') ->
  wpb B (not_m1 s txt (sys_epoll_ctl epollfd op fd ev)) Q X w.
Proof using HX.
  intros [He Hs] HT Hop HQ.
  destruct (sv_conn _ _ _ _ _ _ Hs _ _ _ HT) as (Hm & id & c & Hd & Hc & Hcar).
  apply wpb_ctl; [done|apply Hs|by eauto|by rewrite Hm|].
  apply HQ; [|done]. split; [done|]. cbn. eapply srv_conn_events; [done|done| |].
  - destruct op; cbn; by rewrite ?lookup_insert_eq, ?lookup_delete_eq.
  - intros fd' Hne. destruct op; cbn; by rewrite ?lookup_insert_ne, ?lookup_delete_ne by done.
Qed.

Lemma wpb_ctl_timer s txt op t ev b m T TM (Q : Z -> world -> Prop) w :
  serving T TM w -> TM !! t = Some (b, m) -> registers op m ->
  (forall w', serving T (<[t := (b, registered op ev)]> TM) w' -> undisturbed w w' -> Q 0 w') ->
  wpb B (not_m1 s txt (sys_epoll_ctl epollfd op t ev)) Q X w.
Proof using HX.
  intros [He Hs] HT Hop HQ. destruct (sv_timer _ _ _ _ _ _ Hs _ _ _ HT) as (Hm & Hd).
  apply wpb_ctl; [done|apply Hs|by eauto|by rewrite Hm|].
  apply HQ; [|done]. split; [done|]. cbn. eapply srv_timer_events; [done|done| |].
  - destruct op; cbn; by rewrite ?lookup_insert_eq, ?lookup_delete_eq.
  - intros fd' Hne. destruct op; cbn; by rewrite ?lookup_insert_ne, ?lookup_delete_ne by done.
Qed.

Lemma wpb_close s txt fd (Q : Z -> world -> Prop) w :
  w_env w = env -> is_Some (w_fds w !! fd) ->
  Q 0 (set_epoll (delete fd (n_epoll (w_net w))) (set_fds (delete fd (w_fds w)) (tick w))) ->
  wpb B (not_m1 s txt (net_close fd)) Q X w.
Proof using HX.
  intros He [d Hd] HQ. apply wpb_not_m1; [done|]. intros a. do 2 wpb_step. cbn. rewrite Hd.
  repeat wpb_step. right. split; [lia|exact HQ].
Qed.

Lemma wpb_close_conn s txt fd d m T TM (Q : Z -> world -> Prop) w :
  serving T TM w -> T !! fd = Some (d, m) ->
  (forall w', serving (delete fd T) TM w' -> others fd w w' -> same_queue w w' -> Q 0 w') ->
  wpb B (not_m1 s txt (net_close fd)) Q X w.
Proof using HX.
  intros [He Hs] HT HQ. destruct (sv_conn _ _ _ _ _ _ Hs _ _ _ HT) as (Hm & id & c & Hd & Hc & Hcar).
  apply wpb_close; [done|by eauto|]. apply HQ; [|intros fd' Hne; unfold conn_of; cbn|done].
  - split; [done|]. cbn. by eapply srv_close_conn.
  - by rewrite lookup_delete_ne.
Qed.

Lemma wpb_close_timer s txt t b m T TM (Q : Z -> world -> Prop) w :
  serving T TM w -> TM !! t = Some (b, m) ->
  (forall w', serving T (delete t TM) w' -> undisturbed w w' -> Q 0 w') ->
  wpb B (not_m1 s txt (net_close t)) Q X w.
Proof using HX.
  intros [He Hs] HT HQ. destruct (sv_timer _ _ _ _ _ _ Hs _ _ _ HT) as (Hm & Hd).
  apply wpb_close; [done|by eauto|]. apply HQ; [|split; [done|]; intros fd'; unfold conn_of; cbn].
  - split; [done|]. cbn. by eapply srv_close_timer.
  - destruct (decide (fd' = t)) as [->|]; [by rewrite lookup_delete_eq, Hd|by rewrite lookup_delete_ne].
Qed.

Lemma wpb_timer_create s txt T TM (Q : Z -> world -> Prop) w :
  serving T TM w ->
  (forall t w', serving T (<[t := (false, None)]> TM) w' -> T !! t = None -> TM !! t = None ->
     undisturbed w w' -> Q t w') ->
  wpb B (not_m1 s txt sys_timerfd_create) Q X w.
Proof using HX.
  intros [He Hs] HQ. apply wpb_not_m1; [done|]. intros a.
  apply wpb_net_fd; [intros e Hf; left; split; [done|by right]|].
  cbn. intros Hfd Hnone. right. split; [done|].
  destruct (srv_free _ _ _ _ _ _ _ Hs Hnone) as (? & ? & _ & ? & _).
  apply HQ; [|done|done|split; [done|]; intros fd'; unfold conn_of; cbn].
  - split; [done|]. cbn. by apply srv_new_timer.
  - destruct (decide (fd' = lowest (w_fds w))) as [->|]; [by rewrite lookup_insert_eq, Hnone|by rewrite lookup_insert_ne].
Qed.

Lemma wpb_settime s txt t sec nsec b m T TM (Q : Z -> world -> Prop) w :
  serving T TM w -> TM !! t = Some (b, m) ->
  (forall w', serving T (<[t := (negb ((sec =? 0) && (nsec =? 0)), m)]> TM) w' -> undisturbed w w' -> Q 0 w') ->
  wpb B (not_m1 s txt (sys_timerfd_settime t sec nsec)) Q X w.
Proof using HX.
  intros [He Hs] HT HQ. destruct (sv_timer _ _ _ _ _ _ Hs _ _ _ HT) as (Hm & Hd).
  apply wpb_not_m1; [done|]. intros a. do 2 wpb_step. cbn. rewrite Hd. repeat wpb_step.
  right. split; [lia|]. apply HQ; [|split; [done|]; intros fd'; unfold conn_of; cbn].
  - split; [done|]. cbn. by eapply srv_set_timer.
  - destruct (decide (fd' = t)) as [->|]; [by rewrite lookup_insert_eq, Hd|by rewrite lookup_insert_ne].
Qed.

Lemma conn_fd T TM w fd d m c :
  serving T TM w -> T !! fd = Some (d, m) -> conn_of w fd = Some c ->
  exists id, w_fds w !! fd = Some (DConn id nb) /\ n_conns (w_net w) !! id = Some c /\ carries d c.
Proof.
  intros [_ Hs] HT Hc. destruct (sv_conn _ _ _ _ _ _ Hs _ _ _ HT) as (_ & id & c' & Hd & Hc' & Hcar).
  unfold conn_of in Hc. rewrite Hd, Hc' in Hc. simplify_eq. by exists id.
Qed.

(** The world after connection [id] has become [c'], in the same place. *)
Lemma serving_moved T TM w w' fd id d d' m c c' :
  serving T TM w -> T !! fd = Some (d, m) -> w_fds w !! fd = Some (DConn id nb) ->
  n_conns (w_net w) !! id = Some c -> carries d' c' ->
  w_env w' = w_env w -> w_fds w' = w_fds w ->
  w_net w' = mkNet (<[id := c']> (n_conns (w_net w))) (n_queue (w_net w)) (n_epoll (w_net w)) ->
  serving (<[fd := (d', m)]> T) TM w' /\ others fd w w' /\ same_queue w w' /\ conn_of w' fd = Some c'.
Proof.
  intros [He Hs] HT Hd Hc Hcar E1 E2 E3. unfold serving, others, same_queue, conn_of. rewrite E1, E2, E3. cbn.
  split_and!; [done|by eapply srv_move|intros fd' Hne|done|].
  - destruct (w_fds w !! fd') as [[]|] eqn:E; try done.
    rewrite list_lookup_insert_ne; [done|]. intros <-.
    by destruct (sv_ids _ _ _ _ _ _ Hs _ _ _ _ _ Hd E).
  - rewrite Hd. apply list_lookup_insert_eq. by eapply lookup_lt_Some.
Qed.

Lemma wpb_read_conn fd buf off count d m c T TM (Q : Z * list byte -> world -> Prop) w :
  serving T TM w -> T !! fd = Some (d, m) -> conn_of w fd = Some c ->
  0 <= off -> 0 <= count -> off + count <= zlen buf ->
  (forall w', refuses \/ (nb = true /\ 0 < count /\ starved c) -> Q (-1, buf) w') ->
  (forall w' c', nb = false -> conn_of w' fd = Some c' -> starved c' -> B w') ->
  (forall x c' w', serving (<[fd := (d ++ x, m)]> T) TM w' -> others fd w w' -> same_queue w w' ->
     conn_of w' fd = Some c' -> c_room c' = c_room c -> zlen x <= count -> zlen x <= MAX_RW_COUNT ->
     Q (zlen x, buf_put off x buf) w') ->
  wpb B (sys_read fd buf off count) Q X w.
Proof.
  intros Hsv HT Hco Hoff Hcnt Hbuf Hbad HB HQ. destruct (conn_fd _ _ _ _ _ _ _ Hsv HT Hco) as (id & Hd & Hc & Hcar).
  unfold sys_read. rewrite fits_true by done. change (negb true) with false.
  apply wpb_syscall; [apply Hsv|intros; apply Hbad; by left|]. intros a. do 2 wpb_step.
  destruct (arrive_conn (tick w) fd id nb c Hd Hc a ((0 <? count) && negb (nonblocking fd (tick w)))) as [k ->].
  set (c1 := receive k c). set (w1 := set_conns _ _). do 2 wpb_step.
  assert (w_fds w1 !! fd = Some (DConn id nb)) as Hd1 by exact Hd.
  assert (n_conns (w_net w1) !! id = Some c1) as Hc1 by exact (insert_conn w id c Hc c1).
  rewrite (avail_conn _ _ _ _ _ Hd1 Hc1), (at_end_conn _ _ _ _ _ Hd1 Hc1), (nonblocking_conn _ _ _ _ Hd1).
  destruct ((0 <? count) && bool_decide (c_in c1 = []) && negb (over c1)) eqn:Est.
  { zbool. assert (starved c1) by (split; [by eapply bool_decide_eq_true_1|done]).
    assert (starved c) by (by apply (starved_receive k)).
    destruct nb eqn:Enb; [|apply wpb_stuck, (HB _ c1); [done|unfold conn_of; by rewrite Hd1, Hc1|done]].
    repeat wpb_step. apply Hbad. by right. }
  do 2 wpb_step. rewrite (consume_conn _ _ _ _ _ Hd1 Hc1). wpb_step.
  pose proof (moved_bounds a (Z.min count (zlen (c_in c1)))) as Hn.
  pose proof (moved_int a (Z.min count (zlen (c_in c1)))) as Hm.
  set (n := moved _ _) in *. set (x := take (Z.to_nat n) (c_in c1)).
  assert (zlen x = n) as Hx by (unfold x; rewrite length_take; lia).
  rewrite <- Hx at 1.
  edestruct (serving_moved T TM w) as (H1 & H2 & H3 & H4);
    [done|done|done|done|apply (carries_read d (Z.to_nat n) c1), carries_receive, Hcar|..].
  4:{ eapply HQ; [exact H1|exact H2|exact H3|exact H4|done|lia|unfold MAX_RW_COUNT; lia]. }
  all: cbn; by rewrite ?list_insert_insert_eq.
Qed.

Lemma wpb_write_conn fd buf off count d m c T TM (Q : Z -> world -> Prop) w :
  serving T TM w -> T !! fd = Some (d, m) -> conn_of w fd = Some c ->
  0 <= off -> 0 <= count -> off + count <= zlen buf ->
  count <= zlen d -> (forall n, 0 <= n <= count -> buf_get off n buf = take (Z.to_nat n) d) ->
  (forall w', w_fds w' = w_fds w -> w_net w' = w_net w ->
     refuses \/ (nb = true /\ 0 < count /\ c_room c <= 0) -> Q (-1) w') ->
  (forall w', nb = false -> conn_of w' fd = Some c -> c_room c < count -> B w') ->
  (forall n c' w', 0 <= n <= count -> n <= MAX_RW_COUNT -> (0 < count -> 0 < n) ->
     serving (<[fd := (drop (Z.to_nat n) d, m)]> T) TM w' -> others fd w w' -> same_queue w w' ->
     conn_of w' fd = Some c' -> Q n w') ->
  wpb B (sys_write fd buf off count) Q X w.
Proof.
  intros Hsv HT Hco Hoff Hcnt Hbuf Hdl Hget Hbad HB HQ.
  destruct (conn_fd _ _ _ _ _ _ _ Hsv HT Hco) as (id & Hd & Hc & Hcar).
  unfold sys_write. rewrite fits_true by done. change (negb true) with false.
  apply wpb_syscall; [apply Hsv|intros; apply Hbad; [done|done|by left]|]. intros a. do 2 wpb_step.
  rewrite (room_conn (tick w) _ _ _ _ Hd Hc), (nonblocking_conn (tick w) _ _ _ Hd), (all_or_wait_conn (tick w) _ _ _ Hd).
  destruct ((0 <? count) && (c_room c <=? 0)) eqn:Est.
  { zbool. destruct nb eqn:Enb; [|apply wpb_stuck, HB; [done|done|lia]].
    repeat wpb_step. apply Hbad; [done|done|by right]. }
  destruct (negb nb && (0 <? count) && (c_room c <? count)) eqn:Ew.
  { zbool. apply wpb_stuck, HB; [by destruct nb|done|lia]. }
  set (n := if negb nb then _ else _).
  assert (0 <= n <= count /\ n <= MAX_RW_COUNT /\ (0 < count -> 0 < n)) as (Hn & Hmax & Hpos).
  { unfold n. pose proof (moved_bounds a (Z.min count (c_room c))). pose proof (moved_int a (Z.min count (c_room c))).
    pose proof (moved_pos a (Z.min count (c_room c))). unfold MAX_RW_COUNT.
    destruct (0 <? count) eqn:?, (c_room c <=? 0) eqn:?, (negb nb); zbool; cbn in Est; try done; lia. }
  do 2 wpb_step. rewrite (emit_conn (tick w) _ _ _ _ Hd Hc). wpb_step.
  rewrite Hget by done.
  edestruct (serving_moved T TM w) as (H1 & H2 & H3 & H4);
    [done|done|done|done|apply (carries_write d (Z.to_nat n) c), Hcar|..].
  4:{ eapply HQ; [done|done|done|exact H1|exact H2|exact H3|exact H4]. }
  all: done.
Qed.

(** epoll_wait(2) reports registered descriptors that are ready, each once. *)
Definition reported (w : world) (ev : Z * Z) : Prop :=
  exists reg expired, n_epoll (w_net w) !! ev.1 = Some reg /\
    ev.2 = Z.land reg (ready expired ev.1 w) /\ ev.2 <> 0.

Lemma event_of_reported a w fd ev : event_of a w fd = Some ev -> ev.1 = fd /\ reported w ev.
Proof.
  unfold event_of. destruct (n_epoll (w_net w) !! fd) as [reg|] eqn:E; [|done].
  destruct (Z.eqb_spec (Z.land reg (ready (a_ready a fd) fd w)) 0); [done|].
  intros [= <-]. split; [done|]. exists reg, (a_ready a fd). done.
Qed.

Lemma omap_events a w l :
  NoDup l -> let evs := omap (event_of a w) l in
  NoDup evs.*1 /\ Forall (reported w) evs /\ forall ev, ev ∈ evs -> ev.1 ∈ l.
Proof.
  intros Hnd. induction Hnd as [|fd l Hni Hnd (IH1 & IH2 & IH3)]; cbn [omap list_omap].
  { split_and!; [constructor|constructor|set_solver]. }
  destruct (event_of a w fd) as [ev|] eqn:E; [|split_and!; [done|done|set_solver]].
  destruct (event_of_reported _ _ _ _ E) as [<- Hr].
  split_and!; [|by constructor|set_solver]. cbn. constructor; [|done].
  rewrite list_elem_of_fmap. intros (ev' & Heq & Hin). apply Hni. rewrite Heq. by apply IH3.
Qed.

Lemma peers_serving T TM a w : serving T TM w -> serving T TM (peers a w).
Proof.
  intros [He Hs]. split; [done|]. cbn. apply srv_peers; [done| |done].
  intros i c d Hc. apply (carries_receive d (Z.to_nat (a_peer a i).1)) in Hc. exact Hc.
Qed.

Lemma wpb_epoll_wait epfd max T TM (Q : Z * list (Z * Z) -> world -> Prop) w :
  serving T TM w -> (forall w', B w') ->
  (forall w', w_fds w' = w_fds w -> serving T TM w' -> refuses \/ max <= 0 -> Q (-1, []) w') ->
  (forall evs w', serving T TM w' -> NoDup evs.*1 -> Forall (reported w') evs -> zlen evs <= max ->
     Q (zlen evs, evs) w') ->
  wpb B (sys_epoll_wait epfd max) Q X w.
Proof.
  intros Hsv HB Hbad HQ. unfold sys_epoll_wait.
  apply wpb_syscall; [apply Hsv|intros e Hr; apply Hbad; [done|done|by left]|].
  intros a. wpb_step; zbool; [repeat wpb_step; apply Hbad; [done|done|by right]|].
  do 4 wpb_step. set (w' := peers a (tick w)).
  destruct (omap_events a w' (remove_dups (a_fds a)) (NoDup_remove_dups _)) as (H1 & H2 & _).
  destruct (take (Z.to_nat max) _) as [|ev evs] eqn:E; [by apply wpb_stuck|]. wpb_step.
  rewrite <- E. apply HQ.
  - by apply (peers_serving _ _ a (tick w)).
  - rewrite fmap_take. eapply sublist_NoDup; [done|apply sublist_take].
  - by apply Forall_take.
  - rewrite length_take. lia.
Qed.
End calls.
End serving.
