(* ===== verification/Servers.v ===== *)
(** The event-driven servers of [src/exercises/server_design]: the echo servers
    [epoll_echo_server/solution.cc] (module [Echo]), [solution_write.cc]
    ([EchoWrite]), [solution_timer.cc] ([EchoTimer]) and [solution_full.cc]
    ([EchoFull]), [epoll_web_server/solution.cc] ([WebServer]) and
    [minimal_web_server/solution.cc] ([MinimalWeb]).  Each [main] is split into
    [start], all that comes before the service loop, and [round], one pass of
    the loop.  Messages on the terminal are left out. *)

From stdpp Require Import prelude gmap strings list fin_maps.
From Stdlib Require Import ZArith Lia.
From Stdlib Require Strings.String.
From S2P Require Import Prelude Posix ErrUtils CircularPipe Net.

Open Scope prog_scope.

(** * What the servers share *)

(** An array of automatic storage: its content is arbitrary. *)
Definition local_array (n : nat) : M (list byte) :=
  let! a := next_answer in pret (replicate n (a_fill a)).

(** [network_utils.h] *)
Definition get_backlog : M Z :=
  let at_ := mkSite "network_utils.h" "get_backlog" in
  let! buf := local_array 256 in
  let! fd := not_m1 (at_ 43) "open(filename, O_RDONLY)"
               (sys_open "/proc/sys/net/core/somaxconn" (mkOflags O_RDONLY false false)) in
  let! '(ret, buf) := sys_read fd buf 0 256 in
  CHECK_NOT_M1 (at_ 44) "read(fd, buf, size)" ret ;;;
  not_m1 (at_ 45) "close(fd)" (net_close fd) ;;;
  pret (atoi (Strings.String.string_of_list_byte buf)).

Definition htons (port : Z) : Z := wrapu 16 port.

(** The lines that open the listening socket and the epoll descriptor, the same
    in every server; [at_] gives the place of each check. *)
Definition open_listener (at_ : Z -> site) (l_socket l_opt l_bind l_listen port : Z) : M Z :=
  let! sockfd := not_m1 (at_ l_socket) "socket(AF_INET, SOCK_STREAM, IPPROTO_TCP)" sys_socket in
  not_m1 (at_ l_opt) "setsockopt(sockfd, SOL_SOCKET, SO_REUSEADDR, &optval, sizeof(optval))"
    (sys_setsockopt sockfd) ;;;
  not_m1 (at_ l_bind) "bind(sockfd, &server, sizeof(server))" (sys_bind sockfd (htons port)) ;;;
  let! backlog := get_backlog in
  not_m1 (at_ l_listen) "listen(sockfd, backlog)" (sys_listen sockfd backlog) ;;;
  pret sockfd.

Definition open_epoll (at_ : Z -> site) (l_create l_add sockfd : Z) : M Z :=
  let! epollfd := not_m1 (at_ l_create) "epoll_create(1)" sys_epoll_create in
  not_m1 (at_ l_add) "epoll_ctl(epollfd, EPOLL_CTL_ADD, sockfd, &ev)"
    (sys_epoll_ctl epollfd EPOLL_CTL_ADD sockfd EPOLLIN) ;;;
  pret epollfd.

(** One pass of the service loop: wait, then handle the events in order. *)
Fixpoint for_events {St} (handle : St -> Z * Z -> M St) (evs : list (Z * Z)) (st : St) : M St :=
  match evs with
  | [] => pret st
  | ev :: evs' => let! st' := handle st ev in for_events handle evs' st'
  end.
Definition wait_and_handle {St} (s : site) (epollfd maxevents : Z) (handle : St -> Z * Z -> M St) (st : St) : M St :=
  let! '(ret, events) := sys_epoll_wait epollfd maxevents in
  CHECK_NOT_M1 s "epoll_wait(epollfd, events, maxevents, -1)" ret ;;;
  for_events handle events st.

(** The first [n] passes; [while(true)] never leaves the loop. *)
Fixpoint rounds {St} (round : St -> M St) (n : nat) (st : St) : M St :=
  match n with
  | O => pret st
  | S n' => let! st' := round st in rounds round n' st'
  end.
Definition forever {St} (fuel : nat) (round : St -> M St) (st : St) : M Z :=
  iter fuel (fun st => let! st' := round st in pret (inl st')) st.

Definition argc_is_not (argv : list string) (n : Z) : bool := negb (zlen argv =? n).
Definition arg (argv : list string) (n : nat) : string := default "" (argv !! n).

(** read(2) up to 1024 bytes and write(2) them back, all or exit. *)
Definition echo_once (s_read s_write : site) (fd : Z) : M unit :=
  let! buffer := local_array 1024 in
  let! '(ret, buffer) := sys_read fd buffer 0 1024 in
  let! len := CHECK_NOT_M1 s_read "read(currfd, buffer, buflen)" ret in
  let! ret := sys_write fd buffer 0 len in
  CHECK_INT s_write "write(currfd, buffer, len)" ret len ;;;
  pret tt.

(** * epoll_echo_server/solution.cc *)
Module Echo.

Definition at_ : Z -> site := mkSite "solution.cc" "main".

Record server := mkServer { sockfd : Z; epollfd : Z }.

Definition start (argv : list string) : M (Z + server) :=
  if argc_is_not argv 3 then
    eprintf "%s: usage: %s [host] [port]\n" [AStr (arg argv 0); AStr (arg argv 0)] ;;;
    pret (inl EXIT_FAILURE)
  else
    let port := u32 (atoi (arg argv 2)) in
    let! sockfd := open_listener at_ 55 60 74 80 port in
    let! epollfd := open_epoll at_ 84 90 sockfd in
    pret (inr (mkServer sockfd epollfd)).

Definition handle (sv : server) (ev : Z * Z) : M server :=
  let '(currfd, events) := ev in
  if currfd =? sockfd sv then
    let! conn_sock := not_m1 (at_ 102) "accept4(sockfd, &local, &addrlen, SOCK_NONBLOCK)"
                        (sys_accept4 (sockfd sv) true) in
    not_m1 (at_ 106) "epoll_ctl(epollfd, EPOLL_CTL_ADD, conn_sock, &conn_ev)"
      (sys_epoll_ctl (epollfd sv) EPOLL_CTL_ADD conn_sock (Z.lor EPOLLIN EPOLLRDHUP)) ;;;
    pret sv
  else if has events EPOLLRDHUP then
    not_m1 (at_ 109) "epoll_ctl(epollfd, EPOLL_CTL_DEL, currfd, NULL)"
      (sys_epoll_ctl (epollfd sv) EPOLL_CTL_DEL currfd 0) ;;;
    not_m1 (at_ 110) "close(currfd)" (net_close currfd) ;;;
    pret sv
  else if has events EPOLLIN then
    echo_once (at_ 115) (at_ 119) currfd ;;; pret sv
  else pret sv.

Definition round (sv : server) : M server := wait_and_handle (at_ 95) (epollfd sv) 10 handle sv.

Definition main (fuel : nat) (argv : list string) : M Z :=
  let! s := start argv in
  match s with inl code => pret code | inr sv => forever fuel round sv end.

End Echo.

(** * The ring-buffered servers *)

(** [register_fd], the same in [solution_write.cc], [solution_full.cc] and the
    web server; [s] is the place of its check. *)
Definition register_fd (s : site) (realfd : Z) (cp : CircularPipe) (epollfd : Z) (op : epoll_op) : M unit :=
  let events := EPOLLRDHUP in
  let events := if haveData cp then Z.lor events EPOLLOUT else events in
  let events := if haveRoom cp then Z.lor events EPOLLIN else events in
  not_m1 s "epoll_ctl(epollfd, op, realfd, &ev)"
    (sys_epoll_ctl epollfd op realfd events) ;;;
  pret tt.

(** [setup_timer]: ten seconds from now, once. *)
Definition setup_timer (s : site) (timerfd : Z) : M unit :=
  not_m1 s "timerfd_settime(timerfd, 0, &new_value, NULL)"
    (sys_timerfd_settime timerfd 10 0) ;;;
  pret tt.

(** [map<K, V>::find(k)->second]: dereferencing [end()] is undefined. *)
Definition map_get {V} (m : gmap Z V) (k : Z) : M V :=
  match m !! k with Some v => pret v | None => pstuck end.

(** ** epoll_echo_server/solution_write.cc *)
Module EchoWrite.

Definition at_ : Z -> site := mkSite "solution_write.cc" "main".

Definition register : Z -> CircularPipe -> Z -> epoll_op -> M unit :=
  register_fd (mkSite "solution_write.cc" "register_fd" 51).

Record server := mkServer {
  sockfd : Z;
  epollfd : Z;
  bufsize : Z;
  maxevents : Z;
  fdbuffermap : gmap Z CircularPipe;
}.
Definition set_pipes_of (m : gmap Z CircularPipe) (sv : server) : server :=
  mkServer (sockfd sv) (epollfd sv) (bufsize sv) (maxevents sv) m.

Definition start (argv : list string) : M (Z + server) :=
  if argc_is_not argv 5 then
    eprintf "%s: usage: %s [host] [port] [bufsize] [maxevents]\n" [AStr (arg argv 0); AStr (arg argv 0)] ;;;
    eprintf "%s: for example: %s localhost 8080 4096 100\n" [AStr (arg argv 0); AStr (arg argv 0)] ;;;
    pret (inl EXIT_FAILURE)
  else
    let port := u32 (atoi (arg argv 2)) in
    let bufsize := u32 (atoi (arg argv 3)) in
    let maxevents := u32 (atoi (arg argv 4)) in
    let! sockfd := open_listener at_ 67 71 81 85 port in
    let! epollfd := open_epoll at_ 88 94 sockfd in
    let! events := new_array (12 * maxevents) in
    pret (inr (mkServer sockfd epollfd bufsize maxevents ∅)).

Definition on_connect (sv : server) (currfd : Z) : M server :=
  if currfd =? sockfd sv then
    let! realfd := not_m1 (at_ 111) "accept4(sockfd, &local, &addrlen, SOCK_NONBLOCK)"
                     (sys_accept4 (sockfd sv) true) in
    let! cp := CircularPipe_ctor (bufsize sv) in
    let sv := set_pipes_of (<[realfd := cp]> (fdbuffermap sv)) sv in
    register realfd cp (epollfd sv) EPOLL_CTL_ADD ;;;
    pret sv
  else pret sv.

Definition on_read (sv : server) (currfd events : Z) : M server :=
  if bool_decide (is_Some (fdbuffermap sv !! currfd)) && has events EPOLLIN then
    let! cp := map_get (fdbuffermap sv) currfd in
    let! '(cp, _) := push cp currfd in
    let sv := set_pipes_of (<[currfd := cp]> (fdbuffermap sv)) sv in
    register currfd cp (epollfd sv) EPOLL_CTL_MOD ;;;
    pret sv
  else pret sv.

Definition on_write (sv : server) (currfd events : Z) : M server :=
  if bool_decide (is_Some (fdbuffermap sv !! currfd)) && has events EPOLLOUT then
    let! cp := map_get (fdbuffermap sv) currfd in
    let! cp := pull cp currfd in
    let sv := set_pipes_of (<[currfd := cp]> (fdbuffermap sv)) sv in
    register currfd cp (epollfd sv) EPOLL_CTL_MOD ;;;
    pret sv
  else pret sv.

Definition on_hangup (sv : server) (currfd events : Z) : M server :=
  if bool_decide (is_Some (fdbuffermap sv !! currfd)) && has events EPOLLRDHUP then
    let! cp := map_get (fdbuffermap sv) currfd in
    not_m1 (at_ 134) "epoll_ctl(epollfd, EPOLL_CTL_DEL, realfd, NULL)"
      (sys_epoll_ctl (epollfd sv) EPOLL_CTL_DEL currfd 0) ;;;
    not_m1 (at_ 135) "close(realfd)" (net_close currfd) ;;;
    pret (set_pipes_of (delete currfd (fdbuffermap sv)) sv)
  else pret sv.

Definition handle (sv : server) (ev : Z * Z) : M server :=
  let '(currfd, events) := ev in
  let! sv := on_connect sv currfd in
  let! sv := on_read sv currfd events in
  let! sv := on_write sv currfd events in
  on_hangup sv currfd events.

Definition round (sv : server) : M server :=
  wait_and_handle (at_ 104) (epollfd sv) (s32 (maxevents sv)) handle sv.

Definition main (fuel : nat) (argv : list string) : M Z :=
  let! s := start argv in
  match s with inl code => pret code | inr sv => forever fuel round sv end.

End EchoWrite.

(** * Servers with timeouts *)

(** ** epoll_echo_server/solution_timer.cc *)
Module EchoTimer.

Definition at_ : Z -> site := mkSite "solution_timer.cc" "main".

Definition setup : Z -> M unit := setup_timer (mkSite "solution_timer.cc" "setup_timer" 48).

Record server := mkServer {
  sockfd : Z;
  epollfd : Z;
  maxevents : Z;
  fdmap : gmap Z Z;
  timermap : gmap Z Z;
}.
Definition set_maps (f t : gmap Z Z) (sv : server) : server :=
  mkServer (sockfd sv) (epollfd sv) (maxevents sv) f t.

Definition start (argv : list string) : M (Z + server) :=
  if argc_is_not argv 4 then
    eprintf "%s: usage: %s [host] [port] [maxevents]\n" [AStr (arg argv 0); AStr (arg argv 0)] ;;;
    pret (inl EXIT_FAILURE)
  else
    let port := u32 (atoi (arg argv 2)) in
    let maxevents := u32 (atoi (arg argv 3)) in
    let! sockfd := open_listener at_ 65 69 82 86 port in
    let! epollfd := open_epoll at_ 89 95 sockfd in
    let! events := new_array (12 * maxevents) in
    pret (inr (mkServer sockfd epollfd maxevents ∅ ∅)).

Definition on_connect (sv : server) (currfd : Z) : M server :=
  if currfd =? sockfd sv then
    let! realfd := not_m1 (at_ 109) "accept4(sockfd, &local, &addrlen, SOCK_NONBLOCK)"
                     (sys_accept4 (sockfd sv) true) in
    not_m1 (at_ 113) "epoll_ctl(epollfd, EPOLL_CTL_ADD, realfd, &cev)"
      (sys_epoll_ctl (epollfd sv) EPOLL_CTL_ADD realfd (Z.lor EPOLLIN EPOLLRDHUP)) ;;;
    let! timerfd := not_m1 (at_ 114) "timerfd_create(CLOCK_REALTIME, 0)" sys_timerfd_create in
    not_m1 (at_ 117) "epoll_ctl(epollfd, EPOLL_CTL_ADD, timerfd, &cev)"
      (sys_epoll_ctl (epollfd sv) EPOLL_CTL_ADD timerfd EPOLLIN) ;;;
    setup timerfd ;;;
    pret (set_maps (<[realfd := timerfd]> (fdmap sv)) (<[timerfd := realfd]> (timermap sv)) sv)
  else pret sv.

Definition on_read (sv : server) (currfd events : Z) : M server :=
  if bool_decide (is_Some (fdmap sv !! currfd)) && has events EPOLLIN then
    let! timerfd := map_get (fdmap sv) currfd in
    echo_once (at_ 128) (at_ 130) currfd ;;;
    setup timerfd ;;;
    pret sv
  else pret sv.

(** The body that the disconnect and the timeout branch share. *)
Definition disconnect (l1 l2 l3 l4 : Z) (sv : server) (realfd timerfd : Z) : M server :=
  not_m1 (at_ l1) "epoll_ctl(epollfd, EPOLL_CTL_DEL, realfd, NULL)"
    (sys_epoll_ctl (epollfd sv) EPOLL_CTL_DEL realfd 0) ;;;
  not_m1 (at_ l2) "epoll_ctl(epollfd, EPOLL_CTL_DEL, timerfd, NULL)"
    (sys_epoll_ctl (epollfd sv) EPOLL_CTL_DEL timerfd 0) ;;;
  not_m1 (at_ l3) "close(realfd)" (net_close realfd) ;;;
  not_m1 (at_ l4) "close(timerfd)" (net_close timerfd) ;;;
  pret (set_maps (delete realfd (fdmap sv)) (delete timerfd (timermap sv)) sv).

Definition on_hangup (sv : server) (currfd events : Z) : M server :=
  if bool_decide (is_Some (fdmap sv !! currfd)) && has events EPOLLRDHUP then
    let! timerfd := map_get (fdmap sv) currfd in
    disconnect 138 139 140 141 sv currfd timerfd
  else pret sv.

Definition on_timeout (sv : server) (currfd : Z) : M server :=
  if bool_decide (is_Some (timermap sv !! currfd)) then
    let! realfd := map_get (timermap sv) currfd in
    disconnect 149 150 151 152 sv realfd currfd
  else pret sv.

Definition handle (sv : server) (ev : Z * Z) : M server :=
  let '(currfd, events) := ev in
  let! sv := on_connect sv currfd in
  let! sv := on_read sv currfd events in
  let! sv := on_hangup sv currfd events in
  on_timeout sv currfd.

Definition round (sv : server) : M server :=
  wait_and_handle (at_ 102) (epollfd sv) (s32 (maxevents sv)) handle sv.

Definition main (fuel : nat) (argv : list string) : M Z :=
  let! s := start argv in
  match s with inl code => pret code | inr sv => forever fuel round sv end.

End EchoTimer.

(** ** epoll_echo_server/solution_full.cc and epoll_web_server/solution.cc

    The two files have the same text up to four things, given by a [variant]:
    the file name, the line numbers, the flags of accept4(2) and the argument
    that [maxevents] is taken from.  Lines are those of [solution_full.cc]. *)
Record variant := mkVariant {
  v_file : string;
  v_line : Z -> Z;
  v_nonblock : bool;
  v_maxevents : nat;
}.

Module Buffered.

Record server := mkServer {
  sockfd : Z;
  epollfd : Z;
  bufsize : Z;
  maxevents : Z;
  fdbuffermap : gmap Z CircularPipe;
  fdmap : gmap Z Z;
  timermap : gmap Z Z;
}.
Definition set_maps (b : gmap Z CircularPipe) (f t : gmap Z Z) (sv : server) : server :=
  mkServer (sockfd sv) (epollfd sv) (bufsize sv) (maxevents sv) b f t.

Section variant.
Context (v : variant).

Definition at_ (l : Z) : site := mkSite (v_file v) "main" (v_line v l).

Definition register : Z -> CircularPipe -> Z -> epoll_op -> M unit :=
  register_fd (mkSite (v_file v) "register_fd" 52).
Definition setup : Z -> M unit := setup_timer (mkSite (v_file v) "setup_timer" 63).

Definition start (argv : list string) : M (Z + server) :=
  if argc_is_not argv 5 then
    eprintf "%s: usage: %s [host] [port] [bufsize] [maxevents]\n" [AStr (arg argv 0); AStr (arg argv 0)] ;;;
    eprintf "%s: for example: %s localhost 8080 4096 100\n" [AStr (arg argv 0); AStr (arg argv 0)] ;;;
    pret (inl EXIT_FAILURE)
  else
    let port := u32 (atoi (arg argv 2)) in
    let bufsize := u32 (atoi (arg argv 3)) in
    let maxevents := u32 (atoi (arg argv (v_maxevents v))) in
    let! sockfd := open_listener at_ 79 83 93 97 port in
    let! epollfd := open_epoll at_ 100 106 sockfd in
    let! events := new_array (12 * maxevents) in
    pret (inr (mkServer sockfd epollfd bufsize maxevents ∅ ∅ ∅)).

Definition on_connect (sv : server) (currfd : Z) : M server :=
  if currfd =? sockfd sv then
    let! realfd := not_m1 (at_ 125) "accept4(sockfd, &local, &addrlen, flags)"
                     (sys_accept4 (sockfd sv) (v_nonblock v)) in
    let! cp := CircularPipe_ctor (bufsize sv) in
    let sv := set_maps (<[realfd := cp]> (fdbuffermap sv)) (fdmap sv) (timermap sv) sv in
    register realfd cp (epollfd sv) EPOLL_CTL_ADD ;;;
    let! timerfd := not_m1 (at_ 130) "timerfd_create(CLOCK_REALTIME, 0)" sys_timerfd_create in
    not_m1 (at_ 133) "epoll_ctl(epollfd, EPOLL_CTL_ADD, timerfd, &ev)"
      (sys_epoll_ctl (epollfd sv) EPOLL_CTL_ADD timerfd EPOLLIN) ;;;
    setup timerfd ;;;
    pret (set_maps (fdbuffermap sv) (<[realfd := timerfd]> (fdmap sv)) (<[timerfd := realfd]> (timermap sv)) sv)
  else pret sv.

Definition on_read (sv : server) (currfd events : Z) : M server :=
  if bool_decide (is_Some (fdbuffermap sv !! currfd)) && has events EPOLLIN then
    let! timerfd := map_get (fdmap sv) currfd in
    let! cp := map_get (fdbuffermap sv) currfd in
    let! '(cp, _) := push cp currfd in
    let sv := set_maps (<[currfd := cp]> (fdbuffermap sv)) (fdmap sv) (timermap sv) sv in
    register currfd cp (epollfd sv) EPOLL_CTL_MOD ;;;
    setup timerfd ;;;
    pret sv
  else pret sv.

Definition on_write (sv : server) (currfd events : Z) : M server :=
  if bool_decide (is_Some (fdbuffermap sv !! currfd)) && has events EPOLLOUT then
    let! cp := map_get (fdbuffermap sv) currfd in
    let! cp := pull cp currfd in
    let sv := set_maps (<[currfd := cp]> (fdbuffermap sv)) (fdmap sv) (timermap sv) sv in
    register currfd cp (epollfd sv) EPOLL_CTL_MOD ;;;
    pret sv
  else pret sv.

(** The body that the disconnect and the timeout branch share. *)
Definition disconnect (l1 l2 l3 l4 : Z) (sv : server) (realfd timerfd : Z) : M server :=
  not_m1 (at_ l1) "epoll_ctl(epollfd, EPOLL_CTL_DEL, realfd, NULL)"
    (sys_epoll_ctl (epollfd sv) EPOLL_CTL_DEL realfd 0) ;;;
  not_m1 (at_ l2) "epoll_ctl(epollfd, EPOLL_CTL_DEL, timerfd, NULL)"
    (sys_epoll_ctl (epollfd sv) EPOLL_CTL_DEL timerfd 0) ;;;
  not_m1 (at_ l3) "close(realfd)" (net_close realfd) ;;;
  not_m1 (at_ l4) "close(timerfd)" (net_close timerfd) ;;;
  let! cp := map_get (fdbuffermap sv) realfd in
  pret (set_maps (delete realfd (fdbuffermap sv)) (delete realfd (fdmap sv))
          (delete timerfd (timermap sv)) sv).

Definition on_hangup (sv : server) (currfd events : Z) : M server :=
  if bool_decide (is_Some (fdbuffermap sv !! currfd)) && has events EPOLLRDHUP then
    let! timerfd := map_get (fdmap sv) currfd in
    disconnect 159 160 161 162 sv currfd timerfd
  else pret sv.

Definition on_timeout (sv : server) (currfd : Z) : M server :=
  if bool_decide (is_Some (timermap sv !! currfd)) then
    let! realfd := map_get (timermap sv) currfd in
    disconnect 173 174 175 176 sv realfd currfd
  else pret sv.

Definition handle (sv : server) (ev : Z * Z) : M server :=
  let '(currfd, events) := ev in
  let! sv := on_connect sv currfd in
  let! sv := on_read sv currfd events in
  let! sv := on_write sv currfd events in
  let! sv := on_hangup sv currfd events in
  on_timeout sv currfd.

Definition round (sv : server) : M server :=
  wait_and_handle (at_ 118) (epollfd sv) (s32 (maxevents sv)) handle sv.

Definition main (fuel : nat) (argv : list string) : M Z :=
  let! s := start argv in
  match s with inl code => pret code | inr sv => forever fuel round sv end.
End variant.
End Buffered.

(** [solution_full.cc]: blocking connections, [maxevents] from [argv[4]]. *)
Definition full : variant := mkVariant "solution_full.cc" (fun l => l) false 4.

(** [epoll_web_server/solution.cc]: non-blocking connections, [maxevents] from
    [argv[3]], which is the buffer size. *)
Definition web : variant :=
  mkVariant "solution.cc" (fun l => if l <? 93 then l else if l =? 125 then l + 2 else l + 1) true 3.

Module EchoFull.
Definition main : nat -> list string -> M Z := Buffered.main full.
End EchoFull.
Module WebServer.
Definition main : nat -> list string -> M Z := Buffered.main web.
End WebServer.

(** * minimal_web_server/solution.cc *)
Module MinimalWeb.

Definition at_ : Z -> site := mkSite "solution.cc" "main".

Definition newline : string := String (Ascii.ascii_of_nat 10) "".
Definition my_response : string :=
  String.concat newline
    ["HTTP/1.1 200 OK"; "Content-Type: text/html"; "Connection: Closed"; "";
     "<html>"; "<body>"; "<h1>Hello, World!</h1>"; "</body>"; "</html>"; ""].
Definition response_bytes : list byte := Strings.String.list_byte_of_string my_response.

Definition start : M Z := open_listener at_ 62 67 80 86 8080.

Definition round (sockfd : Z) : M Z :=
  let! fd := not_m1 (at_ 91) "accept(sockfd, &client, &addrlen)" (sys_accept4 sockfd false) in
  not_m1 (at_ 94) "write(fd, my_response, strlen(my_response))"
    (sys_write fd response_bytes 0 (zlen response_bytes)) ;;;
  not_m1 (at_ 95) "close(fd)" (net_close fd) ;;;
  pret sockfd.

Definition main (fuel : nat) : M Z :=
  let! sockfd := start in forever fuel round sockfd.

End MinimalWeb.
