(* ===== verification/ServersProofs.v ===== *)
(** Correctness of the servers of [Servers]: what each keeps of its clients
    agrees with what the kernel has open, registered and buffered, in every
    state of the service loop and whatever clients and kernel do. *)

From stdpp Require Import prelude gmap strings list fin_maps.
From Stdlib Require Import ZArith Lia.
From S2P Require Import Prelude Posix ErrUtils CircularPipe Net NetProofs Servers.

Open Scope prog_scope.

Lemma wpb_CHECK_INT B s txt v e (Q : Z -> world -> Prop) X w :
  (s32 v <> s32 e -> forall c w', bad_status c -> quiet w w' -> X c w') ->
  (s32 v = s32 e -> Q (s32 v) w) ->
  wpb B (CHECK_INT s txt v e) Q X w.
Proof.
  intros HX HQ. apply wpb_of_wp. unfold CHECK_INT, check_int, errno. repeat wp_step; zbool.
  - apply wp_handle_error_quiet. auto.
  - auto.
Qed.

(** * The ring of a connection *)

(** The events [register_fd] asks for. *)
Definition interest (p : CircularPipe) : Z :=
  let events := EPOLLRDHUP in
  let events := if haveData p then Z.lor events EPOLLOUT else events in
  if haveRoom p then Z.lor events EPOLLIN else events.

Section ring.
Context (env : nat -> answer) (sockfd epollfd : Z) (nb : bool).
Context (B : world -> Prop) (X : Z -> world -> Prop).
Abbreviation serving := (serving env sockfd epollfd nb).
Context (HX : forall c w', bad_status c -> pressed env w' -> X c w').

(** [push] takes bytes from the client into the ring. *)
Lemma wpb_push p fd m c T TM (Q : CircularPipe * bool -> world -> Prop) w :
  wf p -> serving T TM w -> T !! fd = Some (content p, m) -> conn_of w fd = Some c ->
  (nb = true -> haveRoom p = true -> starved c -> forall c w', bad_status c -> X c w') ->
  (forall w' c', nb = false -> conn_of w' fd = Some c' -> starved c' -> B w') ->
  (forall p' b c' w', wf p' -> cp_size p' = cp_size p ->
     serving (<[fd := (content p', m)]> T) TM w' -> others fd w w' -> same_queue w w' ->
     conn_of w' fd = Some c' -> c_room c' = c_room c -> (haveData p = true -> haveData p' = true) -> Q (p', b) w') ->
  wpb B (push p fd) Q X w.
Proof using HX.
  intros Hwf Hsv HT Hco Hst HB HQ. unfold push. cbv zeta.
  set (count := if _ <=? _ then _ else _).
  assert (0 <= count <= cp_room p /\ cp_pos_write p + count <= cp_size p) as [Hc Hfit].
  { destruct Hwf. subst count. unfold cp_room.
    destruct (cp_pos_read p <=? cp_pos_write p) eqn:E; zbool; cint; [|lia].
    destruct (cp_pos_read p =? 0) eqn:E2; zbool; cint; lia. }
  pose proof Hwf as [Hs Hb Hr Hw]. wpb_step.
  eapply wpb_read_conn; [done|done|done|lia|lia|lia| | |].
  - intros w' [Hre|(Hnb & Hpos & Hstv)]; wpb_step; (apply wpb_check_not_m1; [|done]); intros _ e w'' He _.
    + apply HX; [done|by left].
    + apply (Hst Hnb); [|done|done]. unfold haveRoom. by apply Z.ltb_lt; lia.
  - auto.
  - intros x c' w' Hsv' Hot Hsq Hco' Hroom Hx Hmax. unfold MAX_RW_COUNT in Hmax. wpb_step.
    apply wpb_check_not_m1; rewrite s32_small by lia; [lia|]. intros _. wpb_step.
    destruct (content_put p x Hwf) as [Hwf' Hc']; [lia|lia|].
    rewrite u64_small by lia. eapply HQ; try done; [by rewrite Hc'|].
    unfold haveData. rewrite !Z.ltb_lt. rewrite (proj1 (data_content _ Hwf)), (proj1 (data_content _ Hwf')), Hc'.
    rewrite length_app. lia.
Qed.

(** [pull] gives bytes of the ring to the client. *)
Lemma wpb_pull p fd m c T TM (Q : CircularPipe -> world -> Prop) w :
  wf p -> serving T TM w -> T !! fd = Some (content p, m) -> conn_of w fd = Some c ->
  (nb = true -> haveData p = true -> c_room c <= 0 -> forall c w', bad_status c -> X c w') ->
  (forall w', nb = false -> conn_of w' fd = Some c -> c_room c < cp_size p -> B w') ->
  (forall p' c' w', wf p' -> cp_size p' = cp_size p ->
     serving (<[fd := (content p', m)]> T) TM w' -> others fd w w' -> same_queue w w' ->
     conn_of w' fd = Some c' -> Q p' w') ->
  wpb B (pull p fd) Q X w.
Proof using HX.
  intros Hwf Hsv HT Hco Hst HB HQ. unfold pull. cbv zeta.
  set (count := if _ <=? _ then _ else _).
  pose proof (data_content p Hwf) as [Hdc _].
  assert (0 <= count <= data p /\ cp_pos_read p + count <= cp_size p) as [Hc Hfit].
  { destruct Hwf. subst count. unfold data.
    destruct (cp_pos_read p <=? cp_pos_write p) eqn:E; zbool; cint; lia. }
  assert (forall n, 0 <= n <= count ->
            buf_get (cp_pos_read p) n (cp_buf p) = take (Z.to_nat n) (content p)) as Hget.
  { intros n Hn. destruct (content_get p n Hwf) as [_ Hc']; [lia|lia|]. rewrite Hc' at 1.
    assert (zlen (buf_get (cp_pos_read p) n (cp_buf p)) = n) by (destruct Hwf; apply length_buf_get; lia).
    rewrite take_app_length'; [done|lia]. }
  pose proof Hwf as [Hs Hb Hr Hw]. wpb_step.
  eapply wpb_write_conn; [done|done|done|lia|lia|lia|lia|done| | |].
  - intros w' _ _ [Hre|(Hnb & Hpos & Hstv)]; (apply wpb_bind, wpb_check_not_m1; [|done]); intros _ e w'' He _.
    + apply HX; [done|by left].
    + apply (Hst Hnb); [|done|done]. unfold haveData. by apply Z.ltb_lt; lia.
  - intros w' Hnb Hcw Hr'. apply HB; [done|done|]. pose proof (data_content p Hwf). lia.
  - intros n c' w' Hn Hmax Hpos Hsv' Hot Hsq Hco'. unfold MAX_RW_COUNT in Hmax.
    apply wpb_bind, wpb_check_not_m1; rewrite s32_small by lia; [lia|]. intros _. wpb_step.
    destruct (content_get p n Hwf) as [Hwf' Hc']; [lia|lia|]. rewrite u64_small by lia.
    assert (zlen (buf_get (cp_pos_read p) n (cp_buf p)) = n) by (apply length_buf_get; lia).
    rewrite Hc', drop_app_length' in Hsv' by lia. by eapply HQ.
Qed.

Lemma wpb_ctor bufsize T TM (Q : CircularPipe -> world -> Prop) w :
  0 < bufsize < 18446744073709551616 -> serving T TM w ->
  (forall p w', wf p -> cp_size p = bufsize -> content p = [] -> serving T TM w' -> undisturbed w w' -> Q p w') ->
  wpb B (CircularPipe_ctor bufsize) Q X w.
Proof using HX.
  intros Hs Hsv HQ. unfold CircularPipe_ctor, CHECK_NOT_NULL, malloc. wpb_step.
  apply (wpb_syscall env); [apply Hsv| |].
  - intros e Hre. wpb_step. apply wpb_of_wp. unfold check_not_null, errno.
    repeat wp_step. apply wp_handle_error. intros c w' Hc. apply HX; [done|by left].
  - intros a. repeat wpb_step. apply wpb_ret. unfold check_not_null. cbn. repeat wpb_step.
    apply HQ; [|done|done|done|done]. constructor; simpl; rewrite ?length_replicate; lia.
Qed.

Lemma wpb_register s realfd p op m T TM (Q : unit -> world -> Prop) w :
  serving T TM w -> T !! realfd = Some (content p, m) -> registers op m -> op <> EPOLL_CTL_DEL ->
  (forall w', serving (<[realfd := (content p, Some (interest p))]> T) TM w' -> undisturbed w w' -> Q tt w') ->
  wpb B (register_fd s realfd p epollfd op) Q X w.
Proof using HX.
  intros Hsv HT Hop Hne HQ. unfold register_fd. fold (interest p). wpb_step.
  eapply (wpb_ctl_conn env sockfd epollfd nb B X HX); [done|done|done|]. intros w' Hsv' Hu. wpb_step.
  apply HQ; [|done]. by destruct op.
Qed.

Lemma wpb_setup_timer s t b m T TM (Q : unit -> world -> Prop) w :
  serving T TM w -> TM !! t = Some (b, m) ->
  (forall w', serving T (<[t := (true, m)]> TM) w' -> undisturbed w w' -> Q tt w') ->
  wpb B (setup_timer s t) Q X w.
Proof using HX.
  intros Hsv HT HQ. unfold setup_timer. wpb_step.
  eapply (wpb_settime env sockfd epollfd nb B X HX); [done|done|]. intros w' Hsv' Hu. wpb_step. by apply HQ.
Qed.
End ring.

(** * Service loops *)

(** The states [start] and then any number of rounds lead to. *)
Definition loop_state {St} (start : M (Z + St)) (round : St -> M St) (w0 : world) (st : St) (w : world) : Prop :=
  exists n st0 w1, start w0 = (Val (inr st0), w1) /\ rounds round n st0 w1 = (Val st, w).

(** What a service loop guarantees in state [st]: its invariant, and that
    whatever batch epoll_wait(2) returns is handled back to the invariant, or
    the server exits with a non-zero status for a reason in [excuse]; it stops
    inside a handler only in a state in which [B] holds. *)
Definition serves {St} (B : world -> Prop) (handle : St -> Z * Z -> M St) (epollfd maxevents : Z) (inv : St -> world -> Prop)
    (excuse : world -> Prop) (st : St) (w : world) : Prop :=
  inv st w /\
  forall n evs w', sys_epoll_wait epollfd maxevents w = (Val (n, evs), w') ->
    wpb B (for_events handle evs st) inv (fun c w'' => bad_status c /\ excuse w'') w'.

Section loop.
Context {St : Type} (env : nat -> answer) (round : St -> M St) (inv : St -> world -> Prop).
Context (Hround : forall st w, inv st w -> wpb anytime (round st) inv (fun _ _ => True) w).

Lemma rounds_inv n st w : inv st w -> wpb anytime (rounds round n st) inv (fun _ _ => True) w.
Proof using Hround.
  revert st w. induction n as [|n IH]; intros st w Hi; cbn [rounds]; [by wpb_step|].
  wpb_step. eapply wpb_mono; [by apply Hround|apply IH|done].
Qed.

Lemma loop_state_inv start w0 st w :
  wpb anytime start (fun r w' => forall st, r = inr st -> inv st w') (fun _ _ => True) w0 ->
  loop_state start round w0 st w -> inv st w.
Proof using Hround.
  intros Hs (n & st0 & w1 & E1 & E2). unfold wpb in Hs. rewrite E1 in Hs.
  pose proof (rounds_inv n st0 w1 (Hs st0 eq_refl)) as Hr. unfold wpb in Hr. by rewrite E2 in Hr.
Qed.
End loop.

Lemma wpb_mono_B {A} (B B' : world -> Prop) (m : M A) Q X w : (forall w', B w' -> B' w') -> wpb B m Q X w -> wpb B' m Q X w.
Proof. unfold wpb. destruct (m w) as [[] ?]; auto. Qed.

(** A call that returned, as its specification sees it. *)
Lemma wpb_val {A} B (m : M A) Q X w a w' : wpb B m Q X w -> m w = (Val a, w') -> Q a w'.
Proof. unfold wpb. intros H E. by rewrite E in H. Qed.

(** What epoll_wait(2) returned. *)
Lemma batch_reported env sockfd epollfd nb max T TM w n evs w' :
  serving env sockfd epollfd nb T TM w -> sys_epoll_wait epollfd max w = (Val (n, evs), w') ->
  serving env sockfd epollfd nb T TM w' /\ NoDup evs.*1 /\ Forall (reported w') evs.
Proof.
  intros Hsv Hw.
  refine (wpb_val anytime _ (fun r w' => serving env sockfd epollfd nb T TM w' /\ NoDup r.2.*1 /\ Forall (reported w') r.2)
            (fun _ _ => True) w _ w' _ Hw).
  eapply (wpb_epoll_wait env); [done|done|done| |].
  - intros w1 _ Hs _. split_and!; [done|constructor|constructor].
  - intros evs' w1 Hs Hnd Hrep _. done.
Qed.

(** The specification of a round from that of a batch. *)
Lemma wait_and_handle_inv {St} env (s : site) sockfd epollfd nb max (handle : St -> Z * Z -> M St)
    (inv : St -> world -> Prop) st w T TM :
  serving env sockfd epollfd nb T TM w -> max < 2147483648 ->
  (forall evs w', serving env sockfd epollfd nb T TM w' -> NoDup evs.*1 -> Forall (reported w') evs ->
     wpb anytime (for_events handle evs st) inv (fun _ _ => True) w') ->
  wpb anytime (wait_and_handle s epollfd max handle st) inv (fun _ _ => True) w.
Proof.
  intros Hsv Hmax Hb. unfold wait_and_handle. wpb_step.
  eapply (wpb_epoll_wait env); [done|done|done| |].
  - intros w' _ _ _. by apply wpb_bind, wpb_check_not_m1.
  - intros evs w' Hsv' Hnd Hrep Hlen.
    apply wpb_bind, wpb_check_not_m1; [done|]. intros _. by apply Hb.
Qed.

(** The obligation of a server: from its invariant, any batch epoll_wait(2) can
    report is handled. *)
Definition handles_batches {St} (B : world -> Prop) (handle : St -> Z * Z -> M St) (epollfd : St -> Z) (inv : St -> world -> Prop)
    (excuse : world -> Prop) : Prop :=
  forall st w, inv st w -> exists env sockfd nb T TM, serving env sockfd (epollfd st) nb T TM w /\
    forall evs w', serving env sockfd (epollfd st) nb T TM w' -> NoDup evs.*1 -> Forall (reported w') evs ->
      wpb B (for_events handle evs st) inv (fun c w'' => bad_status c /\ excuse w'') w'.

Lemma serves_loop {St} (B : world -> Prop) (s : site) (start : M (Z + St)) round handle (epollfd maxevents : St -> Z) inv excuse w0 st w :
  handles_batches B handle epollfd inv excuse ->
  (forall st, round st = wait_and_handle s (epollfd st) (maxevents st) handle st) ->
  (forall st, maxevents st < 2147483648) ->
  wpb never start (fun r w' => forall st, r = inr st -> inv st w') (fun _ _ => True) w0 ->
  loop_state start round w0 st w ->
  serves B handle (epollfd st) (maxevents st) inv excuse st w.
Proof.
  intros Hb Hround Hmax Hstart Hl.
  assert (inv st w) as Hinv.
  { eapply (loop_state_inv round); [|by eapply wpb_mono_B; [|done]|done].
    intros st1 w1 Hi. rewrite Hround. destruct (Hb st1 w1 Hi) as (env & so & nb & T & TM & Hsv & Hev).
    eapply wait_and_handle_inv; [done|done|]. intros evs w2 Hsv2 Hnd Hrep.
    eapply wpb_mono_B; [|eapply wpb_mono; [by apply Hev|done|done]]. done. }
  split; [done|]. intros n evs w' Hw.
  destruct (Hb st w Hinv) as (env & so & nb & T & TM & Hsv & Hev).
  destruct (batch_reported _ _ _ _ _ _ _ _ _ _ _ Hsv Hw) as (Hsv' & Hnd & Hrep). by apply Hev.
Qed.

(** * epoll_echo_server/solution_write.cc *)

Definition held (m : gmap Z CircularPipe) : gmap Z (list byte * option Z) :=
  (fun p => (content p, Some (interest p))) <$> m.

Definition rings_ok (bufsize : Z) (m : gmap Z CircularPipe) : Prop :=
  map_Forall (fun _ p => wf p /\ cp_size p = bufsize) m.

(** The kernel has a connection for each ring and nothing else, it watches each
    for exactly the events its ring can take, and of every client's bytes those
    echoed, those in the ring and those not yet read make up the whole. *)
Definition write_inv (env : nat -> answer) (sv : EchoWrite.server) (w : world) : Prop :=
  0 < EchoWrite.bufsize sv < 18446744073709551616 /\
  rings_ok (EchoWrite.bufsize sv) (EchoWrite.fdbuffermap sv) /\
  serving env (EchoWrite.sockfd sv) (EchoWrite.epollfd sv) true (held (EchoWrite.fdbuffermap sv)) ∅ w.

(** An event the kernel had reason to report, and that reason still holds. *)
Definition write_event (sv : EchoWrite.server) (w : world) (ev : Z * Z) : Prop :=
  (ev.1 = EchoWrite.sockfd sv /\ n_queue (w_net w) <> []) \/
  exists p c, EchoWrite.fdbuffermap sv !! ev.1 = Some p /\ conn_of w ev.1 = Some c /\
    (has ev.2 EPOLLIN = true -> ~ starved c) /\
    (has ev.2 EPOLLOUT = true -> haveData p = true /\ 0 < c_room c).

(** What handling an event of [fd] leaves alone. *)
Definition write_keeps (fd : Z) (sv sv' : EchoWrite.server) (w w' : world) : Prop :=
  EchoWrite.sockfd sv' = EchoWrite.sockfd sv /\
  (fd <> EchoWrite.sockfd sv -> same_queue w w') /\
  forall fd', fd' <> fd -> is_Some (EchoWrite.fdbuffermap sv !! fd') ->
    EchoWrite.fdbuffermap sv' !! fd' = EchoWrite.fdbuffermap sv !! fd' /\ conn_of w' fd' = conn_of w fd'.

Lemma write_keeps_event fd sv sv' w w' ev :
  write_keeps fd sv sv' w w' -> ev.1 <> fd -> write_event sv w ev -> write_event sv' w' ev.
Proof.
  intros (Hs & Hq & Hk) Hne [[Hl Hqe]|(p & c & Hp & Hc & H)].
  - left. split; [congruence|]. rewrite Hq; [done|]. congruence.
  - right. exists p, c. destruct (Hk _ Hne) as [-> ->]; eauto.
Qed.

Lemma write_keeps_trans fd sv1 sv2 sv3 w1 w2 w3 :
  write_keeps fd sv1 sv2 w1 w2 -> write_keeps fd sv2 sv3 w2 w3 -> write_keeps fd sv1 sv3 w1 w3.
Proof.
  unfold write_keeps, same_queue. intros (Hs & Hq & Hk) (Hs' & Hq' & Hk').
  split_and!; [congruence|intros; rewrite Hq', Hq; congruence|].
  intros fd' Hne Hsome. destruct (Hk fd' Hne Hsome) as [E1 E2].
  destruct (Hk' fd' Hne) as [E3 E4]; [by rewrite E1|]. split; congruence.
Qed.

Lemma write_keeps_refl fd sv w : write_keeps fd sv sv w w.
Proof. done. Qed.

Section echo_write.
Import EchoWrite.
Context (env : nat -> answer) (X : Z -> world -> Prop).
Context (HX : forall c w', bad_status c -> pressed env w' -> X c w').

Lemma held_lookup m fd p : m !! fd = Some p -> held m !! fd = Some (content p, Some (interest p)).
Proof. intros H. unfold held. by rewrite lookup_fmap, H. Qed.

Lemma held_insert m fd p :
  held (<[fd := p]> m) = <[fd := (content p, Some (interest p))]> (held m).
Proof. unfold held. by rewrite fmap_insert. Qed.

Lemma held_none m fd : held m !! fd = None -> m !! fd = None.
Proof. unfold held. rewrite lookup_fmap. by destruct (m !! fd). Qed.

Lemma rings_insert bufsize m fd p :
  rings_ok bufsize m -> wf p -> cp_size p = bufsize -> rings_ok bufsize (<[fd := p]> m).
Proof. intros H ? ?. by apply map_Forall_insert_2. Qed.

Lemma wp_connect sv w :
  write_inv env sv w -> n_queue (w_net w) <> [] ->
  wpb never (on_connect sv (sockfd sv))
    (fun sv' w' => write_inv env sv' w' /\ write_keeps (sockfd sv) sv sv' w w' /\
       fdbuffermap sv' !! sockfd sv = None) X w.
Proof using HX.
  intros (Hb & Hr & Hsv) Hq. unfold on_connect. rewrite Z.eqb_refl. wpb_step.
  apply (wpb_accept env (sockfd sv) (epollfd sv) true never X HX _ _ (held (fdbuffermap sv)) ∅); [done|done|].
  intros fd w1 Hsv1 HT HTM Hne Hot Hqt. wpb_step.
  eapply (wpb_ctor env); [done|done|done|]. intros p w2 Hwf Hps Hpc Hsv2 Hu2. wpb_step.
  eapply (wpb_register env (sockfd sv) (epollfd sv) true never X HX); [done| |done|done|].
  { rewrite lookup_insert_eq, Hpc. done. }
  intros w3 Hsv3 Hu3. wpb_step. rewrite insert_insert_eq, <- held_insert in Hsv3.
  split; [split; [done|split; [by apply rings_insert|done]]|split; [split; [done|split; [done|]]|]].
  - intros fd' Hne' Hsome. assert (fd' <> fd) by (intros ->; apply held_none in HT; destruct Hsome; congruence).
    cbn. rewrite lookup_insert_ne by done. split; [done|].
    rewrite (proj2 Hu3), (proj2 Hu2). by apply Hot.
  - cbn. apply held_none.
    destruct (held (<[fd:=p]> (fdbuffermap sv)) !! sockfd sv) as [x|] eqn:E; [|done].
    destruct (srv_conn_fd _ _ _ _ _ _ _ _ _ (sockfd sv) (proj2 Hsv3)) as (? & _); [by eauto|done].
Qed.

Lemma wp_read sv w fd events p c :
  write_inv env sv w -> fdbuffermap sv !! fd = Some p -> conn_of w fd = Some c ->
  (has events EPOLLIN = true -> ~ starved c) ->
  wpb never (on_read sv fd events)
    (fun sv' w' => write_inv env sv' w' /\ write_keeps fd sv sv' w w' /\
       exists p' c', fdbuffermap sv' !! fd = Some p' /\ conn_of w' fd = Some c' /\ c_room c' = c_room c /\
         (haveData p = true -> haveData p' = true)) X w.
Proof using HX.
  intros (Hb & Hr & Hsv) Hp Hc Hst. destruct (Hr _ _ Hp) as [Hwf Hps].
  unfold on_read. rewrite bool_decide_true by eauto. cbn [andb].
  destruct (has events EPOLLIN) eqn:Ein; [|wpb_step; split; [done|split; [done|by exists p, c]]].
  unfold map_get. rewrite Hp. do 3 wpb_step.
  eapply (wpb_push env (sockfd sv) (epollfd sv) true never X HX); [done|done|by apply held_lookup|done| |done|].
  { intros _ _ Hstv. by destruct (Hst eq_refl). }
  intros p' b c' w1 Hwf' Hps' Hsv1 Hot Hsq Hc' Hroom Hd. wpb_step.
  eapply (wpb_register env (sockfd sv) (epollfd sv) true never X HX); [done|by rewrite lookup_insert_eq|done|done|].
  intros w2 Hsv2 Hu2. wpb_step. rewrite insert_insert_eq, <- held_insert in Hsv2.
  split; [split; [done|split; [apply rings_insert; [done|done|cbn; congruence]|done]]|].
  split; [split; [done|split]|].
  - intros _. unfold same_queue. by rewrite (proj1 Hu2).
  - intros fd' Hne _. cbn. rewrite lookup_insert_ne by done. split; [done|].
    rewrite (proj2 Hu2). by apply Hot.
  - exists p', c'. cbn. rewrite lookup_insert_eq, (proj2 Hu2). done.
Qed.

Lemma wp_write sv w fd events p c :
  write_inv env sv w -> fdbuffermap sv !! fd = Some p -> conn_of w fd = Some c ->
  (has events EPOLLOUT = true -> 0 < c_room c) ->
  wpb never (on_write sv fd events)
    (fun sv' w' => write_inv env sv' w' /\ write_keeps fd sv sv' w w' /\
       exists p', fdbuffermap sv' !! fd = Some p') X w.
Proof using HX.
  intros (Hb & Hr & Hsv) Hp Hc Hst. destruct (Hr _ _ Hp) as [Hwf Hps].
  unfold on_write. rewrite bool_decide_true by eauto. cbn [andb].
  destruct (has events EPOLLOUT) eqn:Ein; [|wpb_step; split; [done|split; [done|by exists p]]].
  unfold map_get. rewrite Hp. do 3 wpb_step.
  eapply (wpb_pull env (sockfd sv) (epollfd sv) true never X HX); [done|done|by apply held_lookup|done| |done|].
  { intros _ _ Hstv. specialize (Hst eq_refl). lia. }
  intros p' c' w1 Hwf' Hps' Hsv1 Hot Hsq Hc'. wpb_step.
  eapply (wpb_register env (sockfd sv) (epollfd sv) true never X HX); [done|by rewrite lookup_insert_eq|done|done|].
  intros w2 Hsv2 Hu2. wpb_step. rewrite insert_insert_eq, <- held_insert in Hsv2.
  split; [split; [done|split; [apply rings_insert; [done|done|cbn; congruence]|done]]|].
  split; [split; [done|split]|].
  - intros _. unfold same_queue. by rewrite (proj1 Hu2).
  - intros fd' Hne _. cbn. rewrite lookup_insert_ne by done. split; [done|].
    rewrite (proj2 Hu2). by apply Hot.
  - exists p'. cbn. by rewrite lookup_insert_eq.
Qed.

Lemma wp_hangup sv w fd events p :
  write_inv env sv w -> fdbuffermap sv !! fd = Some p ->
  wpb never (on_hangup sv fd events)
    (fun sv' w' => write_inv env sv' w' /\ write_keeps fd sv sv' w w') X w.
Proof using HX.
  intros (Hb & Hr & Hsv) Hp. unfold on_hangup. rewrite bool_decide_true by eauto. cbn [andb].
  destruct (has events EPOLLRDHUP) eqn:Ein; [|by wpb_step].
  unfold map_get. rewrite Hp. do 3 wpb_step.
  eapply (wpb_ctl_conn env (sockfd sv) (epollfd sv) true never X HX); [done|by apply held_lookup|done|].
  intros w1 Hsv1 Hu1. wpb_step.
  eapply (wpb_close_conn env (sockfd sv) (epollfd sv) true never X HX); [done|by rewrite lookup_insert_eq|].
  intros w2 Hsv2 Hot Hsq. wpb_step.
  rewrite delete_insert_eq in Hsv2. unfold held in Hsv2. rewrite <- fmap_delete in Hsv2.
  split; [split; [done|split; [by apply map_Forall_delete|done]]|split; [done|split]].
  - intros _. unfold same_queue. by rewrite Hsq, (proj1 Hu1).
  - intros fd' Hne _. cbn. rewrite lookup_delete_ne by done. split; [done|].
    rewrite Hot by done. apply Hu1.
Qed.

Lemma not_a_client sv fd events :
  fdbuffermap sv !! fd = None ->
  on_read sv fd events = pret sv /\ on_write sv fd events = pret sv /\ on_hangup sv fd events = pret sv.
Proof. intros H. unfold on_read, on_write, on_hangup. by rewrite H. Qed.

(** Handling one event. *)
Lemma wp_handle_write sv w ev :
  write_inv env sv w -> write_event sv w ev ->
  wpb never (handle sv ev)
    (fun sv' w' => write_inv env sv' w' /\ write_keeps ev.1 sv sv' w w') X w.
Proof using HX.
  destruct ev as [fd m]. intros Hinv Hev. unfold write_event in Hev. cbn [fst snd] in *. unfold handle. wpb_step.
  destruct Hev as [[-> Hq]|(p & c & Hp & Hc & Hin & Hout)].
  - eapply wpb_mono; [by apply wp_connect| |done]. intros sv1 w1 (Hinv1 & Hk1 & Hnone).
    destruct (not_a_client sv1 (sockfd sv) m Hnone) as (E1 & E2 & E3).
    rewrite E1. do 2 wpb_step. rewrite E2. do 2 wpb_step. rewrite E3. by wpb_step.
  - assert (fd <> sockfd sv) as Hne.
    { apply (srv_conn_fd _ _ _ _ _ _ _ _ _ fd (proj2 (proj2 (proj2 Hinv)))).
      rewrite (held_lookup _ _ _ Hp). by eauto. }
    unfold on_connect. rewrite (proj2 (Z.eqb_neq _ _) Hne). do 2 wpb_step.
    eapply wpb_mono; [by eapply wp_read| |done].
    intros sv1 w1 (Hinv1 & Hk1 & p1 & c1 & Hp1 & Hc1 & Hroom & _). wpb_step.
    eapply wpb_mono; [eapply wp_write; [done|done|done|]; intros; rewrite Hroom; by apply Hout| |done].
    intros sv2 w2 (Hinv2 & Hk2 & p2 & Hp2).
    eapply wpb_mono; [by eapply wp_hangup| |done]. intros sv3 w3 (Hinv3 & Hk3). split; [done|].
    eauto using write_keeps_trans.
Qed.

(** Handling a batch: each event is handled in a state it fits. *)
Lemma wp_batch_write evs sv w :
  write_inv env sv w -> NoDup evs.*1 -> Forall (write_event sv w) evs ->
  wpb never (for_events handle evs sv) (write_inv env) X w.
Proof using HX.
  revert sv w. induction evs as [|ev evs IH]; intros sv w Hinv Hnd Hev; cbn [for_events]; [by wpb_step|].
  apply NoDup_cons in Hnd as [Hni Hnd]. apply Forall_cons in Hev as [Hev Hevs].
  wpb_step. eapply wpb_mono; [by apply wp_handle_write| |done]. intros sv' w' [Hinv' Hk].
  apply IH; [done|done|]. apply Forall_forall. intros ev' Hev'.
  eapply write_keeps_event; [done| |by eapply Forall_forall in Hevs].
  intros E. apply Hni. rewrite <- E. by apply list_elem_of_fmap_2.
Qed.
End echo_write.

Lemma haveData_interest p : has (interest p) EPOLLOUT = haveData p.
Proof. unfold interest. rewrite has_out. by destruct (haveData p), (haveRoom p). Qed.

(** What the kernel reports fits the books. *)
Lemma write_reported env sv w ev : write_inv env sv w -> reported w ev -> write_event sv w ev.
Proof.
  intros (_ & _ & _ & Hs) (reg & ex & Hreg & Hm & Hnz).
  destruct (sv_reg _ _ _ _ _ _ _ _ _ Hs ev.1 ltac:(eauto)) as [Hl|[[[d m] HT]|[x Hx]]]; [| |done].
  - left. split; [done|]. intros Hq. destruct (sv_listen _ _ _ _ _ _ _ _ _ Hs) as [port Hp].
    unfold ready in Hm. rewrite Hl, Hp, Hq, bool_decide_true, Z.land_0_r in Hm by done. done.
  - right. unfold held in HT. rewrite lookup_fmap in HT.
    destruct (EchoWrite.fdbuffermap sv !! ev.1) as [p|] eqn:Hp; [|done]. cbn in HT. simplify_eq.
    destruct (sv_conn _ _ _ _ _ _ _ _ _ Hs _ _ _ (held_lookup _ _ _ Hp)) as (Hr & id & c & Hd & Hc & _).
    assert (reg = interest p) as -> by congruence.
    destruct (ready_conn w ev.1 id true c Hd Hc ex) as [Hin Hout].
    exists p, c. unfold conn_of. rewrite Hd, Hc. split_and!; [done|done| |];
      rewrite Hm, has_land by eauto; intros [Hi Hr']%andb_true_iff; [by apply Hin|].
    rewrite <- haveData_interest. auto.
Qed.

Lemma echo_write_batches env :
  handles_batches never EchoWrite.handle EchoWrite.epollfd (write_inv env) (pressed env).
Proof.
  intros sv w (Hb & Hr & Hsv). exists env, (EchoWrite.sockfd sv), true, (held (EchoWrite.fdbuffermap sv)), ∅.
  split; [done|]. intros evs w' Hsv' Hnd Hrep. assert (write_inv env sv w') by done.
  apply (wp_batch_write env); [by auto|done|done|].
  eapply Forall_impl; [done|]. intros ev. by apply (write_reported env).
Qed.

(** * Starting a server *)

(** The state before the program runs: no connection, no epoll instance, the
    clients to come have not been served. *)
Record booted (w : world) : Prop := {
  bt_conns : n_conns (w_net w) = [];
  bt_epoll : n_epoll (w_net w) = ∅;
  bt_queue : Forall untouched (n_queue (w_net w));
  bt_next : 0 <= w_next w <= OPEN_MAX;
  bt_fds fd d : w_fds w !! fd = Some d ->
    fd < w_next w /\ match d with DConn _ _ | DTimer _ | DListen _ | DEpoll => False | _ => True end;
}.

(** The descriptors the server adds to those it started with. *)
Record opening (env : nat -> answer) (bound : Z) (sock : option (Z * desc)) (ep : option Z) (w : world) : Prop := {
  op_env : w_env w = env;
  op_sock fd d : sock = Some (fd, d) -> w_fds w !! fd = Some d;
  op_ep fd : ep = Some fd -> w_fds w !! fd = Some DEpoll;
  op_plain fd d : w_fds w !! fd = Some d ->
    fd < w_next w /\ (match d with DConn _ _ | DTimer _ => False | _ => True end);
  op_conns : n_conns (w_net w) = [];
  op_epoll : n_epoll (w_net w) = ∅;
  op_queue : Forall untouched (n_queue (w_net w));
  op_next : 0 <= w_next w <= bound;
}.

Section start.
Context (env : nat -> answer).
Abbreviation anyX := (fun (_ : Z) (_ : world) => True).

Lemma wpb_not_m1_any s txt (k : answer -> M Z) (Q : Z -> world -> Prop) w :
  w_env w = env ->
  (forall a, wpb never (k a) (fun r w' => r = -1 \/ (0 <= r < 2147483648 /\ Q r w')) anyX (tick w)) ->
  wpb never (not_m1 s txt (syscall (-1) k)) Q anyX w.
Proof.
  intros He Hk. unfold not_m1. apply wpb_bind.
  eapply (wpb_mono _ _ (fun r w' => r = -1 \/ (0 <= r < 2147483648 /\ Q r w'))); [|intros r w'|done].
  - apply (wpb_syscall env); [done|intros; by left|done].
  - intros [->|[Hr HQ]]; apply wpb_check_not_m1; rewrite ?s32_small by lia; [done|done|lia|done].
Qed.

Lemma wpb_socket s txt (Q : Z -> world -> Prop) w :
  opening env OPEN_MAX None None w ->
  (forall fd w', opening env OPEN_MAX (Some (fd, DSocket 0)) None w' -> Q fd w') ->
  wpb never (not_m1 s txt sys_socket) Q anyX w.
Proof.
  intros [] HQ. apply wpb_not_m1_any; [done|]. intros a. apply wpb_net_fd_max; [by left|].
  cbn. intros Hr Hnone. right. split; [unfold OPEN_MAX in *; lia|]. apply HQ. constructor; cbn; try done.
  - intros fd d [= <- <-]. by rewrite lookup_insert_eq.
  - intros fd d [[<- <-]|[_ Hd]]%lookup_insert_Some; [split; [lia|done]|].
    destruct (op_plain0 _ _ Hd). split; [lia|done].
  - lia.
Qed.

(** Calls that replace the descriptor of the socket. *)
Lemma wpb_on_sock b s txt fd d d' (k : desc -> option (desc * Z)) (Q : Z -> world -> Prop) w :
  opening env b (Some (fd, d)) None w -> k d = Some (d', 0) ->
  match d' with DConn _ _ | DTimer _ => False | _ => True end ->
  (forall w', opening env b (Some (fd, d')) None w' -> Q 0 w') ->
  wpb never (not_m1 s txt (on_fd fd k)) Q anyX w.
Proof.
  intros [] Hk Hd' HQ. pose proof (op_sock0 _ _ eq_refl) as Hd.
  apply wpb_not_m1_any; [done|]. intros a. do 2 wpb_step. cbn. rewrite Hd, Hk.
  repeat wpb_step. right. split; [lia|]. apply HQ. constructor; cbn; try done.
  - intros fd' d'' [= <- <-]. by rewrite lookup_insert_eq.
  - intros fd' d'' [[<- <-]|[_ ?]]%lookup_insert_Some; [|by apply op_plain0].
    split; [|done]. by destruct (op_plain0 _ _ Hd).
Qed.

(** Opening a file for reading: a new descriptor past all others. *)
Lemma wpb_open_proc s txt path b so (Q : Z -> world -> Prop) w :
  opening env b so None w -> b < 2147483647 ->
  (forall w', w_fds w !! w_next w = None -> w_env w' = env ->
     w_fds w' = <[w_next w := DFile path 0 true false]> (w_fds w) ->
     w_net w' = w_net w -> w_next w' = w_next w + 1 -> is_Some (w_files w' !! path) -> Q (w_next w) w') ->
  wpb never (not_m1 s txt (sys_open path (mkOflags O_RDONLY false false))) Q anyX w.
Proof.
  intros [] Hb HQ. assert (w_fds w !! w_next w = None) as Hfree.
  { destruct (w_fds w !! w_next w) eqn:E; [|done]. destruct (op_plain0 _ _ E). lia. }
  apply wpb_not_m1_any; [done|]. intros a. do 2 wpb_step. cbn.
  destruct (w_files w !! path) eqn:Ef; [|repeat wpb_step; by left].
  unfold new_fd. repeat wpb_step. right. cbn. split; [lia|]. apply HQ; try done.
Qed.

Lemma wpb_get_backlog b so (Q : Z -> world -> Prop) w :
  opening env b so None w -> b < 2147483647 ->
  (forall r w', opening env (b + 1) so None w' -> Q r w') ->
  wpb never get_backlog Q anyX w.
Proof.
  intros Hop Hb HQ. unfold get_backlog, local_array. do 2 wpb_step.
  unfold next_answer, wpb at 1. wpb_step. set (buf := replicate 256 _). set (w1 := tick w).
  assert (length buf = 256%nat) as Hbuf by apply length_replicate.
  assert (opening env b so None w1) as Hop1 by (by destruct Hop). clearbody w1 buf. clear Hop.
  wpb_step. eapply wpb_open_proc; [done|done|]. intros w2 Hfree He Hf Hn Hx [content Hfile].
  destruct Hop1. wpb_step. apply wpb_of_wp.
  eapply (wp_read_file _ _ _ _ _ 0 false); [split; [rewrite Hf; apply lookup_insert_eq|exact Hfile]|lia|lia|lia|lia| |].
  { intros e. apply wp_of_wpb, wpb_bind. by apply wpb_check_not_m1. }
  intros n Hn' Hmax _. apply wp_of_wpb, wpb_bind. apply wpb_check_not_m1; [done|]. intros _.
  wpb_step. apply (wpb_close env never anyX); [done|done|cbn; by rewrite lookup_insert_eq|].
  wpb_step. apply HQ. constructor; cbn; rewrite ?Hf, ?Hn, ?insert_insert_eq, ?delete_insert_id by done; try done.
  - intros. destruct (op_plain0 _ _ ltac:(eassumption)). split; [lia|done].
  - by rewrite op_epoll0, delete_empty.
  - lia.
Qed.

Lemma wpb_open_listener at_ l1 l2 l3 l4 port (Q : Z -> world -> Prop) w :
  opening env OPEN_MAX None None w ->
  (forall fd p w', opening env (OPEN_MAX + 1) (Some (fd, DListen p)) None w' -> Q fd w') ->
  wpb never (open_listener at_ l1 l2 l3 l4 port) Q anyX w.
Proof.
  intros Hop HQ. unfold open_listener. wpb_step. apply wpb_socket; [done|]. intros fd w1 H1.
  wpb_step. eapply wpb_on_sock; [done|done|done|]. intros w2 H2.
  wpb_step. eapply wpb_on_sock; [done|done|done|]. intros w3 H3.
  wpb_step. eapply wpb_get_backlog; [done|by vm_compute|]. intros r w4 H4.
  wpb_step. eapply wpb_on_sock; [done|done|done|]. intros w5 H5. wpb_step. by eapply HQ.
Qed.

Lemma wpb_open_epoll at_ l1 l2 b sockfd p nb (Q : Z -> world -> Prop) w :
  opening env b (Some (sockfd, DListen p)) None w ->
  (forall ep w', serving env sockfd ep nb ∅ ∅ w' -> Q ep w') ->
  wpb never (open_epoll at_ l1 l2 sockfd) Q anyX w.
Proof.
  intros [] HQ. unfold open_epoll. pose proof (op_sock0 _ _ eq_refl) as Hsock.
  wpb_step. apply wpb_not_m1_any; [done|]. intros a. apply wpb_net_fd_max; [by left|].
  cbn. intros Hr Hnone. right. split; [unfold OPEN_MAX in *; lia|].
  set (ep := lowest (w_fds w)) in *. assert (ep <> sockfd) by congruence.
  wpb_step. apply (wpb_ctl env ep); [done|done|cbn; by rewrite lookup_insert_eq| | |].
  { cbn. rewrite lookup_insert_ne by done. by eauto. }
  { cbn. by rewrite op_epoll0. }
  wpb_step. apply HQ. split; [done|]. cbn. rewrite op_conns0, op_epoll0.
  constructor; try done.
  - exists p. by rewrite lookup_insert_ne.
  - by rewrite lookup_insert_eq.
  - by rewrite lookup_insert_eq.
  - intros ? ? ? ? ? [[<- ?]|[_ Hd]]%lookup_insert_Some; [done|]. by destruct (op_plain0 _ _ Hd).
  - intros ? ? ? [[<- ?]|[_ Hd]]%lookup_insert_Some; [done|]. by destruct (op_plain0 _ _ Hd).
  - intros ? ? [[<- ?]|[_ Hd]]%lookup_insert_Some; [done|]. by destruct (op_plain0 _ _ Hd).
  - intros fd [? [[<- _]|[_ ?]]%lookup_insert_Some]; [by left|done].
Qed.

Lemma booted_opening w : booted w -> w_env w = env -> opening env OPEN_MAX None None w.
Proof.
  intros [] He. constructor; try done. intros fd d Hd. destruct (bt_fds0 _ _ Hd) as [? Hk].
  split; [done|]. by destruct d.
Qed.
End start.

Lemma echo_write_start argv w0 :
  booted w0 -> 0 < u32 (atoi (arg argv 3)) ->
  wpb never (EchoWrite.start argv)
    (fun r w => forall sv, r = inr sv -> write_inv (w_env w0) sv w) (fun _ _ => True) w0.
Proof.
  intros Hb Hsize. unfold EchoWrite.start, eprintf. wpb_step; [by repeat wpb_step|].
  wpb_step. eapply wpb_open_listener; [by apply booted_opening|]. intros fd p w1 H1.
  wpb_step. eapply (wpb_open_epoll _ _ _ _ _ _ _ true); [done|]. intros ep w2 H2.
  wpb_step. unfold new_array. wpb_step. unfold next_answer, wpb at 1. repeat wpb_step.
  intros sv [= <-]. split; [|split; [apply map_Forall_empty|done]].
  cbn. pose proof (wrapu_range 32 (atoi (arg argv 3))). lia.
Qed.

(** C28: the echo server that handles short writes, started with a positive buffer size.
    In every state of its service loop, with any clients and any answers of the kernel,
    the rings, descriptors and epoll registrations agree; on every connection that is
    open the bytes sent back, those in the ring and those not yet read make up what the
    client sent, in order, and what a client whose connection was closed got is a prefix
    of it (the bytes in its ring are dropped).  Every batch of events, whatever its size
    and order, is handled without blocking, back to such a state, or the server exits
    with a non-zero status because the kernel refused a call or is out of descriptors. *)
Theorem echo_write_serves (argv : list string) (w0 : world) (sv : EchoWrite.server) (w : world) :
  booted w0 -> 0 < u32 (atoi (arg argv 3)) ->
  loop_state (EchoWrite.start argv) EchoWrite.round w0 sv w ->
  serves never EchoWrite.handle (EchoWrite.epollfd sv) (s32 (EchoWrite.maxevents sv))
    (write_inv (w_env w0)) (pressed (w_env w0)) sv w.
Proof.
  intros Hb Hsize Hl. refine (serves_loop never (EchoWrite.at_ 104) _ EchoWrite.round _ _
    (fun sv => s32 (EchoWrite.maxevents sv)) _ _ w0 sv w (echo_write_batches _) _ _ _ Hl); [done| |].
  - intros st. pose proof (wraps_range 32 (EchoWrite.maxevents st)). lia.
  - by apply echo_write_start.
Qed.

(** * epoll_echo_server/solution.cc *)

Definition echo_mask : Z := Z.lor EPOLLIN EPOLLRDHUP.

(** The server holds nothing between two events. *)
Definition echo_inv (env : nat -> answer) (sv : Echo.server) (w : world) : Prop :=
  exists T, serving env (Echo.sockfd sv) (Echo.epollfd sv) true T ∅ w /\
    map_Forall (fun _ v => v = ([], Some echo_mask)) T.

Definition echo_event (sv : Echo.server) (w : world) (ev : Z * Z) : Prop :=
  (ev.1 = Echo.sockfd sv /\ n_queue (w_net w) <> []) \/
  exists c, conn_of w ev.1 = Some c /\ (has ev.2 EPOLLIN = true -> ~ starved c).

(** A client some of whose bytes were read and not sent back. *)
Definition unechoed (w : world) : Prop := exists fd c, conn_of w fd = Some c /\ ~ carries [] c.

Definition echo_keeps (sv : Echo.server) (fd : Z) (w w' : world) : Prop :=
  (fd <> Echo.sockfd sv -> same_queue w w') /\
  forall fd', fd' <> fd -> is_Some (conn_of w fd') -> conn_of w' fd' = conn_of w fd'.

Lemma echo_keeps_event sv fd w w' ev :
  echo_keeps sv fd w w' -> ev.1 <> fd -> echo_event sv w ev -> echo_event sv w' ev.
Proof.
  intros [Hq Hk] Hne [[Hl Hqe]|(c & Hc & H)].
  - left. split; [done|]. rewrite Hq; [done|]. congruence.
  - right. exists c. rewrite Hk; eauto.
Qed.

Section echo_once.
Context (env : nat -> answer) (sockfd epollfd : Z) (X : Z -> world -> Prop).
Context (HX : forall c w', bad_status c -> pressed env w' -> X c w').
Context (HXs : forall c w', bad_status c -> unechoed w' -> X c w').
Abbreviation serving := (serving env sockfd epollfd true).

Lemma unechoed_conn w fd c d : conn_of w fd = Some c -> carries d c -> d <> [] -> unechoed w.
Proof.
  intros Hc Hcar Hd. exists fd, c. split; [done|]. unfold carries in *. rewrite <- Hcar. cbn.
  intros H%app_inv_head. apply Hd. rewrite <- (app_nil_l (c_in c ++ _)) in H at 1. by apply app_inv_tail in H.
Qed.

Lemma quiet_unechoed w w' : quiet w w' -> unechoed w -> unechoed w'.
Proof. intros (l & e & ->) (fd & c & Hc & H). by exists fd, c. Qed.

(** Reading and writing back: all of it, or the server exits. *)
Lemma wpb_echo_once s1 s2 fd m c T TM (Q : unit -> world -> Prop) w :
  serving T TM w -> T !! fd = Some ([], m) -> conn_of w fd = Some c ->
  (starved c -> forall c w', bad_status c -> X c w') ->
  (forall w' c', serving T TM w' -> others fd w w' -> same_queue w w' -> conn_of w' fd = Some c' -> Q tt w') ->
  wpb never (echo_once s1 s2 fd) Q X w.
Proof using HX HXs.
  intros Hsv HT Hc Hst HQ. unfold echo_once, local_array. do 2 wpb_step.
  unfold next_answer, wpb at 1. wpb_step. set (buf := replicate 1024 _). set (w1 := tick w).
  assert (length buf = 1024%nat) as Hbuf by apply length_replicate.
  assert (serving T TM w1) as Hsv1 by exact Hsv. assert (conn_of w1 fd = Some c) as Hc1 by exact Hc.
  assert (undisturbed w w1) as Hu1 by done. clearbody buf w1. wpb_step.
  eapply (wpb_read_conn env sockfd epollfd true never X); [done|done|done|lia|lia|lia| |done|].
  { intros w' Hcause. apply wpb_bind, wpb_check_not_m1; [|done]. intros _ e w'' He _.
    destruct Hcause as [Hre|(_ & _ & Hs)]; [apply HX; [done|by left]|by apply Hst]. }
  intros x c2 w2 Hsv2 Hot2 Hsq2 Hc2 Hroom Hx Hmax.
  apply wpb_bind, wpb_check_not_m1; rewrite s32_small by lia; [lia|]. intros _. wpb_step.
  assert (zlen (buf_put 0 x buf) = 1024) as Hbl by (rewrite length_buf_put; lia).
  assert (forall n, 0 <= n <= zlen x -> buf_get 0 n (buf_put 0 x buf) = take (Z.to_nat n) x) as Hget.
  { intros n Hn. unfold buf_get, buf_put. change (Z.to_nat 0) with 0%nat.
    rewrite drop_0, take_0, app_nil_l. apply take_app_le. lia. }
  eapply (wpb_write_conn env sockfd epollfd true never X);
    [done|by rewrite lookup_insert_eq|done|lia|lia|lia|done|done| |done|].
  { intros w' Ef En Hcause. wpb_step. apply wpb_CHECK_INT; rewrite !s32_small by lia; [|lia].
    intros _ e w'' He Hq. destruct Hcause as [Hre|(_ & Hpos & Hr)]; [apply HX; [done|by left]|].
    apply HXs; [done|]. eapply quiet_unechoed; [done|].
    assert (conn_of w' fd = Some c2) by (unfold conn_of in *; by rewrite Ef, En).
    destruct (conn_fd _ _ _ _ _ _ _ _ _ _ _ Hsv2 (lookup_insert_eq _ _ _) Hc2) as (_ & _ & _ & Hcar).
    eapply unechoed_conn; [done|done|]. intros E%(f_equal length). cbn in *. lia. }
  intros n c3 w3 Hn Hmax3 _ Hsv3 Hot3 Hsq3 Hc3. wpb_step.
  apply wpb_CHECK_INT; rewrite !s32_small by lia.
  - intros Hne e w'' He Hq. apply HXs; [done|]. eapply quiet_unechoed; [done|].
    destruct (conn_fd _ _ _ _ _ _ _ _ _ _ _ Hsv3 (lookup_insert_eq _ _ _) Hc3) as (_ & _ & _ & Hcar).
    eapply unechoed_conn; [done|done|]. intros E%(f_equal length). rewrite length_drop in E. cbn in *. lia.
  - intros ->. wpb_step. rewrite insert_insert_eq, drop_ge, insert_id in Hsv3 by (cbn; lia || done).
    eapply HQ; [done| | |done].
    + intros fd' Hne. rewrite Hot3, Hot2 by done. apply Hu1.
    + unfold same_queue in *. rewrite Hsq3, Hsq2. apply Hu1.
Qed.
End echo_once.

Section echo.
Import Echo.
Context (env : nat -> answer) (X : Z -> world -> Prop).
Context (HX : forall c w', bad_status c -> pressed env w' -> X c w').
Context (HXs : forall c w', bad_status c -> unechoed w' -> X c w').

Lemma wp_handle_echo sv w ev :
  echo_inv env sv w -> echo_event sv w ev ->
  wpb never (handle sv ev)
    (fun sv' w' => sv' = sv /\ echo_inv env sv' w' /\ echo_keeps sv ev.1 w w') X w.
Proof using HX HXs.
  destruct ev as [fd m]. intros (T & Hsv & HT) Hev. unfold echo_event in Hev. cbn [fst snd] in *. unfold handle.
  destruct Hev as [[-> Hq]|(c & Hc & Hin)].
  - rewrite Z.eqb_refl. wpb_step.
    apply (wpb_accept env (sockfd sv) (epollfd sv) true never X HX _ _ T ∅); [done|done|].
    intros fd w1 Hsv1 HTn HTM Hne Hot Hqt. wpb_step.
    eapply (wpb_ctl_conn env (sockfd sv) (epollfd sv) true never X HX); [done|by rewrite lookup_insert_eq|done|].
    intros w2 Hsv2 Hu2. wpb_step. rewrite insert_insert_eq in Hsv2.
    split; [done|split; [|split; [done|]]].
    + eexists. split; [done|]. by apply map_Forall_insert_2.
    + intros fd' Hne' [c Hc]. rewrite (proj2 Hu2). apply Hot. intros ->.
      unfold conn_of in Hc. destruct (w_fds w !! fd) as [[]|] eqn:E; try done.
      destruct (sv_open _ _ _ _ _ _ _ _ _ (proj2 Hsv) _ _ _ E). congruence.
  - assert (exists v, T !! fd = Some v) as [v Hv].
    { unfold conn_of in Hc. destruct (w_fds w !! fd) as [[]|] eqn:E; try done.
      by apply (sv_open _ _ _ _ _ _ _ _ _ (proj2 Hsv) _ _ _ E). }
    pose proof (HT _ _ Hv) as E. cbn in E. subst v.
    destruct (srv_conn_fd _ _ _ _ _ _ _ _ _ fd (proj2 Hsv)) as (Hne & _); [by eauto|].
    rewrite (proj2 (Z.eqb_neq _ _) Hne). destruct (has m EPOLLRDHUP); [|destruct (has m EPOLLIN) eqn:Ein].
    + wpb_step. eapply (wpb_ctl_conn env (sockfd sv) (epollfd sv) true never X HX); [done|done|done|].
      intros w1 Hsv1 Hu1. wpb_step.
      eapply (wpb_close_conn env (sockfd sv) (epollfd sv) true never X HX); [done|by rewrite lookup_insert_eq|].
      intros w2 Hsv2 Hot Hsq. wpb_step. rewrite delete_insert_eq in Hsv2.
      split; [done|split; [|split]].
      * eexists. split; [done|]. by apply map_Forall_delete.
      * intros _. unfold same_queue. by rewrite Hsq, (proj1 Hu1).
      * intros fd' Hne' _. rewrite Hot by done. apply Hu1.
    + wpb_step. eapply (wpb_echo_once env (sockfd sv) (epollfd sv) X HX HXs); [done|done|done| |].
      { intros Hs. by destruct (Hin eq_refl). }
      intros w1 c1 Hsv1 Hot Hsq Hc1. wpb_step. split; [done|split; [by exists T|split; [done|]]].
      intros fd' Hne' _. by apply Hot.
    + wpb_step. split; [done|split; [by exists T|done]].
Qed.

Lemma wp_batch_echo evs sv w :
  echo_inv env sv w -> NoDup evs.*1 -> Forall (echo_event sv w) evs ->
  wpb never (for_events handle evs sv) (fun sv' w' => sv' = sv /\ echo_inv env sv' w') X w.
Proof using HX HXs.
  revert w. induction evs as [|ev evs IH]; intros w Hinv Hnd Hev; cbn [for_events]; [by wpb_step|].
  apply NoDup_cons in Hnd as [Hni Hnd]. apply Forall_cons in Hev as [Hev Hevs].
  wpb_step. eapply wpb_mono; [by apply wp_handle_echo| |done]. intros sv' w' (-> & Hinv' & Hk).
  apply IH; [done|done|]. apply Forall_forall. intros ev' Hev'.
  eapply echo_keeps_event; [done| |by eapply Forall_forall in Hevs].
  intros E. apply Hni. rewrite <- E. by apply list_elem_of_fmap_2.
Qed.
End echo.

Lemma echo_reported env sv w ev : echo_inv env sv w -> reported w ev -> echo_event sv w ev.
Proof.
  intros (T & [_ Hs] & HT) (reg & ex & Hreg & Hm & Hnz).
  destruct (sv_reg _ _ _ _ _ _ _ _ _ Hs ev.1 ltac:(eauto)) as [Hl|[[[d m] Hv]|[x Hx]]]; [| |done].
  - left. split; [done|]. intros Hq. destruct (sv_listen _ _ _ _ _ _ _ _ _ Hs) as [port Hp].
    unfold ready in Hm. rewrite Hl, Hp, Hq, bool_decide_true, Z.land_0_r in Hm by done. done.
  - right. destruct (sv_conn _ _ _ _ _ _ _ _ _ Hs _ _ _ Hv) as (Hr & id & c & Hd & Hc & _).
    destruct (ready_conn w ev.1 id true c Hd Hc ex) as [Hin Hout].
    exists c. unfold conn_of. rewrite Hd, Hc. split; [done|].
    rewrite Hm, has_land by eauto. intros [Hi Hr']%andb_true_iff. by apply Hin.
Qed.

Lemma echo_batches env :
  handles_batches never Echo.handle Echo.epollfd (echo_inv env) (fun w' => pressed env w' \/ unechoed w').
Proof.
  intros sv w (T & Hsv & HT). exists env, (Echo.sockfd sv), true, T, ∅.
  split; [done|]. intros evs w' Hsv' Hnd Hrep. assert (echo_inv env sv w') by (by exists T).
  eapply wpb_mono; [apply (wp_batch_echo env (fun c w'' => bad_status c /\ (pressed env w'' \/ unechoed w'')));
    [by auto|by auto|done|done|]|by intros ? ? []|done].
  eapply Forall_impl; [done|]. intros ev. by apply (echo_reported env).
Qed.

Lemma echo_start argv w0 :
  booted w0 ->
  wpb never (Echo.start argv)
    (fun r w => forall sv, r = inr sv -> echo_inv (w_env w0) sv w) (fun _ _ => True) w0.
Proof.
  intros Hb. unfold Echo.start, eprintf. wpb_step; [by repeat wpb_step|].
  wpb_step. eapply wpb_open_listener; [by apply booted_opening|]. intros fd p w1 H1.
  wpb_step. eapply (wpb_open_epoll _ _ _ _ _ _ _ true); [done|]. intros ep w2 H2.
  wpb_step. intros sv [= <-]. exists ∅. split; [done|apply map_Forall_empty].
Qed.

(** The plain echo server.  In every state of its service loop the kernel has
    exactly the connections it registered, and everything read from a client
    has been written back to it; every batch of events is handled without
    blocking, back to such a state, or the server exits with a non-zero status
    because the kernel refused a call, is out of descriptors, or took fewer
    bytes than were read. *)
Theorem echo_serves (argv : list string) (w0 : world) (sv : Echo.server) (w : world) :
  booted w0 -> loop_state (Echo.start argv) Echo.round w0 sv w ->
  serves never Echo.handle (Echo.epollfd sv) 10 (echo_inv (w_env w0))
    (fun w' => pressed (w_env w0) w' \/ unechoed w') sv w.
Proof.
  intros Hb Hl. refine (serves_loop never (Echo.at_ 95) _ Echo.round _ _ (fun _ => 10) _ _ w0 sv w
    (echo_batches _) _ _ _ Hl); [done|done|]. by apply echo_start.
Qed.

(** * The servers with timeouts *)

Definition armed (tm : gmap Z Z) : gmap Z (bool * option Z) := (fun _ => (true, Some EPOLLIN)) <$> tm.

(** The two maps are inverse to each other. *)
Definition paired (fdmap timermap : gmap Z Z) : Prop :=
  forall r t, fdmap !! r = Some t <-> timermap !! t = Some r.

Lemma armed_lookup tm t r : tm !! t = Some r -> armed tm !! t = Some (true, Some EPOLLIN).
Proof. intros H. unfold armed. by rewrite lookup_fmap, H. Qed.

Lemma armed_insert tm t r : armed (<[t := r]> tm) = <[t := (true, Some EPOLLIN)]> (armed tm).
Proof. unfold armed. by rewrite fmap_insert. Qed.

Lemma armed_none tm t : armed tm !! t = None -> tm !! t = None.
Proof. unfold armed. rewrite lookup_fmap. by destruct (tm !! t). Qed.

Lemma armed_again tm t r : tm !! t = Some r -> <[t := (true, Some EPOLLIN)]> (armed tm) = armed tm.
Proof. intros H. by apply insert_id, (armed_lookup _ _ r). Qed.

Lemma paired_insert f tm r t :
  paired f tm -> f !! r = None -> tm !! t = None -> paired (<[r := t]> f) (<[t := r]> tm).
Proof.
  intros H Hr Ht r' t'. rewrite !lookup_insert_Some. split.
  - intros [[<- <-]|[Hne Hf]]; [by left|]. right. split; [|by apply H]. intros ->. apply H in Hf. congruence.
  - intros [[<- <-]|[Hne Hf]]; [by left|]. right. split; [|by apply H]. intros ->. apply H in Hf. congruence.
Qed.

Lemma paired_delete f tm r t : paired f tm -> f !! r = Some t -> paired (delete r f) (delete t tm).
Proof.
  intros H Hr r' t'. rewrite !lookup_delete_Some. split; intros [Hne Hf].
  - split; [|by apply H]. intros ->. apply H in Hf. apply H in Hr. congruence.
  - split; [|by apply H]. intros ->. apply H in Hf. congruence.
Qed.

(** ** solution_full.cc and the web server *)

(** A connection on which a read would wait, or a write of up to [size] bytes. *)
Definition waits (size : Z) (w : world) : Prop :=
  exists fd c, conn_of w fd = Some c /\ (starved c \/ c_room c < size).

Definition buffered_inv (env : nat -> answer) (size : Z) (nb : bool) (sv : Buffered.server) (w : world) : Prop :=
  0 < Buffered.bufsize sv < 18446744073709551616 /\ Buffered.bufsize sv = size /\
  rings_ok (Buffered.bufsize sv) (Buffered.fdbuffermap sv) /\
  paired (Buffered.fdmap sv) (Buffered.timermap sv) /\
  dom (Buffered.fdbuffermap sv) = dom (Buffered.fdmap sv) /\
  serving env (Buffered.sockfd sv) (Buffered.epollfd sv) nb (held (Buffered.fdbuffermap sv))
    (armed (Buffered.timermap sv)) w.

(** An event of the listening socket is not stale. *)
Definition not_stale (sockfd : Z) (w : world) (ev : Z * Z) : Prop :=
  ev.1 = sockfd -> n_queue (w_net w) <> [].

Section buffered.
Import Buffered.
Context (env : nat -> answer) (size : Z) (v : variant) (B : world -> Prop).
Context (HB : forall w, v_nonblock v = false -> waits size w -> B w).
Abbreviation X := (fun (c : Z) (_ : world) => bad_status c /\ True).
Abbreviation nb := (v_nonblock v).
Abbreviation inv := (buffered_inv env size nb).

Lemma HXany : forall c w', bad_status c -> pressed env w' -> X c w'.
Proof. done. Qed.

Lemma rings_lookup sv w fd :
  inv sv w -> is_Some (fdbuffermap sv !! fd) ->
  exists p t c, fdbuffermap sv !! fd = Some p /\ wf p /\ cp_size p = bufsize sv /\
    fdmap sv !! fd = Some t /\ timermap sv !! t = Some fd /\ conn_of w fd = Some c.
Proof.
  intros (Hb & Hz & Hr & Hpair & Hdom & Hsv) [p Hp]. destruct (Hr _ _ Hp) as [Hwf Hs].
  assert (is_Some (fdmap sv !! fd)) as [t Ht] by (apply elem_of_dom; rewrite <- Hdom; apply elem_of_dom; eauto).
  destruct (sv_conn _ _ _ _ _ _ _ _ _ (proj2 Hsv) _ _ _ (held_lookup _ _ _ Hp)) as (_ & id & c & Hd & Hc & _).
  exists p, t, c. split_and!; try done; [by apply Hpair|]. unfold conn_of. by rewrite Hd, Hc.
Qed.

Lemma wp_full_connect sv w fd :
  inv sv w -> (fd = sockfd sv -> n_queue (w_net w) <> []) ->
  wpb B (on_connect v sv fd)
    (fun sv' w' => inv sv' w' /\ sockfd sv' = sockfd sv /\ (fd <> sockfd sv -> same_queue w w')) X w.
Proof using HB.
  intros (Hb & Hz & Hr & Hpair & Hdom & Hsv) Hq. unfold on_connect.
  destruct (Z.eqb_spec fd (sockfd sv)) as [->|Hne]; [|by wpb_step]. wpb_step.
  apply (wpb_accept env (sockfd sv) (epollfd sv) nb B X HXany _ _ (held (fdbuffermap sv)) (armed (timermap sv)));
    [done|by intros; destruct Hq|].
  intros r w1 Hsv1 HTr HTMr Hrs _ _. wpb_step.
  eapply (wpb_ctor env); [by intros ? ? ? _|done|done|]. intros p w2 Hwf Hps Hpc Hsv2 _. wpb_step.
  eapply (wpb_register env (sockfd sv) (epollfd sv) nb B X HXany); [done|by rewrite lookup_insert_eq, Hpc|done|done|].
  intros w3 Hsv3 _. rewrite insert_insert_eq, <- held_insert in Hsv3. wpb_step.
  apply (wpb_timer_create env (sockfd sv) (epollfd sv) nb B X HXany) with (1 := Hsv3).
  intros t w4 Hsv4 HTt HTMt _. wpb_step.
  eapply (wpb_ctl_timer env (sockfd sv) (epollfd sv) nb B X HXany); [done|by rewrite lookup_insert_eq|done|].
  intros w5 Hsv5 _. rewrite insert_insert_eq in Hsv5. wpb_step.
  eapply (wpb_setup_timer env (sockfd sv) (epollfd sv) nb B X HXany); [done|by rewrite lookup_insert_eq|].
  intros w6 Hsv6 _. rewrite insert_insert_eq, <- (armed_insert _ _ r) in Hsv6. wpb_step.
  split; [|done]. split; [done|split; [done|split; [by apply rings_insert|split; [|split; [|done]]]]]; cbn.
  - apply paired_insert; [done| |by apply armed_none]. apply not_elem_of_dom. rewrite <- Hdom.
    by apply not_elem_of_dom, held_none.
  - by rewrite !dom_insert_L, Hdom.
Qed.

(** A handler that leaves socket and queue alone. *)
Abbreviation step_ok sv w := (fun sv' w' => inv sv' w' /\ sockfd sv' = sockfd sv /\ same_queue w w').

Lemma wp_full_read sv w fd events : inv sv w -> wpb B (on_read v sv fd events) (step_ok sv w) X w.
Proof using HB.
  intros Hinv. unfold on_read. case_bool_decide as Hm; [|by wpb_step]. cbn [andb].
  destruct (has events EPOLLIN); [|by wpb_step].
  destruct (rings_lookup sv w fd Hinv Hm) as (p & t & c & Hp & Hwf & Hps & Hf & Ht & Hc).
  destruct Hinv as (Hb & Hz & Hr & Hpair & Hdom & Hsv).
  unfold map_get. rewrite Hf, Hp. do 5 wpb_step.
  eapply (wpb_push env (sockfd sv) (epollfd sv) nb B X HXany); [done|done|by apply held_lookup|done|done| |].
  { intros w' c' Hnb Hcw Hst. apply HB; [done|]. exists fd, c'. by split; [|left]. }
  intros p' b c' w1 Hwf' Hps' Hsv1 _ Hsq _ _ _. wpb_step.
  eapply (wpb_register env (sockfd sv) (epollfd sv) nb B X HXany); [done|by rewrite lookup_insert_eq|done|done|].
  intros w2 Hsv2 Hu2. rewrite insert_insert_eq, <- held_insert in Hsv2. wpb_step.
  eapply (wpb_setup_timer env (sockfd sv) (epollfd sv) nb B X HXany); [done|by eapply armed_lookup|].
  intros w3 Hsv3 Hu3. rewrite (armed_again _ _ fd) in Hsv3 by done. wpb_step.
  split; [|split; [done|unfold same_queue in *; by rewrite (proj1 Hu3), (proj1 Hu2)]].
  split; [done|split; [done|split; [apply rings_insert; [done|done|cbn; congruence]|split; [done|split; [|done]]]]].
  cbn. rewrite dom_insert_lookup_L; [done|by eauto].
Qed.

Lemma wp_full_write sv w fd events : inv sv w -> wpb B (on_write v sv fd events) (step_ok sv w) X w.
Proof using HB.
  intros Hinv. unfold on_write. case_bool_decide as Hm; [|by wpb_step]. cbn [andb].
  destruct (has events EPOLLOUT); [|by wpb_step].
  destruct (rings_lookup sv w fd Hinv Hm) as (p & t & c & Hp & Hwf & Hps & Hf & Ht & Hc).
  destruct Hinv as (Hb & Hz & Hr & Hpair & Hdom & Hsv).
  unfold map_get. rewrite Hp. do 3 wpb_step.
  eapply (wpb_pull env (sockfd sv) (epollfd sv) nb B X HXany); [done|done|by apply held_lookup|done|done| |].
  { intros w' Hnb Hcw Hst. apply HB; [done|]. exists fd, c. split; [done|right; congruence]. }
  intros p' c' w1 Hwf' Hps' Hsv1 _ Hsq _. wpb_step.
  eapply (wpb_register env (sockfd sv) (epollfd sv) nb B X HXany); [done|by rewrite lookup_insert_eq|done|done|].
  intros w2 Hsv2 Hu2. rewrite insert_insert_eq, <- held_insert in Hsv2. wpb_step.
  split; [|split; [done|unfold same_queue in *; by rewrite (proj1 Hu2)]].
  split; [done|split; [done|split; [apply rings_insert; [done|done|cbn; congruence]|split; [done|split; [|done]]]]].
  cbn. rewrite dom_insert_lookup_L; [done|by eauto].
Qed.

Lemma wp_full_disconnect l1 l2 l3 l4 sv w r t :
  inv sv w -> timermap sv !! t = Some r ->
  wpb B (disconnect v l1 l2 l3 l4 sv r t) (step_ok sv w) X w.
Proof.
  intros (Hb & Hz & Hr & Hpair & Hdom & Hsv) Ht. assert (fdmap sv !! r = Some t) as Hf by (by apply Hpair).
  assert (is_Some (fdbuffermap sv !! r)) as [p Hp] by (apply elem_of_dom; rewrite Hdom; apply elem_of_dom; eauto).
  unfold disconnect. wpb_step.
  eapply (wpb_ctl_conn env (sockfd sv) (epollfd sv) nb B X HXany); [done|by apply held_lookup|done|].
  intros w1 Hsv1 Hu1. wpb_step.
  eapply (wpb_ctl_timer env (sockfd sv) (epollfd sv) nb B X HXany); [done|by eapply armed_lookup|done|].
  intros w2 Hsv2 Hu2. wpb_step.
  eapply (wpb_close_conn env (sockfd sv) (epollfd sv) nb B X HXany); [done|by rewrite lookup_insert_eq|].
  intros w3 Hsv3 _ Hsq3. rewrite delete_insert_eq in Hsv3. wpb_step.
  eapply (wpb_close_timer env (sockfd sv) (epollfd sv) nb B X HXany); [done|by rewrite lookup_insert_eq|].
  intros w4 Hsv4 Hu4. rewrite delete_insert_eq in Hsv4. wpb_step.
  unfold map_get. rewrite Hp. do 2 wpb_step.
  unfold held, armed in Hsv4. rewrite <- !fmap_delete in Hsv4.
  split; [|split; [done|unfold same_queue in *; by rewrite (proj1 Hu4), Hsq3, (proj1 Hu2), (proj1 Hu1)]].
  split; [done|split; [done|split; [by apply map_Forall_delete|split; [by apply paired_delete|split; [|done]]]]].
  cbn. by rewrite !dom_delete_L, Hdom.
Qed.

Lemma wp_full_hangup sv w fd events : inv sv w -> wpb B (on_hangup v sv fd events) (step_ok sv w) X w.
Proof.
  intros Hinv. unfold on_hangup. case_bool_decide as Hm; [|by wpb_step]. cbn [andb].
  destruct (has events EPOLLRDHUP); [|by wpb_step].
  destruct (rings_lookup sv w fd Hinv Hm) as (p & t & c & Hp & Hwf & Hps & Hf & Ht & Hc).
  unfold map_get. rewrite Hf. do 2 wpb_step. by apply wp_full_disconnect.
Qed.

Lemma wp_full_timeout sv w fd : inv sv w -> wpb B (on_timeout v sv fd) (step_ok sv w) X w.
Proof.
  intros Hinv. unfold on_timeout. case_bool_decide as Hm; [|by wpb_step]. destruct Hm as [r Hr].
  unfold map_get. rewrite Hr. do 2 wpb_step. by apply wp_full_disconnect.
Qed.

Lemma wp_handle_full sv w ev :
  inv sv w -> not_stale (sockfd sv) w ev ->
  wpb B (handle v sv ev)
    (fun sv' w' => inv sv' w' /\ sockfd sv' = sockfd sv /\ (ev.1 <> sockfd sv -> same_queue w w')) X w.
Proof using HB.
  destruct ev as [fd m]. intros Hinv Hq. unfold handle. wpb_step.
  eapply wpb_mono; [by apply wp_full_connect| |done]. intros sv1 w1 (H1 & E1 & Q1). wpb_step.
  eapply wpb_mono; [by apply wp_full_read| |done]. intros sv2 w2 (H2 & E2 & Q2). wpb_step.
  eapply wpb_mono; [by apply wp_full_write| |done]. intros sv3 w3 (H3 & E3 & Q3). wpb_step.
  eapply wpb_mono; [by apply wp_full_hangup| |done]. intros sv4 w4 (H4 & E4 & Q4).
  eapply wpb_mono; [by apply wp_full_timeout| |done]. intros sv5 w5 (H5 & E5 & Q5).
  split; [done|split; [congruence|]]. intros Hne. unfold same_queue in *.
  by rewrite Q5, Q4, Q3, Q2, Q1.
Qed.

Lemma wp_batch_full evs sv w :
  inv sv w -> NoDup evs.*1 -> Forall (not_stale (sockfd sv) w) evs ->
  wpb B (for_events (handle v) evs sv) inv X w.
Proof using HB.
  revert sv w. induction evs as [|ev evs IH]; intros sv w Hinv Hnd Hev; cbn [for_events]; [by wpb_step|].
  apply NoDup_cons in Hnd as [Hni Hnd]. apply Forall_cons in Hev as [Hev Hevs].
  wpb_step. eapply wpb_mono; [by apply wp_handle_full| |done]. intros sv' w' (Hinv' & Es & Hq).
  apply IH; [done|done|]. apply Forall_forall. intros ev' Hev'. rewrite Es. intros Hs.
  rewrite Hq; [by eapply Forall_forall in Hevs; eauto|]. intros E. apply Hni. rewrite E, <- Hs.
  by apply list_elem_of_fmap_2.
Qed.
End buffered.

(** An event the kernel reports for the listening socket has a client waiting. *)
Lemma reported_not_stale env sockfd epollfd nb T TM w ev :
  serving env sockfd epollfd nb T TM w -> reported w ev -> not_stale sockfd w ev.
Proof.
  intros [_ Hs] (reg & ex & Hreg & Hm & Hnz) Hl Hq. destruct (sv_listen _ _ _ _ _ _ _ _ _ Hs) as [port Hp].
  unfold ready in Hm. rewrite Hl, Hp, Hq, bool_decide_true, Z.land_0_r in Hm by done. done.
Qed.

Lemma buffered_batches env size v (B : world -> Prop) :
  (forall w, v_nonblock v = false -> waits size w -> B w) ->
  handles_batches B (Buffered.handle v) Buffered.epollfd (buffered_inv env size (v_nonblock v)) (fun _ => True).
Proof.
  intros HB sv w (Hb & Hz & Hr & Hpair & Hdom & Hsv).
  exists env, (Buffered.sockfd sv), (v_nonblock v), (held (Buffered.fdbuffermap sv)), (armed (Buffered.timermap sv)).
  split; [done|]. intros evs w' Hsv' Hnd Hrep. apply (wp_batch_full env size); [done|done|done|].
  eapply Forall_impl; [done|]. intros ev. by eapply reported_not_stale.
Qed.

Lemma buffered_start v argv w0 :
  booted w0 -> 0 < u32 (atoi (arg argv 3)) ->
  wpb never (Buffered.start v argv)
    (fun r w => forall sv, r = inr sv -> buffered_inv (w_env w0) (u32 (atoi (arg argv 3))) (v_nonblock v) sv w) (fun _ _ => True) w0.
Proof.
  intros Hb Hsize. unfold Buffered.start, eprintf. wpb_step; [by repeat wpb_step|].
  wpb_step. eapply wpb_open_listener; [by apply booted_opening|]. intros fd p w1 H1.
  wpb_step. eapply (wpb_open_epoll _ _ _ _ _ _ _ (v_nonblock v)); [done|]. intros ep w2 H2.
  wpb_step. unfold new_array. wpb_step. unfold next_answer, wpb at 1. repeat wpb_step.
  intros sv [= <-]. split; [|split; [done|split; [apply map_Forall_empty|split; [done|split; [done|done]]]]].
  cbn. pose proof (wrapu_range 32 (atoi (arg argv 3))). lia.
Qed.


(** ** epoll_echo_server/solution_timer.cc *)

Definition timer_inv (env : nat -> answer) (sv : EchoTimer.server) (w : world) : Prop :=
  paired (EchoTimer.fdmap sv) (EchoTimer.timermap sv) /\
  exists T, map_Forall (fun _ v => v = ([], Some echo_mask)) T /\ dom T = dom (EchoTimer.fdmap sv) /\
    serving env (EchoTimer.sockfd sv) (EchoTimer.epollfd sv) true T (armed (EchoTimer.timermap sv)) w.

Section echo_timer.
Import EchoTimer.
Context (env : nat -> answer).
Abbreviation X := (fun (c : Z) (_ : world) => bad_status c /\ True).
Abbreviation inv := (timer_inv env).
Abbreviation step_ok sv w := (fun sv' w' => inv sv' w' /\ sockfd sv' = sockfd sv /\ same_queue w w').

Lemma wp_timer_connect sv w fd :
  inv sv w -> (fd = sockfd sv -> n_queue (w_net w) <> []) ->
  wpb never (on_connect sv fd)
    (fun sv' w' => inv sv' w' /\ sockfd sv' = sockfd sv /\ (fd <> sockfd sv -> same_queue w w')) X w.
Proof.
  intros (Hpair & T & HT & Hdom & Hsv) Hq. unfold on_connect.
  destruct (Z.eqb_spec fd (sockfd sv)) as [->|Hne];
    [|wpb_step; split; [split; [done|by exists T]|done]]. wpb_step.
  apply (wpb_accept env (sockfd sv) (epollfd sv) true never X (HXany env) _ _ T (armed (timermap sv)));
    [done|by intros; destruct Hq|].
  intros r w1 Hsv1 HTr HTMr Hrs _ _. wpb_step.
  eapply (wpb_ctl_conn env (sockfd sv) (epollfd sv) true never X (HXany env)); [done|by rewrite lookup_insert_eq|done|].
  intros w2 Hsv2 _. rewrite insert_insert_eq in Hsv2. wpb_step.
  apply (wpb_timer_create env (sockfd sv) (epollfd sv) true never X (HXany env)) with (1 := Hsv2).
  intros t w3 Hsv3 HTt HTMt _. wpb_step.
  eapply (wpb_ctl_timer env (sockfd sv) (epollfd sv) true never X (HXany env)); [done|by rewrite lookup_insert_eq|done|].
  intros w4 Hsv4 _. rewrite insert_insert_eq in Hsv4. wpb_step.
  eapply (wpb_setup_timer env (sockfd sv) (epollfd sv) true never X (HXany env)); [done|by rewrite lookup_insert_eq|].
  intros w5 Hsv5 _. rewrite insert_insert_eq, <- (armed_insert _ _ r) in Hsv5. wpb_step.
  split; [|done]. split.
  - apply paired_insert; [done| |by apply armed_none]. apply not_elem_of_dom. rewrite <- Hdom.
    by apply not_elem_of_dom.
  - eexists. split; [|split; [|done]]; [by apply map_Forall_insert_2|]. cbn. by rewrite !dom_insert_L, Hdom.
Qed.

Lemma wp_timer_read sv w fd events : inv sv w -> wpb never (on_read sv fd events) (step_ok sv w) X w.
Proof.
  intros Hinv. unfold on_read. case_bool_decide as Hm; [|by wpb_step]. cbn [andb].
  destruct (has events EPOLLIN); [|by wpb_step]. destruct Hm as [t Hf].
  destruct Hinv as (Hpair & T & HT & Hdom & Hsv).
  assert (is_Some (T !! fd)) as [v Hv] by (apply elem_of_dom; rewrite Hdom; apply elem_of_dom; eauto).
  pose proof (HT _ _ Hv) as E. cbn in E. subst v.
  destruct (sv_conn _ _ _ _ _ _ _ _ _ (proj2 Hsv) _ _ _ Hv) as (_ & id & c & Hd & Hc & _).
  assert (conn_of w fd = Some c) as Hco by (unfold conn_of; by rewrite Hd, Hc).
  unfold map_get. rewrite Hf. do 3 wpb_step.
  eapply (wpb_echo_once env (sockfd sv) (epollfd sv) X); [done|done|done|done|done|done|].
  intros w1 c1 Hsv1 _ Hsq1 _. wpb_step.
  eapply (wpb_setup_timer env (sockfd sv) (epollfd sv) true never X (HXany env)); [done|by eapply armed_lookup, Hpair|].
  intros w2 Hsv2 Hu2. rewrite (armed_again _ _ fd) in Hsv2 by (by apply Hpair). wpb_step.
  split; [split; [done|by exists T]|split; [done|unfold same_queue in *; by rewrite (proj1 Hu2)]].
Qed.

Lemma wp_timer_disconnect l1 l2 l3 l4 sv w r t :
  inv sv w -> timermap sv !! t = Some r ->
  wpb never (disconnect l1 l2 l3 l4 sv r t) (step_ok sv w) X w.
Proof.
  intros (Hpair & T & HT & Hdom & Hsv) Ht. assert (fdmap sv !! r = Some t) as Hf by (by apply Hpair).
  assert (is_Some (T !! r)) as [v Hv] by (apply elem_of_dom; rewrite Hdom; apply elem_of_dom; eauto).
  pose proof (HT _ _ Hv) as E. cbn in E. subst v. unfold disconnect. wpb_step.
  eapply (wpb_ctl_conn env (sockfd sv) (epollfd sv) true never X (HXany env)); [done|done|done|].
  intros w1 Hsv1 Hu1. wpb_step.
  eapply (wpb_ctl_timer env (sockfd sv) (epollfd sv) true never X (HXany env)); [done|by eapply armed_lookup|done|].
  intros w2 Hsv2 Hu2. wpb_step.
  eapply (wpb_close_conn env (sockfd sv) (epollfd sv) true never X (HXany env)); [done|by rewrite lookup_insert_eq|].
  intros w3 Hsv3 _ Hsq3. rewrite delete_insert_eq in Hsv3. wpb_step.
  eapply (wpb_close_timer env (sockfd sv) (epollfd sv) true never X (HXany env)); [done|by rewrite lookup_insert_eq|].
  intros w4 Hsv4 Hu4. rewrite delete_insert_eq in Hsv4. wpb_step.
  unfold armed in Hsv4. rewrite <- fmap_delete in Hsv4.
  split; [|split; [done|unfold same_queue in *; by rewrite (proj1 Hu4), Hsq3, (proj1 Hu2), (proj1 Hu1)]].
  split; [by apply paired_delete|]. exists (delete r T). split; [by apply map_Forall_delete|split; [|done]].
  cbn. by rewrite !dom_delete_L, Hdom.
Qed.

Lemma wp_handle_timer sv w ev :
  inv sv w -> not_stale (sockfd sv) w ev ->
  wpb never (handle sv ev)
    (fun sv' w' => inv sv' w' /\ sockfd sv' = sockfd sv /\ (ev.1 <> sockfd sv -> same_queue w w')) X w.
Proof.
  destruct ev as [fd m]. intros Hinv Hq. unfold handle. wpb_step.
  eapply wpb_mono; [by apply wp_timer_connect| |done]. intros sv1 w1 (H1 & E1 & Q1). wpb_step.
  eapply wpb_mono; [by apply wp_timer_read| |done]. intros sv2 w2 (H2 & E2 & Q2). wpb_step.
  eapply (wpb_mono _ _ (step_ok sv2 w2) _ X); [| |done].
  { unfold on_hangup. case_bool_decide as Hm; [|by wpb_step]. cbn [andb].
    destruct (has m EPOLLRDHUP); [|by wpb_step]. destruct Hm as [t Hf]. unfold map_get. rewrite Hf.
    do 2 wpb_step. apply wp_timer_disconnect; [done|]. by apply (proj1 H2). }
  intros sv3 w3 (H3 & E3 & Q3).
  eapply (wpb_mono _ _ (step_ok sv3 w3) _ X); [| |done].
  { unfold on_timeout. case_bool_decide as Hm; [|by wpb_step]. destruct Hm as [r Hr].
    unfold map_get. rewrite Hr. do 2 wpb_step. by apply wp_timer_disconnect. }
  intros sv4 w4 (H4 & E4 & Q4). split; [done|split; [congruence|]]. intros Hne. unfold same_queue in *.
  by rewrite Q4, Q3, Q2, Q1.
Qed.

Lemma wp_batch_timer evs sv w :
  inv sv w -> NoDup evs.*1 -> Forall (not_stale (sockfd sv) w) evs ->
  wpb never (for_events handle evs sv) inv X w.
Proof.
  revert sv w. induction evs as [|ev evs IH]; intros sv w Hinv Hnd Hev; cbn [for_events]; [by wpb_step|].
  apply NoDup_cons in Hnd as [Hni Hnd]. apply Forall_cons in Hev as [Hev Hevs].
  wpb_step. eapply wpb_mono; [by apply wp_handle_timer| |done]. intros sv' w' (Hinv' & Es & Hq).
  apply IH; [done|done|]. apply Forall_forall. intros ev' Hev'. rewrite Es. intros Hs.
  rewrite Hq; [by eapply Forall_forall in Hevs; eauto|]. intros E. apply Hni. rewrite E, <- Hs.
  by apply list_elem_of_fmap_2.
Qed.

Lemma timer_batches : handles_batches never handle epollfd inv (fun _ => True).
Proof.
  intros sv w (Hpair & T & HT & Hdom & Hsv). exists env, (sockfd sv), true, T, (armed (timermap sv)).
  split; [done|]. intros evs w' Hsv' Hnd Hrep.
  apply wp_batch_timer; [split; [done|by exists T]|done|].
  eapply Forall_impl; [done|]. intros ev. by eapply reported_not_stale.
Qed.
End echo_timer.

Lemma timer_start argv w0 :
  booted w0 ->
  wpb never (EchoTimer.start argv)
    (fun r w => forall sv, r = inr sv -> timer_inv (w_env w0) sv w) (fun _ _ => True) w0.
Proof.
  intros Hb. unfold EchoTimer.start, eprintf. wpb_step; [by repeat wpb_step|].
  wpb_step. eapply wpb_open_listener; [by apply booted_opening|]. intros fd p w1 H1.
  wpb_step. eapply (wpb_open_epoll _ _ _ _ _ _ _ true); [done|]. intros ep w2 H2.
  wpb_step. unfold new_array. wpb_step. unfold next_answer, wpb at 1. repeat wpb_step.
  intros sv [= <-]. split; [done|]. exists ∅. split; [apply map_Forall_empty|done].
Qed.

(** The echo server with timeouts.  In every state of its service loop
    [fdmap] and [timermap] are inverse to each other and list exactly the open
    connections and armed timers, all registered, and everything read from a
    client was written back to it; every batch is handled without blocking,
    back to such a state, or the server exits with a non-zero status. *)
Theorem timer_serves (argv : list string) (w0 : world) (sv : EchoTimer.server) (w : world) :
  booted w0 -> loop_state (EchoTimer.start argv) EchoTimer.round w0 sv w ->
  serves never EchoTimer.handle (EchoTimer.epollfd sv) (s32 (EchoTimer.maxevents sv))
    (timer_inv (w_env w0)) (fun _ => True) sv w.
Proof.
  intros Hb Hl. refine (serves_loop _ (EchoTimer.at_ 102) _ EchoTimer.round _ _
    (fun sv => s32 (EchoTimer.maxevents sv)) _ _ w0 sv w (timer_batches _) _ _ _ Hl); [done| |].
  - intros st. pose proof (wraps_range 32 (EchoTimer.maxevents st)). lia.
  - by apply timer_start.
Qed.

(** * minimal_web_server/solution.cc *)

(** [k] clients of [queue] have been answered and closed. *)
Record answered (queue : list conn) (k : nat) (sockfd : Z) (w : world) : Prop := {
  an_sock : exists port, w_fds w !! sockfd = Some (DListen port);
  an_open fd id b : w_fds w !! fd <> Some (DConn id b);
  an_conns : c_sent <$> n_conns (w_net w) = replicate k MinimalWeb.response_bytes;
  an_who : c_stream <$> n_conns (w_net w) = take k (c_stream <$> queue);
  an_rest : n_queue (w_net w) = drop k queue;
}.

Section minimal_web.
Import MinimalWeb.
Abbreviation anyX := (fun (_ : Z) (_ : world) => True).

Lemma wp_answer queue k sockfd w :
  Forall (fun c => c_sent c = []) queue -> answered queue k sockfd w ->
  wpb anytime (round sockfd) (fun s w' => s = sockfd /\ answered queue (S k) sockfd w') anyX w.
Proof.
  intros Hq [(port & Hs) Hopen Hconns Hwho Hrest]. unfold round. set (env := w_env w).
  assert (forall c w', bad_status c -> pressed env w' -> anyX c w') as HX by done.
  wpb_step. apply (wpb_not_m1 env anytime anyX HX); [done|]. intros a. do 2 wpb_step. cbn. rewrite Hs, Hrest.
  destruct (drop k queue) as [|c q] eqn:Hdrop; [by apply wpb_stuck|].
  assert (queue !! k = Some c) as Hk by (rewrite <- (Nat.add_0_r k), <- lookup_drop, Hdrop; done).
  wpb_step. apply wpb_net_fd; [intros e Hf; do 2 wpb_step; [left; split; [done|by right]|done]|].
  cbn. set (fd := lowest (w_fds w)). intros Hfd Hnone. destruct (Z.eqb_spec fd (-1)); [lia|].
  do 3 wpb_step. right. split; [done|]. wpb_step.
  assert (fd <> sockfd) by congruence.
  set (w1 := set_net _ _).
  assert (w_fds w1 !! fd = Some (DConn (length (n_conns (w_net w))) false)) as Hd1 by (cbn; by rewrite lookup_insert_eq).
  assert (n_conns (w_net w1) !! length (n_conns (w_net w)) = Some c) as Hc1 by (by apply list_lookup_middle).
  apply (wpb_mono _ _ (fun r w' => r = zlen response_bytes /\ w_env w' = env /\ w_fds w' = w_fds w1 /\
    exists c', w_net w' = mkNet (n_conns (w_net w) ++ [c']) q (n_epoll (w_net w)) /\
      c_sent c' = response_bytes /\ c_stream c' = c_stream c) _ anyX); [| |done].
  - unfold not_m1. wpb_step. unfold sys_write. change (negb (fits _ _ _)) with false.
    apply (wpb_syscall env); [done|intros; by apply wpb_check_not_m1|]. intros a'. do 2 wpb_step.
    rewrite (room_conn (tick w1) _ _ _ _ Hd1 Hc1), (nonblocking_conn (tick w1) _ _ _ Hd1), (all_or_wait_conn (tick w1) _ _ _ Hd1).
    wpb_step; [by apply wpb_stuck|]. wpb_step; [by apply wpb_stuck|]. cbn [negb].
    change (Z.min _ MAX_RW_COUNT) with (zlen response_bytes). do 2 wpb_step.
    rewrite (emit_conn (tick w1) _ _ _ _ Hd1 Hc1). wpb_step.
    apply wpb_check_not_m1; [done|]. intros _. split_and!; [done|done|done|].
    eexists. split; [cbn; by rewrite insert_app_r_alt, Nat.sub_diag by done|].
    cbn. split; [|done]. eapply Forall_lookup in Hq as ->; done.
  - intros r w2 (-> & He2 & Hf2 & c' & Hn2 & Hsent & Hstr). wpb_step.
    apply (wpb_close env anytime anyX HX); [done|rewrite Hf2; by eauto|]. wpb_step. split; [done|].
    constructor; cbn; rewrite ?Hf2, ?Hn2; cbn.
    + exists port. by rewrite delete_insert_id.
    + intros fd' id b. by rewrite delete_insert_id.
    + change (c_sent <$> n_conns (w_net w) ++ [c'] = replicate (S k) response_bytes).
      rewrite fmap_app, Hconns, replicate_S_end. by rewrite <- Hsent.
    + change (c_stream <$> n_conns (w_net w) ++ [c'] = take (S k) (c_stream <$> queue)).
      rewrite fmap_app, Hwho. erewrite take_S_r by (by rewrite list_lookup_fmap, Hk). by rewrite <- Hstr.
    + erewrite (drop_S queue c k) in Hdrop by done. by simplify_eq.
Qed.

Lemma wp_answers queue n k sockfd w :
  Forall (fun c => c_sent c = []) queue -> answered queue k sockfd w ->
  wpb anytime (rounds round n sockfd) (fun s w' => s = sockfd /\ answered queue (k + n) sockfd w') anyX w.
Proof.
  intros Hq. revert k w. induction n as [|n IH]; intros k w Ha; cbn [rounds].
  { wpb_step. by rewrite Nat.add_0_r. }
  wpb_step. eapply wpb_mono; [by apply wp_answer| |done]. intros s w' [-> Ha'].
  replace (k + S n)%nat with (S k + n)%nat by lia. by apply IH.
Qed.
End minimal_web.

(** The minimal web server.  After [n] passes of its loop it has accepted the
    first [n] clients in the order they came, each was sent the whole response
    and nothing else, and none of their descriptors is open. *)
Theorem minimal_web_answers (w0 : world) (n : nat) (sockfd : Z) (w1 : world) (s : Z) (w : world) :
  booted w0 -> MinimalWeb.start w0 = (Val sockfd, w1) ->
  rounds MinimalWeb.round n sockfd w1 = (Val s, w) ->
  s = sockfd /\ answered (n_queue (w_net w1)) n sockfd w.
Proof.
  intros Hb Hs Hr.
  assert (Forall (fun c => c_sent c = []) (n_queue (w_net w1)) /\ answered (n_queue (w_net w1)) 0 sockfd w1) as [Hq Ha].
  { refine (wpb_val never _ (fun s w => Forall (fun c => c_sent c = []) (n_queue (w_net w)) /\
      answered (n_queue (w_net w)) 0 s w) (fun _ _ => True) w0 _ _ _ Hs).
    unfold MinimalWeb.start. eapply wpb_open_listener; [by apply booted_opening|]. intros fd p w' [].
    split; [eapply Forall_impl; [exact op_queue0|by intros c [? _]]|]. constructor; rewrite ?op_conns0; try done.
    - exists p. by apply op_sock0.
    - intros fd' id b Hd. by destruct (op_plain0 _ _ Hd). }
  refine (wpb_val anytime _ (fun s w => s = sockfd /\ answered (n_queue (w_net w1)) n sockfd w) (fun _ _ => True) w1 _ _ _ Hr).
  by apply (wp_answers _ n 0).
Qed.
