(* ===== verification/ServersExamples.v ===== *)
(** The servers run on concrete clients: the theorems of [ServersProofs] applied,
    and behaviours that the code's authors may not have wanted. *)

From stdpp Require Import prelude gmap strings list fin_maps.
From Stdlib Require Import ZArith Lia.
From S2P Require Import Prelude Posix ErrUtils CircularPipe Net NetProofs Servers ServersProofs.

Open Scope prog_scope.

(** A machine with a somaxconn file, clients, and a kernel that always answers
    [a]. *)
Definition machine (a : answer) (clients : list conn) : world :=
  set_net (mkNet [] clients ∅)
    (world_of (fun _ => a) {["/proc/sys/net/core/somaxconn" := [Byte.x31; Byte.x32; Byte.x38; Byte.x0a]]}).

(** Ten bytes arrive before every wait, send buffers have [room]; descriptors are
    looked at in the order [fds], every timer has expired. *)
Definition busy (room : Z) (fds : list Z) : answer :=
  mkAnswer None 1000 0 (fun _ => true) Byte.x00 (fun _ => (10, room)) fds.

Definition client (bytes : list byte) (shut : bool) : conn := mkConn bytes shut bytes [] [] 0.
Definition hi : list byte := [Byte.x68; Byte.x69].

Lemma machine_booted a clients : Forall untouched clients -> booted (machine a clients).
Proof.
  intros Hc. constructor; [done|done|done|by vm_compute|].
  change (w_fds (machine a clients)) with (<[0 := DSource]> (<[1 := DSink]> ∅) : gmap Z desc).
  intros fd d [[<- <-]|[_ [[<- <-]|[_ ?]]%lookup_insert_Some]]%lookup_insert_Some; done.
Qed.

(** [start] and [n] rounds, if they return. *)
Definition run_state {St} (start : M (Z + St)) (round : St -> M St) (n : nat) (w0 : world) : option (St * world) :=
  match start w0 with
  | (Val (inr st0), w1) => match rounds round n st0 w1 with (Val st, w) => Some (st, w) | _ => None end
  | _ => None
  end.

Lemma run_state_loop {St} (start : M (Z + St)) round n w0 st w :
  run_state start round n w0 = Some (st, w) -> loop_state start round w0 st w.
Proof.
  unfold run_state, loop_state. destruct (start w0) as [[[|st0]| | |] w1]; try done.
  destruct (rounds round n st0 w1) as [[] ?] eqn:E; try done. intros [= <- <-]. by exists n, st0, w1.
Qed.

Definition argv : list string := ["server"; "localhost"; "8080"; "16"; "4"].

Lemma echo_write_serves_witness :
  match run_state (EchoWrite.start argv) EchoWrite.round 3 (machine (busy 100 [2; 4]) [client hi false]) with
  | Some (sv, w) => write_inv (fun _ => busy 100 [2; 4]) sv w
  | None => False
  end.
Proof.
  destruct (run_state _ _ _ _) as [[sv w]|] eqn:E; [|vm_compute in E; discriminate E].
  apply (echo_write_serves argv (machine (busy 100 [2; 4]) [client hi false]) sv w).
  - apply machine_booted. by repeat constructor.
  - by vm_compute.
  - by eapply run_state_loop.
Defined.

Lemma echo_serves_witness :
  match run_state (Echo.start (take 3 argv)) Echo.round 2 (machine (busy 100 [2; 4]) [client hi false]) with
  | Some (sv, w) => echo_inv (fun _ => busy 100 [2; 4]) sv w
  | None => False
  end.
Proof.
  destruct (run_state _ _ _ _) as [[sv w]|] eqn:E; [|vm_compute in E; discriminate E].
  apply (echo_serves (take 3 argv) (machine (busy 100 [2; 4]) [client hi false]) sv w).
  - apply machine_booted. by repeat constructor.
  - by eapply run_state_loop.
Defined.

Lemma timer_serves_witness :
  match run_state (EchoTimer.start (take 4 argv)) EchoTimer.round 2 (machine (busy 100 [2; 4]) [client hi false]) with
  | Some (sv, w) => timer_inv (fun _ => busy 100 [2; 4]) sv w
  | None => False
  end.
Proof.
  destruct (run_state _ _ _ _) as [[sv w]|] eqn:E; [|vm_compute in E; discriminate E].
  apply (timer_serves (take 4 argv) (machine (busy 100 [2; 4]) [client hi false]) sv w).
  - apply machine_booted. by repeat constructor.
  - by eapply run_state_loop.
Defined.


(** The web machine's listening socket is descriptor 2. *)
Lemma minimal_web_answers_witness :
  exists w, rounds MinimalWeb.round 1 2 (MinimalWeb.start (machine (busy 1 []) [mkConn [] false [] [] [] 1000])).2 = (Val 2, w) /\
    answered [mkConn [] false [] [] [] 1000] 1 2 w.
Proof.
  set (m := machine (busy 1 []) [mkConn [] false [] [] [] 1000]).
  exists (rounds MinimalWeb.round 1 2 (MinimalWeb.start m).2).2.
  assert (rounds MinimalWeb.round 1 2 (MinimalWeb.start m).2
          = (Val 2, (rounds MinimalWeb.round 1 2 (MinimalWeb.start m).2).2)) as E by (vm_compute; reflexivity).
  split; [exact E|].
  apply (minimal_web_answers m 1 2 (MinimalWeb.start m).2 2).
  - apply machine_booted. by repeat constructor.
  - vm_compute. reflexivity.
  - exact E.
Defined.

(** * Limits of the servers *)

(** The outcome of [start] and [n] rounds, and the clients afterwards. *)
Definition run_outcome {St} (start : M (Z + St)) (round : St -> M St) (n : nat) (w0 : world) : outcome unit * list conn :=
  match start w0 with
  | (Val (inr st0), w1) =>
      match rounds round n st0 w1 with
      | (Val _, w) => (Val tt, n_conns (w_net w))
      | (Exit c, w) => (Exit c, n_conns (w_net w))
      | (Stuck, w) => (Stuck, n_conns (w_net w))
      | (NoFuel, w) => (NoFuel, n_conns (w_net w))
      end
  | (_, w) => (NoFuel, n_conns (w_net w))
  end.

(** A client that sends its bytes and then shuts its side down is
    disconnected before they are echoed: EPOLLRDHUP comes with the data, and
    the server closes without emptying the ring. *)
Theorem half_close_drops :
  run_outcome (EchoWrite.start argv) EchoWrite.round 2 (machine (busy 100 [2; 4]) [client hi true])
  = (Val tt, [mkConn hi true [] [] [] 100]).
Proof. vm_compute. reflexivity. Qed.

(** Stale events.  A timeout frees two descriptors; if a client is accepted in
    the same batch it gets the same numbers, and the old client's event is then
    taken for its own: the web server reads from a connection on which nothing
    has arrived and exits with EAGAIN. *)
Theorem stale_event_exits :
  (run_outcome (Buffered.start web argv) (Buffered.round web) 2
    (machine (busy 100 [5; 2; 4]) [client hi false; client [] false])).1 = Exit EAGAIN.
Proof. vm_compute. reflexivity. Qed.

(** One slow client stops [solution_full.cc]: its connections block, so
    writing two bytes to a client with room for one waits inside the handler. *)
Theorem slow_client_blocks :
  (run_outcome (Buffered.start full argv) (Buffered.round full) 3
    (machine (busy 1 [2; 4]) [client hi false; client hi false])).1 = Stuck.
Proof. vm_compute. reflexivity. Qed.
