(* ===== verification/CondAlarms.v ===== *)
(** Programs of [Threads] whose threads sleep on condition variables for
    different reasons.  [needs c m] says that the sleepers on condition [c] should
    be awake; the invariant [Alarmed] says that then some running thread is [hot]
    for [c], on its way to the call that wakes them.  [notifies] gives the
    conditions on single instructions.  Nothing here translates code of the
    repository. *)

From stdpp Require Import prelude list relations.
From Stdlib Require Import ZArith Lia.
From S2P Require Import Prelude Threads.

Section cond_alarms.
Context {St L K : Type}.
Context (code : nat -> list (instr St L)).
Context (count : K -> St -> Z) (weight : nat -> nat -> L -> K -> Z).
Context (inside : nat -> nat -> bool) (says : nat -> nat -> St -> L -> Prop).
Context (lsays : nat -> nat -> L -> Prop) (G : St -> Prop) (N : Z).
Hypothesis weight_01 : forall t pc l k, 0 <= weight t pc l k <= 1.
Hypothesis all_ok : forall t pc, ok code count weight inside says lsays G N t pc.

Abbreviation INV := (Inv code count weight inside says lsays G N).
Abbreviation knows := (knows count weight inside says lsays G N).

Context (needs : nat -> St -> Prop) (hot : nat -> nat -> nat -> bool).
(** The counter of the threads that may sleep on a condition, needed for the
    conditions that are signalled. *)
Context (sleepers : nat -> option K).

Definition Alarmed (cf : config St L) : Prop := forall t th c,
  threads cf !! t = Some th -> t_status th = Asleep c -> needs c (mem cf) ->
  exists t2 th2, threads cf !! t2 = Some th2 /\ t_status th2 = Running /\ hot c t2 (t_pc th2) = true.

(** Thread [t] goes from [pc] to [pc'], the memory from [m] to [m']. *)
Definition passes (t pc pc' : nat) (m m' : St) : Prop := forall c,
  needs c m' -> hot c t pc' = true \/ needs c m /\ hot c t pc = false.

Definition notifies (t pc : nat) : Prop :=
  (forall c, hot c t pc = true -> inside t pc = true) /\
  match code t !! pc with
  | None => True
  | Some (IDo f) => forall m l, knows t pc m l -> passes t pc (S pc) m (f m l).1
  | Some (IAwait _ _) => False
  | Some (IBr b n) => forall m l, knows t pc m l -> passes t pc (if b m l then S pc else S pc + n) m m
  | Some (IJmp n) => forall m l, knows t pc m l -> passes t pc (S pc + n) m m
  | Some (IBack n) => forall m l, knows t pc m l -> passes t pc (pc - n) m m
  | Some (IAssert _) | Some ILock | Some IUnlock => forall m l, knows t pc m l -> passes t pc (S pc) m m
  | Some (IWait c0) =>
      (forall l k, sleepers c0 = Some k -> weight t pc l k = 1) /\
      forall m l, knows t pc m l -> ~ needs c0 m /\ forall c, needs c m -> hot c t pc = false
  | Some (ISignal c0) => inside t pc = true /\ forall m l c, knows t pc m l -> needs c m ->
      hot c t pc = true -> hot c t (S pc) = true \/ c = c0 /\ exists k, sleepers c0 = Some k /\ count k m <= 1
  | Some (IBroadcast c0) => forall m l c, knows t pc m l -> needs c m ->
      hot c t pc = true -> hot c t (S pc) = true \/ c = c0
  end.
Hypothesis all_notify : forall t pc, notifies t pc.

(** A running thread moves on and nobody else changes. *)
Lemma alarmed_run m m' o o' ths t pc pc' l l' :
  Alarmed (mkConfig m o ths) -> ths !! t = Some (mkThread pc Running l) -> passes t pc pc' m m' ->
  Alarmed (mkConfig m' o' (<[t := mkThread pc' Running l']> ths)).
Proof.
  intros HA Ht Hp t2 th2 c H2 Hs Hn. simpl in *. pose proof (lookup_lt_Some _ _ _ Ht) as Hlt.
  destruct (decide (t2 = t)) as [->|Hne]; [rewrite list_lookup_insert_eq in H2 by done; by simplify_eq|].
  rewrite list_lookup_insert_ne in H2 by done. destruct (Hp c Hn) as [Hh|[Hn0 Hh]].
  - exists t, (mkThread pc' Running l'). by rewrite list_lookup_insert_eq.
  - destruct (HA t2 th2 c H2 Hs Hn0) as (t3 & th3 & H3 & Hr & Hh3). simpl in *.
    exists t3, th3. rewrite list_lookup_insert_ne; [done|]. intros ->. simplify_eq. simpl in *. congruence.
Qed.

Lemma sleeper_weight cf t th c k :
  INV cf -> threads cf !! t = Some th -> t_status th = Asleep c -> sleepers c = Some k ->
  weight t (t_pc th) (t_loc th) k = 1.
Proof.
  intros HI Ht Hs Hc. pose proof (inv_wait _ _ _ _ _ _ _ _ _ HI _ _ Ht) as Hw. unfold at_wait in Hw. rewrite Hs in Hw.
  destruct (all_notify t (t_pc th)) as [_ Hk]. rewrite Hw in Hk. by apply Hk.
Qed.

(** Two sleepers make the counter two. *)
Lemma lone_sleeper cf c k t1 th1 t2 th2 :
  INV cf -> sleepers c = Some k -> count k (mem cf) <= 1 ->
  threads cf !! t1 = Some th1 -> t_status th1 = Asleep c ->
  threads cf !! t2 = Some th2 -> t_status th2 = Asleep c -> t1 = t2.
Proof.
  intros HI Hc Hle H1 S1 H2 S2. destruct (decide (t1 = t2)) as [|Hne]; [done|].
  pose proof (total_two weight weight_01 k 0 _ _ _ _ _ Hne H1 H2) as Ht. simpl in Ht.
  rewrite (sleeper_weight _ _ _ _ _ HI H1 S1 Hc), (sleeper_weight _ _ _ _ _ HI H2 S2 Hc) in Ht.
  rewrite (inv_count _ _ _ _ _ _ _ _ _ HI) in Hle. lia.
Qed.

(** Threads that are woken up, or are awake already. *)
Lemma alarmed_signal m o ths t pc l k c0 cf' :
  INV (mkConfig m o ths) -> Alarmed (mkConfig m o ths) -> ths !! t = Some (mkThread pc Running l) ->
  code t !! pc = Some (ISignal c0) -> knows t pc m l ->
  go code t k (mkConfig m o ths) = Some cf' -> Alarmed cf'.
Proof.
  intros HI HA Ht Hi Hk Hgo. destruct (all_notify t pc) as [_ Hn]. rewrite Hi in Hn. destruct Hn as [Hin Hn].
  pose proof (lookup_lt_Some _ _ _ Ht) as Hlt.
  assert (forall ths', cf' = mkConfig m o ths' -> ths' !! t = Some (mkThread (S pc) Running l) ->
    (forall t2 th2 c, ths' !! t2 = Some th2 -> t_status th2 = Asleep c ->
       t2 <> t /\ ths !! t2 = Some th2 /\ ~ (c = c0 /\ exists k, sleepers c0 = Some k /\ count k m <= 1)) ->
    (forall t2 th2, t2 <> t -> ths !! t2 = Some th2 -> t_status th2 = Running -> ths' !! t2 = Some th2) ->
    Alarmed cf') as Hgen.
  { intros ths' -> Ht' Hsl Hrun t2 th2 c H2 Hs Hneed. simpl in *.
    destruct (Hsl _ _ _ H2 Hs) as (Hne & H2' & Hlone).
    destruct (HA t2 th2 c H2' Hs Hneed) as (t3 & th3 & H3 & Hr3 & Hh3). simpl in *.
    destruct (decide (t3 = t)) as [->|Hne3]; [|exists t3, th3; split; [by apply Hrun|done]].
    simplify_eq. simpl in *. destruct (Hn m l c Hk Hneed Hh3) as [Hh|?]; [|done].
    exists t, (mkThread (S pc) Running l). done. }
  simpl in Hgo. rewrite Ht in Hgo. simpl in Hgo. rewrite Hi in Hgo. simpl in Hgo.
  assert (existsb (asleep_on c0) ths = false ->
    cf' = mkConfig m o (<[t := mkThread (S pc) Running l]> ths) -> Alarmed cf') as Hnone.
  { intros Hno ->. apply (Hgen _ eq_refl).
    - by apply list_lookup_insert_eq.
    - intros t2 th2 c H2 Hs. destruct (decide (t2 = t)) as [->|Hne].
      + rewrite list_lookup_insert_eq in H2 by done. by simplify_eq.
      + rewrite list_lookup_insert_ne in H2 by done. split_and!; [done|done|]. intros [-> _].
        by apply (existsb_no_asleep _ _ _ _ Hno H2).
    - intros. by rewrite list_lookup_insert_ne. }
  destruct (ths !! k) as [sl|] eqn:Hsk; [|destruct (existsb _ _) eqn:E; simplify_eq; by apply Hnone].
  destruct (asleep_on c0 sl) eqn:Hsl; [|destruct (existsb _ _) eqn:E; simplify_eq; by apply Hnone].
  simplify_eq. unfold asleep_on in Hsl. case_bool_decide as Hst; [|done].
  assert (k <> t) by (intros ->; simplify_eq; by simpl in Hst).
  assert (k < length ths)%nat by (by eapply lookup_lt_Some).
  apply (Hgen _ eq_refl).
  - rewrite list_lookup_insert_ne by done. by apply list_lookup_insert_eq.
  - intros t2 th2 c H2 Hs. destruct (decide (t2 = k)) as [->|Hnk].
    + rewrite list_lookup_insert_eq in H2 by (by rewrite length_insert). by simplify_eq.
    + rewrite list_lookup_insert_ne in H2 by done. destruct (decide (t2 = t)) as [->|Hne].
      * rewrite list_lookup_insert_eq in H2 by done. by simplify_eq.
      * rewrite list_lookup_insert_ne in H2 by done. split_and!; [done|done|]. intros [-> (kc & Hkc & Hle)].
        by apply Hnk, (lone_sleeper (mkConfig m o ths) c0 kc t2 th2 k sl).
  - intros t2 th2 Hne H2 Hr. rewrite list_lookup_insert_ne; [by rewrite list_lookup_insert_ne|].
    intros ->. simplify_eq. congruence.
Qed.

Lemma alarmed_broadcast m o ths t pc l c0 :
  Alarmed (mkConfig m o ths) -> ths !! t = Some (mkThread pc Running l) ->
  code t !! pc = Some (IBroadcast c0) -> knows t pc m l ->
  Alarmed (mkConfig m o (wake_on c0 <$> <[t := mkThread (S pc) Running l]> ths)).
Proof.
  intros HA Ht Hi Hk t2 th2 c H2 Hs Hneed. simpl in *. pose proof (lookup_lt_Some _ _ _ Ht) as Hlt.
  destruct (all_notify t pc) as [_ Hn]. rewrite Hi in Hn.
  rewrite list_lookup_fmap in H2. apply fmap_Some in H2 as (th0 & H2 & ->).
  assert (t_status th0 = Asleep c /\ c <> c0) as [Hs0 Hc].
  { unfold wake_on, asleep_on in Hs. case_bool_decide; [done|]. naive_solver. }
  assert (t2 <> t) by (intros ->; rewrite list_lookup_insert_eq in H2 by done; by simplify_eq).
  rewrite list_lookup_insert_ne in H2 by done.
  destruct (HA t2 th0 c H2 Hs0 Hneed) as (t3 & th3 & H3 & Hr3 & Hh3). simpl in *.
  assert (wake_on c0 (mkThread (S pc) Running l) = mkThread (S pc) Running l) as Hself by done.
  destruct (decide (t3 = t)) as [->|Hne3].
  - simplify_eq. simpl in *. destruct (Hn m l c Hk Hneed Hh3) as [Hh|?]; [|done].
    exists t, (mkThread (S pc) Running l). by rewrite list_lookup_fmap, list_lookup_insert_eq.
  - exists t3, th3. rewrite list_lookup_fmap, list_lookup_insert_ne, H3 by done. split_and!; [|done|done].
    unfold wake_on, asleep_on. simpl. by rewrite bool_decide_false by congruence.
Qed.

(** A thread that goes to sleep, or one that was woken and gets the mutex. *)
Lemma alarmed_sleep m o o' ths t pc l c0 :
  Alarmed (mkConfig m o ths) -> ths !! t = Some (mkThread pc Running l) ->
  code t !! pc = Some (IWait c0) -> knows t pc m l ->
  Alarmed (mkConfig m o' (<[t := mkThread pc (Asleep c0) l]> ths)).
Proof.
  intros HA Ht Hi Hk t2 th2 c H2 Hs Hneed. simpl in *. pose proof (lookup_lt_Some _ _ _ Ht) as Hlt.
  destruct (all_notify t pc) as [_ Hn]. rewrite Hi in Hn. destruct Hn as [_ Hn].
  destruct (Hn m l Hk) as [Hno Hcold]. destruct (decide (t2 = t)) as [->|Hne].
  { rewrite list_lookup_insert_eq in H2 by done. by simplify_eq/=. }
  rewrite list_lookup_insert_ne in H2 by done.
  destruct (HA t2 th2 c H2 Hs Hneed) as (t3 & th3 & H3 & Hr3 & Hh3). simpl in *. exists t3, th3.
  rewrite list_lookup_insert_ne; [done|]. intros ->. simplify_eq. simpl in *. by rewrite (Hcold c Hneed) in Hh3.
Qed.

Lemma alarmed_awake m o o' ths t th th' :
  Alarmed (mkConfig m o ths) -> ths !! t = Some th -> t_status th <> Running -> (forall c, t_status th' <> Asleep c) ->
  Alarmed (mkConfig m o' (<[t := th']> ths)).
Proof.
  intros HA Ht Hr Hs' t2 th2 c H2 Hs Hneed. simpl in *. pose proof (lookup_lt_Some _ _ _ Ht) as Hlt.
  destruct (decide (t2 = t)) as [->|Hne].
  { rewrite list_lookup_insert_eq in H2 by done. simplify_eq. by destruct (Hs' c). }
  rewrite list_lookup_insert_ne in H2 by done.
  destruct (HA t2 th2 c H2 Hs Hneed) as (t3 & th3 & H3 & Hr3 & Hh3). simpl in *. exists t3, th3.
  rewrite list_lookup_insert_ne; [done|]. intros ->. by simplify_eq.
Qed.

Lemma alarmed_go cf t k cf' : INV cf -> Alarmed cf -> go code t k cf = Some cf' -> Alarmed cf'.
Proof.
  intros HI HA Hgo. destruct cf as [m o ths].
  destruct (go_inv code _ _ _ _ Hgo) as (th & Ht & [(Hst & Ho & ->)|(Hst & i & Hi)]); simpl in *.
  { by eapply (alarmed_awake _ _ _ _ _ _ _ HA Ht); [rewrite Hst|]. }
  destruct th as [pc st l]; simpl in *; subst st.
  pose proof (inv_knows _ _ _ _ _ _ _ _ weight_01 _ _ _ HI Ht eq_refl) as Hk. simpl in Hk.
  pose proof (all_notify t pc) as [_ Hn]. rewrite Hi in Hn.
  destruct i as [f|b n|n|n|b|b f| | |c|c|c]; try done; try (by eapply alarmed_signal; eauto);
    rewrite Ht in Hgo; simpl in Hgo; rewrite Hi in Hgo; simpl in Hgo.
  - destruct (f m l) as [m' l'] eqn:Ef. simplify_eq. eapply (alarmed_run m m'); [done|done|].
    specialize (Hn m l Hk). by rewrite Ef in Hn.
  - simplify_eq. eapply (alarmed_run m m); [done|done|exact (Hn m l Hk)].
  - simplify_eq. eapply (alarmed_run m m); [done|done|exact (Hn m l Hk)].
  - simplify_eq. eapply (alarmed_run m m); [done|done|exact (Hn m l Hk)].
  - pose proof (all_ok t pc) as Hok. unfold ok in Hok. rewrite Hi in Hok. destruct Hok as [_ Hb].
    rewrite (Hb _ _ Hk) in Hgo. simplify_eq. eapply (alarmed_run m m); [done|done|exact (Hn m l Hk)].
  - case_decide; simplify_eq. eapply (alarmed_run m m); [done|done|exact (Hn m l Hk)].
  - case_decide; simplify_eq. eapply (alarmed_run m m); [done|done|exact (Hn m l Hk)].
  - case_decide; simplify_eq. by eapply alarmed_sleep.
  - simplify_eq. by eapply alarmed_broadcast.
Qed.

Lemma alarmed_reachable cf cf' : INV cf -> Alarmed cf -> rtc (step code) cf cf' -> INV cf' /\ Alarmed cf'.
Proof.
  intros HI HA Hr. induction Hr as [|cf1 cf2 cf3 Hs _ IH]; [done|].
  assert (INV cf2) as HI2 by (eapply inv_step; [apply weight_01|apply all_ok|exact HI|exact Hs]).
  apply IH; [exact HI2|]. destruct Hs as [t k Hgo|t Hsp]; [exact (alarmed_go _ _ _ _ HI HA Hgo)|].
  unfold spurious in Hsp. apply bind_Some in Hsp as (th & Ht & Hsp).
  destruct cf1 as [m o ths]. destruct (t_status th) eqn:E; simplify_eq. simpl in *.
  eapply (alarmed_awake _ _ _ _ _ _ _ HA Ht); [by rewrite E|done].
Qed.

Lemma notifies_plain t pc : plain code inside t pc.
Proof.
  destruct (all_notify t pc) as [_ H]. unfold plain.
  destruct (code t !! pc) as [[]|]; try done. by destruct H.
Qed.

(** When no thread can move each has finished or sleeps on a condition whose
    sleepers have nothing to be woken for. *)
Lemma blocked_no_alarm cf t th :
  INV cf -> Alarmed cf -> blocked code cf -> threads cf !! t = Some th ->
  finished code t th \/
  exists c, t_status th = Asleep c /\ code t !! t_pc th = Some (IWait c) /\ ~ needs c (mem cf).
Proof.
  intros HI HA Hb Ht.
  destruct (blocked_rest _ _ _ _ _ _ _ _ all_ok cf notifies_plain HI Hb t th Ht) as [[c Hs]|Hf]; [right|by left].
  exists c. pose proof (inv_wait _ _ _ _ _ _ _ _ _ HI _ _ Ht) as Hw. unfold at_wait in Hw. rewrite Hs in Hw.
  split_and!; [done|done|]. intros Hneed.
  destruct (HA t th c Ht Hs Hneed) as (t2 & th2 & Ht2 & Hr2 & Hh).
  destruct (all_notify t2 (t_pc th2)) as [Hin _]. specialize (Hin c Hh).
  destruct (owner_runs _ _ _ _ _ _ _ _ all_ok _ _ _ HI (notifies_plain _ _) Ht2 (conj Hr2 Hin)) as (k & cf' & Hgo).
  by rewrite Hb in Hgo.
Qed.
End cond_alarms.
