(* ===== verification/Exchanger.v ===== *)
(** The exchanger of [src/exercises/cpp/multi_threading/exchanger/solution.cc]: two
    threads that call [exchange] swap their arguments.  The class is proved
    correct for any number of threads, and the test program for its two workers:
    no assertion fails, and both workers return. *)

From stdpp Require Import prelude list relations.
From Stdlib Require Import ZArith Lia.
From S2P Require Import Prelude Threads CondAlarms.

Module Exchanger.

Open Scope stmt_scope.

(** * The class *)

Inductive state_t := EMPTY | FIRST_ARRIVED | SECOND_ARRIVED.
#[global] Instance state_eq_dec : EqDecision state_t.
Proof. solve_decision. Defined.

(** [ptr] points to the variable [myval] of a thread, so that the variables of
    all threads are in the shared memory: [vals] has them by thread, [None] while
    the variable is out of scope.  [log] records who exchanged what with whom. *)
Record exchanger := mkEx {
  ptr : option nat;
  state : state_t;
  vals : list (option Z);
  log : list (nat * nat);
}.

Record worker_data := mkWd { max_sleep_time : Z; loop_count : Z; min_ : Z; max_ : Z }.

(** The locals of a worker; [rnd] are the values rand(3) returns to it. *)
Record local := mkLocal { tid : nat; wd : worker_data; i_ : Z; rnd : nat -> Z; drawn : nat }.

Definition code_t : Type := stmt exchanger local.

Definition cv_main : nat := 0.
Definition cv_overflow : nat := 1.

Definition is_state (s : state_t) (m : exchanger) (_ : local) : bool := bool_decide (state m = s).
Definition is_null (m : exchanger) (_ : local) : bool := match ptr m with None => true | Some _ => false end.

Definition Exchanger_ctor (n : nat) : exchanger := mkEx None EMPTY (replicate n None) [].

(** [ptr = &t; state = FIRST_ARRIVED] *)
Definition arrive (m : exchanger) (l : local) : exchanger * local :=
  (mkEx (Some (tid l)) FIRST_ARRIVED (vals m) (log m), l).
(** [ptr = 0; state = EMPTY] *)
Definition leave (m : exchanger) (l : local) : exchanger * local := (mkEx None EMPTY (vals m) (log m), l).

Definition val (m : exchanger) (t : nat) : option Z := default None (vals m !! t).

(** [state = SECOND_ARRIVED; swap(t, *ptr)] *)
Definition do_swap (m : exchanger) (l : local) : exchanger * local :=
  match ptr m with
  | Some p =>
      let v := val m (tid l) in let w := val m p in
      (mkEx (ptr m) SECOND_ARRIVED (<[p := v]> (<[tid l := w]> (vals m))) (log m ++ [(p, tid l)]), l)
  | None => (m, l)
  end.

Definition exchange : code_t :=
  SLock ;;
  SWhile (is_state SECOND_ARRIVED) (SWait cv_overflow) ;;
  SAssert (fun m l => is_state EMPTY m l || is_state FIRST_ARRIVED m l) ;;
  SIf (is_state EMPTY)
    (SAssert is_null ;;
     SDo arrive ;;
     SWhile (is_state FIRST_ARRIVED) (SWait cv_main) ;;
     SAssert (is_state SECOND_ARRIVED) ;;
     SDo leave ;;
     SBroadcast cv_overflow)
    (SIf (is_state FIRST_ARRIVED)
       (SAssert (fun m l => negb (is_null m l)) ;;
        SDo do_swap ;;
        SSignal cv_main)
       SSkip) ;;
  SUnlock.

(** * The test program *)

Definition usleep : code_t := SDo (fun m l => (m, l)).

(** [unsigned int myval=min+rand()%(max-min)] *)
Definition pick (d : worker_data) (r : Z) : Z := u32 (min_ d + u32 r mod u32 (max_ d - min_ d)).
Definition draw (m : exchanger) (l : local) : exchanger * local :=
  (mkEx (ptr m) (state m) (<[tid l := Some (pick (wd l) (rnd l (drawn l)))]> (vals m)) (log m),
   mkLocal (tid l) (wd l) (i_ l) (rnd l) (S (drawn l))).

(** The end of the loop body, where [myval] goes out of scope, and [i++]. *)
Definition next (m : exchanger) (l : local) : exchanger * local :=
  (mkEx (ptr m) (state m) (<[tid l := None]> (vals m)) (log m),
   mkLocal (tid l) (wd l) (u32 (i_ l + 1)) (rnd l) (drawn l)).

Definition got_foreign (m : exchanger) (l : local) : bool :=
  match val m (tid l) with
  | Some myval => (myval <? min_ (wd l)) || (max_ (wd l) <=? myval)
  | None => false
  end.

(** [Worker::operator()] *)
Definition worker : code_t :=
  SDo (fun m l => (m, mkLocal (tid l) (wd l) 0 (rnd l) (drawn l))) ;;
  SWhile (fun _ l => i_ l <? loop_count (wd l))
    (usleep ;; SDo draw ;; exchange ;; SAssert got_foreign ;; SDo next).

Definition code (_ : nat) : list (instr exchanger local) := compile worker.

(** Any number of workers on one exchanger, and [main]. *)
Definition start (wds : list worker_data) (rnds : nat -> nat -> Z) : config exchanger local :=
  mkConfig (Exchanger_ctor (length wds)) None
    (imap (fun t d => mkThread 0 Running (mkLocal t d 0 (rnds t) 0)) wds).
Definition main_with (loop_count : Z) : (nat -> nat -> Z) -> config exchanger local :=
  start [mkWd 1000 loop_count 100 200; mkWd 1000 loop_count 200 300].
Definition main : (nat -> nat -> Z) -> config exchanger local := main_with 10000.

(** * The outline *)

Section outline.
Context (wds : list worker_data).

(** Every worker draws from a range of its own. *)
Record valid : Prop := {
  v_data t d : wds !! t = Some d ->
    0 <= min_ d < max_ d /\ max_ d < 4294967296 /\ 0 <= loop_count d < 4294967296;
  v_disjoint t1 t2 d1 d2 : wds !! t1 = Some d1 -> wds !! t2 = Some d2 -> t1 <> t2 ->
    max_ d1 <= min_ d2 \/ max_ d2 <= min_ d1;
}.

Definition in_range (t : nat) (v : Z) : bool :=
  match wds !! t with Some d => (min_ d <=? v) && (v <? max_ d) | None => false end.

(** Thread [t] waits in the exchanger and its value has been taken. *)
Definition taken (t : nat) (m : exchanger) : bool :=
  bool_decide (ptr m = Some t) && bool_decide (state m = SECOND_ARRIVED).
(** The value of [t] is its own, or it does not know yet that it is not. *)
Definition own (t : nat) (m : exchanger) : bool :=
  match val m t with Some v => in_range t v | None => false end || taken t m.
Definition live (t : nat) (m : exchanger) : bool := match val m t with Some _ => true | None => false end.
(** The exchanges [t] took part in, and those it has returned from. *)
Definition occurs (t : nat) (l : list (nat * nat)) : Z :=
  zlen (List.filter (fun p => (t =? p.1)%nat || (t =? p.2)%nat) l).
Definition turn (t : nat) (m : exchanger) : Z := occurs t (log m) - b2z (taken t m).

(** Per thread: it is the first of an exchange, its value is its own, its
    variable is in scope, the exchanges it has returned from; and whether anybody
    waits for a partner. *)
Inductive ctr := KFirst (t : nat) | KOwn (t : nat) | KLive (t : nat) | KTurn (t : nat) (v : Z) | KMain.

Definition count (k : ctr) (m : exchanger) : Z :=
  b2z match k with
  | KFirst t => bool_decide (ptr m = Some t)
  | KOwn t => own t m
  | KLive t => live t m
  | KTurn t v => (t <? length wds)%nat && (turn t m =? v)
  | KMain => match ptr m with Some _ => true | None => false end
  end.

Definition turn_at (pc : nat) (l : local) : Z := i_ l + b2z (span 17 18 pc || span 22 26 pc).

Definition weight (t pc : nat) (l : local) (k : ctr) : Z :=
  b2z match k with
  | KFirst t' => (t =? t')%nat && span 12 16 pc
  | KOwn t' => (t =? t')%nat && (span 4 16 pc || span 19 21 pc)
  | KLive t' => (t =? t')%nat && span 4 26 pc
  | KTurn t' v => (t =? t')%nat && (turn_at pc l =? v)
  | KMain => span 12 16 pc
  end.

Definition inside (_ pc : nat) : bool := span 5 24 pc.

Definition says (_ pc : nat) (m : exchanger) (_ : local) : Prop :=
  if (pc =? 6)%nat || span 15 16 pc || (pc =? 22)%nat then state m = SECOND_ARRIVED
  else if span 8 9 pc then state m <> SECOND_ARRIVED
  else if span 10 11 pc then state m = EMPTY
  else if (pc =? 13)%nat || span 20 21 pc then state m = FIRST_ARRIVED
  else if (pc =? 19)%nat then state m = FIRST_ARRIVED
  else True.

Definition lsays (t pc : nat) (l : local) : Prop :=
  tid l = t /\ wds !! t = Some (wd l) /\ 0 <= i_ l <= loop_count (wd l) /\
  (pc = 0%nat -> i_ l = 0) /\ (span 2 26 pc = true -> i_ l < loop_count (wd l)) /\
  ((28 <= pc)%nat -> i_ l = loop_count (wd l)).

Definition good (m : exchanger) : Prop :=
  length (vals m) = length wds /\
  Forall (fun p => p.1 <> p.2 /\ (p.1 < length wds)%nat /\ (p.2 < length wds)%nat) (log m) /\
  match state m with
  | EMPTY => ptr m = None
  | FIRST_ARRIVED => exists p v, ptr m = Some p /\ val m p = Some v /\ in_range p v = true
  | SECOND_ARRIVED => exists p v, ptr m = Some p /\ val m p = Some v /\ in_range p v = false
  end.

Lemma exchanger_weight_01 t pc l k : 0 <= weight t pc l k <= 1.
Proof. unfold weight, b2z. destruct (match k with KFirst _ => _ | _ => _ end); lia. Qed.

Lemma b2z_inj a b : b2z a = b2z b -> a = b.
Proof. by destruct a, b. Qed.

Lemma wds_lt t d : wds !! t = Some d -> (t < length wds)%nat.
Proof. apply lookup_lt_Some. Qed.

(** What a thread knows of its own part of the memory. *)
Lemma own_facts N t pc m l :
  facts count weight good N t pc l m -> lsays t pc l ->
  bool_decide (ptr m = Some t) = span 12 16 pc /\
  own t m = (span 4 16 pc || span 19 21 pc) /\ live t m = span 4 26 pc /\
  turn t m = turn_at pc l /\ good m.
Proof.
  intros [_ _ HG Ho] (_ & Hd & _).
  assert (forall k, match k with KMain => False | KFirst t' | KOwn t' | KLive t' | KTurn t' _ => t' = t end ->
    count k m = weight t pc l k) as Hx.
  { intros k Hk. apply Ho. intros t' pc' l' Hne. unfold weight.
    destruct k; subst; try done; by rewrite (proj2 (Nat.eqb_neq _ _) Hne). }
  pose proof (Hx (KFirst t) eq_refl) as H1. pose proof (Hx (KOwn t) eq_refl) as H2.
  pose proof (Hx (KLive t) eq_refl) as H3. pose proof (Hx (KTurn t (turn_at pc l)) eq_refl) as H4.
  apply b2z_inj in H1, H2, H3, H4. rewrite Nat.eqb_refl in H1, H2, H3, H4. cbn in H1, H2, H3, H4.
  rewrite Z.eqb_refl in H4. apply andb_true_iff in H4 as [_ H4%Z.eqb_eq]. done.
Qed.

Lemma val_insert_eq m t v p s g : (t < length (vals m))%nat -> val (mkEx p s (<[t := v]> (vals m)) g) t = v.
Proof. intros. unfold val. simpl. by rewrite list_lookup_insert_eq. Qed.
Lemma val_insert_ne m t t' v p s g : t' <> t -> val (mkEx p s (<[t := v]> (vals m)) g) t' = val m t'.
Proof. intros. unfold val. simpl. by rewrite list_lookup_insert_ne. Qed.

Definition owns (t : nat) (f o v : bool) (n : Z) (m : exchanger) : Prop :=
  bool_decide (ptr m = Some t) = f /\ own t m = o /\ live t m = v /\ turn t m = n.
Definition same (t : nat) (m m' : exchanger) : Prop :=
  bool_decide (ptr m' = Some t) = bool_decide (ptr m = Some t) /\
  own t m' = own t m /\ live t m' = live t m /\ turn t m' = turn t m.
Definition waiting (m : exchanger) : bool := match ptr m with Some _ => true | None => false end.

(** A step of [t] changes its own part of the memory as the outline says. *)
Lemma counts_step t pc pc' l l' m m' :
  (t < length wds)%nat ->
  owns t (span 12 16 pc) (span 4 16 pc || span 19 21 pc) (span 4 26 pc) (turn_at pc l) m ->
  owns t (span 12 16 pc') (span 4 16 pc' || span 19 21 pc') (span 4 26 pc') (turn_at pc' l') m' ->
  (forall t', t' <> t -> same t' m m') ->
  b2z (waiting m') = b2z (waiting m) + b2z (span 12 16 pc') - b2z (span 12 16 pc) ->
  forall k, count k m' = count k m + weight t pc' l' k - weight t pc l k.
Proof.
  intros Hlt (F & O & V & T) (F' & O' & V' & T') Hs Hw k. unfold count, weight.
  destruct k as [t'|t'|t'|t' v|]; [..|unfold waiting in Hw; lia];
    (destruct (decide (t' = t)) as [->|Hne];
     [rewrite Nat.eqb_refl; cbn [andb]|
      rewrite (proj2 (Nat.eqb_neq t t')) by done; destruct (Hs t' Hne) as (S1 & S2 & S3 & S4);
      rewrite ?S1, ?S2, ?S3, ?S4; cbn [andb b2z]; lia]).
  - rewrite F, F'. lia.
  - rewrite O, O'. lia.
  - rewrite V, V'. lia.
  - rewrite T, T', (proj2 (Nat.ltb_lt _ _) Hlt). cbn [andb]. lia.
Qed.

Lemma good_val m t v : good m -> val m t = Some v -> (t < length wds)%nat.
Proof.
  intros (Hlen & _) Hv. rewrite <- Hlen. unfold val in Hv.
  destruct (vals m !! t) eqn:E; [|done]. by eapply lookup_lt_Some.
Qed.

Lemma taken_state t m : state m <> SECOND_ARRIVED -> taken t m = false.
Proof. intros. unfold taken. by rewrite (bool_decide_false (state m = _)), andb_false_r. Qed.
Lemma taken_ptr t m : ptr m <> Some t -> taken t m = false.
Proof. intros. unfold taken. by rewrite (bool_decide_false (ptr m = _)). Qed.
Lemma taken_true t m : ptr m = Some t -> state m = SECOND_ARRIVED -> taken t m = true.
Proof. intros Hp Hs. unfold taken. by rewrite !bool_decide_true. Qed.

(** A thread that nothing of the change concerns. *)
Lemma same_frame t m m' :
  bool_decide (ptr m' = Some t) = bool_decide (ptr m = Some t) -> val m' t = val m t ->
  taken t m' = taken t m -> occurs t (log m') = occurs t (log m) -> same t m m'.
Proof. intros Hp Hv Ht Ho. unfold same, own, live, turn. by rewrite Hp, Hv, Ht, Ho. Qed.

(** The five steps that change the memory. *)
Lemma arrive_step t m l :
  tid l = t -> good m -> state m = EMPTY -> owns t false true true (i_ l) m ->
  let m' := (arrive m l).1 in
  owns t true true true (i_ l) m' /\ good m' /\ (forall t', t' <> t -> same t' m m') /\
  waiting m' = true /\ waiting m = false.
Proof.
  intros <- (Hlen & Hlog & HG) Hst (F & O & V & T). rewrite Hst in HG. cbv zeta. set (m' := (arrive m l).1).
  assert (forall t, taken t m = false) as Ht by (intros; apply taken_state; congruence).
  assert (forall t, taken t m' = false) as Ht' by (intros; by apply taken_state).
  unfold own, turn in O, T. rewrite Ht, orb_false_r in O. rewrite Ht in T.
  split; [|split; [|split; [|split; [done|unfold waiting; by rewrite HG]]]].
  - unfold owns, own, turn. rewrite Ht', orb_false_r. split_and!; [by apply bool_decide_true|exact O|exact V|exact T].
  - split_and!; [exact Hlen|exact Hlog|]. cbn. unfold live in V. destruct (val m (tid l)) as [v|] eqn:E; [|done].
    exists (tid l), v. done.
  - intros t' Hne. apply same_frame; [|done|by rewrite Ht, Ht'|done]. cbn. rewrite HG. rewrite !bool_decide_false; congruence.
Qed.

Lemma leave_step t m l :
  good m -> state m = SECOND_ARRIVED -> owns t true true true (i_ l) m ->
  let m' := (leave m l).1 in
  owns t false false true (i_ l + 1) m' /\ good m' /\ (forall t', t' <> t -> same t' m m') /\
  waiting m' = false /\ waiting m = true.
Proof.
  intros (Hlen & Hlog & HG) Hst (F & O & V & T). rewrite Hst in HG. destruct HG as (p & v & Hp & Hv & Hr).
  apply bool_decide_eq_true in F. rewrite Hp in F. simplify_eq. cbv zeta. set (m' := (leave m l).1).
  assert (forall t, taken t m' = false) as Ht' by (intros; by apply taken_state).
  split; [|split; [|split; [|split; [done|unfold waiting; by rewrite Hp]]]].
  - unfold owns, own, turn in *. rewrite Ht', orb_false_r. rewrite (taken_true t m) in T by done.
    cbn [b2z] in *. split_and!; [done|by change (val m' t) with (val m t); rewrite Hv|exact V|].
    change (log m') with (log m). lia.
  - split_and!; [exact Hlen|exact Hlog|done].
  - intros t' Hne. apply same_frame; [|done| |done].
    + cbn. rewrite Hp. rewrite !bool_decide_false; congruence.
    + rewrite Ht', taken_ptr; [done|congruence].
Qed.

Lemma occurs_app t l x : occurs t (l ++ [x]) = occurs t l + b2z ((t =? x.1)%nat || (t =? x.2)%nat).
Proof. unfold occurs. rewrite List.filter_app, length_app. cbn [List.filter]. destruct (_ || _); cbn; lia. Qed.

Lemma swap_step t m l :
  valid -> tid l = t -> good m -> state m = FIRST_ARRIVED -> owns t false true true (i_ l) m ->
  let m' := (do_swap m l).1 in
  owns t false false true (i_ l + 1) m' /\ good m' /\ (forall t', t' <> t -> same t' m m') /\
  state m' = SECOND_ARRIVED /\ waiting m' = waiting m.
Proof.
  intros Hval <- HG Hst (F & O & V & T). pose proof HG as (Hlen & Hlog & HS). rewrite Hst in HS.
  destruct HS as (p & w & Hp & Hw & Hr). rewrite Hp in F. apply bool_decide_eq_false in F.
  assert (p <> tid l) as Hne by congruence.
  assert (forall t, taken t m = false) as Ht by (intros; apply taken_state; congruence).
  unfold own, turn in O, T. rewrite Ht, orb_false_r in O. rewrite Ht in T. cbn [b2z] in T.
  unfold live in V. destruct (val m (tid l)) as [v|] eqn:Hv; [|done].
  pose proof (good_val _ _ _ HG Hv) as Hlt. pose proof (good_val _ _ _ HG Hw) as Hpl.
  unfold do_swap. rewrite Hp, Hw, Hv. cbv zeta. cbn [fst].
  set (g := log m ++ [(p, tid l)]). set (m' := mkEx _ _ _ _).
  assert (val m' p = Some v) as Hvp by (unfold val, m'; cbn; rewrite list_lookup_insert_eq; [done|rewrite length_insert; lia]).
  assert (val m' (tid l) = Some w) as Hvt.
  { unfold val, m'. cbn. rewrite list_lookup_insert_ne, list_lookup_insert_eq by (lia || done). done. }
  assert (in_range (tid l) w = false /\ in_range p v = false) as [R1 R2].
  { unfold in_range in *. destruct (wds !! tid l) as [d|] eqn:Ed; [|done]. destruct (wds !! p) as [d'|] eqn:Ed'; [|done].
    pose proof (v_disjoint Hval _ _ _ _ Ed Ed' (not_eq_sym Hne)). apply andb_true_iff in O as [], Hr as []. zbool.
    split; apply andb_false_iff; rewrite Z.leb_gt, Z.ltb_ge; lia. }
  assert (taken p m' = true) as Htp by (by apply taken_true).
  assert (taken (tid l) m' = false) as Htt by (apply taken_ptr; cbn; congruence).
  split; [|split; [|split; [|split; [done|by unfold waiting; rewrite Hp]]]].
  - unfold owns, own, live, turn. rewrite Hvt, Htt, R1. cbn [ptr log m']. unfold g. rewrite occurs_app. cbn [fst snd].
    rewrite Nat.eqb_refl, orb_true_r. cbn [b2z orb]. split_and!; [by apply bool_decide_false|done|done|lia].
  - split_and!.
    + cbn. by rewrite !length_insert.
    + apply Forall_app. split; [exact Hlog|]. by apply Forall_singleton.
    + cbn. exists p, v. done.
  - intros t' Hne'. destruct (decide (t' = p)) as [->|Hnp].
    + unfold same, own, live, turn. rewrite Hvp, Hw, Htp, Ht, Hr, R2. cbn [ptr log m']. rewrite Hp.
      unfold g. rewrite occurs_app. cbn [fst snd]. rewrite Nat.eqb_refl. cbn [b2z orb]. split_and!; [done|done|done|lia].
    + apply same_frame.
      * cbn. by rewrite Hp.
      * unfold val, m'. cbn. by rewrite !list_lookup_insert_ne.
      * rewrite Ht, taken_ptr; [done|]. cbn. congruence.
      * cbn [log m']. unfold g. rewrite occurs_app. cbn [fst snd].
        rewrite (proj2 (Nat.eqb_neq t' p)), (proj2 (Nat.eqb_neq t' (tid l))) by done. cbn. lia.
Qed.

(** A variable of a thread that is not in the exchanger. *)
Lemma store_step t m v :
  good m -> ptr m <> Some t -> (t < length wds)%nat ->
  let m' := mkEx (ptr m) (state m) (<[t := v]> (vals m)) (log m) in
  good m' /\ (forall t', t' <> t -> same t' m m') /\ waiting m' = waiting m /\
  own t m' = match v with Some x => in_range t x | None => false end /\
  live t m' = (match v with Some _ => true | None => false end) /\ turn t m' = turn t m /\
  bool_decide (ptr m' = Some t) = false.
Proof.
  intros (Hlen & Hlog & HG) Hp Hlt. cbv zeta. set (m' := mkEx _ _ _ _).
  assert (val m' t = v) as Hv by (apply val_insert_eq; lia).
  assert (forall p, ptr m = Some p -> val m' p = val m p) as Hvp by (intros; apply val_insert_ne; congruence).
  split; [|split; [|split; [done|]]].
  - split_and!; [cbn; by rewrite length_insert|exact Hlog|]. cbn.
    destruct (state m); [done|..]; destruct HG as (p & w & Hpp & Hw & Hr); exists p, w; split_and!; [done| |done|done| |done];
      by rewrite Hvp.
  - intros t' Hne. apply same_frame; [done|by apply val_insert_ne|done|done].
  - unfold own, live, turn. rewrite Hv, (taken_ptr t m'), (taken_ptr t m) by done. rewrite orb_false_r.
    split_and!; [done|done|done|by apply bool_decide_false].
Qed.

Lemma pick_range d r :
  0 <= min_ d < max_ d -> max_ d < 4294967296 -> min_ d <= pick d r < max_ d.
Proof.
  intros. unfold pick. rewrite (u32_small (max_ d - min_ d)) by lia.
  pose proof (Z.mod_pos_bound (u32 r) (max_ d - min_ d)). rewrite u32_small; lia.
Qed.

(** ** All program points *)

Context (Hvalid : valid) (N : Z).

Lemma foreign_ok t m l :
  wds !! t = Some (wd l) -> tid l = t -> live t m = true -> own t m = false -> got_foreign m l = true.
Proof.
  intros Hd Ht HV HO. unfold live, own, got_foreign in *. rewrite Ht. destruct (val m t) as [v|]; [|done].
  apply orb_false_iff in HO as [HO _]. unfold in_range in HO. rewrite Hd in HO.
  apply andb_false_iff in HO. apply orb_true_iff. rewrite Z.ltb_lt, Z.leb_le. rewrite Z.leb_gt, Z.ltb_ge in HO. lia.
Qed.

(** What thread [t] knows at [pc], in terms of the memory. *)
Lemma known t pc m l :
  knows count weight inside says lsays good N t pc m l ->
  lsays t pc l /\ (inside t pc = true -> says t pc m l) /\
  owns t (span 12 16 pc) (span 4 16 pc || span 19 21 pc) (span 4 26 pc) (turn_at pc l) m /\ good m.
Proof.
  intros (Hf & Hl & Hs). destruct (own_facts _ _ _ _ _ Hf Hl) as (F & O & V & T & HG). done.
Qed.

(** A step that changes the memory of its thread only. *)
Lemma updates_step t pc f :
  inside t (S pc) = inside t pc ->
  (forall m l, lsays t pc l -> (inside t pc = true -> says t pc m l) -> good m ->
     owns t (span 12 16 pc) (span 4 16 pc || span 19 21 pc) (span 4 26 pc) (turn_at pc l) m ->
     let m' := (f m l).1 in let l' := (f m l).2 in
     owns t (span 12 16 (S pc)) (span 4 16 (S pc) || span 19 21 (S pc)) (span 4 26 (S pc)) (turn_at (S pc) l') m' /\
     good m' /\ (forall t', t' <> t -> same t' m m') /\
     b2z (waiting m') = b2z (waiting m) + b2z (span 12 16 (S pc)) - b2z (span 12 16 pc) /\
     lsays t (S pc) l' /\ (inside t (S pc) = true -> says t (S pc) m' l') /\
     (inside t pc = false -> state m' = state m)) ->
  updates count weight inside says lsays good N t pc always f.
Proof.
  intros Hin H. split; [done|]. intros m l Hk _. apply known in Hk as (Hl & Hs & Ho & HG).
  destruct (H m l Hl Hs HG Ho) as (Ho' & HG' & Hsame & Hw & Hl' & Hs' & Hst).
  split; [|split; [done|split; [done|split; [done|]]]].
  - apply counts_step; try done. destruct Hl as (_ & Hd & _). by eapply wds_lt.
  - intros Hout t' pc' l'. unfold says. by rewrite (Hst Hout).
Qed.

Ltac lsays_tac :=
  repeat match goal with H : lsays _ _ _ |- _ => destruct H as (? & ? & ? & ? & ? & ?) end;
  unfold lsays, span in *; cbn in *; zbool; split_and!; try done; intros; try lia; try done.

Lemma updates_plain t pc f :
  inside t (S pc) = inside t pc -> (forall m l, (f m l).1 = m) ->
  span 12 16 (S pc) = span 12 16 pc ->
  span 4 16 (S pc) || span 19 21 (S pc) = span 4 16 pc || span 19 21 pc -> span 4 26 (S pc) = span 4 26 pc ->
  (forall m l, lsays t pc l -> (inside t pc = true -> says t pc m l) ->
     turn_at (S pc) (f m l).2 = turn_at pc l /\ lsays t (S pc) (f m l).2 /\
     (inside t (S pc) = true -> says t (S pc) m (f m l).2)) ->
  updates count weight inside says lsays good N t pc always f.
Proof.
  intros Hin Hm E1 E2 E3 H. apply updates_step; [done|]. intros m l Hl Hs HG Ho. cbv zeta.
  rewrite (Hm m l), E1, E2, E3. destruct (H m l Hl Hs) as (-> & Hl' & Hs').
  split_and!; try done. lia.
Qed.

Lemma ok_draw t : updates count weight inside says lsays good N t 3 always draw.
Proof.
  apply updates_step; [done|]. intros m l Hl _ HG (F & O & V & T). apply bool_decide_eq_false in F.
  pose proof Hl as (Ht & Hd & _). pose proof (wds_lt _ _ Hd) as Hlt. rewrite <- Ht in Hlt, F. cbv zeta. unfold draw. rewrite Ht in *.
  cbn [fst snd]. destruct (store_step t m (Some (pick (wd l) (rnd l (drawn l)))) HG F Hlt) as (HG' & Hs & Hw & O' & V' & T' & F').
  destruct (v_data Hvalid _ _ Hd) as (R1 & R2 & R3). pose proof (pick_range (wd l) (rnd l (drawn l)) R1 R2) as Hr.
  split; [|split; [exact HG'|split; [exact Hs|split; [by rewrite Hw; cbn; lia|split; [|done]]]]].
  - unfold owns. rewrite F', O', V', T', T. split_and!; [done| |done|done]. unfold in_range. rewrite Hd.
    apply andb_true_iff. rewrite Z.leb_le, Z.ltb_lt. lia.
  - lsays_tac.
Qed.

Lemma ok_next t : updates count weight inside says lsays good N t 26 always next.
Proof.
  apply updates_step; [done|]. intros m l Hl _ HG (F & O & V & T). apply bool_decide_eq_false in F.
  pose proof Hl as (Ht & Hd & Hi & _ & Hlt' & _). specialize (Hlt' eq_refl).
  pose proof (wds_lt _ _ Hd) as Hlt. cbv zeta. unfold next. rewrite Ht in *.
  cbn [fst snd]. destruct (store_step t m None HG F Hlt) as (HG' & Hs & Hw & O' & V' & T' & F').
  destruct (v_data Hvalid _ _ Hd) as (R1 & R2 & R3). rewrite (u32_small (i_ l + 1)) by lia.
  split; [|split; [exact HG'|split; [exact Hs|split; [by rewrite Hw; cbn; lia|split; [|done]]]]].
  - unfold owns. rewrite F', O', V', T', T. split_and!; [done..|]. unfold turn_at. cbn. lia.
  - lsays_tac.
Qed.

Lemma ok_arrive t : updates count weight inside says lsays good N t 11 always arrive.
Proof.
  apply updates_step; [done|]. intros m l Hl Hs HG Ho. pose proof Hl as (Ht & _). specialize (Hs eq_refl).
  unfold turn_at in Ho. cbn in Ho. rewrite Z.add_0_r in Ho. destruct (arrive_step t m l Ht HG Hs Ho) as (Ho' & HG' & Hsm & Hw & Hw').
  cbv zeta. unfold turn_at. cbn [span Nat.leb andb orb b2z]. rewrite Hw, Hw', Z.add_0_r.
  split_and!; try done. lsays_tac.
Qed.

Lemma ok_leave t : updates count weight inside says lsays good N t 16 always leave.
Proof.
  apply updates_step; [done|]. intros m l Hl Hs HG Ho. specialize (Hs eq_refl).
  unfold turn_at in Ho. cbn in Ho. rewrite Z.add_0_r in Ho. destruct (leave_step t m l HG Hs Ho) as (Ho' & HG' & Hsm & Hw & Hw').
  cbv zeta. unfold turn_at. cbn [span Nat.leb andb orb b2z]. rewrite Hw, Hw'.
  split_and!; try done. lsays_tac.
Qed.

Lemma ok_swap t : updates count weight inside says lsays good N t 21 always do_swap.
Proof.
  apply updates_step; [done|]. intros m l Hl Hs HG Ho. pose proof Hl as (Ht & _). specialize (Hs eq_refl).
  unfold turn_at in Ho. cbn in Ho. rewrite Z.add_0_r in Ho.
  destruct (swap_step t m l Hvalid Ht HG Hs Ho) as (Ho' & HG' & Hsm & Hst & Hw).
  assert ((do_swap m l).2 = l) as Hl2 by (unfold do_swap; by destruct (ptr m)).
  cbv zeta. unfold turn_at. cbn [span Nat.leb andb orb b2z]. rewrite Hw, Hl2.
  split_and!; try done; [lia|]. lsays_tac.
Qed.

Ltac use_state :=
  unfold is_state, is_null in *;
  repeat match goal with
  | H : bool_decide _ = true |- _ => apply bool_decide_eq_true in H
  | H : bool_decide _ = false |- _ => apply bool_decide_eq_false in H
  end;
  match goal with HG : good ?m |- _ => destruct HG as (? & ? & HG); destruct (state m) eqn:Hst; cbn in HG end;
  repeat match goal with H : exists _, _ |- _ => destruct H as (? & H) | H : _ /\ _ |- _ => destruct H end.
Ltac point_facts :=
  match goal with
  | H : knows _ _ _ _ _ _ _ _ _ _ _ |- _ =>
      let Hl := fresh "Hl" in let Hs := fresh "Hs" in let F := fresh "F" in
      apply known in H as (Hl & Hs & (F & ? & ? & _) & ?); first [specialize (Hs eq_refl); cbn in Hs | clear Hs];
      cbn in F
  end.
Ltac move_point :=
  split; [left; reflexivity|]; intros m l H Hc; point_facts;
  first [ split_and!; [intros []; reflexivity | lsays_tac | intros Hin; first [discriminate Hin | exact I | by cbn; use_state; congruence]]
        | exfalso; use_state; congruence ].
Ltac ok_point :=
  unfold ok; cbn;
  match goal with
  | |- updates _ _ _ _ _ _ _ _ _ _ _ =>
      first [ apply ok_draw | apply ok_next | apply ok_arrive | apply ok_leave | apply ok_swap
            | apply updates_plain; [done..|]; intros m l Hl Hs; cbn; split_and!; [|lsays_tac|done];
              destruct Hl as (? & ? & ? & ? & ?); unfold turn_at; cbn; auto with lia ]
  | |- moves _ _ _ _ _ _ _ _ _ _ _ => move_point
  | |- moves _ _ _ _ _ _ _ _ _ _ _ /\ moves _ _ _ _ _ _ _ _ _ _ _ => split; move_point
  | |- moves _ _ _ _ _ _ _ _ _ _ _ /\ _ =>
      split; [move_point | intros m l H; point_facts;
        first [ use_state; rewrite ?bool_decide_true by congruence; first [done | by rewrite orb_true_r | match goal with E : ptr _ = _ |- _ => by rewrite E end | congruence]
              | match goal with Hl : lsays _ _ _ |- _ => destruct Hl as (? & ? & _); by eapply foreign_ok end ] ]
  | |- _ /\ _ /\ _ /\ (forall m l, facts _ _ _ _ _ _ _ _ -> _) =>
      split_and!; [reflexivity..|intros ? []; reflexivity|intros m l _ Hl; split; [lsays_tac|exact I]]
  | |- _ => split_and!; [reflexivity..|intros ? []; reflexivity|intros l Hl; lsays_tac]
  end.

Lemma exchanger_ok_all t pc : ok code count weight inside says lsays good N t pc.
Proof.
  do 28 (destruct pc as [|pc]; [ok_point|]). reflexivity.
Qed.

(** ** Wake-ups *)

(** The first of an exchange sleeps until its value is taken, the others until
    the exchange is over. *)
Definition needs (c : nat) (m : exchanger) : Prop :=
  match c with
  | 0%nat => state m = SECOND_ARRIVED
  | 1%nat => state m <> SECOND_ARRIVED
  | _ => False
  end.
Definition hot (c t pc : nat) : bool :=
  match c with 0%nat => (pc =? 22)%nat | 1%nat => (pc =? 17)%nat | _ => false end.
Definition sleepers (c : nat) : option ctr := if (c =? 0)%nat then Some KMain else None.

Ltac alarm_tac :=
  intros [|[|c]] Hn; cbn in Hn |- *; first [by left | by right | done | tauto | right; split; congruence ].
Ltac notify_point :=
  split; [intros [|[|c]]; cbn; done|]; cbn;
  lazymatch goal with
  | |- (forall l k, _) /\ _ =>
      split; [intros l k Hk; by simplify_eq/=|]; intros m l H; point_facts; cbn in *; split; [congruence|];
      intros [|[|c]]; done
  | |- true = true /\ _ =>
      split; [done|]; intros m l [|[|c]] H Hn Hh; cbn in Hh; try done; right; split; [done|];
      exists KMain; split; [done|]; unfold count, b2z; by destruct (ptr m)
  | |- forall m l c, _ -> _ -> _ -> _ \/ _ => intros m l [|[|c]] H Hn Hh; cbn in Hh; try done; by right
  | |- forall m l, _ -> passes _ _ _ _ _ _ _ => intros m l H; point_facts; alarm_tac
  end.

Lemma exchanger_notifies t pc : notifies code count weight inside says lsays good N needs hot sleepers t pc.
Proof.
  do 28 (destruct pc as [|pc]; [notify_point|]). split; [|done]. by intros [|[|c]].
Qed.
End outline.

(** * Reachable states *)

Section reachable.
Context (wds : list worker_data) (rnds : nat -> nat -> Z) (Hvalid : valid wds).
Abbreviation INV := (Inv code (count wds) weight inside says (lsays wds) (good wds) (zlen wds)).

Lemma ex_start_lookup t th :
  threads (start wds rnds) !! t = Some th ->
  exists d, wds !! t = Some d /\ th = mkThread 0 Running (mkLocal t d 0 (rnds t) 0).
Proof. cbn. rewrite list_lookup_imap. intros (d & Hd & ->)%fmap_Some. eauto. Qed.

Lemma ex_start_total k t0 (l : list worker_data) :
  total weight k t0 (imap (fun t d => mkThread 0 Running (mkLocal (t0 + t) d 0 (rnds (t0 + t)%nat) 0)) l) =
  match k with
  | KTurn t v => b2z ((t0 <=? t)%nat && (t <? t0 + length l)%nat && (v =? 0))
  | _ => 0
  end.
Proof.
  revert t0. induction l as [|d l IH]; intros t0.
  - destruct k as [t|t|t|t v|]; try done. cbn [length imap total].
    assert ((t0 <=? t)%nat && (t <? t0 + 0)%nat = false) as ->; [|done].
    apply andb_false_iff. rewrite Nat.leb_gt, Nat.ltb_ge. lia.
  - cbn [imap total t_pc t_loc].
    assert (forall A (f g : nat -> worker_data -> A), (forall t d, f t d = g t d) -> imap f l = imap g l) as Hext
      by (intros; by apply imap_ext).
    rewrite (Hext _ _ (fun t d => mkThread 0 Running (mkLocal (S t0 + t) d 0 (rnds (S t0 + t)%nat) 0)))
      by (intros; unfold compose; by rewrite Nat.add_succ_r).
    rewrite IH. unfold weight. destruct k as [t|t|t|t v|]; [by destruct (t0 =? t)%nat..| |done].
    match goal with |- context [turn_at 0 ?x] => change (turn_at 0 x) with 0 end. cbn [length].
    rewrite (Z.eqb_sym 0 v). destruct (v =? 0); [|by rewrite !andb_false_r].
    rewrite !andb_true_r.
    destruct (t0 =? t)%nat eqn:E1, (t0 <=? t)%nat eqn:E2, (t <? t0 + S (length l))%nat eqn:E3,
      (S t0 <=? t)%nat eqn:E4, (t <? S t0 + length l)%nat eqn:E5;
      rewrite ?Nat.eqb_eq, ?Nat.eqb_neq, ?Nat.leb_le, ?Nat.leb_gt, ?Nat.ltb_lt, ?Nat.ltb_ge in *; cbn; lia.
Qed.

Lemma ex_start_inv : INV (start wds rnds).
Proof.
  constructor.
  - cbn. by rewrite length_imap.
  - intros t. split; [done|]. intros (th & Ht & _ & Hin). by destruct (ex_start_lookup _ _ Ht) as (d & _ & ->).
  - intros t th Ht [_ Hin]. by destruct (ex_start_lookup _ _ Ht) as (d & _ & ->).
  - intros k. pose proof (ex_start_total k 0 wds) as Hk. cbn [Nat.add] in Hk.
    cbn [threads start]. rewrite Hk. clear Hk. unfold count. cbn [mem start].
    assert (forall t, val (Exchanger_ctor (length wds)) t = None) as Hv.
    { intros t. unfold val. cbn. destruct (replicate _ _ !! t) eqn:E; [|done]. by apply lookup_replicate in E as [-> _]. }
    destruct k as [t|t|t|t v|]; [done| |by unfold live; rewrite Hv| |done].
    + unfold own. rewrite Hv, taken_ptr by done. done.
    + unfold turn. rewrite taken_ptr by done. change (occurs t _ - b2z false) with 0. by rewrite (Z.eqb_sym 0 v).
  - split_and!; [apply length_replicate|constructor|done].
  - intros t th Ht. by destruct (ex_start_lookup _ _ Ht) as (d & _ & ->).
  - intros t th Ht. destruct (ex_start_lookup _ _ Ht) as (d & Hd & ->). destruct (v_data _ Hvalid _ _ Hd) as (_ & _ & ?).
    unfold lsays, span. cbn. split_and!; [done|done|lia|lia|done|done|lia].
Qed.

Lemma ex_reach cf : rtc (step code) (start wds rnds) cf -> INV cf /\ Alarmed needs hot cf.
Proof.
  intros Hr. eapply (alarmed_reachable code (count wds) weight inside says (lsays wds) (good wds) (zlen wds));
    [apply exchanger_weight_01|intros; by apply exchanger_ok_all|intros; by apply exchanger_notifies|apply ex_start_inv| |done].
  intros t th c Ht Hs. by destruct (ex_start_lookup _ _ Ht) as (d & _ & ->).
Qed.

(** ** States that cannot go on *)

Lemma code_end t pc : code t !! pc = None -> (28 <= pc)%nat.
Proof. intros H%lookup_ge_None. exact H. Qed.

Lemma code_wait t pc c : code t !! pc = Some (IWait c) -> pc = 6%nat /\ c = 1%nat \/ pc = 13%nat /\ c = 0%nat.
Proof.
  intros H. assert (pc < 28)%nat as Hlt by (apply lookup_lt_Some in H; exact H).
  do 28 (destruct pc as [|pc]; [cbn in H; by simplify_eq; auto|]). lia.
Qed.

Lemma thread_facts cf t th :
  INV cf -> threads cf !! t = Some th ->
  lsays wds t (t_pc th) (t_loc th) /\ bool_decide (ptr (mem cf) = Some t) = span 12 16 (t_pc th) /\
  turn t (mem cf) = turn_at (t_pc th) (t_loc th) /\ good wds (mem cf).
Proof.
  intros HI Ht. pose proof (inv_lsays _ _ _ _ _ _ _ _ _ HI _ _ Ht) as Hl.
  destruct (own_facts _ _ _ _ _ _ (inv_facts _ _ _ _ _ _ _ _ exchanger_weight_01 _ _ _ HI Ht) Hl) as (F & _ & _ & T & HG).
  done.
Qed.

Lemma finished_turns cf t th :
  INV cf -> threads cf !! t = Some th -> finished code t th ->
  occurs t (log (mem cf)) = loop_count (wd (t_loc th)).
Proof.
  intros HI Ht [_ He]. apply code_end in He. destruct (thread_facts _ _ _ HI Ht) as ((_ & _ & _ & _ & _ & Hi) & F & T & _).
  specialize (Hi He). unfold turn_at, span in *.
  assert (forall a b, (b < 28)%nat -> (a <=? t_pc th)%nat && (t_pc th <=? b)%nat = false) as Hs.
  { intros a b Hb. apply andb_false_iff. right. apply Nat.leb_gt. lia. }
  rewrite !Hs in T by lia. rewrite Hs in F by lia. apply bool_decide_eq_false in F.
  unfold turn in T. rewrite taken_ptr in T by done. cbn in T. lia.
Qed.

(** Everybody has finished, or one thread waits for a partner and everybody
    else has finished. *)
Lemma blocked_lone cf t th :
  INV cf -> Alarmed needs hot cf -> blocked code cf -> threads cf !! t = Some th -> ~ finished code t th ->
  ptr (mem cf) = Some t /\ state (mem cf) = FIRST_ARRIVED /\ t_pc th = 13%nat.
Proof.
  intros HI HA Hb Ht Hnf.
  assert (forall t th, threads cf !! t = Some th -> finished code t th \/
    (t_pc th = 6%nat /\ state (mem cf) = SECOND_ARRIVED \/ t_pc th = 13%nat /\ state (mem cf) <> SECOND_ARRIVED)) as Hcase.
  { intros t' th' Ht'.
    destruct (blocked_no_alarm code (count wds) weight inside says (lsays wds) (good wds) (zlen wds)
      ltac:(intros; by apply exchanger_ok_all) needs hot sleepers ltac:(intros; by apply exchanger_notifies)
      cf t' th' HI HA Hb Ht') as [?|(c & _ & Hc & Hn)]; [by left|right].
    apply code_wait in Hc as [[-> ->]|[-> ->]]; cbn in Hn; [left|by right].
    split; [done|]. by destruct (state (mem cf)); [destruct Hn..|]. }
  destruct (thread_facts _ _ _ HI Ht) as (_ & F & _ & HG). pose proof HG as (_ & _ & HS).
  destruct (Hcase t th Ht) as [?|[[Hpc Hs]|[Hpc Hs]]]; [done|exfalso|].
  - rewrite Hs in HS. destruct HS as (p & v & Hp & Hv & _).
    assert (p < length wds)%nat as Hlt by (by eapply good_val).
    assert (exists thp, threads cf !! p = Some thp) as [thp Htp].
    { apply lookup_lt_is_Some. pose proof (inv_len _ _ _ _ _ _ _ _ _ HI). lia. }
    destruct (thread_facts _ _ _ HI Htp) as (_ & Fp & _). rewrite bool_decide_true in Fp by done.
    destruct (Hcase p thp Htp) as [[_ He]|[[E _]|[_ ?]]]; [|by rewrite E in Fp|done].
    apply code_end in He. unfold span in Fp. symmetry in Fp. apply andb_true_iff in Fp as [_ Fp%Nat.leb_le]. lia.
  - rewrite Hpc in F. cbn in F. apply bool_decide_eq_true in F. split_and!; [done| |done].
    destruct (state (mem cf)); [congruence|done|done].
Qed.
End reachable.

(** C5: Whatever the workers and their random numbers, if every worker draws from a
    range of its own then in every reachable state no assertion of the exchanger
    or of the workers has failed (each exchange gave a worker a value of another
    one), and nobody exchanged with itself; when no thread can go on, all have made
    their exchanges and returned, except perhaps one that waits for a partner. *)
Theorem exchanger_correct wds rnds cf :
  valid wds -> rtc (step code) (start wds rnds) cf ->
  (forall t th, threads cf !! t = Some th -> t_status th <> Failed) /\
  Forall (fun p => p.1 <> p.2) (log (mem cf)) /\
  (blocked code cf -> forall t th, threads cf !! t = Some th ->
     finished code t th /\ occurs t (log (mem cf)) = loop_count (wd (t_loc th)) \/
     ptr (mem cf) = Some t /\ state (mem cf) = FIRST_ARRIVED).
Proof.
  intros Hv Hr. destruct (ex_reach _ _ Hv _ Hr) as [HI HA]. split_and!.
  - intros t th Ht Hf. pose proof (inv_wait _ _ _ _ _ _ _ _ _ HI _ _ Ht) as Hw. unfold at_wait in Hw. by rewrite Hf in Hw.
  - destruct (inv_G _ _ _ _ _ _ _ _ _ HI) as (_ & Hlog & _). eapply Forall_impl; [exact Hlog|]. by intros ? (? & _).
  - intros Hb t th Ht. destruct (decide (code t !! t_pc th = None /\ t_status th = Running)) as [[He Hs]|Hn].
    + left. assert (finished code t th) as Hf by done. split; [done|]. by apply (finished_turns wds).
    + right. assert (~ finished code t th) as Hf by (intros [? ?]; by apply Hn).
      destruct (blocked_lone _ Hv _ _ _ HI HA Hb Ht Hf) as (? & ? & _). done.
Qed.

Lemma main_valid n : 0 <= n < 4294967296 -> valid [mkWd 1000 n 100 200; mkWd 1000 n 200 300].
Proof.
  intros Hn. constructor.
  - intros [|[|t]] d Hd; simplify_eq/=; lia.
  - intros [|[|t1]] [|[|t2]] d1 d2 H1 H2 Hne; simplify_eq/=; try done; lia.
Qed.

(** With two threads every exchange is one of each. *)
Lemma occurs_two (l : list (nat * nat)) t :
  Forall (fun p => p.1 <> p.2 /\ (p.1 < 2)%nat /\ (p.2 < 2)%nat) l -> (t < 2)%nat -> occurs t l = zlen l.
Proof.
  intros Hl Ht. unfold occurs. rewrite List.forallb_filter_id; [done|].
  apply forallb_forall. intros [a b] Hin%list_elem_of_In. rewrite Forall_forall in Hl. specialize (Hl _ Hin). cbn in *.
  apply orb_true_iff. rewrite !Nat.eqb_eq. lia.
Qed.

Lemma finished_dec (t : nat) (th : thread local) : finished code t th \/ ~ finished code t th.
Proof.
  destruct (decide (code t !! t_pc th = None /\ t_status th = Running)) as [[? ?]|Hn]; [by left|right].
  intros [? ?]. by apply Hn.
Qed.

(** When all have finished the exchanger is empty. *)
Lemma finished_empty wds cf :
  Inv code (count wds) weight inside says (lsays wds) (good wds) (zlen wds) cf ->
  (forall t th, threads cf !! t = Some th -> finished code t th) ->
  state (mem cf) = EMPTY /\ ptr (mem cf) = None.
Proof.
  intros HI Hall. pose proof (inv_G _ _ _ _ _ _ _ _ _ HI) as HG. pose proof HG as (_ & _ & HS).
  assert (forall p v, ptr (mem cf) = Some p -> val (mem cf) p = Some v -> False) as Hno.
  { intros p v Hp Hv. pose proof (good_val _ _ _ _ HG Hv) as Hlt. pose proof (inv_len _ _ _ _ _ _ _ _ _ HI).
    assert (exists thp, threads cf !! p = Some thp) as [thp Htp] by (apply lookup_lt_is_Some; lia).
    destruct (Hall _ _ Htp) as [_ He%code_end]. destruct (thread_facts _ _ _ _ HI Htp) as (_ & F & _).
    rewrite Hp, bool_decide_true in F by done. unfold span in F. symmetry in F.
    apply andb_true_iff in F as [_ F%Nat.leb_le]. lia. }
  destruct (state (mem cf)); [done|..]; destruct HS as (p & v & ? & ? & _); by destruct (Hno p v).
Qed.

Section main.
Context (n : Z) (Hn : 0 <= n < 4294967296).
Let wds := [mkWd 1000 n 100 200; mkWd 1000 n 200 300].
Abbreviation INV := (Inv code (count wds) weight inside says (lsays wds) (good wds) (zlen wds)).

Lemma main_loops cf t th : INV cf -> threads cf !! t = Some th -> (t < 2)%nat /\ loop_count (wd (t_loc th)) = n.
Proof.
  intros HI Ht. destruct (thread_facts _ _ _ _ HI Ht) as ((_ & Hd & _) & _).
  destruct t as [|[|t]]; simplify_eq/=; split; try lia; by destruct (wd (t_loc th)); simplify_eq.
Qed.

Lemma main_exchanges cf t th : INV cf -> threads cf !! t = Some th -> finished code t th -> zlen (log (mem cf)) = n.
Proof.
  intros HI Ht Hf. pose proof (finished_turns _ _ _ _ HI Ht Hf) as Ho. destruct (main_loops _ _ _ HI Ht) as [Ht2 Hc].
  destruct (inv_G _ _ _ _ _ _ _ _ _ HI) as (_ & Hlog & _). by rewrite Hc, occurs_two in Ho.
Qed.

(** The other worker cannot have finished while this one waits for it. *)
Lemma main_nobody_waits cf :
  INV cf -> Alarmed needs hot cf -> blocked code cf -> forall t th, threads cf !! t = Some th -> finished code t th.
Proof.
  intros HI HA Hb t th Ht. destruct (finished_dec t th) as [?|Hf]; [done|exfalso].
  pose proof (main_valid n Hn) as Hv. destruct (blocked_lone _ Hv _ _ _ HI HA Hb Ht Hf) as (Hp & Hs & Hpc).
  destruct (main_loops _ _ _ HI Ht) as [Ht2 Hc]. pose proof (inv_len _ _ _ _ _ _ _ _ _ HI) as Hlen. cbn in Hlen.
  assert (exists tho, threads cf !! (1 - t)%nat = Some tho) as [tho Hto] by (apply lookup_lt_is_Some; lia).
  destruct (finished_dec (1 - t) tho) as [Hfo|Hf2].
  - pose proof (main_exchanges _ _ _ HI Hto Hfo) as Ho. destruct (inv_G _ _ _ _ _ _ _ _ _ HI) as (_ & Hlog & _).
    destruct (thread_facts _ _ _ _ HI Ht) as ((_ & _ & _ & _ & Hi & _) & _ & T & _). rewrite Hpc in Hi, T.
    specialize (Hi eq_refl). unfold turn in T. rewrite taken_state, occurs_two in T by (done || congruence).
    unfold turn_at in T. cbn in T. lia.
  - destruct (blocked_lone _ Hv _ _ _ HI HA Hb Hto Hf2) as (Hp2 & _). rewrite Hp in Hp2. simplify_eq. lia.
Qed.
End main.

(** The test program ends: a state of the two workers that cannot go on is one
    in which both have returned after exactly [loop_count] exchanges with each
    other, and the exchanger is empty; neither waits for a partner that has left. *)
Theorem exchanger_main_ends n rnds cf :
  0 <= n < 4294967296 -> rtc (step code) (main_with n rnds) cf -> blocked code cf ->
  (forall t th, threads cf !! t = Some th -> finished code t th) /\ zlen (log (mem cf)) = n /\
  state (mem cf) = EMPTY /\ ptr (mem cf) = None.
Proof.
  intros Hn Hr Hb. destruct (ex_reach _ _ (main_valid n Hn) _ Hr) as [HI HA].
  pose proof (main_nobody_waits n Hn cf HI HA Hb) as Hall. split; [exact Hall|].
  assert (exists th0, threads cf !! 0%nat = Some th0) as [th0 Ht0].
  { apply lookup_lt_is_Some. pose proof (inv_len _ _ _ _ _ _ _ _ _ HI) as Hl. cbn in Hl. lia. }
  split; [exact (main_exchanges n Hn cf _ _ HI Ht0 (Hall _ _ Ht0))|by eapply finished_empty].
Qed.

(** One exchange of the two workers, from start to end. *)
Definition demo_rnds (t k : nat) : Z := Z.of_nat (t + k).
Definition demo_end : config exchanger local :=
  run_schedule code (replicate 13 (0, 0) ++ replicate 60 (1, 0) ++ replicate 60 (0, 0) ++ replicate 60 (1, 0))%nat
    (main_with 1 demo_rnds).

Lemma exchanger_demo_blocked : blocked code demo_end.
Proof.
  assert (demo_end = run_schedule code [] demo_end) as -> by done.
  intros t k. destruct t as [|[|t]]; vm_compute; reflexivity.
Qed.

Lemma exchanger_correct_witness :
  valid [mkWd 1000 1 100 200; mkWd 1000 1 200 300] /\ Forall (fun p => p.1 <> p.2) (log (mem demo_end)).
Proof.
  split; [by apply main_valid|].
  apply (exchanger_correct [mkWd 1000 1 100 200; mkWd 1000 1 200 300] demo_rnds demo_end);
    [by apply main_valid|apply run_schedule_reachable].
Defined.

Lemma exchanger_main_ends_witness : zlen (log (mem demo_end)) = 1.
Proof.
  apply (exchanger_main_ends 1 demo_rnds demo_end); [done|apply run_schedule_reachable|apply exchanger_demo_blocked].
Defined.
End Exchanger.
