(* ===== verification/Turns.v ===== *)
(** A log of which thread did something when, as a ghost of the shared memory: how
    often a thread occurs in it, the counters of [Threads] that tie that number to the
    thread's own loop variable, and how long the log is when all have done their
    share.  Nothing here translates code of the repository. *)

From stdpp Require Import prelude list relations.
From Stdlib Require Import ZArith Lia.
From S2P Require Import Prelude Threads.

Definition occurs (t : nat) (log : list nat) : Z := zlen (List.filter (Nat.eqb t) log).

Lemma occurs_snoc t t' log : occurs t (log ++ [t']) = occurs t log + b2z (t =? t')%nat.
Proof.
  unfold occurs. rewrite List.filter_app, length_app, Nat2Z.inj_add. cbn. destruct (t =? t')%nat; cbn; lia.
Qed.
Lemma occurs_nonneg t log : 0 <= occurs t log.
Proof. unfold occurs. lia. Qed.

(** Taking out the entries of one thread. *)
Lemma occurs_split t log :
  zlen log = occurs t log + zlen (List.filter (fun x => negb (t =? x)%nat) log).
Proof.
  induction log as [|x log IH]; [done|]. unfold occurs in *. cbn [List.filter length].
  destruct (t =? x)%nat; cbn [negb length]; rewrite !Nat2Z.inj_succ; lia.
Qed.
Lemma occurs_filter t u log : t <> u -> occurs t (List.filter (fun x => negb (u =? x)%nat) log) = occurs t log.
Proof.
  intros Hne. unfold occurs. induction log as [|x log IH]; [done|]. cbn [List.filter].
  destruct (u =? x)%nat eqn:E1; cbn [negb List.filter].
  - apply Nat.eqb_eq in E1 as <-. rewrite (proj2 (Nat.eqb_neq t u) Hne). done.
  - destruct (t =? x)%nat; cbn [length]; rewrite ?Nat2Z.inj_succ; lia.
Qed.

Lemma occurs_total n w log :
  Forall (fun t => (t < n)%nat) log -> (forall t, (t < n)%nat -> occurs t log = w) -> zlen log = Z.of_nat n * w.
Proof.
  revert log. induction n as [|n IH]; intros log Hf Ho.
  - destruct log as [|x log]; [done|]. apply Forall_cons in Hf as [H _]. lia.
  - rewrite (occurs_split n log), Ho by lia. rewrite (IH (List.filter (fun x => negb (n =? x)%nat) log)); [lia| |].
    + apply List.Forall_forall. intros x (Hx & Hn)%List.filter_In. rewrite List.Forall_forall in Hf.
      specialize (Hf x Hx). cbn in Hf. apply negb_true_iff, Nat.eqb_neq in Hn. lia.
    + intros t Ht. rewrite occurs_filter by lia. apply Ho. lia.
Qed.

(** ** What a thread has done, by the memory and by its own account *)

(** The counter [key t v] says that thread [t] has got as far as [v]: by [stat t m],
    and by the thread itself, which is at [own pc l]. *)
Section owned.
Context {St L K A : Type} (count : K -> St -> Z) (weight : nat -> nat -> L -> K -> Z) (G : St -> Prop) (n : nat).
Context (same : A -> A -> bool) (key : nat -> A -> K) (stat : nat -> St -> A) (own : nat -> L -> A).
Hypothesis same_spec : forall x y, same x y = true <-> x = y.
Hypothesis count_key : forall t v m, count (key t v) m = b2z ((t <? n)%nat && same (stat t m) v).
Hypothesis weight_key : forall t pc l t' v, weight t pc l (key t' v) = b2z ((t =? t')%nat && same (own pc l) v).

Lemma own_stat t pc l m :
  facts count weight G (Z.of_nat n) t pc l m -> (t < n)%nat -> stat t m = own pc l.
Proof using count_key weight_key same_spec.
  intros [_ _ _ Ho] Hlt. specialize (Ho (key t (own pc l))). rewrite count_key, weight_key in Ho.
  rewrite (proj2 (Nat.ltb_lt _ _) Hlt), Nat.eqb_refl, (proj2 (same_spec _ _) eq_refl) in Ho. cbn [andb b2z] in Ho.
  destruct (same (stat t m) (own pc l)) eqn:E; [by apply same_spec|]. exfalso. cbn [b2z] in Ho.
  assert (0 = 1); [|lia]. apply Ho. intros t' pc' l' Hne. rewrite weight_key. by rewrite (proj2 (Nat.eqb_neq _ _) Hne).
Qed.

(** The thread that moves goes on, the others do not. *)
Lemma stat_step t pc pc' l l' m m' :
  facts count weight G (Z.of_nat n) t pc l m -> (t < n)%nat ->
  stat t m' = own pc' l' -> (forall t', t' <> t -> stat t' m' = stat t' m) ->
  forall t' v, count (key t' v) m' = count (key t' v) m + weight t pc' l' (key t' v) - weight t pc l (key t' v).
Proof using count_key weight_key same_spec.
  intros Hf Hlt Hown Hother t' v. pose proof (own_stat _ _ _ _ Hf Hlt) as Ho.
  rewrite !count_key, !weight_key. destruct (decide (t' = t)) as [->|Hne].
  - rewrite Nat.eqb_refl, (proj2 (Nat.ltb_lt _ _) Hlt), Ho, Hown. cbn [andb]. lia.
  - rewrite Hother, (proj2 (Nat.eqb_neq t t')) by done. cbn [andb b2z]. lia.
Qed.
Lemma stat_stay t pc pc' l l' m m' :
  (forall t', stat t' m' = stat t' m) -> own pc' l' = own pc l ->
  forall t' v, count (key t' v) m' = count (key t' v) m + weight t pc' l' (key t' v) - weight t pc l (key t' v).
Proof using count_key weight_key. intros Hstat Ht t' v. rewrite !count_key, !weight_key, Hstat, Ht. lia. Qed.

(** Threads that have not begun. *)
Lemma stat_start (th : nat -> thread L) t v0 v a b :
  (forall i, own (t_pc (th i)) (t_loc (th i)) = v0) ->
  total weight (key t v) a (th <$> seq a b) = b2z ((a <=? t)%nat && (t <? a + b)%nat && same v0 v).
Proof using weight_key.
  intros H0. revert a. induction b as [|b IH]; intros a.
  - cbn [seq fmap list_fmap total]. rewrite Nat.add_0_r. destruct (Nat.leb_spec a t), (Nat.ltb_spec t a); cbn; (done || lia).
  - cbn [seq fmap list_fmap total]. rewrite IH, weight_key, H0.
    destruct (Nat.eqb_spec a t), (Nat.leb_spec a t), (Nat.leb_spec (S a) t), (Nat.ltb_spec t (a + S b)), (Nat.ltb_spec t (S a + b)); try lia;
      cbn [andb]; destruct (same v0 v); reflexivity.
Qed.
End owned.

(** ** Turns *)

(** The number of times a thread occurs in the log. *)
Section turns.
Context {St L K : Type} (count : K -> St -> Z) (weight : nat -> nat -> L -> K -> Z) (G : St -> Prop) (n : nat).
Context (key : nat -> Z -> K) (log : St -> list nat) (turn : nat -> L -> Z).
Hypothesis count_key : forall t v m, count (key t v) m = b2z ((t <? n)%nat && (occurs t (log m) =? v)).
Hypothesis weight_key : forall t pc l t' v, weight t pc l (key t' v) = b2z ((t =? t')%nat && (turn pc l =? v)).

Lemma own_turn t pc l m :
  facts count weight G (Z.of_nat n) t pc l m -> (t < n)%nat -> occurs t (log m) = turn pc l.
Proof using count_key weight_key.
  apply (own_stat count weight G n Z.eqb key (fun t m => occurs t (log m)) turn Z.eqb_eq count_key weight_key).
Qed.

(** One more turn is entered in the log, or none. *)
Lemma turn_step t pc pc' l l' m m' :
  facts count weight G (Z.of_nat n) t pc l m -> (t < n)%nat ->
  log m' = log m ++ [t] -> turn pc' l' = turn pc l + 1 ->
  forall t' v, count (key t' v) m' = count (key t' v) m + weight t pc' l' (key t' v) - weight t pc l (key t' v).
Proof using count_key weight_key.
  intros Hf Hlt Hlog Ht.
  apply (stat_step count weight G n Z.eqb key (fun t m => occurs t (log m)) turn Z.eqb_eq count_key weight_key); [done|done| |].
  - rewrite Hlog, occurs_snoc, Ht, (own_turn _ _ _ _ Hf Hlt), Nat.eqb_refl. done.
  - intros t' Hne. rewrite Hlog, occurs_snoc, (proj2 (Nat.eqb_neq t' t)) by done. cbn. lia.
Qed.
Lemma turn_stay t pc pc' l l' m m' :
  log m' = log m -> turn pc' l' = turn pc l ->
  forall t' v, count (key t' v) m' = count (key t' v) m + weight t pc' l' (key t' v) - weight t pc l (key t' v).
Proof using count_key weight_key.
  intros Hlog. apply (stat_stay count weight n Z.eqb key (fun t m => occurs t (log m)) turn count_key weight_key).
  intros t'. by rewrite Hlog.
Qed.

Lemma turn_start (th : nat -> thread L) t v a b :
  (forall i, turn (t_pc (th i)) (t_loc (th i)) = 0) ->
  total weight (key t v) a (th <$> seq a b) = b2z ((a <=? t)%nat && (t <? a + b)%nat && (0 =? v)).
Proof using weight_key. apply (stat_start weight Z.eqb key turn weight_key). Qed.
End turns.
