(* ===== verification/MessageQueue.v ===== *)
(** [src/exercises/c/message_queue/solution.c]: a bounded queue between threads, a ring
    with a mutex and two conditions.  Shown for any number of producers and consumers
    and every interleaving: what is got is what was put, in order, and the ring stays
    within its array; the program ends when its input fits the queue.  When it does not,
    the program may stop for ever: [pthread_mq_get] wakes the threads that wait for an
    element instead of those that wait for room. *)

From stdpp Require Import prelude list relations.
From Stdlib Require Import ZArith Lia.
From S2P Require Import Prelude Threads CondAlarms Turns.

Module MessageQueue.
Open Scope stmt_scope.

(** * The queue *)

(** [min] and [max] stay below [size], so that they are natural numbers.  Ghosts: who
    put and who got what, and whether a thread has undertaken to wake the waiting
    consumers since the last one found the queue empty. *)
Record pthread_mq_t := mkMq {
  size : nat;
  data : list Z;
  min : nat;
  max : nat;
  puts : list (nat * Z);
  gots : list (nat * Z);
  announced : bool;
}.

(** The locals of a producer or a consumer.  [input] is what scanf(3) still reads, and
    [sent] a ghost: what the thread has put, or got, so far. *)
Record local := mkLocal {
  tid : nat; producer : bool; input : list Z; value : Z; res : Z; over : bool; sent : list Z;
}.
Definition code_t : Type := stmt pthread_mq_t local.

Definition cond_empty : nat := 0.
Definition cond_full : nat := 1.

Definition pthread_mq_init (size : nat) (garbage : list Z) : pthread_mq_t := mkMq size garbage 0 0 [] [] false.

Definition is_empty (m : pthread_mq_t) (_ : local) : bool := (max m =? min m)%nat.
Definition is_full (m : pthread_mq_t) (_ : local) : bool := ((max m + 1) mod size m =? min m)%nat.

Definition set_value (v : Z) (l : local) : local :=
  mkLocal (tid l) (producer l) (input l) v (res l) (over l) (sent l).
Definition add_sent (l : local) : local :=
  mkLocal (tid l) (producer l) (input l) (value l) (res l) (over l) (sent l ++ [value l]).

(** [*value=mq->data[mq->min]] *)
Definition read_min (m : pthread_mq_t) (l : local) : pthread_mq_t * local :=
  (m, set_value (default 0 (data m !! min m)) l).
(** [mq->min++; mq->min%=mq->size] *)
Definition next_min (m : pthread_mq_t) (l : local) : pthread_mq_t * local :=
  (mkMq (size m) (data m) ((min m + 1) mod size m) (max m) (puts m) (gots m ++ [(tid l, value l)]) (announced m), add_sent l).
(** [mq->data[mq->max]=value] *)
Definition write_max (m : pthread_mq_t) (l : local) : pthread_mq_t * local :=
  (mkMq (size m) (<[max m := value l]> (data m)) (min m) (max m) (puts m) (gots m) (announced m), l).
(** [mq->max++; mq->max%=mq->size] *)
Definition next_max (m : pthread_mq_t) (l : local) : pthread_mq_t * local :=
  (mkMq (size m) (data m) (min m) ((max m + 1) mod size m) (puts m ++ [(tid l, value l)]) (gots m) (announced m), add_sent l).
(** Ghost steps, before the broadcast and before the wait. *)
Definition announce (m : pthread_mq_t) (l : local) : pthread_mq_t * local :=
  (mkMq (size m) (data m) (min m) (max m) (puts m) (gots m) true, l).
Definition calm (m : pthread_mq_t) (l : local) : pthread_mq_t * local :=
  (mkMq (size m) (data m) (min m) (max m) (puts m) (gots m) false, l).

Definition pthread_mq_get : code_t :=
  SLock ;;
  SWhile is_empty (SDo calm ;; SWait cond_empty) ;;
  SDo read_min ;;
  SIf is_full (SBroadcast cond_empty) SSkip ;;
  SDo next_min ;;
  SUnlock.

Definition pthread_mq_put : code_t :=
  SLock ;;
  SWhile is_full (SWait cond_full) ;;
  SDo write_max ;;
  SIf is_empty (SDo announce ;; SBroadcast cond_empty) SSkip ;;
  SDo next_max ;;
  SUnlock.

(** * The program *)

Definition scan (m : pthread_mq_t) (l : local) : pthread_mq_t * local :=
  match input l with
  | v :: r => (m, mkLocal (tid l) (producer l) r v 1 (over l) (sent l))
  | [] => (m, mkLocal (tid l) (producer l) [] (value l) (-1) (over l) (sent l))
  end.
Definition stop_at_666 (m : pthread_mq_t) (l : local) : pthread_mq_t * local :=
  (m, mkLocal (tid l) (producer l) (input l) (value l) (res l) (value l =? 666) (sent l)).
Definition forever (body : code_t) : code_t := SWhile (fun _ l => negb (over l)) (body ;; SDo stop_at_666).

Definition func_producer : code_t :=
  forever (SDo scan ;; SAssert (fun _ l => res l =? 1) ;; pthread_mq_put).
Definition func_consumer : code_t := forever pthread_mq_get.

(** Any number of producers, each with its input, and consumers. *)
Definition thread_of (t : nat) (role : option (list Z)) : thread local :=
  match role with
  | Some i => mkThread 0 Running (mkLocal t true i 0 0 false [])
  | None => mkThread 0 Running (mkLocal t false [] 0 0 false [])
  end.
Definition start (size : nat) (garbage : list Z) (roles : list (option (list Z))) : config pthread_mq_t local :=
  mkConfig (pthread_mq_init size garbage) None (imap thread_of roles).
Definition main (garbage input : list Z) : config pthread_mq_t local := start 10 garbage [Some input; None].

Definition code (_ : nat) : list (instr pthread_mq_t local) :=
  compile (SIf (fun _ l => producer l) func_producer func_consumer).

(** * The ring as a list *)

Definition contents (m : pthread_mq_t) : list Z :=
  if (min m <=? max m)%nat then take (max m - min m) (drop (min m) (data m))
  else drop (min m) (data m) ++ take (max m) (data m).

Record ring (m : pthread_mq_t) : Prop := {
  r_data : length (data m) = size m;
  r_min : (min m < size m)%nat;
  r_max : (max m < size m)%nat;
}.

Lemma contents_length m : ring m ->
  length (contents m) = if (min m <=? max m)%nat then (max m - min m)%nat else (size m - min m + max m)%nat.
Proof.
  intros [Hd Hm HM]. unfold contents. destruct (Nat.leb_spec (min m) (max m)).
  - rewrite length_take, length_drop. lia.
  - rewrite length_app, length_drop, length_take. lia.
Qed.

Lemma succ_mod a n : (a < n)%nat -> ((a + 1) mod n = if (a + 1 =? n) then 0 else a + 1)%nat.
Proof.
  intros H. destruct (Nat.eqb_spec (a + 1) n) as [->|]; [by apply Nat.Div0.mod_same|]. apply Nat.mod_small. lia.
Qed.

(** Reading the first element, and moving past it. *)
Lemma contents_pop m l : ring m -> is_empty m l = false ->
  ring (next_min m l).1 /\ contents m = default 0 (data m !! min m) :: contents (next_min m l).1.
Proof.
  intros [Hd Hm HM] He. apply Nat.eqb_neq in He.
  destruct (lookup_lt_is_Some_2 (data m) (min m) ltac:(lia)) as [x Hx].
  pose proof (drop_S _ _ _ Hx) as Hdrop. unfold contents. cbn [next_min fst data min max size].
  rewrite (succ_mod (min m)) by done. rewrite Hx. cbn [default]. unfold id.
  split; [constructor; cbn [next_min fst data min max size]; [done|destruct (Nat.eqb_spec (min m + 1) (size m)); lia|done]|].
  rewrite Hdrop. destruct (Nat.leb_spec (min m) (max m)).
  - destruct (Nat.eqb_spec (min m + 1) (size m)); [lia|].
    destruct (Nat.leb_spec (min m + 1) (max m)); [|lia].
    replace (max m - min m)%nat with (S (max m - (min m + 1))) by lia. cbn. by rewrite Nat.add_1_r.
  - destruct (Nat.eqb_spec (min m + 1) (size m)) as [E|].
    + rewrite (drop_ge (data m) (S (min m))) by lia. cbn. rewrite Nat.sub_0_r, drop_0. done.
    + destruct (Nat.leb_spec (min m + 1) (max m)); [lia|]. by rewrite Nat.add_1_r.
Qed.

(** Writing behind the last element, and moving there. *)
Lemma contents_write m l : ring m -> is_full m l = false ->
  ring (write_max m l).1 /\ contents (write_max m l).1 = contents m.
Proof.
  intros [Hd Hm HM] Hf. split; [constructor; cbn; [by rewrite length_insert|done|done]|].
  unfold contents. cbn [write_max fst data min max size]. destruct (Nat.leb_spec (min m) (max m)).
  - rewrite drop_insert_ge, take_insert_ge by lia. done.
  - rewrite take_insert_ge, drop_insert_lt by lia. done.
Qed.

Lemma contents_push m l : ring m -> is_full m l = false -> data m !! max m = Some (value l) ->
  ring (next_max m l).1 /\ contents (next_max m l).1 = contents m ++ [value l].
Proof.
  intros [Hd Hm HM] Hf Hv. apply Nat.eqb_neq in Hf. rewrite (succ_mod (max m)) in Hf by done.
  unfold contents. cbn [next_max fst data min max size]. rewrite (succ_mod (max m)) by done.
  split; [constructor; cbn [next_max fst data min max size]; [done|done|destruct (Nat.eqb_spec (max m + 1) (size m)); lia]|].
  destruct (Nat.eqb_spec (max m + 1) (size m)) as [E|].
  - destruct (Nat.leb_spec (min m) 0); [lia|]. destruct (Nat.leb_spec (min m) (max m)); [|lia].
    rewrite take_0, app_nil_r. rewrite <- (take_drop (max m - min m) (drop (min m) (data m))) at 1. f_equal.
    rewrite drop_drop. replace (min m + (max m - min m))%nat with (max m) by lia.
    rewrite (drop_S _ _ _ Hv), drop_ge by lia. done.
  - destruct (Nat.leb_spec (min m) (max m)).
    + destruct (Nat.leb_spec (min m) (max m + 1)); [|lia].
      replace (max m + 1 - min m)%nat with (S (max m - min m)) by lia. apply take_S_r.
      rewrite lookup_drop. by replace (min m + (max m - min m))%nat with (max m) by lia.
    + destruct (Nat.leb_spec (min m) (max m + 1)); [lia|]. rewrite <- app_assoc. f_equal.
      rewrite Nat.add_1_r. by apply take_S_r.
Qed.

Lemma full_length m l : ring m -> is_full m l = true -> length (contents m) = (size m - 1)%nat.
Proof.
  intros Hr Hf. rewrite contents_length by done. destruct Hr as [Hd Hm HM]. unfold is_full in Hf. rewrite succ_mod in Hf by done.
  apply Nat.eqb_eq in Hf. destruct (Nat.eqb_spec (max m + 1) (size m)), (Nat.leb_spec (min m) (max m)); lia.
Qed.
Lemma contents_bound m : ring m -> (length (contents m) <= size m - 1)%nat.
Proof. intros Hr. rewrite contents_length by done. destruct Hr as [Hd Hm HM]. destruct (Nat.leb_spec (min m) (max m)); lia. Qed.
Lemma contents_nil m l : ring m -> is_empty m l = true -> contents m = [].
Proof. intros _ E%Nat.eqb_eq. unfold contents. rewrite E, Nat.leb_refl, Nat.sub_diag. done. Qed.
Lemma contents_cons m l : ring m -> is_empty m l = false -> contents m <> [].
Proof. intros Hr E. by rewrite (proj2 (contents_pop m l Hr E)). Qed.

(** * Up to the last element *)

Definition clean (s : list Z) : Prop := 666 ∉ s.
Definition stopped (s : list Z) : Prop := exists s', s = s' ++ [666] /\ clean s'.

(** What a producer makes of its input. *)
Fixpoint upto (i : list Z) : list Z :=
  match i with [] => [] | v :: r => if v =? 666 then [v] else v :: upto r end.

Lemma upto_clean s r : clean s -> upto (s ++ r) = s ++ upto r.
Proof.
  induction s as [|v s IH]; [done|]. intros [Hv Hs]%not_elem_of_cons. cbn. rewrite IH by done.
  destruct (Z.eqb_spec v 666); [congruence|done].
Qed.
Lemma upto_next s v r : clean s -> (s ++ [v]) `prefix_of` upto (s ++ [v] ++ r).
Proof. intros Hs. rewrite upto_clean by done. apply prefix_app. cbn. destruct (v =? 666); [done|by apply prefix_cons, prefix_nil]. Qed.
Lemma upto_stopped s r : stopped s -> upto (s ++ r) = s.
Proof. intros (s' & -> & Hs). rewrite <- app_assoc, upto_clean by done. done. Qed.
Lemma clean_snoc s v : clean s -> v <> 666 -> clean (s ++ [v]).
Proof. unfold clean. intros Hs Hv. rewrite elem_of_app, list_elem_of_singleton. naive_solver. Qed.

(** The part of a history that is one thread's. *)
Definition by_thread (t : nat) (h : list (nat * Z)) : list Z := snd <$> List.filter (fun e => (t =? e.1)%nat) h.

Lemma by_thread_snoc t h e : by_thread t (h ++ [e]) = by_thread t h ++ (if (t =? e.1)%nat then [e.2] else []).
Proof. unfold by_thread. rewrite List.filter_app, fmap_app. cbn. by destruct (t =? e.1)%nat. Qed.

(** * Proof outline *)

Section outline.
Context (roles : list (option (list Z))) (sz : nat).
Abbreviation n := (length roles).
Definition reads (t : nat) (i : list Z) : Prop := roles !! t = Some (Some i).
Context (Hinput : forall t i, reads t i -> 666 ∈ i).

(** Everything that will ever be put fits the queue. *)
Definition fits : Prop :=
  (sum_list_with (fun r => length (upto (default [] r))) roles < sz)%nat.

Definition history (t : nat) (m : pthread_mq_t) : list Z :=
  match roles !! t with Some (Some _) => by_thread t (puts m) | _ => by_thread t (gots m) end.

Inductive ctr := KSent (t : nat) (s : list Z).
Definition same (x y : list Z) : bool := bool_decide (x = y).
Definition count (k : ctr) (m : pthread_mq_t) : Z :=
  let '(KSent t s) := k in b2z ((t <? n)%nat && same (history t m) s).
Definition weight (t _ : nat) (l : local) (k : ctr) : Z :=
  let '(KSent t' s) := k in b2z ((t =? t')%nat && same (sent l) s).
Definition inside (_ pc : nat) : bool := span 5 14 pc || span 20 29 pc.

Definition says (_ pc : nat) (m : pthread_mq_t) (l : local) : Prop :=
  match pc with
  | 8 => is_full m l = false
  | 9 => is_full m l = false /\ data m !! max m = Some (value l)
  | 10 => is_full m l = false /\ data m !! max m = Some (value l)
  | 11 | 12 => is_full m l = false /\ data m !! max m = Some (value l) /\ announced m = true
  | 13 => is_full m l = false /\ data m !! max m = Some (value l) /\ (is_empty m l = false \/ announced m = true)
  | 21 => is_empty m l = true
  | 22 => is_empty m l = true /\ announced m = false
  | 24 => is_empty m l = false
  | 25 | 26 | 27 | 28 => is_empty m l = false /\ default 0%Z (data m !! min m) = value l
  | _ => True
  end%nat.

Definition role_ok (t pc : nat) (l : local) : Prop :=
  if producer l then
    span 0 17 pc || (pc =? 32)%nat = true /\
    exists i, reads t i /\ i = sent l ++ (if span 3 13 pc then [value l] else []) ++ input l
  else (pc =? 0)%nat || span 18 32 pc = true /\ roles !! t = Some None.

Definition phase (pc : nat) (l : local) : Prop :=
  if span 2 13 pc || span 19 28 pc then over l = false /\ clean (sent l)
  else if span 14 15 pc || span 29 30 pc then exists s, sent l = s ++ [value l] /\ clean s
  else if (pc =? 17)%nat || (pc =? 32)%nat then stopped (sent l)
  else if over l then stopped (sent l) else clean (sent l).

Definition lsays (t pc : nat) (l : local) : Prop :=
  tid l = t /\ role_ok t pc l /\ phase pc l /\ (pc = 3%nat -> res l = 1) /\ (pc = 6%nat -> ~ fits).

Record good (m : pthread_mq_t) : Prop := {
  g_ring : ring m;
  g_size : size m = sz;
  g_fifo : snd <$> puts m = (snd <$> gots m) ++ contents m;
  g_puts t v : (t, v) ∈ puts m -> exists i, reads t i;
  g_gots t v : (t, v) ∈ gots m -> roles !! t = Some None;
  g_prefix t i : reads t i -> by_thread t (puts m) `prefix_of` upto i;
}.

Lemma mq_weight_01 t pc l k : 0 <= weight t pc l k <= 1.
Proof. destruct k as [t' s]. unfold weight, b2z. destruct ((t =? t')%nat && same (sent l) s); lia. Qed.
Lemma same_spec x y : same x y = true <-> x = y.
Proof. apply bool_decide_eq_true. Qed.
Lemma mq_weight_key t pc l t' v : weight t pc l (KSent t' v) = b2z ((t =? t')%nat && same (sent l) v).
Proof. done. Qed.
Lemma mq_count_key t v m : count (KSent t v) m = b2z ((t <? n)%nat && same (history t m) v).
Proof. done. Qed.

Abbreviation KNOWS := (knows count weight inside says lsays good (Z.of_nat n)).
Abbreviation UPDATES := (updates count weight inside says lsays good (Z.of_nat n)).
Abbreviation FACTS := (facts count weight good (Z.of_nat n)).

Lemma role_bound t pc l : lsays t pc l -> (t < n)%nat.
Proof.
  intros (_ & Hr & _). unfold role_ok, reads in Hr. destruct (producer l).
  - destruct Hr as (_ & i & Hi & _). by eapply lookup_lt_Some.
  - destruct Hr as [_ Hi]. by eapply lookup_lt_Some.
Qed.
Lemma own_history t pc l m : FACTS t pc l m -> lsays t pc l -> history t m = sent l.
Proof.
  intros H Hl. apply (own_stat count weight good n same KSent history (fun _ l => sent l) same_spec mq_count_key mq_weight_key t pc l m H).
  by eapply role_bound.
Qed.

(** ** The length of the history *)

Lemma puts_sum (h : list (nat * Z)) k :
  (forall e, e ∈ h -> (e.1 < k)%nat) ->
  length h = sum_list_with (fun t => length (by_thread t h)) (seq 0 k).
Proof.
  induction h as [|e h IH] using rev_ind; intros Hb.
  - cbn. induction (seq 0 k); [done|]. cbn. lia.
  - rewrite length_app, IH by (intros; apply Hb; set_solver). cbn [length].
    assert (e.1 < k)%nat as Hk by (apply Hb; set_solver). clear Hb IH.
    assert (forall a b, sum_list_with (fun t => length (by_thread t (h ++ [e]))) (seq a b) =
      sum_list_with (fun t => length (by_thread t h)) (seq a b) + (if (a <=? e.1)%nat && (e.1 <? a + b)%nat then 1 else 0))%nat as Hs.
    { intros a b. revert a. induction b as [|b IH]; intros a.
      - cbn [seq sum_list_with]. destruct (Nat.leb_spec a e.1), (Nat.ltb_spec e.1 (a + 0)); cbn [andb]; lia.
      - cbn [seq sum_list_with]. rewrite IH, by_thread_snoc, length_app.
        destruct (Nat.eqb_spec a e.1), (Nat.leb_spec a e.1), (Nat.leb_spec (S a) e.1), (Nat.ltb_spec e.1 (a + S b)), (Nat.ltb_spec e.1 (S a + b));
          cbn [length andb]; lia. }
    rewrite Hs. destruct (Nat.ltb_spec e.1 (0 + k)); [cbn; lia|lia].
Qed.

Lemma sum_list_lt {A} (f g : A -> nat) (l : list A) x :
  (forall y, y ∈ l -> (f y <= g y)%nat) -> x ∈ l -> (f x < g x)%nat -> (sum_list_with f l < sum_list_with g l)%nat.
Proof.
  intros Hle. induction l as [|y l IH]; [by intros ?%elem_of_nil|]. intros Hx Hlt. cbn.
  pose proof (Hle y ltac:(set_solver)). apply elem_of_cons in Hx as [->|Hx].
  - assert (sum_list_with f l <= sum_list_with g l)%nat; [|lia]. clear IH.
    assert (forall z, z ∈ l -> (f z <= g z)%nat) as Hz by set_solver. clear Hle. induction l as [|z l IH]; [done|].
    cbn. pose proof (Hz z ltac:(set_solver)). specialize (IH ltac:(set_solver)). lia.
  - pose proof (IH ltac:(set_solver) Hx Hlt). lia.
Qed.
Lemma sum_roles {A} (f : option A -> nat) (l : list (option A)) :
  sum_list_with f l = sum_list_with (fun t => f (default None (l !! t))) (seq 0 (length l)).
Proof.
  induction l as [|x l IH]; [done|]. cbn [length seq sum_list_with lookup list_lookup default]. unfold id. rewrite IH. f_equal.
  rewrite <- fmap_S_seq. clear IH. induction (seq 0 (length l)) as [|t ts IH2]; [done|]. cbn. by rewrite IH2.
Qed.

Lemma by_thread_nil t h : (forall v, (t, v) ∉ h) -> by_thread t h = [].
Proof.
  unfold by_thread. induction h as [|[t' v] h IH]; [done|]. intros H. cbn. destruct (Nat.eqb_spec t t') as [->|].
  - destruct (H v). set_solver.
  - apply IH. set_solver.
Qed.

(** A producer that has an element to put finds room when everything fits. *)
Lemma room t l m : FACTS t 5 l m -> lsays t 5 l -> fits -> is_full m l = false.
Proof.
  intros H Hl Hfits. pose proof (own_history _ _ _ _ H Hl) as Ho. pose proof (f_G _ _ _ _ _ _ _ _ H) as HG.
  destruct (is_full m l) eqn:E; [exfalso|done]. apply (full_length _ _ (g_ring _ HG)) in E. rewrite (g_size _ HG) in E.
  pose proof (f_equal length (g_fifo _ HG)) as Hlen. rewrite length_app, !length_fmap in Hlen.
  pose proof (role_bound _ _ _ Hl) as Hlt. destruct Hl as (_ & Hr & [_ Hc] & _). unfold role_ok in Hr.
  destruct (producer l); [|by destruct Hr]. destruct Hr as (_ & i & Hi & Heq). cbn [span Nat.leb andb] in Heq.
  assert (length (puts m) < sum_list_with (fun r => length (upto (default [] r))) roles)%nat; [|unfold fits in Hfits; lia].
  rewrite (puts_sum (puts m) n), sum_roles.
  - apply (sum_list_lt _ _ _ t); [|by apply elem_of_seq; lia|].
    + intros t' _. destruct (roles !! t') as [[i'|]|] eqn:Et; cbn [default].
      * by apply prefix_length, HG.
      * rewrite by_thread_nil; [cbn; lia|]. intros v [i' Hi']%(g_puts _ HG). unfold reads in Hi'. congruence.
      * rewrite by_thread_nil; [cbn; lia|]. intros v [i' Hi']%(g_puts _ HG). unfold reads in Hi'. congruence.
    + unfold history in Ho. rewrite Hi in Ho. rewrite Ho, Hi. cbn [from_option]. unfold id. cbn [from_option]. subst i.
      pose proof (prefix_length _ _ (upto_next _ (value l) (input l) Hc)) as Hp. rewrite length_app in Hp. cbn [length] in Hp. lia.
  - intros [t' v] He. destruct (g_puts _ HG _ _ He) as [i' Hi']. by eapply lookup_lt_Some.
Qed.

(** ** Conditions on the instructions *)

Lemma history_next_max t t' m l i : reads t i -> tid l = t ->
  history t' (next_max m l).1 = history t' m ++ (if (t' =? t)%nat then [value l] else []).
Proof.
  intros Hr Ht. unfold history, next_max, reads in *. cbn [fst puts gots].
  destruct (Nat.eqb_spec t' t) as [->|Hne].
  - rewrite Hr, by_thread_snoc, Ht. cbn [fst snd]. by rewrite Nat.eqb_refl.
  - rewrite app_nil_r. destruct (roles !! t') as [[|]|]; [|done..]. rewrite by_thread_snoc, Ht. cbn [fst].
    by rewrite (proj2 (Nat.eqb_neq _ _) Hne), app_nil_r.
Qed.
Lemma history_next_min t t' m l : roles !! t = Some None -> tid l = t ->
  history t' (next_min m l).1 = history t' m ++ (if (t' =? t)%nat then [value l] else []).
Proof.
  intros Hr Ht. unfold history, next_min in *. cbn [fst puts gots].
  destruct (Nat.eqb_spec t' t) as [->|Hne].
  - rewrite Hr, by_thread_snoc, Ht. cbn [fst snd]. by rewrite Nat.eqb_refl.
  - rewrite app_nil_r. destruct (roles !! t') as [[|]|]; [done|..]; rewrite by_thread_snoc, Ht; cbn [fst];
      by rewrite (proj2 (Nat.eqb_neq _ _) Hne), app_nil_r.
Qed.

Lemma good_write_max m l : good m -> is_full m l = false -> good (write_max m l).1.
Proof.
  intros [H1 H2 H3 H4 H5 H6] Hf. destruct (contents_write m l H1 Hf) as [Hr Hc].
  constructor; [done|done| |done..]. by rewrite Hc.
Qed.

Lemma ok_next_max t : UPDATES t 13 always next_max.
Proof.
  split; [done|]. intros m l (H & Hl & Hs) _. specialize (Hs eq_refl) as (Hf & Hd & _).
  pose proof (f_G _ _ _ _ _ _ _ _ H) as HG. pose proof (own_history _ _ _ _ H Hl) as Ho. pose proof (role_bound _ _ _ Hl) as Hlt.
  pose proof Hl as (Ht & Hr & [Hov Hc] & _). unfold role_ok in Hr. destruct (producer l) eqn:Ep; [|by destruct Hr].
  destruct Hr as (_ & i & Hi & Heq). cbn [span Nat.leb andb] in Heq. pose proof (history_next_max t) as Hh.
  split_and!; [| |split_and!; try done| done|done].
  - intros [t' s]. apply (stat_step count weight good n same KSent history (fun _ l => sent l) same_spec mq_count_key mq_weight_key); [done|done| |].
    + by rewrite (Hh t m l i), Nat.eqb_refl, Ho.
    + intros t2 Hne. rewrite (Hh t2 m l i) by done. by rewrite (proj2 (Nat.eqb_neq _ _) Hne), app_nil_r.
  - destruct (contents_push m l (g_ring _ HG) Hf Hd) as [Hring Hcont]. destruct HG as [H1 H2 H3 H4 H5 H6]. constructor; [done|done|..].
    + rewrite Hcont. cbn [next_max fst puts gots]. rewrite fmap_app, H3. cbn. by rewrite app_assoc.
    + intros t2 v [?|[= -> ->]%list_elem_of_singleton]%elem_of_app; [by eapply H4|]. rewrite Ht. by exists i.
    + done.
    + intros t2 i2 Hi2. pose proof (H6 t2 i2 Hi2) as Hp. pose proof (Hh t2 m l i Hi Ht) as Hh2. unfold history in Hh2, Ho.
      rewrite Hi2 in Hh2. rewrite Hh2. destruct (Nat.eqb_spec t2 t) as [->|]; [|by rewrite app_nil_r].
      unfold reads in Hi, Hi2. rewrite Hi in Hi2. injection Hi2 as <-. rewrite Hi in Ho. rewrite Ho, Heq. by apply upto_next.
  - unfold role_ok. cbn. rewrite Ep. split; [done|]. exists i. split; [done|]. by rewrite Heq, <- app_assoc.
  - by exists (sent l).
Qed.

Lemma ok_next_min t : UPDATES t 28 always next_min.
Proof.
  split; [done|]. intros m l (H & Hl & Hs) _. specialize (Hs eq_refl) as [He Hv].
  pose proof (f_G _ _ _ _ _ _ _ _ H) as HG. pose proof (own_history _ _ _ _ H Hl) as Ho. pose proof (role_bound _ _ _ Hl) as Hlt.
  pose proof Hl as (Ht & Hr & [Hov Hc] & _). unfold role_ok in Hr. destruct (producer l) eqn:Ep; [by destruct Hr|].
  destruct Hr as (_ & Hi). pose proof (history_next_min t) as Hh.
  split_and!; [| |split_and!; try done| done|done].
  - intros [t' s]. apply (stat_step count weight good n same KSent history (fun _ l => sent l) same_spec mq_count_key mq_weight_key); [done|done| |].
    + by rewrite (Hh t m l), Nat.eqb_refl, Ho.
    + intros t2 Hne. rewrite (Hh t2 m l) by done. by rewrite (proj2 (Nat.eqb_neq _ _) Hne), app_nil_r.
  - destruct (contents_pop m l (g_ring _ HG) He) as [Hring Hcont]. destruct HG as [H1 H2 H3 H4 H5 H6]. constructor; [done|done|..].
    + rewrite Hcont, Hv in H3. cbn [next_min fst puts gots] in *. rewrite fmap_app, H3. cbn. by rewrite <- app_assoc.
    + done.
    + intros t2 v [?|[= -> ->]%list_elem_of_singleton]%elem_of_app; [by eapply H5|]. by rewrite Ht.
    + done.
  - unfold role_ok. cbn. by rewrite Ep.
  - by exists (sent l).
Qed.

(** The instructions that leave the history alone. *)
Lemma mq_updates_plain t pc f :
  inside t (S pc) = inside t pc ->
  (forall m l, KNOWS t pc m l ->
     puts (f m l).1 = puts m /\ gots (f m l).1 = gots m /\ sent (f m l).2 = sent l /\ good (f m l).1 /\
     lsays t (S pc) (f m l).2 /\ (inside t (S pc) = true -> says t (S pc) (f m l).1 (f m l).2) /\
     (inside t pc = false -> (f m l).1 = m)) ->
  UPDATES t pc always f.
Proof.
  intros Hin H. split; [done|]. intros m l Hk _. destruct (H m l Hk) as (Hp & Hg & Hs & HG & Hl & Hsays & Hm).
  split_and!; [|done|done|done|intros Ho t' pc' l'; by rewrite Hm].
  intros [t' s]. apply (stat_stay count weight n same KSent history (fun _ l => sent l) mq_count_key mq_weight_key); [|done].
  intros t2. unfold history. by rewrite Hp, Hg.
Qed.

Ltac locals :=
  match goal with Hl : lsays _ _ ?l |- _ =>
    let Ht := fresh in let Hr := fresh in let Hp := fresh in let H3 := fresh in let H6 := fresh in
    destruct Hl as (Ht & Hr & Hp & H3 & H6); unfold lsays, role_ok, phase in *; cbn in *;
    destruct (over l) eqn:?; destruct (producer l); naive_solver
  end.
Ltac plain_point :=
  apply mq_updates_plain; [reflexivity|]; intros m l (H & Hl & Hs); pose proof (f_G _ _ _ _ _ _ _ _ H) as HG;
  first [specialize (Hs eq_refl); cbn in Hs | clear Hs].

Lemma ok_scan t : UPDATES t 2 always scan.
Proof.
  plain_point. unfold scan. destruct Hl as (Ht & Hr & Hp & _). unfold lsays, role_ok, phase in *. cbn in *.
  destruct (producer l) eqn:Ep; [|by destruct Hr]. destruct Hr as (_ & i & Hi & Heq), Hp as [Ho Hc].
  destruct (input l) as [|v r] eqn:Ei; cbn.
  - exfalso. apply Hc. rewrite app_nil_r in Heq. rewrite <- Heq. by apply (Hinput t).
  - split_and!; try done. by exists i.
Qed.
Lemma ok_stop t pc : pc = 15%nat \/ pc = 30%nat -> UPDATES t pc always stop_at_666.
Proof.
  intros [-> | ->]; plain_point; cbn [stop_at_666 fst snd]; (split_and!; [done..| |done|done]);
    destruct Hl as (Ht & Hr & (s & Hp & Hc) & _); unfold lsays, role_ok, phase in *; cbn in *; rewrite Hp in *;
    destruct (producer l); destruct (Z.eqb_spec (value l) 666) as [E|]; rewrite ?E in *; (split_and!; try done; try naive_solver);
    first [by exists s | by apply clean_snoc].
Qed.
Lemma ok_write t : UPDATES t 8 always write_max.
Proof.
  plain_point. split_and!; try done; [by apply good_write_max|locals|]. intros _. cbn. split; [exact Hs|].
  apply list_lookup_insert_eq. destruct HG as [[Hd _ HM] _ _ _ _ _]. lia.
Qed.

(** The others do not change the queue. *)
Lemma good_ghost m b : good m -> good (mkMq (size m) (data m) (min m) (max m) (puts m) (gots m) b).
Proof. intros [[Hd Hm HM] H2 H3 H4 H5 H6]. by constructor; [constructor|..]. Qed.

Ltac update_point :=
  plain_point; split_and!; try done; first [by apply good_ghost | locals | intros _; cbn; naive_solver].
Ltac move_point :=
  split; [left; reflexivity|]; intros m l (H & Hl & Hs) ?;
  first [specialize (Hs eq_refl); cbn in Hs | clear Hs]; 
  try match goal with E : is_full m l = true |- _ => assert (~ fits) by (intros Hft; by rewrite (room _ _ _ H Hl Hft) in E) end;
  split_and!; [intros [? ?]; reflexivity|locals|intros Hin; first [discriminate Hin|exact I|cbn; naive_solver]].
Ltac ok_point :=
  unfold ok; cbn;
  lazymatch goal with
  | |- updates _ _ _ _ _ _ _ _ _ _ next_max => apply ok_next_max
  | |- updates _ _ _ _ _ _ _ _ _ _ next_min => apply ok_next_min
  | |- updates _ _ _ _ _ _ _ _ _ _ scan => apply ok_scan
  | |- updates _ _ _ _ _ _ _ _ _ _ stop_at_666 => apply ok_stop; tauto
  | |- updates _ _ _ _ _ _ _ _ _ _ write_max => apply ok_write
  | |- updates _ _ _ _ _ _ _ _ _ _ _ => update_point
  | |- moves _ _ _ _ _ _ _ _ _ _ _ => move_point
  | |- moves _ _ _ _ _ _ _ _ _ _ _ /\ moves _ _ _ _ _ _ _ _ _ _ _ => split; move_point
  | |- moves _ _ _ _ _ _ _ _ _ _ _ /\ _ => split; [move_point|intros m l (_ & Hl & _); destruct Hl as (_ & _ & _ & Hres & _); by rewrite Hres]
  | |- _ /\ _ /\ _ /\ (forall m l, facts _ _ _ _ _ _ _ _ -> _) =>
      split_and!; [reflexivity..|intros ? [? ?]; reflexivity|intros m l _ Hl; split; [locals|exact I]]
  | |- _ => split_and!; [reflexivity..|intros ? [? ?]; reflexivity|intros l Hl; locals]
  end.

Lemma mq_ok t pc : ok code count weight inside says lsays good (Z.of_nat n) t pc.
Proof.
  do 32 (destruct pc as [|pc]; [ok_point|]). reflexivity.
Qed.

(** ** Nobody sleeps beside an element *)

Definition needs (c : nat) (m : pthread_mq_t) : Prop :=
  match c with 0%nat => max m <> min m \/ announced m = true | _ => False end.
Definition hot (c _ pc : nat) : bool := (c =? 0)%nat && (pc =? 11)%nat.
Definition sleepers (_ : nat) : option ctr := None.

Lemma scan_mem m l : (scan m l).1 = m.
Proof. unfold scan. by destruct (input l). Qed.

Ltac alarm_tac :=
  intros [|c] Hn; [|done]; cbn in *; rewrite ?scan_mem in Hn; unfold is_empty in *; rewrite ?Nat.eqb_eq, ?Nat.eqb_neq in *; first [by left | right; split; [naive_solver|done]].
Ltac notify_point :=
  split; [by intros [|c]; cbn|]; cbn;
  lazymatch goal with
  | |- (forall l k, _) /\ _ =>
      split; [intros l k Hk; discriminate Hk|]; intros m l (_ & _ & Hs); specialize (Hs eq_refl); cbn in Hs; unfold is_empty in *; rewrite ?Nat.eqb_eq in *;
      split; [first [by intros ? | intros [?|?]; destruct Hs; congruence]|by intros [|c]; cbn]
  | |- forall m l c, _ -> _ -> _ -> _ \/ _ => intros m l [|c] H Hn Hh; [by right|done]
  | |- forall m l, _ -> passes _ _ _ _ _ _ _ =>
      intros m l (_ & _ & Hs); first [specialize (Hs eq_refl); cbn in Hs | clear Hs]; alarm_tac
  end.

Lemma mq_notifies t pc : notifies code count weight inside says lsays good (Z.of_nat n) needs hot sleepers t pc.
Proof.
  do 32 (destruct pc as [|pc]; [notify_point|]). split; [|done]. by intros [|c].
Qed.
End outline.

(** * Reachable states *)

Lemma start_threads roles :
  imap thread_of roles = (fun t => thread_of t (default None (roles !! t))) <$> seq 0 (length roles).
Proof.
  apply list_eq. intros t. rewrite list_lookup_imap, list_lookup_fmap. destruct (roles !! t) as [r|] eqn:E.
  - rewrite lookup_seq_lt by (by eapply lookup_lt_Some). cbn. by rewrite E.
  - rewrite (proj2 (lookup_ge_None (seq 0 _) t)); [done|]. rewrite length_seq. by apply lookup_ge_None.
Qed.

Lemma all_by_thread t (h : list (nat * Z)) : (forall t' v, (t', v) ∈ h -> t' = t) -> by_thread t h = snd <$> h.
Proof.
  unfold by_thread. induction h as [|[t' v] h IH]; [done|]. intros H. cbn.
  rewrite (H t' v), Nat.eqb_refl by set_solver. cbn. f_equal. apply IH. set_solver.
Qed.
Lemma stopped_prefix a b : stopped a -> stopped b -> a `prefix_of` b -> a = b.
Proof.
  intros (a' & -> & Ha) (b' & -> & Hb) [k Hk]. rewrite <- app_assoc in Hk. 
  induction k as [|v k _] using rev_ind; [by rewrite app_nil_r in Hk|].
  exfalso. apply Hb. rewrite !app_assoc in Hk. apply app_inj_tail in Hk as [-> _]. set_solver.
Qed.

Section reachable.
Context (roles : list (option (list Z))) (sz : nat) (garbage : list Z).
Context (Hsz : (0 < sz)%nat) (Hg : length garbage = sz).
Context (Hin : forall t i, roles !! t = Some (Some i) -> 666 ∈ i).
Abbreviation n := (length roles).
Abbreviation INV := (Inv code (count roles) weight inside says (lsays roles sz) (good roles sz) (Z.of_nat n)).
Abbreviation ALARMED := (Alarmed needs hot).

Lemma mq_start_thread t th : threads (start sz garbage roles) !! t = Some th -> exists r, roles !! t = Some r /\ th = thread_of t r.
Proof. cbn. rewrite list_lookup_imap. intros (r & Hr & ->)%fmap_Some. by exists r. Qed.

Lemma mq_start_inv : INV (start sz garbage roles).
Proof.
  constructor.
  - cbn. by rewrite length_imap.
  - intros t. split; [done|]. intros (th & (r & _ & ->)%mq_start_thread & _ & Hi). by destruct r.
  - intros t th (r & _ & ->)%mq_start_thread [_ Hi]. by destruct r.
  - intros [t s]. cbn [threads start]. rewrite start_threads.
    rewrite (stat_start weight same KSent (fun _ l => sent l) mq_weight_key _ t [] s).
    + unfold count. by replace (history roles t (mem (start sz garbage roles))) with (@nil Z) by (unfold history; by destruct (roles !! t) as [[|]|]).
    + intros i. by destruct (default None (roles !! i)).
  - constructor; cbn; try done; [by intros t v Hv%elem_of_nil..|]. intros. apply prefix_nil.
  - intros t th (r & _ & ->)%mq_start_thread. by destruct r.
  - intros t th (r & Hr & ->)%mq_start_thread. unfold lsays, role_ok, phase, clean. destruct r as [i|]; cbn.
    + split_and!; try done; [by exists i|set_solver].
    + split_and!; try done. set_solver.
Qed.
Lemma start_alarmed : ALARMED (start sz garbage roles).
Proof. intros t th c (r & _ & ->)%mq_start_thread Hs. by destruct r. Qed.

Lemma mq_reachable cf : rtc (step code) (start sz garbage roles) cf -> INV cf /\ ALARMED cf.
Proof using Hsz Hg Hin.
  apply (alarmed_reachable code (count roles) weight inside says (lsays roles sz) (good roles sz) (Z.of_nat n)
    mq_weight_01 (mq_ok roles sz Hin) needs hot sleepers (mq_notifies roles sz)); [apply mq_start_inv|apply start_alarmed].
Qed.

Lemma inv_history cf t th : INV cf -> threads cf !! t = Some th -> history roles t (mem cf) = sent (t_loc th).
Proof.
  intros HI Ht. apply (own_history roles sz t (t_pc th) (t_loc th) (mem cf)).
  - by apply (inv_facts _ _ _ _ _ _ _ _ mq_weight_01 _ _ _ HI Ht).
  - by apply (inv_lsays _ _ _ _ _ _ _ _ _ HI _ _ Ht).
Qed.

(** Who has returned has put its input, or got a last element. *)
Lemma finished_phase cf t th : INV cf -> threads cf !! t = Some th -> finished code t th ->
  stopped (sent (t_loc th)) /\
  forall i, roles !! t = Some (Some i) -> sent (t_loc th) = upto i.
Proof using.
  clear Hsz Hg. intros HI Ht [_ Hend]. pose proof (inv_lsays _ _ _ _ _ _ _ _ _ HI _ _ Ht) as (_ & Hr & Hp & _).
  assert (32 <= t_pc th)%nat as Hpc by (apply lookup_ge_None in Hend; exact Hend).
  assert (t_pc th = 32)%nat as E.
  { unfold role_ok, span in Hr. destruct (producer (t_loc th)); destruct Hr as [Hr _].
    - apply orb_true_iff in Hr as [[_ Hr%Nat.leb_le]%andb_true_iff|Hr%Nat.eqb_eq]; lia.
    - apply orb_true_iff in Hr as [Hr%Nat.eqb_eq|[_ Hr%Nat.leb_le]%andb_true_iff]; lia. }
  rewrite E in Hr, Hp. cbn in Hr, Hp. split; [exact Hp|]. intros i Hi. unfold role_ok in Hr. cbn in Hr.
  destruct (producer (t_loc th)); [|destruct Hr; congruence]. destruct Hr as (_ & i' & Hi' & ->).
  unfold reads in Hi'. rewrite Hi in Hi'. injection Hi' as ->. by rewrite upto_stopped.
Qed.

(** Who sleeps when nothing can move: a consumer beside an empty queue, or a
    producer when not everything fits. *)
Lemma blocked_sleeper cf t th : INV cf -> ALARMED cf -> blocked code cf -> threads cf !! t = Some th ->
  finished code t th \/
  (~ fits roles sz /\ t_status th = Asleep cond_full) \/
  (roles !! t = Some None /\ clean (sent (t_loc th)) /\ contents (mem cf) = []).
Proof using Hin.
  intros HI HA Hb Ht.
  destruct (blocked_no_alarm code (count roles) weight inside says (lsays roles sz) (good roles sz) (Z.of_nat n)
    (mq_ok roles sz Hin) needs hot sleepers (mq_notifies roles sz) cf t th HI HA Hb Ht)
    as [?|(c & Hs & Hc & Hn)]; [by left|right].
  pose proof (inv_lsays _ _ _ _ _ _ _ _ _ HI _ _ Ht) as (_ & Hr & Hp & _ & Hfit).
  assert (t_pc th = 6%nat /\ c = 1%nat \/ t_pc th = 22%nat /\ c = 0%nat) as [[E ->]|[E ->]].
  { revert Hc. generalize (t_pc th). intros pc.
    do 32 (destruct pc as [|pc]; [first [discriminate | intros [= <-]; tauto]|]). discriminate. }
  - left. split; [by apply Hfit|done].
  - right. rewrite E in Hr, Hp. unfold role_ok in Hr. cbn in Hr, Hp. destruct (producer (t_loc th)); [by destruct Hr|].
    split_and!; [apply Hr|apply Hp|]. apply (contents_nil _ (t_loc th)); [apply HI|]. apply Nat.eqb_eq.
    destruct (decide (max (mem cf) = min (mem cf))); [done|]. destruct Hn. by left.
Qed.
End reachable.

(** C15: The message queue, with any number of producers, each with an input that holds
    the end mark 666, and consumers: in every reachable state what has been put is what
    has been got, in the same order, and the contents of the ring, which never fill its
    last place; no assertion has failed; each producer has put a part of its input, and
    all of it up to the first 666 when it has returned; a consumer that has returned got
    666 last and never before. *)
Theorem mq_fifo size garbage roles cf :
  (0 < size)%nat -> length garbage = size -> (forall t i, roles !! t = Some (Some i) -> 666 ∈ i) ->
  rtc (step code) (start size garbage roles) cf ->
  snd <$> puts (mem cf) = (snd <$> gots (mem cf)) ++ contents (mem cf) /\
  (length (contents (mem cf)) < size)%nat /\
  (forall t th, threads cf !! t = Some th -> t_status th <> Failed) /\
  (forall t i, roles !! t = Some (Some i) -> by_thread t (puts (mem cf)) `prefix_of` upto i) /\
  (forall t th, threads cf !! t = Some th -> finished code t th ->
     match roles !! t with
     | Some (Some i) => by_thread t (puts (mem cf)) = upto i
     | _ => stopped (by_thread t (gots (mem cf)))
     end).
Proof.
  intros Hsz Hg Hin Hr. destruct (mq_reachable roles size garbage Hsz Hg Hin cf Hr) as [HI _].
  destruct (inv_G _ _ _ _ _ _ _ _ _ HI) as [H1 H2 H3 H4 H5 H6]. split_and!.
  - done.
  - pose proof (contents_bound _ H1). rewrite H2 in *. lia.
  - intros t th Ht E. pose proof (inv_wait _ _ _ _ _ _ _ _ _ HI _ _ Ht) as Hw. unfold at_wait in Hw. by rewrite E in Hw.
  - exact H6.
  - intros t th Ht Hf. destruct (finished_phase roles size cf t th HI Ht Hf) as [Hs Hu].
    pose proof (inv_history roles size cf t th HI Ht) as Hh. unfold history in Hh.
    destruct (roles !! t) as [[i|]|] eqn:E; rewrite Hh; [by apply Hu|done|done].
Qed.

(** The program of [main] ends when its input up to 666 fits the queue: when no
    thread can go on both have returned, and the consumer has got that input. *)
Theorem mq_main_ends garbage input cf :
  length garbage = 10%nat -> 666 ∈ input -> (length (upto input) <= 9)%nat ->
  rtc (step code) (main garbage input) cf -> blocked code cf ->
  (forall t th, threads cf !! t = Some th -> finished code t th) /\ snd <$> gots (mem cf) = upto input.
Proof.
  intros Hg Hin Hlen Hr Hb.
  assert (forall t i, [Some input; None] !! t = Some (Some i) -> 666 ∈ i) as Hins by (intros [|[|t]] i [=]; by subst).
  destruct (mq_reachable [Some input; None] 10 garbage ltac:(lia) Hg Hins cf Hr) as [HI HA].
  assert (fits [Some input; None] 10) as Hfits by (unfold fits; cbn; lia).
  destruct (inv_G _ _ _ _ _ _ _ _ _ HI) as [_ _ Hfifo Hputs Hgots _].
  pose proof (inv_len _ _ _ _ _ _ _ _ _ HI) as Hl. cbn in Hl.
  destruct (lookup_lt_is_Some_2 (threads cf) 0 ltac:(lia)) as [th0 H0].
  destruct (lookup_lt_is_Some_2 (threads cf) 1 ltac:(lia)) as [th1 H1].
  pose proof (inv_history _ _ _ _ _ HI H0) as E0. pose proof (inv_history _ _ _ _ _ HI H1) as E1. cbn in E0, E1.
  rewrite (all_by_thread 0) in E0.
  2:{ intros t v Hv. destruct (Hputs t v Hv) as [i Hi]. by destruct t as [|[|t]]. }
  rewrite (all_by_thread 1) in E1.
  2:{ intros t v Hv. specialize (Hgots t v Hv). by destruct t as [|[|t]]. }
  destruct (blocked_sleeper _ _ Hins cf 0 th0 HI HA Hb H0) as [F0|[[]|[[=] _]]]; [|done].
  destruct (finished_phase _ _ cf 0 th0 HI H0 F0) as [S0 U0]. specialize (U0 input eq_refl).
  destruct (blocked_sleeper _ _ Hins cf 1 th1 HI HA Hb H1) as [F1|[[]|(_ & Hc & Hnil)]]; [|done|].
  - destruct (finished_phase _ _ cf 1 th1 HI H1 F1) as [S1 _]. split.
    + intros [|[|t]] th Ht; [congruence|congruence|]. apply lookup_lt_Some in Ht. lia.
    + rewrite E1, <- U0. apply stopped_prefix; [done|done|]. rewrite <- E0, <- E1, Hfifo. by apply prefix_app_r.
  - exfalso. rewrite Hnil, app_nil_r, E0, E1 in Hfifo. rewrite <- Hfifo in Hc.
    destruct S0 as (s & Hs & _). rewrite Hs in Hc. apply Hc. set_solver.
Qed.

(** Three elements; the consumer comes first and sleeps. *)
Definition demo : config pthread_mq_t local :=
  run_schedule code (replicate 10 (1, 0) ++ replicate 80 (0, 0) ++ replicate 60 (1, 0))%nat (main (replicate 10 0) [5; 7; 666; 8]).
Lemma mq_main_ends_witness : snd <$> gots (mem demo) = [5; 7; 666].
Proof.
  apply (mq_main_ends (replicate 10 0) [5; 7; 666; 8] demo); [reflexivity|set_solver|cbn; lia|apply run_schedule_reachable|].
  intros [|[|t]] k; vm_compute; reflexivity.
Defined.

(** Two producers and a consumer, a queue of two places. *)
Definition demo_roles : list (option (list Z)) := [Some [5; 666]; Some [6; 666]; None].
Definition demo_busy : config pthread_mq_t local :=
  run_schedule code (replicate 40 (0, 0) ++ replicate 20 (1, 0) ++ replicate 14 (2, 0))%nat (start 3 [0; 0; 0] demo_roles).
Lemma mq_fifo_witness :
  (length (contents (mem demo_busy)) < 3)%nat /\ snd <$> puts (mem demo_busy) = [5; 666] /\ contents (mem demo_busy) = [666].
Proof.
  destruct (mq_fifo 3 [0; 0; 0] demo_roles demo_busy) as (_ & H & _); [lia|reflexivity| |apply run_schedule_reachable|].
  - intros [|[|[|t]]] i Hi; [injection Hi as <-; set_solver..|discriminate Hi|discriminate Hi].
  - split; [exact H|]. split; vm_compute; reflexivity.
Defined.

(** A longer input can stop the program for ever, with the producer waiting for room
    in an empty queue: the consumer, which makes the room, wakes the threads that wait
    for an element. *)
Theorem mq_deadlock : exists cf,
  rtc (step code) (main (replicate 10 0) [1; 2; 3; 4; 5; 6; 7; 8; 9; 666]) cf /\ blocked code cf /\
  t_status <$> threads cf = [Asleep cond_full; Asleep cond_empty] /\ contents (mem cf) = [].
Proof.
  exists (run_schedule code (replicate 200 (0, 0) ++ replicate 200 (1, 0))%nat (main (replicate 10 0) [1; 2; 3; 4; 5; 6; 7; 8; 9; 666])).
  split; [apply run_schedule_reachable|]. split; [|split; vm_compute; reflexivity].
  intros [|[|t]] k; vm_compute; reflexivity.
Qed.
End MessageQueue.
