(* ===== verification/UringCopy.v ===== *)
(** [src/examples/io/io_uring/cp_liburing.cc]: copying a file with requests that the
    kernel completes later and in any order.  The ring of liburing is given by what its
    manual says: a bounded queue of prepared requests, which io_uring_submit(3) hands to
    the kernel, and a queue of completions; an oracle chooses which requests complete
    before a call returns and how many bytes they moved.  Shown: when every request moves
    all its bytes the program ends and the file is copied, in whatever order requests
    complete, once the writes that are still under way are done; what it does not wait
    for, and what it does with short transfers, are theorems too. *)

From stdpp Require Import prelude list.
From Stdlib Require Import ZArith Lia.
From S2P Require Import Prelude Posix.

Module UringCopy.
Open Scope prog_scope.

Definition QD : Z := 2.
Definition BS : Z := 16 * 1024.

(** [iov_base] counts from the memory behind the structure, [room]. *)
Record io_data := mkData {
  read : bool;
  first_offset : Z;
  offset : Z;
  first_len : Z;
  iov_base : Z;
  iov_len : Z;
  room : list byte;
}.

(** * The ring *)

(** A prepared request.  The structure it points to goes with it: one request at a time
    refers to it. *)
Record sqe := mkSqe { s_read : bool; s_offset : Z; s_data : io_data }.

(** What the environment decides in one call. *)
Record uanswer := mkUAnswer {
  u_malloc : option byte;       (** what is in fresh memory *)
  u_ret : Z;                    (** below 0: the call fails with this result *)
  u_done : list (nat * Z);      (** requests that complete, with their results *)
  u_res : Z;                    (** the result of a request that must complete *)
}.
Record ring := mkRing {
  infile : list byte;
  outfile : list byte;
  sq : list sqe;
  flight : list sqe;
  cq : list (io_data * Z);
  env : nat -> uanswer;
  tick : nat;
}.
Abbreviation M := (prog ring).

Definition set_files o f c (w : ring) : ring := mkRing (infile w) o (sq w) f c (env w) (tick w).
Definition set_sq s (w : ring) : ring := mkRing (infile w) (outfile w) s (flight w) (cq w) (env w) (tick w).
Definition ask : M uanswer :=
  fun w => (Val (env w (tick w)), mkRing (infile w) (outfile w) (sq w) (flight w) (cq w) (env w) (S (tick w))).

(** pwrite(2) at an offset, which may leave a hole of zeros. *)
Definition write_at (off : Z) (d f : list byte) : list byte :=
  take (Z.to_nat off) (f ++ replicate (Z.to_nat off - length f) Byte.x00) ++ d ++ drop (Z.to_nat off + length d) f.

(** A request moves [n] bytes. *)
Definition transfer (e : sqe) (n : Z) (w : ring) : io_data * list byte :=
  let d := s_data e in
  if s_read e then
    (mkData (read d) (first_offset d) (offset d) (first_len d) (iov_base d) (iov_len d)
       (buf_put (iov_base d) (buf_get (s_offset e) n (infile w)) (room d)), outfile w)
  else (d, write_at (s_offset e) (buf_get (iov_base d) n (room d)) (outfile w)).
(** A read stops at the end of the file. *)
Definition moved (e : sqe) (r : Z) (w : ring) : Z :=
  let n := Z.min r (iov_len (s_data e)) in
  if s_read e then Z.max 0 (Z.min n (zlen (infile w) - s_offset e)) else n.
Definition complete (ir : nat * Z) (w : ring) : ring :=
  let '(i, r) := ir in
  match flight w !! i with
  | Some e =>
      let rest := delete i (flight w) in
      if r <? 0 then set_files (outfile w) rest (cq w ++ [(s_data e, r)]) w
      else let n := moved e r w in let '(d, o) := transfer e n w in set_files o rest (cq w ++ [(d, n)]) w
  | None => w
  end.
Definition completions (l : list (nat * Z)) (w : ring) : ring := foldl (fun w ir => complete ir w) w l.

Definition io_uring_submit : M Z :=
  let! a := ask in
  if u_ret a <? 0 then pret (u_ret a)
  else let! w := pget in
       pput (mkRing (infile w) (outfile w) [] (flight w ++ sq w) (cq w) (env w) (tick w)) ;;;
       pret (zlen (sq w)).
(** io_uring_get_sqe(3) followed by the preparation of the request; [false] when the queue
    is full. *)
Definition prepare (e : sqe) : M bool :=
  let! w := pget in
  if QD <=? zlen (sq w) then pret false else pput (set_sq (sq w ++ [e]) w) ;;; pret true.
(** The result and, when there is one, the first completion, which stays in the queue.
    With no request under way the wait does not end. *)
Definition io_uring_wait_cqe : M (Z * option (io_data * Z)) :=
  let! a := ask in
  pmodify (completions (u_done a)) ;;;
  if u_ret a <? 0 then pret (u_ret a, None)
  else let! w := pget in
       match cq w, flight w with
       | c :: _, _ => pret (0, Some c)
       | [], [] => pstuck
       | [], _ => pmodify (complete (0%nat, u_res a)) ;;; let! w := pget in pret (0, head (cq w))
       end.
Definition io_uring_peek_cqe : M (Z * option (io_data * Z)) :=
  let! a := ask in
  pmodify (completions (u_done a)) ;;;
  if u_ret a <? 0 then pret (u_ret a, None)
  else let! w := pget in
       match cq w with c :: _ => pret (0, Some c) | [] => pret (- EAGAIN, None) end.
Definition io_uring_cqe_seen : M unit := pmodify (fun w => set_files (outfile w) (flight w) (tail (cq w)) w).

(** * The program *)

Definition setup_context (init : Z) : Z := if init <? 0 then -1 else 0.

(** What fstat(2) says; [None]: it fails.  The ioctl of a block device may fail too. *)
Inductive stat := S_ISREG (st_size : Z) | S_ISBLK (bytes : option Z) | S_OTHER.
Definition get_file_size (st : option stat) : option Z :=
  match st with
  | None => None
  | Some (S_ISREG size) => Some size
  | Some (S_ISBLK (Some bytes)) => Some (s64 bytes)
  | Some (S_ISBLK None) => None
  | Some S_OTHER => None
  end.

(** assert(3) aborts. *)
Definition SIGABRT_status : Z := 134.
Definition queue_prepped (data : io_data) : M unit :=
  let! sqe := prepare (mkSqe (read data) (offset data) data) in
  if sqe then pret tt else pexit SIGABRT_status.

Definition queue_read (size off : Z) : M Z :=
  let! a := ask in
  match u_malloc a with
  | None => pret 1
  | Some junk =>
      let data := mkData true off off size 0 size (replicate (Z.to_nat size) junk) in
      let! sqe := prepare (mkSqe true off data) in
      pret (if sqe : bool then 0 else 1)
  end.

Definition queue_write (data : io_data) : M unit :=
  queue_prepped (mkData false (first_offset data) (first_offset data) (first_len data) 0 (first_len data) (room data)) ;;;
  io_uring_submit ;;;
  pret tt.

(** The variables of [copy_file]. *)
Record vars := mkVars { insize : Z; write_left : Z; off : Z; reads : Z; writes : Z }.

(** One pass of the loop that queues reads. *)
Definition read_round (v : vars) : M (vars + vars) :=
  if insize v =? 0 then pret (inr v)
  else if QD <=? u64 (reads v + writes v) then pret (inr v)
  else
    let this_size := if BS <? insize v then BS else insize v in
    let! ret := queue_read this_size (off v) in
    if negb (ret =? 0) then pret (inr v)
    else pret (inl (mkVars (s64 (insize v - this_size)) (write_left v) (s64 (off v + this_size)) (u64 (reads v + 1)) (writes v))).

(** One completion. *)
Definition handle (v : vars) (data : io_data) (res : Z) : M (vars + Z) :=
  if res <? 0 then
    if res =? - EAGAIN then queue_prepped data ;;; io_uring_cqe_seen ;;; pret (inl v)
    else pret (inr 1)
  else if negb (res =? s32 (iov_len data)) then
    queue_prepped (mkData (read data) (first_offset data) (offset data) (first_len data)
      (iov_base data + res) (u64 (iov_len data - res)) (room data)) ;;;
    io_uring_cqe_seen ;;;
    pret (inl v)
  else if read data then
    queue_write data ;;;
    io_uring_cqe_seen ;;;
    pret (inl (mkVars (insize v) (s64 (write_left v - first_len data)) (off v) (u64 (reads v - 1)) (u64 (writes v + 1))))
  else
    io_uring_cqe_seen ;;;
    pret (inl (mkVars (insize v) (write_left v) (off v) (reads v) (u64 (writes v - 1)))).

(** One pass of the loop over the completions; [inr (inl v)] leaves the loop, [inr (inr r)]
    returns. *)
Definition comp_round (gv : bool * vars) : M (bool * vars + (vars + Z)) :=
  let '(got_comp, v) := gv in
  if write_left v =? 0 then pret (inr (inl v))
  else
    let! '(ret, cqe) := (if got_comp then io_uring_peek_cqe else io_uring_wait_cqe) in
    let ret := if got_comp && (ret =? - EAGAIN) then 0 else ret in
    if ret <? 0 then pret (inr (inr 1))
    else match cqe with
         | None => pret (inr (inl v))
         | Some (data, res) =>
             let! r := handle v data res in
             match r with inl v => pret (inl (true, v)) | inr r => pret (inr (inr r)) end
         end.

(** One pass of the outer loop; [inr] returns. *)
Definition copy_round (fuel : nat) (v : vars) : M (vars + Z) :=
  if (insize v =? 0) && (write_left v =? 0) then pret (inr 0)
  else
    let had_reads := reads v in
    let! v := iter 3 read_round v in
    let! ret := (if negb (had_reads =? reads v) then io_uring_submit else pret 0) in
    if ret <? 0 then pret (inr 0)
    else
      let! r := iter fuel comp_round (false, v) in
      match r with inl v => pret (inl v) | inr r => pret (inr r) end.
Definition copy_file (fuel : nat) (size : Z) : M Z :=
  iter fuel (copy_round fuel) (mkVars size size 0 0 0).

(** [main] once both files are open. *)
Definition main (fuel : nat) (init : Z) (st : option stat) : M Z :=
  if negb (setup_context init =? 0) then pret 1
  else match get_file_size st with
       | None => pret 1
       | Some insize => copy_file fuel insize
       end.

(** * What is under way *)

Lemma write_at_in o d f p : (Z.to_nat o <= p < Z.to_nat o + length d)%nat -> write_at o d f !! p = d !! (p - Z.to_nat o)%nat.
Proof.
  intros H. unfold write_at. assert (length (take (Z.to_nat o) (f ++ replicate (Z.to_nat o - length f) Byte.x00)) = Z.to_nat o) as Hl
    by (rewrite length_take, length_app, length_replicate; lia).
  rewrite lookup_app_r, Hl by lia. by rewrite lookup_app_l by lia.
Qed.
Lemma write_at_out o d f p : (p < length f)%nat -> (p < Z.to_nat o \/ Z.to_nat o + length d <= p)%nat -> write_at o d f !! p = f !! p.
Proof.
  intros Hp H. unfold write_at. assert (length (take (Z.to_nat o) (f ++ replicate (Z.to_nat o - length f) Byte.x00)) = Z.to_nat o) as Hl
    by (rewrite length_take, length_app, length_replicate; lia).
  destruct H.
  - rewrite lookup_app_l, lookup_take_lt by lia. by apply lookup_app_l.
  - rewrite lookup_app_r, Hl, lookup_app_r, lookup_drop by lia. f_equal. lia.
Qed.
Lemma write_at_length o d f b : 0 <= o -> o + zlen d <= b -> zlen f <= b -> zlen (write_at o d f) <= b.
Proof. intros. unfold write_at. rewrite !length_app, length_take, length_app, length_replicate, length_drop. lia. Qed.

(** A sum over requests. *)
Fixpoint tally (f : io_data -> Z) (l : list io_data) : Z := match l with [] => 0 | d :: l => f d + tally f l end.
Definition f_read (d : io_data) : Z := if read d then 1 else 0.
Definition f_write (d : io_data) : Z := if read d then 0 else 1.
Definition f_len (d : io_data) : Z := if read d then first_len d else 0.
Lemma tally_app f l1 l2 : tally f (l1 ++ l2) = tally f l1 + tally f l2.
Proof. induction l1 as [|d l1 IH]; cbn; [done|]. rewrite IH. lia. Qed.
#[global] Instance tally_perm f : Proper ((≡ₚ) ==> (=)) (tally f).
Proof. induction 1; cbn in *; lia. Qed.
Lemma tally_nonneg f l : (forall d, 0 <= f d) -> 0 <= tally f l.
Proof. intros H. induction l as [|d l IH]; cbn; [done|]. specialize (H d). lia. Qed.
Lemma tally_count l : tally f_read l + tally f_write l = zlen l.
Proof. induction l as [|d l IH]; [done|]. cbn [tally length]. unfold f_read at 1, f_write at 1. destruct (read d); lia. Qed.
Lemma f_read_nonneg d : 0 <= f_read d.
Proof. unfold f_read. destruct (read d); lia. Qed.
Lemma f_write_nonneg d : 0 <= f_write d.
Proof. unfold f_write. destruct (read d); lia. Qed.

(** An environment that grants what is asked for: memory, submissions, and requests that
    move all their bytes, in any order. *)
Record granting (a : uanswer) : Prop := {
  g_malloc : is_Some (u_malloc a);
  g_ret : 0 <= u_ret a;
  g_done : Forall (fun ir => BS <= ir.2) (u_done a);
  g_res : BS <= u_res a;
}.

(** The measure of what is left to be done. *)
Definition todo (v : vars) : Z := 2 * reads v + writes v.
(** Blocks that no read has been queued for. *)
Definition blocks (n : Z) : Z := (n + (BS - 1)) / BS.
Definition total (v : vars) : Z := 2 * blocks (insize v) + todo v.
Lemma blocks_step n : 0 < n -> blocks (n - (if BS <? n then BS else n)) = blocks n - 1.
Proof.
  intros Hn. unfold blocks, BS. destruct (Z.ltb_spec (16 * 1024) n).
  - replace (n - 16 * 1024 + (16 * 1024 - 1)) with ((n + (16 * 1024 - 1)) + -1 * (16 * 1024)) by lia. rewrite Z.div_add by lia. lia.
  - replace (n - n + (16 * 1024 - 1)) with (16 * 1024 - 1) by lia. rewrite (Z.div_small (16 * 1024 - 1)) by lia.
    replace (n + (16 * 1024 - 1)) with ((n - 1) + 1 * (16 * 1024)) by lia. rewrite Z.div_add, Z.div_small by lia. lia.
Qed.
Lemma blocks_nonneg n : 0 <= n -> 0 <= blocks n.
Proof. intros. unfold blocks, BS. apply Z.div_pos; lia. Qed.

Section copying.
Context (file : list byte) (Hfile : zlen file < 2 ^ 63).

Record sound (o : Z) (d : io_data) : Prop := {
  d_base : iov_base d = 0;
  d_iov : iov_len d = first_len d;
  d_len : 0 < first_len d <= BS;
  d_first : 0 <= first_offset d;
  d_end : first_offset d + first_len d <= o;
  d_room : zlen (room d) = first_len d;
}.
Definition right (d : io_data) : Prop := room d = buf_get (first_offset d) (first_len d) file.
Definition ok_req (o : Z) (e : sqe) : Prop :=
  sound o (s_data e) /\ s_read e = read (s_data e) /\ s_offset e = first_offset (s_data e) /\ (read (s_data e) = false -> right (s_data e)).
Definition ok_comp (o : Z) (c : io_data * Z) : Prop := sound o c.1 /\ c.2 = first_len c.1 /\ right c.1.

Definition reqs (w : ring) : list sqe := flight w ++ sq w.
Definition pend (w : ring) : list io_data := (s_data <$> reqs w) ++ (fst <$> cq w).
(** The bytes that a request will still bring into the file. *)
Definition within (d : io_data) (p : nat) : Prop := first_offset d <= Z.of_nat p < first_offset d + first_len d.
Definition covered (w : ring) (p : nat) : Prop :=
  (exists e, e ∈ reqs w /\ within (s_data e) p) \/ (exists c, c ∈ cq w /\ read c.1 = true /\ within c.1 p).

Record inv (v : vars) (w : ring) : Prop := {
  i_env n : granting (env w n);
  i_file : infile w = file;
  i_reqs : Forall (ok_req (off v)) (reqs w);
  i_cq : Forall (ok_comp (off v)) (cq w);
  i_reads : reads v = tally f_read (pend w);
  i_writes : writes v = tally f_write (pend w);
  i_left : write_left v = insize v + tally f_len (pend w);
  i_size : insize v + off v = zlen file;
  i_in : 0 <= insize v;
  i_off : 0 <= off v;
  i_out : zlen (outfile w) <= off v;
  i_bytes p : Z.of_nat p < off v -> covered w p \/ outfile w !! p = file !! p;
  i_qd : reads v + writes v <= QD;
  i_most : write_left v <= zlen file;
}.

Lemma inv_pend v w : inv v w -> reads v + writes v = zlen (pend w).
Proof. intros HI. rewrite (i_reads _ _ HI), (i_writes _ _ HI). apply tally_count. Qed.
Lemma inv_small v w : inv v w -> 0 <= reads v <= 2 /\ 0 <= writes v <= 2 /\ 0 <= insize v < 2 ^ 63 /\ 0 <= off v < 2 ^ 63 /\ write_left v < 2 ^ 63.
Proof.
  intros HI. pose proof (i_most _ _ HI). pose proof (i_qd _ _ HI) as Hq. unfold QD in Hq. pose proof (i_reads _ _ HI) as H1. pose proof (i_writes _ _ HI) as H2.
  pose proof (tally_nonneg f_read (pend w) f_read_nonneg). pose proof (tally_nonneg f_write (pend w) f_write_nonneg).
  pose proof (i_size _ _ HI). pose proof (i_in _ _ HI). pose proof (i_off _ _ HI). lia.
Qed.
Lemma ok_req_more o o' e : o <= o' -> ok_req o e -> ok_req o' e.
Proof. intros Ho (Hs & H1 & H2 & H3). split_and!; [|done..]. destruct Hs. constructor; (done || lia). Qed.
Lemma ok_comp_more o o' c : o <= o' -> ok_comp o c -> ok_comp o' c.
Proof. intros Ho (Hs & H1 & H2). split_and!; [|done..]. destruct Hs. constructor; (done || lia). Qed.

(** A slice of the file at its place makes its bytes right and leaves the others. *)
Lemma slice_written d f p : 0 <= first_offset d -> 0 < first_len d -> first_offset d + first_len d <= zlen file -> right d ->
  (within d p \/ f !! p = file !! p) -> (p < length file)%nat -> write_at (first_offset d) (room d) f !! p = file !! p.
Proof.
  intros Ho Hl He Hr Hp Hlt. assert (zlen (room d) = first_len d) as Hlen by (rewrite Hr; apply length_buf_get; lia).
  destruct (decide (within d p)) as [Hw|Hw]; unfold within in Hw.
  - rewrite write_at_in by lia. rewrite Hr. unfold buf_get. rewrite lookup_take_lt, lookup_drop by lia. f_equal. lia.
  - destruct Hp as [Hp|Hp]; [done|]. rewrite write_at_out; [done| |lia]. destruct (lookup_lt_is_Some_2 file p Hlt) as [x Hx]. rewrite Hx in Hp. by apply lookup_lt_Some in Hp.
Qed.

(** A request that completes moves all its bytes. *)
Lemma complete_full v w i r e : inv v w -> flight w !! i = Some e -> BS <= r ->
  exists d o, complete (i, r) w = set_files o (delete i (flight w)) (cq w ++ [(d, first_len d)]) w /\
    ok_comp (off v) (d, first_len d) /\ read d = read (s_data e) /\ first_len d = first_len (s_data e) /\ first_offset d = first_offset (s_data e) /\
    zlen o <= off v /\
    forall p, Z.of_nat p < off v -> outfile w !! p = file !! p \/ read d = false /\ within d p -> o !! p = file !! p.
Proof.
  intros HI He Hr. pose proof (i_size _ _ HI) as Hsz. pose proof (i_in _ _ HI) as Hin.
  assert (ok_req (off v) e) as (Hs & Hread & Hoff & Hright).
  { eapply Forall_lookup_1; [apply (i_reqs _ _ HI)|]. unfold reqs. by apply lookup_app_l_Some. }
  pose proof Hs as [Hb Hiov Hlen Hfst Hend Hroom]. unfold complete. rewrite He. unfold BS in *.
  replace (r <? 0) with false by (symmetry; apply Z.ltb_ge; lia).
  assert (moved e r w = first_len (s_data e)) as ->.
  { unfold moved. cbv zeta. rewrite Hoff, Hiov, (i_file _ _ HI). destruct (s_read e); lia. }
  unfold transfer. rewrite Hoff, Hb, (i_file _ _ HI), <- Hread in *. destruct (s_read e) eqn:Er.
  - exists (mkData true (first_offset (s_data e)) (offset (s_data e)) (first_len (s_data e)) 0 (iov_len (s_data e))
      (buf_get (first_offset (s_data e)) (first_len (s_data e)) file)), (outfile w).
    rewrite buf_put_all by (apply Nat2Z.inj; rewrite Hroom; apply length_buf_get; lia). split; [done|].
    cbn [read first_offset first_len].
    split_and!; [|done..|apply (i_out _ _ HI)|by intros p _ [|[? _]]]. split_and!; [|done|done].
    constructor; cbn; (done || lia || apply length_buf_get; lia).
  - exists (s_data e), (write_at (first_offset (s_data e)) (room (s_data e)) (outfile w)).
    assert (buf_get 0 (first_len (s_data e)) (room (s_data e)) = room (s_data e)) as -> by (rewrite <- Hroom; apply buf_get_all).
    split; [done|]. specialize (Hright eq_refl). split_and!; [split_and!; done|done|done|done| |].
    + apply write_at_length; [lia|lia|apply (i_out _ _ HI)].
    + intros p Hp Ho. apply (slice_written (s_data e)); [lia|lia|lia|done|tauto|lia].
Qed.

Lemma complete_inv v w i r : inv v w -> BS <= r -> inv v (complete (i, r) w) /\ sq (complete (i, r) w) = sq w /\
  (flight w = [] -> complete (i, r) w = w) /\ (i < length (flight w) -> cq (complete (i, r) w) <> [])%nat.
Proof.
  intros HI Hr. destruct (flight w !! i) as [e|] eqn:He; cycle 1.
  { unfold complete. rewrite He. split_and!; [done..|]. intros Hlt. apply lookup_ge_None in He. lia. }
  destruct (complete_full v w i r e HI He Hr) as (d & o & -> & Hc & Hrd & Hfl & Hfo & Hol & Hp).
  pose proof (delete_Permutation _ _ _ He) as Hperm.
  assert (pend w ≡ₚ s_data e :: (s_data <$> delete i (flight w) ++ sq w) ++ (fst <$> cq w)) as HP.
  { unfold pend, reqs. rewrite Hperm at 1. done. }
  assert (forall f, f d = f (s_data e) -> tally f (pend (set_files o (delete i (flight w)) (cq w ++ [(d, first_len d)]) w)) = tally f (pend w)) as Ht.
  { intros f Hf. rewrite HP. unfold pend, reqs. cbn [set_files flight sq cq tally]. rewrite (fmap_app fst), (app_assoc _ (fst <$> cq w)), tally_app. cbn. rewrite Hf. lia. }
  split_and!; [|done|intros E; by rewrite E in He|intros _ E; by apply app_nil in E as []].
  destruct HI as [Henv Hf Hreqs Hcq Hrs Hws Hleft Hsz Hin Hoff Hout Hby Hqd Hmost]. constructor; cbn [env infile outfile cq set_files]; try done.
  - unfold reqs in *. rewrite Hperm in Hreqs. cbn in *. by inversion Hreqs.
  - apply Forall_app. split; [done|]. by constructor.
  - rewrite Ht; [done|]. unfold f_read. by rewrite Hrd.
  - rewrite Ht; [done|]. unfold f_write. by rewrite Hrd.
  - rewrite Ht; [done|]. unfold f_len. by rewrite Hrd, Hfl.
  - intros p Hlt. unfold covered, reqs. cbn.
    assert (within d p <-> within (s_data e) p) as Hw by (unfold within; by rewrite Hfl, Hfo).
    destruct (Hby p Hlt) as [[(e' & He' & Hin')|(c & Hc' & Hrc & Hin')]|Ho].
    + unfold reqs in He'. rewrite Hperm in He'. apply elem_of_cons in He' as [-> |He']; [|by left; left; exists e'].
      destruct (read d) eqn:Erd; [left; right|right; apply Hp; [done|right; by rewrite Hw]].
      exists (d, first_len d). cbn. split_and!; [apply elem_of_app; right; by left|done|by rewrite Hw].
    + left. right. exists c. split_and!; [apply elem_of_app; by left|done|done].
    + right. apply Hp; [done|by left].
Qed.

Lemma completions_inv v l : Forall (fun ir => BS <= ir.2) l -> forall w, inv v w -> inv v (completions l w) /\ sq (completions l w) = sq w /\
  (pend w <> [] -> pend (completions l w) <> []).
Proof.
  induction 1 as [|[i r] l Hr _ IH]; intros w HI; [done|].
  change (completions ((i, r) :: l) w) with (completions l (complete (i, r) w)).
  destruct (complete_inv v w i r HI Hr) as (HI' & Hs & _). destruct (IH _ HI') as (HI2 & Hs2 & Hp2).
  split_and!; [done|congruence|]. intros Hne. apply Hp2. intros E. pose proof (inv_pend _ _ HI) as H1. pose proof (inv_pend _ _ HI') as H2.
  rewrite E in H2. destruct (pend w); [done|]. cbn in *. lia.
Qed.

(** ** The calls *)

Definition ticked (w : ring) : ring := mkRing (infile w) (outfile w) (sq w) (flight w) (cq w) (env w) (S (tick w)).
Lemma inv_ticked v w : inv v w -> inv v (ticked w).
Proof. intros []. by constructor. Qed.
Lemma ask_ok v w (Q : uanswer -> ring -> Prop) X :
  inv v w -> (forall a, granting a -> inv v (ticked w) -> Q a (ticked w)) -> wp ask Q X w.
Proof. intros HI H. unfold wp, ask. cbn. apply H; [apply (i_env _ _ HI)|by apply inv_ticked]. Qed.

Definition submitted (w : ring) : ring := mkRing (infile w) (outfile w) [] (flight w ++ sq w) (cq w) (env w) (S (tick w)).
Lemma submit_eq w : granting (env w (tick w)) -> io_uring_submit w = (Val (zlen (sq w)), submitted w).
Proof. intros [_ Hr _ _]. unfold io_uring_submit, ask, pbind. cbn. by replace (u_ret (env w (tick w)) <? 0) with false by (symmetry; by apply Z.ltb_ge). Qed.
Lemma inv_submitted v w : inv v w -> inv v (submitted w) /\ pend (submitted w) = pend w.
Proof.
  intros HI. assert (reqs (submitted w) = reqs w) as Hr by (unfold reqs; cbn; apply app_nil_r).
  assert (pend (submitted w) = pend w) as Hp by (unfold pend; by rewrite Hr). split; [|done].
  destruct HI. constructor; rewrite ?Hp, ?Hr; try done. unfold covered. by rewrite Hr.
Qed.

Lemma queue_read_ok v w n X : inv v w -> 0 < n <= BS -> n <= insize v -> reads v + writes v < QD ->
  wp (queue_read n (off v)) (fun r w' => r = 0 /\
    inv (mkVars (insize v - n) (write_left v) (off v + n) (reads v + 1) (writes v)) w') X w.
Proof.
  intros HI Hn Hle Hq. unfold queue_read. wp_step. apply (ask_ok v); [done|]. clear HI. intros a [[junk Hm] _ _ _] HI. rewrite Hm.
  set (w1 := ticked w) in *. clearbody w1. pose proof (inv_pend _ _ HI) as Hp.
  assert (zlen (sq w1) < QD) as Hsq.
  { unfold pend, reqs in Hp. rewrite !length_app, length_fmap, length_app in Hp. lia. }
  unfold prepare. repeat wp_step; try (zbool; lia). unfold wp, pput. cbn. split; [done|].
  set (d := mkData true (off v) (off v) n 0 n (replicate (Z.to_nat n) junk)). set (e := mkSqe true (off v) d).
  assert (pend (set_sq (sq w1 ++ [e]) w1) ≡ₚ d :: pend w1) as HP.
  { unfold pend, reqs. cbn. rewrite app_assoc, fmap_app. cbn. solve_Permutation. }
  assert (reqs (set_sq (sq w1 ++ [e]) w1) = reqs w1 ++ [e]) as Hr by (unfold reqs; cbn; by rewrite app_assoc).
  destruct HI as [Henv Hf Hreqs Hcq Hrs Hws Hleft Hsz Hin Hoff Hout Hby Hqd Hmost].
  constructor; cbn [insize write_left off reads writes]; try rewrite HP; try rewrite Hr; cbn [tally env infile outfile cq set_sq]; try assumption.
  - apply Forall_app. split; [eapply Forall_impl; [exact Hreqs|]; intros; eapply ok_req_more; [|done]; lia|].
    constructor; [|done]. split_and!; [|done..]. constructor; cbn; (done || lia || rewrite length_replicate; lia).
  - eapply Forall_impl; [exact Hcq|]. intros. eapply ok_comp_more; [|done]. lia.
  - change (f_read d) with 1. lia.
  - change (f_len d) with n. lia.
  - lia.
  - lia.
  - lia.
  - lia.
  - intros p Hlt. unfold covered. rewrite Hr. cbn [cq set_sq]. destruct (decide (Z.of_nat p < off v)) as [Hp'|Hp'].
    + destruct (Hby p Hp') as [[(e' & He & Hw)|Hc]|Ho]; [left; left|left; by right|by right]. exists e'. split; [|done]. apply elem_of_app. by left.
    + left. left. exists e. split; [apply elem_of_app; right; by left|]. unfold within. cbn. lia.
  - lia.
Qed.

Lemma pend_nonneg v w : inv v w -> 0 <= tally f_len (pend w).
Proof.
  intros HI. assert (forall l, (forall x, x ∈ l -> 0 < first_len x) -> 0 <= tally f_len l) as Hl.
  { induction l as [|x l IH]; intros Hx; [done|]. cbn [tally]. pose proof (Hx x ltac:(by left)).
    specialize (IH ltac:(intros; apply Hx; by right)). unfold f_len at 1. destruct (read x); lia. }
  apply Hl. intros x [(y & -> & Hy)%list_elem_of_fmap|(y & -> & Hy)%list_elem_of_fmap]%elem_of_app.
  - pose proof (i_reqs _ _ HI) as Hr. rewrite Forall_forall in Hr. destruct (Hr _ Hy) as [[] _]. lia.
  - pose proof (i_cq _ _ HI) as Hr. rewrite Forall_forall in Hr. destruct (Hr _ Hy) as [[] _]. lia.
Qed.

(** A completed read becomes a write. *)
Definition to_write (d : io_data) : io_data := mkData false (first_offset d) (first_offset d) (first_len d) 0 (first_len d) (room d).
Lemma retire_read v w d rest : inv v w -> cq w = (d, first_len d) :: rest -> sq w = [] -> read d = true ->
  inv (mkVars (insize v) (write_left v - first_len d) (off v) (reads v - 1) (writes v + 1))
    (mkRing (infile w) (outfile w) [] (flight w ++ [mkSqe false (first_offset d) (to_write d)]) rest (env w) (S (tick w))).
Proof.
  intros [Henv Hf Hreqs Hcq Hrs Hws Hleft Hsz Hin Hoff Hout Hby Hqd Hmost] Hc Hsq Er.
  rewrite Hc in Hcq. inversion Hcq as [|? ? [Hs [_ Hri]] Hrest]; subst. cbn in Hs, Hri.
  assert (pend w ≡ₚ d :: (s_data <$> flight w) ++ (fst <$> rest)) as HP by (unfold pend, reqs; rewrite Hc, Hsq, app_nil_r; cbn; solve_Permutation).
  set (e := mkSqe false (first_offset d) (to_write d)). set (w' := mkRing _ _ _ _ _ _ _).
  assert (pend w' ≡ₚ to_write d :: (s_data <$> flight w) ++ (fst <$> rest)) as HP'.
  { unfold pend, reqs, w'. cbn [flight sq cq]. rewrite app_nil_r, fmap_app. cbn. solve_Permutation. }
  assert (reqs w' = reqs w ++ [e]) as Hr by (unfold reqs, w'; cbn; by rewrite Hsq, !app_nil_r).
  rewrite HP in Hrs, Hws, Hleft. cbn [tally] in Hrs, Hws, Hleft. unfold f_read in Hrs at 1. unfold f_write in Hws at 1. unfold f_len in Hleft at 1.
  rewrite Er in Hrs, Hws, Hleft.
  constructor; cbn [insize write_left off reads writes]; try rewrite HP'; try rewrite Hr; cbn [tally]; try done.
  - apply Forall_app. split; [done|]. constructor; [|done]. split_and!; [|done..]. destruct Hs. by constructor.
  - change (f_read (to_write d)) with 0. lia.
  - change (f_write (to_write d)) with 1. lia.
  - change (f_len (to_write d)) with 0. lia.
  - intros p Hlt. unfold covered. rewrite Hr. destruct (Hby p Hlt) as [[(e' & He & Hw)|(c & Hc' & Hrc & Hw)]|Ho]; [left..|by right].
    + left. exists e'. split; [|done]. apply elem_of_app. by left.
    + rewrite Hc in Hc'. apply elem_of_cons in Hc' as [-> |Hc']; [left; exists e; split; [apply elem_of_app; right; by left|done]|].
      right. by exists c.
  - lia.
  - destruct Hs. lia.
Qed.
(** A completed write is over. *)
Lemma retire_write v w d rest : inv v w -> cq w = (d, first_len d) :: rest -> sq w = [] -> read d = false ->
  inv (mkVars (insize v) (write_left v) (off v) (reads v) (writes v - 1)) (set_files (outfile w) (flight w) rest w).
Proof.
  intros [Henv Hf Hreqs Hcq Hrs Hws Hleft Hsz Hin Hoff Hout Hby Hqd Hmost] Hc Hsq Er.
  rewrite Hc in Hcq. inversion Hcq as [|? ? _ Hrest]; subst.
  assert (pend w ≡ₚ d :: pend (set_files (outfile w) (flight w) rest w)) as HP by (unfold pend, reqs; rewrite Hc; cbn; solve_Permutation).
  rewrite HP in Hrs, Hws, Hleft. cbn [tally] in Hrs, Hws, Hleft. unfold f_read in Hrs at 1. unfold f_write in Hws at 1. unfold f_len in Hleft at 1.
  rewrite Er in Hrs, Hws, Hleft. constructor; cbn [insize write_left off reads writes]; try (done || lia).
  intros p Hlt. destruct (Hby p Hlt) as [[He|(c & Hc' & Hrc & Hw)]|Ho]; [left; by left|left; right|by right].
  rewrite Hc in Hc'. apply elem_of_cons in Hc' as [-> |Hc']; [cbn in Hrc; congruence|]. by exists c.
Qed.

Lemma handle_ok v w d res rest X : inv v w -> cq w = (d, res) :: rest -> sq w = [] ->
  wp (handle v d res) (fun r w' => exists v', r = inl v' /\ inv v' w' /\ sq w' = [] /\ insize v' = insize v /\ todo v' < todo v) X w.
Proof.
  intros HI Hc Hsq. pose proof (inv_small _ _ HI) as Hsm. pose proof (pend_nonneg _ _ HI) as Hnn. pose proof (i_left _ _ HI) as Hleft.
  pose proof (i_cq _ _ HI) as Hcq. rewrite Hc in Hcq. inversion Hcq as [|? ? [Hs [Hres Hri]] Hrest]; subst; cbn in *. subst res.
  pose proof Hs as [Hb Hiov Hlen Hfst Hend Hroom]. unfold BS in Hlen. unfold handle.
  replace (first_len d <? 0) with false by (symmetry; apply Z.ltb_ge; lia). rewrite Hiov, s32_small, Z.eqb_refl by lia. cbn [negb].
  destruct (read d) eqn:Er.
  - pose proof (retire_read v w d rest HI Hc Hsq Er) as HI'. pose proof (i_left _ _ HI') as Hleft'. pose proof (pend_nonneg _ _ HI').
    pose proof (inv_small _ _ HI'). cbn [write_left insize reads writes off] in *.
    unfold queue_write, queue_prepped, prepare, io_uring_cqe_seen, pmodify, wp, pbind, pget, pput. rewrite Hsq.
    change (QD <=? zlen []) with false. cbn -[io_uring_submit u64 s64]. rewrite submit_eq by apply (i_env _ _ HI). cbn -[u64 s64]. rewrite Hc. cbn -[u64 s64].
    eexists. split; [reflexivity|]. cint. split_and!; [exact HI'|done|done|]. unfold todo. cbn. lia.
  - pose proof (retire_write v w d rest HI Hc Hsq Er) as HI'. pose proof (inv_small _ _ HI') as Hsm'. cbn [write_left insize reads writes off] in *.
    unfold io_uring_cqe_seen, pmodify, wp, pbind. rewrite Hc. cbn -[u64 s64].
    eexists. split; [reflexivity|]. cint. split_and!; [exact HI'|done|done|]. unfold todo. cbn. lia.
Qed.

Lemma wait_ok v w X : inv v w -> sq w = [] -> pend w <> [] ->
  wp io_uring_wait_cqe (fun rc w' => inv v w' /\ sq w' = [] /\ rc.1 = 0 /\ exists d res rest, rc.2 = Some (d, res) /\ cq w' = (d, res) :: rest) X w.
Proof.
  intros HI Hsq Hne. unfold io_uring_wait_cqe. wp_step. apply (ask_ok v); [done|]. intros a [_ Hret Hdone Hres] HI1.
  destruct (completions_inv v _ Hdone _ HI1) as (HI2 & Hsq2 & Hne2). specialize (Hne2 Hne). change (sq (ticked w)) with (sq w) in Hsq2. rewrite Hsq in Hsq2.
  wp_step. wp_step. set (w2 := completions (u_done a) (ticked w)) in *. clearbody w2. clear HI HI1 Hsq Hne w.
  replace (u_ret a <? 0) with false by (symmetry; by apply Z.ltb_ge). wp_step. wp_step.
  destruct (cq w2) as [|[d res] rest] eqn:Ec.
  - destruct (flight w2) as [|e fl] eqn:Ef; [exfalso; apply Hne2; unfold pend, reqs; by rewrite Ec, Ef, Hsq2|].
    destruct (complete_inv v w2 0 (u_res a) HI2 Hres) as (HI3 & Hsq3 & _ & Hcq). rewrite Ef in Hcq. specialize (Hcq ltac:(cbn; lia)).
    do 5 wp_step. split_and!; [done|congruence|done|]. destruct (cq (complete (0%nat, u_res a) w2)) as [|[d res] rest]; [done|]. by exists d, res, rest.
  - wp_step. split_and!; [done|done|done|]. by exists d, res, rest.
Qed.
Lemma peek_ok v w X : inv v w -> sq w = [] ->
  wp io_uring_peek_cqe (fun rc w' => inv v w' /\ sq w' = [] /\
    (rc = (- EAGAIN, None) \/ rc.1 = 0 /\ exists d res rest, rc.2 = Some (d, res) /\ cq w' = (d, res) :: rest)) X w.
Proof.
  intros HI Hsq. unfold io_uring_peek_cqe. wp_step. apply (ask_ok v); [done|]. intros a [_ Hret Hdone Hres] HI1.
  destruct (completions_inv v _ Hdone _ HI1) as (HI2 & Hsq2 & _). change (sq (ticked w)) with (sq w) in Hsq2. rewrite Hsq in Hsq2.
  wp_step. wp_step. set (w2 := completions (u_done a) (ticked w)) in *. clearbody w2.
  replace (u_ret a <? 0) with false by (symmetry; by apply Z.ltb_ge). wp_step. wp_step.
  destruct (cq w2) as [|[d res] rest] eqn:Ec; wp_step; (split_and!; [done|done|]); [by left|right]. split; [done|]. by exists d, res, rest.
Qed.

(** The loop over the completions handles at least one. *)
Lemma comp_loop fuel v w X : inv v w -> sq w = [] -> pend w <> [] -> write_left v <> 0 -> (5 <= fuel)%nat ->
  wp (iter fuel comp_round (false, v)) (fun r w' => exists v', r = inl v' /\ inv v' w' /\ sq w' = [] /\ insize v' = insize v /\ todo v' < todo v) X w.
Proof.
  intros HI Hsq Hne Hwl Hfuel.
  eapply (wp_iter (fun gv w' => inv gv.2 w' /\ sq w' = [] /\ insize gv.2 = insize v /\
    if gv.1 : bool then todo gv.2 < todo v else gv.2 = v /\ pend w' <> []) (fun gv _ => Z.to_nat (todo gv.2))); [|done|].
  - clear HI Hsq Hne. intros [g v1] w1 (HI & Hsq & Hin & Hg). cbn [fst snd] in *. unfold comp_round.
    assert (0 <= todo v1) as Hpos by (pose proof (inv_small _ _ HI); unfold todo; lia).
    destruct (Z.eqb_spec (write_left v1) 0) as [E|E].
    { wp_step. destruct g; [|by destruct Hg as [-> _]]. by exists v1. }
    assert (forall d res rest w2, inv v1 w2 -> sq w2 = [] -> cq w2 = (d, res) :: rest ->
      wp (let! r := handle v1 d res in match r with inl v => pret (inl (true, v)) | inr r => pret (inr (inr r)) end)
        (fun r s' => match r with
         | inl y' => (inv y'.2 s' /\ sq s' = [] /\ insize y'.2 = insize v /\ if y'.1 : bool then todo y'.2 < todo v else y'.2 = v /\ pend s' <> []) /\
             (Z.to_nat (todo y'.2) < Z.to_nat (todo v1))%nat
         | inr r => exists v', r = inl v' /\ inv v' s' /\ sq s' = [] /\ insize v' = insize v /\ todo v' < todo v
         end) X w2) as Hh.
    { intros d res rest w2 HI2 Hsq2 Hc2. wp_step. eapply wp_mono; [by eapply handle_ok| |done].
      intros r w3 (v3 & -> & HI3 & Hsq3 & Hin3 & Hlt). wp_step. cbn.
      assert (0 <= todo v3) by (pose proof (inv_small _ _ HI3); unfold todo; lia).
      split_and!; [done|done|congruence| |lia]. destruct g; [lia|]. by destruct Hg as [-> _]. }
    wp_step. destruct g.
    + eapply wp_mono; [by apply (peek_ok v1)| |done]. intros [ret c] w2 (HI2 & Hsq2 & [[= -> ->]|(Hr & d & res & rest & Hc & Hcq)]); cbn in *.
      * by exists v1.
      * subst. cbn. by eapply Hh.
    + destruct Hg as [-> Hp]. eapply wp_mono; [by apply (wait_ok v)| |done]. intros [ret c] w2 (HI2 & Hsq2 & Hr & d & res & rest & Hc & Hcq). cbn in *. subst. cbn. by eapply Hh.
  - cbn. pose proof (inv_small _ _ HI). pose proof (i_qd _ _ HI). unfold todo, QD in *. lia.
Qed.

Lemma read_loop v w X : inv v w -> sq w = [] ->
  wp (iter 3 read_round v) (fun v' w' => inv v' w' /\ total v' = total v /\ write_left v' = write_left v /\
    (reads v' = reads v -> sq w' = []) /\ (insize v' = 0 \/ QD <= reads v' + writes v')) X w.
Proof.
  intros HI Hsq.
  eapply (wp_iter (fun v1 w1 => inv v1 w1 /\ total v1 = total v /\ write_left v1 = write_left v /\ (reads v1 = reads v /\ sq w1 = [] \/ reads v < reads v1))
    (fun v1 _ => Z.to_nat (QD - (reads v1 + writes v1)))); [|by split_and!; [| | |left]|].
  - clear HI Hsq. intros v1 w1 (HI & Ht & Hw & Hor). pose proof (inv_small _ _ HI) as Hsm. unfold read_round.
    destruct (Z.eqb_spec (insize v1) 0) as [E|E]; [wp_step; split_and!; [done|done|done|by destruct Hor as [[]|]; [|lia]|by left]|].
    rewrite (u64_small (reads v1 + writes v1)) by lia.
    destruct (Z.leb_spec QD (reads v1 + writes v1)) as [Eq|Eq]; [wp_step; split_and!; [done|done|done|by destruct Hor as [[]|]; [|lia]|by right]|].
    set (n := if BS <? insize v1 then BS else insize v1).
    assert (0 < n <= BS /\ n <= insize v1) as [Hn Hle] by (unfold n, BS; destruct (Z.ltb_spec (16 * 1024) (insize v1)); lia).
    wp_step. eapply wp_mono; [by apply (queue_read_ok v1 _ n)| |done]. intros r w2 [-> HI2]. cbn -[n s64 u64]. wp_step.
    pose proof (inv_small _ _ HI2) as Hsm2. cbn -[n s64 u64 Z.pow] in Hsm2. cint. split_and!; [done| |done|right; cbn; lia|].
    + unfold total, todo in *. cbn. pose proof (blocks_step (insize v1) ltac:(lia)). fold n in H. lia.
    + cbn. lia.
  - pose proof (inv_small _ _ HI). unfold QD. lia.
Qed.

Lemma copy_round_ok fuel v w X : inv v w -> sq w = [] -> (5 <= fuel)%nat ->
  wp (copy_round fuel v) (fun r w' => match r with
    | inl v' => (inv v' w' /\ sq w' = []) /\ (Z.to_nat (total v') < Z.to_nat (total v))%nat
    | inr r => r = 0 /\ sq w' = [] /\ exists v', inv v' w' /\ insize v' = 0 /\ write_left v' = 0
    end) X w.
Proof.
  intros HI Hsq Hf. unfold copy_round. destruct ((insize v =? 0) && (write_left v =? 0)) eqn:E.
  { zbool. wp_step. split_and!; [done|done|]. by exists v. }
  assert (write_left v <> 0) as Hwl.
  { intros Hz. pose proof (i_left _ _ HI). pose proof (pend_nonneg _ _ HI). pose proof (i_in _ _ HI).
    apply andb_false_iff in E as [E|E]; apply Z.eqb_neq in E; lia. }
  wp_step. eapply wp_mono; [by apply read_loop| |done]. intros v1 w1 (HI1 & Ht & Hw & Hs & Hor).
  wp_step. eapply (wp_mono _ (fun r w2 => 0 <= r /\ inv v1 w2 /\ sq w2 = [] /\ pend w2 = pend w1)); [|
    |done].
  { destruct (Z.eqb_spec (reads v) (reads v1)) as [Er|Er]; cbn [negb]; [wp_step; split_and!; [lia|done|by apply Hs|done]|].
    unfold wp. rewrite submit_eq by apply (i_env _ _ HI1). destruct (inv_submitted _ _ HI1). split_and!; [lia|done|done|done]. }
  intros r w2 (Hr & HI2 & Hsq2 & Hp). replace (r <? 0) with false by (symmetry; by apply Z.ltb_ge).
  wp_step. eapply wp_mono; [apply comp_loop; [done|done| |by rewrite Hw|done]| |done].
  - intros Hn. pose proof (i_left _ _ HI2). pose proof (inv_pend _ _ HI2). rewrite Hn in *. cbn in *. unfold QD in Hor. rewrite <- Hw in Hwl. lia.
  - intros x w3 (v3 & -> & HI3 & Hsq3 & Hin & Hlt). wp_step. split; [done|]. pose proof (inv_small _ _ HI3) as Hsm.
    pose proof (blocks_nonneg (insize v3) ltac:(lia)). unfold total, todo in *. rewrite Hin in *. lia.
Qed.

(** ** The end *)

(** The writes under way are carried out. *)
Definition land (l : list sqe) (o : list byte) : list byte :=
  foldl (fun o e => write_at (s_offset e) (buf_get (iov_base (s_data e)) (iov_len (s_data e)) (room (s_data e))) o) o l.
Lemma land_file l : Forall (fun e => ok_req (zlen file) e /\ read (s_data e) = false) l -> forall o, zlen o <= zlen file ->
  (forall p, (p < length file)%nat -> (exists e, e ∈ l /\ within (s_data e) p) \/ o !! p = file !! p) -> land l o = file.
Proof.
  induction 1 as [|e l [(Hs & _ & Hoff & Hri) Hrd] _ IH]; intros o Ho Hp; cbn.
  - apply list_eq. intros p. destruct (decide (p < length file)%nat) as [Hlt|Hge]; [by destruct (Hp p Hlt) as [(e & He & _)|]; [set_solver|]|].
    rewrite !lookup_ge_None_2 by lia. done.
  - specialize (Hri Hrd). pose proof Hs as [Hb Hiov Hlen Hfst Hend Hroom].
    assert (buf_get (iov_base (s_data e)) (iov_len (s_data e)) (room (s_data e)) = room (s_data e)) as -> by (rewrite Hb, Hiov, <- Hroom; apply buf_get_all).
    rewrite Hoff. apply IH; [apply write_at_length; lia|]. intros p Hlt.
    destruct (Hp p Hlt) as [(e' & He' & Hw)|Hok].
    + apply elem_of_cons in He' as [-> |He']; [right|left; by exists e']. apply slice_written; (done || lia || by left).
    + right. apply slice_written; (done || lia || by right).
Qed.
Lemma end_file v w : inv v w -> sq w = [] -> insize v = 0 -> write_left v = 0 ->
  Forall (fun e => s_read e = false) (flight w) /\ (length (flight w) <= 2)%nat /\ forall l, l ≡ₚ flight w -> land l (outfile w) = file.
Proof.
  intros HI Hsq Hin Hwl. pose proof (i_left _ _ HI) as Hl. pose proof (i_size _ _ HI) as Hsz.
  assert (forall d, d ∈ pend w -> read d = false) as Hw.
  { assert (forall d, d ∈ pend w -> 0 < first_len d) as Hpos.
    { intros x [(y & -> & Hy)%list_elem_of_fmap|(y & -> & Hy)%list_elem_of_fmap]%elem_of_app.
      - pose proof (i_reqs _ _ HI) as Hr. rewrite Forall_forall in Hr. destruct (Hr _ Hy) as [[] _]. lia.
      - pose proof (i_cq _ _ HI) as Hr. rewrite Forall_forall in Hr. destruct (Hr _ Hy) as [[] _]. lia. }
    assert (tally f_len (pend w) = 0) as H0 by lia. clear -H0 Hpos. revert H0 Hpos.
    assert (forall l, (forall d, d ∈ l -> 0 < first_len d) -> 0 <= tally f_len l /\ (tally f_len l = 0 -> forall d, d ∈ l -> read d = false)) as Hl.
    { induction l as [|x l IH]; intros Hx; [split; [done|set_solver]|]. destruct (IH ltac:(set_solver)) as [Hn Hz]. pose proof (Hx x ltac:(by left)).
      cbn [tally]. unfold f_len at 1 3. destruct (read x) eqn:Er; (split; [lia|]); [lia|]. intros H0 d [-> |Hd]%elem_of_cons; [done|]. apply Hz; [lia|done]. }
    intros H0 Hpos. by apply Hl. }
  assert (reqs w = flight w) as Hr by (unfold reqs; by rewrite Hsq, app_nil_r).
  assert (forall e, e ∈ flight w -> ok_req (off v) e /\ read (s_data e) = false) as Hfl.
  { intros e He. pose proof (i_reqs _ _ HI) as Hq. rewrite Hr, Forall_forall in Hq. split; [by apply Hq|]. apply Hw. unfold pend. rewrite Hr. apply elem_of_app. left. by apply list_elem_of_fmap_2. }
  split_and!.
  - apply Forall_forall. intros e He. destruct (Hfl e He) as [(_ & -> & _) ?]. done.
  - pose proof (inv_pend _ _ HI) as Hp. pose proof (i_qd _ _ HI). unfold pend, QD in *. rewrite Hr, length_app, length_fmap in Hp. lia.
  - intros l Hperm. apply land_file.
    + apply Forall_forall. intros e He. rewrite Hperm in He. replace (zlen file) with (off v) by lia. by apply Hfl.
    + replace (zlen file) with (off v) by lia. apply (i_out _ _ HI).
    + intros p Hp. destruct (i_bytes _ _ HI p ltac:(lia)) as [[(e & He & Hwi)|(c & Hc & Hrc & _)]|]; [left|exfalso|by right].
      * exists e. by rewrite Hperm, <- Hr.
      * rewrite (Hw c.1) in Hrc; [done|]. unfold pend. apply elem_of_app. right. by apply list_elem_of_fmap_2.
Qed.
End copying.

Definition opened (file : list byte) (answers : nat -> uanswer) : ring := mkRing file [] [] [] [] answers 0.

(** C12: Copying with io_uring when memory and submissions are granted and each request, once
    it completes, has moved all its bytes, in whatever order requests complete: the
    program ends with status 0 within two rounds per block of 16 KB, every request fits the
    queue, what it leaves under way is at most two writes, and once these are carried out,
    in any order, the output file is the input file. *)
Theorem uring_copies file answers fuel init :
  zlen file < 2 ^ 63 -> (forall n, granting (answers n)) -> 2 * blocks (zlen file) + 5 < Z.of_nat fuel -> 0 <= init ->
  wp (main fuel init (Some (S_ISREG (zlen file))))
    (fun r w => r = 0 /\ sq w = [] /\ Forall (fun e => s_read e = false) (flight w) /\ (length (flight w) <= 2)%nat /\
       forall l, l ≡ₚ flight w -> land l (outfile w) = file)
    (fun _ _ => False) (opened file answers).
Proof.
  intros Hfile Hg Hfuel Hinit. unfold main, setup_context. replace (init <? 0) with false by (symmetry; by apply Z.ltb_ge). cbn [negb Z.eqb get_file_size].
  pose proof (blocks_nonneg (zlen file) ltac:(lia)).
  eapply (wp_iter (fun v w => inv file v w /\ sq w = []) (fun v _ => Z.to_nat (total v))).
  - intros v w [HI Hsq]. eapply wp_mono; [apply (copy_round_ok file Hfile _ _ _ (fun _ _ => False)); [done|done|lia]| |done].
    intros [v'|r] w'; [done|]. intros (-> & Hsq' & v' & HI' & H0 & H1). destruct (end_file file Hfile v' w' HI' Hsq' H0 H1) as (? & ? & ?). done.
  - split; [|done]. constructor; cbn; (done || lia || constructor || idtac).
  - unfold total, todo. cbn [insize reads writes]. lia.
Qed.
(** Nothing completes before it is waited for. *)
Definition prompt : uanswer := mkUAnswer (Some Byte.x00) 0 [] BS.
Lemma prompt_granting : granting prompt.
Proof. constructor; [by eexists|done|constructor|done]. Qed.
Definition hello : list byte := [Byte.x68; Byte.x69].
Lemma uring_copies_witness :
  wp (main 20 0 (Some (S_ISREG 2))) (fun r w => r = 0 /\ land (flight w) (outfile w) = hello) (fun _ _ => False) (opened hello (fun _ => prompt)).
Proof.
  eapply wp_mono; [apply (uring_copies hello (fun _ => prompt) 20 0)| |done].
  - vm_compute. reflexivity.
  - intros _. apply prompt_granting.
  - vm_compute. reflexivity.
  - lia.
  - cbn beta. intros r w (-> & _ & _ & _ & H). split; [reflexivity|]. apply H. reflexivity.
Defined.

(** The program returns as soon as the last write is submitted: here with an output file
    that is still empty, and without looking at the result of the write. *)
Theorem uring_returns_early : exists w, main 20 0 (Some (S_ISREG 2)) (opened hello (fun _ => prompt)) = (Val 0, w) /\
  outfile w = [] /\ flight w <> [].
Proof. eexists. split; [vm_compute; reflexivity|]. split; [reflexivity|discriminate]. Qed.
(** A request that is queued again, after a short transfer or EAGAIN, is not submitted: with
    nothing else to submit the program waits for ever. *)
Definition at_first (a : uanswer) (n : nat) : uanswer := if (n =? 2)%nat then a else prompt.
Theorem uring_requeue_hangs res : res ∈ [1; - EAGAIN] ->
  exists w, main 20 0 (Some (S_ISREG 2)) (opened hello (at_first (mkUAnswer None 0 [] res))) = (Stuck, w) /\ sq w <> [] /\ flight w = [].
Proof.
  intros [-> |[-> |[]%elem_of_nil]%elem_of_cons]%elem_of_cons; eexists;
    (split; [vm_compute; reflexivity|split; [discriminate|reflexivity]]).
Qed.
(** A failing submission leaves the loop and is reported as success; so is nothing at all
    copied.  Missing memory makes the program wait for requests that it has not made. *)
Theorem uring_failures_hidden :
  (exists w, main 20 0 (Some (S_ISREG 2)) (opened hello (fun n => if (n =? 1)%nat then mkUAnswer None (-5) [] 0 else prompt)) = (Val 0, w) /\
     outfile w = [] /\ flight w = []) /\
  (exists w, main 20 0 (Some (S_ISREG 2)) (opened hello (fun _ => mkUAnswer None 0 [] BS)) = (Stuck, w)).
Proof. split; eexists; [split; [vm_compute; reflexivity|done]|vm_compute; reflexivity]. Qed.

(** After a short read the rest is read from the offset of the beginning. *)
Definition mixed : list byte := Byte.x00 :: replicate (Z.to_nat 32767) Byte.x61.
Definition short_read (n : nat) : uanswer :=
  if (n =? 3)%nat then mkUAnswer None 0 [(0%nat, 1)] BS
  else if (n =? 4)%nat then mkUAnswer None 0 [(0%nat, BS)] BS else prompt.
Definition second_byte (ow : outcome Z * ring) : outcome Z * option byte := (ow.1, land (flight ow.2) (outfile ow.2) !! 1%nat).
Lemma short_read_run : second_byte (main 20 0 (Some (S_ISREG 32768)) (opened mixed short_read)) = (Val 0, Some Byte.x00).
Proof. vm_compute. reflexivity. Qed.
Theorem uring_short_read_corrupts : exists w, main 20 0 (Some (S_ISREG 32768)) (opened mixed short_read) = (Val 0, w) /\
  land (flight w) (outfile w) <> mixed.
Proof.
  pose proof short_read_run as H. destruct (main 20 0 (Some (S_ISREG 32768)) (opened mixed short_read)) as [o w]. unfold second_byte in H. cbn [fst snd] in H.
  injection H as -> H. exists w. split; [done|]. intros E. rewrite E in H. vm_compute in H. discriminate.
Qed.
End UringCopy.
