(* ===== verification/CppString.v ===== *)
(** [src/exercises/cpp/copying_and_assignment/solution.cc]: a string class that owns its
    characters.  Blocks of characters are in a heap and objects hold pointers to them;
    freeing or reading what is not allocated, and writing past a block, are undefined
    ([Stuck]).  Shown: the class implements strings as values, for every sequence of
    constructors, assignments, concatenations and destructors that does not assign from or
    concatenate a null string; every block belongs to one object, so that nothing is leaked
    or freed twice. *)

From stdpp Require Import prelude list gmap.
From Stdlib Require Import ZArith Lia.
From S2P Require Import Prelude Posix.

Module CppString.
Open Scope prog_scope.

Definition NUL : byte := Byte.x00.
Abbreviation pointer := (option nat).

(** [objects]: the member [m_data] of each string. *)
Record memory := mkMemory { heap : gmap nat (list byte); fresh : nat; objects : gmap nat pointer; printed : list (list byte); junk : nat -> nat -> byte }.
Abbreviation M := (prog memory).

(** * The library *)

Fixpoint before_nul (b : list byte) : option (list byte) :=
  match b with
  | [] => None
  | c :: b => if Byte.eqb c NUL then Some [] else cons c <$> before_nul b
  end.
Definition set_heap h (m : memory) : memory := mkMemory h (fresh m) (objects m) (printed m) (junk m).
Definition block (p : pointer) : M (list byte) :=
  let! m := pget in match b ← p; heap m !! b with Some d => pret d | None => pstuck end.
Definition c_string (p : pointer) : M (list byte) :=
  let! d := block p in match before_nul d with Some s => pret s | None => pstuck end.
Definition strlen (p : pointer) : M nat := let! s := c_string p in pret (length s).
(** [new char[n]]; the characters are whatever was there. *)
Definition new_chars (n : nat) : M pointer :=
  fun m => (Val (Some (fresh m)), mkMemory (<[fresh m := junk m (fresh m) <$> seq 0 n]> (heap m)) (S (fresh m)) (objects m) (printed m) (junk m)).
Definition delete_chars (p : pointer) : M unit :=
  match p with
  | None => pret tt
  | Some b => block p ;;; pmodify (fun m => set_heap (delete b (heap m)) m)
  end.
Definition store_chars (p : pointer) (d : list byte) : M unit :=
  match p with Some b => pmodify (fun m => set_heap (<[b := d]> (heap m)) m) | None => pstuck end.
Definition strncpy (dst src : pointer) (n : nat) : M unit :=
  let! d := block dst in
  let! s := c_string src in
  if decide (n <= length d)%nat then store_chars dst (take n (s ++ replicate n NUL) ++ drop n d) else pstuck.
Definition strncat (dst src : pointer) (n : nat) : M unit :=
  let! d := block dst in
  let! old := c_string dst in
  let! s := c_string src in
  let new := old ++ take n s ++ [NUL] in
  if decide (length new <= length d)%nat then store_chars dst (new ++ drop (length new) d) else pstuck.

(** * The class *)

(** The value of [m_data] of an object that exists, and setting it. *)
Definition m_data (this : nat) : M pointer :=
  let! m := pget in match objects m !! this with Some p => pret p | None => pstuck end.
Definition set_m_data (this : nat) (p : pointer) : M unit :=
  pmodify (fun m => mkMemory (heap m) (fresh m) (<[this := p]> (objects m)) (printed m) (junk m)).

(** A new block with a copy of the characters at [src]. *)
Definition duplicate (src : pointer) : M pointer :=
  let! len := strlen src in
  let! p := new_chars (len + 1) in
  strncpy p src (len + 1) ;;;
  pret p.

Definition string_default (this : nat) : M unit := set_m_data this None.
Definition string_from (this : nat) (str : pointer) : M unit :=
  match str with
  | Some _ => let! p := duplicate str in set_m_data this p
  | None => set_m_data this None
  end.
Definition string_copy (this other : nat) : M unit :=
  let! o := m_data other in
  match o with
  | Some _ => let! p := duplicate o in set_m_data this p
  | None => set_m_data this None
  end.
Definition string_destroy (this : nat) : M unit :=
  let! p := m_data this in
  (match p with Some _ => delete_chars p | None => pret tt end) ;;;
  pmodify (fun m => mkMemory (heap m) (fresh m) (delete this (objects m)) (printed m) (junk m)).
Definition assign (this other : nat) : M unit :=
  if (this =? other)%nat then pret tt
  else
    let! p := m_data this in
    delete_chars p ;;;
    let! o := m_data other in
    let! q := duplicate o in
    set_m_data this q.
Definition assign_from (this : nat) (other : pointer) : M unit :=
  let! p := m_data this in
  delete_chars p ;;;
  match other with
  | Some _ => let! q := duplicate other in set_m_data this q
  | None => set_m_data this None
  end.
(** [result] is the object that receives the value. *)
Definition plus (this os result : nat) : M unit :=
  let! p := m_data this in
  let! this_len := strlen p in
  let! q := m_data os in
  let! other_len := strlen q in
  let! new_data := new_chars (this_len + other_len + 1) in
  strncpy new_data p (this_len + 1) ;;;
  strncat new_data q (this_len + other_len + 1) ;;;
  string_from result new_data ;;;
  delete_chars new_data.
Definition print_string (this : nat) : M unit :=
  let! p := m_data this in
  let! s := c_string p in
  pmodify (fun m => mkMemory (heap m) (fresh m) (objects m) (printed m ++ [s]) (junk m)).

(** A literal is a block of its own for the time of the call. *)
Definition with_literal (s : list byte) (f : pointer -> M unit) : M unit :=
  let! p := new_chars (length s + 1) in
  store_chars p (s ++ [NUL]) ;;;
  f p ;;;
  delete_chars p.

Definition hello : list byte := [Byte.x48; Byte.x65; Byte.x6c; Byte.x6c; Byte.x6f; Byte.x2c; Byte.x20].
Definition world : list byte := [Byte.x77; Byte.x6f; Byte.x72; Byte.x6c; Byte.x64; Byte.x21].
Definition s1 : nat := 1.
Definition s2 : nat := 2.
Definition result : nat := 3.
Definition main : M Z :=
  with_literal hello (string_from s1) ;;;
  with_literal world (string_from s2) ;;;
  assign s2 s1 ;;;
  print_string s2 ;;;
  plus s1 s2 result ;;;
  print_string result ;;;
  string_destroy result ;;;
  string_destroy s2 ;;;
  string_destroy s1 ;;;
  pret 0.

(** * Strings as values *)

(** The values of the strings that exist; [None] is a null string. *)
Abbreviation values := (gmap nat (option (list byte))).
Definition no_nul (s : list byte) : bool := forallb (fun c => negb (Byte.eqb c NUL)) s.

Inductive op :=
| Default (o : nat)
| From (o : nat) (s : option (list byte))
| Copy (o other : nat)
| Destroy (o : nat)
| Assign (o other : nat)
| AssignFrom (o : nat) (s : option (list byte))
| Plus (o1 o2 res : nat)
| PrintS (o : nat).

Definition exec (x : op) : M unit :=
  match x with
  | Default o => string_default o
  | From o None => string_from o None
  | From o (Some s) => with_literal s (string_from o)
  | Copy o other => string_copy o other
  | Destroy o => string_destroy o
  | Assign o other => assign o other
  | AssignFrom o None => assign_from o None
  | AssignFrom o (Some s) => with_literal s (assign_from o)
  | Plus o1 o2 res => plus o1 o2 res
  | PrintS o => print_string o
  end.
Fixpoint exec_all (l : list op) : M unit :=
  match l with [] => pret tt | x :: l => exec x ;;; exec_all l end.

(** What they mean; [None] outside the contract: an object is made once, used while it
    exists, and a null string is neither assigned, concatenated nor printed. *)
Definition absent (o : nat) (A : values) : option unit := match A !! o with None => Some tt | Some _ => None end.
Definition text (o : nat) (A : values) : option (list byte) := match A !! o with Some (Some s) => Some s | _ => None end.
Definition literal (s : option (list byte)) : option unit :=
  match s with Some s => if no_nul s then Some tt else None | None => Some tt end.
Definition spec (x : op) (Ap : values * list (list byte)) : option (values * list (list byte)) :=
  let '(A, out) := Ap in
  match x with
  | Default o => absent o A ;; Some (<[o := None]> A, out)
  | From o s => absent o A ;; literal s ;; Some (<[o := s]> A, out)
  | Copy o other => absent o A ;; v ← A !! other; Some (<[o := v]> A, out)
  | Destroy o => A !! o ;; Some (delete o A, out)
  | Assign o other =>
      A !! o ;; if (o =? other)%nat then Some (A, out) else s ← text other A; Some (<[o := Some s]> A, out)
  | AssignFrom o s => A !! o ;; literal s ;; Some (<[o := s]> A, out)
  | Plus o1 o2 res => absent res A ;; a ← text o1 A; b ← text o2 A; Some (<[res := Some (a ++ b)]> A, out)
  | PrintS o => s ← text o A; Some (A, out ++ [s])
  end.
Fixpoint spec_all (l : list op) (Ap : values * list (list byte)) : option (values * list (list byte)) :=
  match l with [] => Some Ap | x :: l => Ap ← spec x Ap; spec_all l Ap end.

(** ** The relation *)

(** Object [o] holds the value [v], in block [b]. *)
Definition holds (m : memory) (o : nat) (v : option (list byte)) : Prop :=
  match v with
  | None => objects m !! o = Some None
  | Some s => exists b, objects m !! o = Some (Some b) /\ heap m !! b = Some (s ++ [NUL]) /\ no_nul s = true
  end.
Definition owned (A : values) (m : memory) (b : nat) : Prop := exists o, is_Some (A !! o) /\ objects m !! o = Some (Some b).

(** The blocks are those of the objects, each of one object, and the temporary ones [T]. *)
Record rep (T : gset nat) (A : values) (m : memory) : Prop := {
  r_holds o v : A !! o = Some v -> holds m o v;
  r_one o1 o2 b : is_Some (A !! o1) -> is_Some (A !! o2) -> objects m !! o1 = Some (Some b) -> objects m !! o2 = Some (Some b) -> o1 = o2;
  r_temp b : b ∈ T -> is_Some (heap m !! b) /\ ~ owned A m b;
  r_all b : is_Some (heap m !! b) -> b ∈ T \/ owned A m b;
  r_fresh b : is_Some (heap m !! b) -> (b < fresh m)%nat;
}.

Definition with_block (d : list byte) (m : memory) : memory := mkMemory (<[fresh m := d]> (heap m)) (S (fresh m)) (objects m) (printed m) (junk m).
Definition without_block (b : nat) (m : memory) : memory := set_heap (delete b (heap m)) m.
Definition with_object (o : nat) (p : pointer) (m : memory) : memory := mkMemory (heap m) (fresh m) (<[o := p]> (objects m)) (printed m) (junk m).

Lemma rep_not_fresh T A m o : rep T A m -> is_Some (A !! o) -> objects m !! o <> Some (Some (fresh m)).
Proof.
  intros HR [v Hv] Ho. pose proof (r_holds _ _ _ HR _ _ Hv) as Hh. destruct v as [s|]; cbn in Hh; [|congruence].
  destruct Hh as (b & Hb & Hh & _). rewrite Ho in Hb. simplify_eq. pose proof (r_fresh _ _ _ HR (fresh m) ltac:(by eexists)). lia.
Qed.
Lemma rep_block T A m d : rep T A m -> rep ({[fresh m]} ∪ T) A (with_block d m).
Proof.
  intros HR. assert (~ owned A m (fresh m)) as Hno by (intros (o & Ho & Hb); by apply (rep_not_fresh _ _ _ _ HR Ho)).
  assert (heap m !! fresh m = None) as Hnone.
  { destruct (heap m !! fresh m) as [x|] eqn:E; [|done]. pose proof (r_fresh _ _ _ HR (fresh m) ltac:(by eexists)). lia. }
  constructor.
  - intros o v Hv. pose proof (r_holds _ _ _ HR _ _ Hv) as Hh. destruct v as [s|]; [|done]. destruct Hh as (b & Hb & Hh & Hs).
    exists b. cbn. rewrite lookup_insert_ne by congruence. done.
  - apply (r_one _ _ _ HR).
  - intros b [->%elem_of_singleton|Hb]%elem_of_union; cbn; [rewrite lookup_insert_eq; by split; [eexists|]|].
    destruct (r_temp _ _ _ HR b Hb) as [Hh Ho]. split; [|done]. rewrite lookup_insert_ne; [done|]. intros <-. by rewrite Hnone in Hh; destruct Hh.
  - cbn. intros b Hb. destruct (decide (b = fresh m)) as [->|]; [left; set_solver|]. rewrite lookup_insert_ne in Hb by done.
    destruct (r_all _ _ _ HR b Hb); [left; set_solver|by right].
  - cbn. intros b Hb. destruct (decide (b = fresh m)) as [->|]; [lia|]. rewrite lookup_insert_ne in Hb by done. pose proof (r_fresh _ _ _ HR b Hb). lia.
Qed.
Lemma rep_unblock T A m b : rep T A m -> b ∈ T -> rep (T ∖ {[b]}) A (without_block b m).
Proof.
  intros HR Hb. destruct (r_temp _ _ _ HR b Hb) as [_ Hno]. constructor.
  - intros o v Hv. pose proof (r_holds _ _ _ HR _ _ Hv) as Hh. destruct v as [s|]; [|done]. destruct Hh as (b' & Hb' & Hh & Hs).
    exists b'. cbn. rewrite lookup_delete_ne; [done|]. intros <-. apply Hno. by exists o.
  - apply (r_one _ _ _ HR).
  - intros b' [Hb' Hne]%elem_of_difference. cbn. destruct (r_temp _ _ _ HR b' Hb'). rewrite lookup_delete_ne by set_solver. done.
  - cbn. intros b' Hb'. destruct (decide (b = b')) as [<-|]; [rewrite lookup_delete_eq in Hb'; by destruct Hb'|]. rewrite lookup_delete_ne in Hb' by done.
    destruct (r_all _ _ _ HR b' Hb'); [left; set_solver|by right].
  - cbn. intros b' Hb'. apply (r_fresh _ _ _ HR). destruct (decide (b = b')) as [<-|]; [rewrite lookup_delete_eq in Hb'; by destruct Hb'|]. by rewrite lookup_delete_ne in Hb'.
Qed.
(** A temporary block is given to an object. *)
Lemma rep_give T A m o b s : rep T A m -> A !! o = None -> b ∈ T -> heap m !! b = Some (s ++ [NUL]) -> no_nul s = true ->
  rep (T ∖ {[b]}) (<[o := Some s]> A) (with_object o (Some b) m).
Proof.
  intros HR Ho Hb Hh Hs. destruct (r_temp _ _ _ HR b Hb) as [_ Hno].
  assert (forall o', is_Some (A !! o') -> o <> o') as Hne by (intros o' [v Hv] <-; congruence).
  assert (forall o' b', is_Some (<[o := Some s]> A !! o') -> <[o := Some b]> (objects m) !! o' = Some (Some b') ->
    o' = o /\ b' = b \/ o' <> o /\ is_Some (A !! o') /\ objects m !! o' = Some (Some b')) as Hcase.
  { intros o' b' Ho' Hp. destruct (decide (o' = o)) as [->|Hneq]; [rewrite lookup_insert_eq in Hp; simplify_eq; by left|].
    rewrite lookup_insert_ne in Ho' by done. rewrite lookup_insert_ne in Hp by done. by right. }
  constructor.
  - intros o' v Hv. destruct (decide (o' = o)) as [->|Hneq].
    + rewrite lookup_insert_eq in Hv. simplify_eq. exists b. cbn. by rewrite lookup_insert_eq.
    + rewrite lookup_insert_ne in Hv by done. pose proof (r_holds _ _ _ HR _ _ Hv) as Hv'. destruct v; cbn; rewrite lookup_insert_ne by done; exact Hv'.
  - intros o1 o2 b' H1 H2 P1 P2. destruct (Hcase o1 b' H1 P1) as [[-> ->]|(N1 & A1 & Q1)], (Hcase o2 _ H2 P2) as [[-> E]|(N2 & A2 & Q2)]; subst; [done|exfalso; apply Hno; by eexists|exfalso; apply Hno; by eexists|].
    by apply (r_one _ _ _ HR o1 o2 b').
  - intros b' [Hb' Hneq]%elem_of_difference. destruct (r_temp _ _ _ HR b' Hb') as [Hh' Hno']. split; [done|]. intros (o' & A' & P').
    destruct (Hcase o' b' A' P') as [[-> ->]|(N1 & A1 & Q1)]; [set_solver|]. apply Hno'. by exists o'.
  - cbn. intros b' Hb'. destruct (decide (b' = b)) as [->|Hneq]; [right; exists o; cbn; rewrite !lookup_insert_eq; by split; [eexists|]|].
    destruct (r_all _ _ _ HR b' Hb') as [|(o' & A' & P')]; [left; set_solver|right]. exists o'. cbn.
    rewrite !lookup_insert_ne by (by apply Hne). done.
  - apply (r_fresh _ _ _ HR).
Qed.
Lemma rep_null T A m o : rep T A m -> A !! o = None -> rep T (<[o := None]> A) (with_object o None m).
Proof.
  intros HR Ho. assert (forall o' b', is_Some (<[o := None]> A !! o') -> <[o := None]> (objects m) !! o' = Some (Some b') ->
    o' <> o /\ is_Some (A !! o') /\ objects m !! o' = Some (Some b')) as Hcase.
  { intros o' b' Ho' Hp. destruct (decide (o' = o)) as [->|Hneq]; [rewrite lookup_insert_eq in Hp; done|].
    rewrite lookup_insert_ne in Ho' by done. rewrite lookup_insert_ne in Hp by done. done. }
  constructor.
  - intros o' v Hv. destruct (decide (o' = o)) as [->|Hneq].
    + rewrite lookup_insert_eq in Hv. simplify_eq. cbn. by rewrite lookup_insert_eq.
    + rewrite lookup_insert_ne in Hv by done. pose proof (r_holds _ _ _ HR _ _ Hv) as Hv'. destruct v; cbn; rewrite lookup_insert_ne by done; exact Hv'.
  - intros o1 o2 b' H1 H2 P1 P2. destruct (Hcase o1 b' H1 P1) as (_ & A1 & Q1), (Hcase o2 _ H2 P2) as (_ & A2 & Q2). by apply (r_one _ _ _ HR o1 o2 b').
  - intros b' Hb'. destruct (r_temp _ _ _ HR b' Hb') as [Hh' Hno']. split; [done|]. intros (o' & A' & P').
    destruct (Hcase o' b' A' P') as (_ & A1 & Q1). apply Hno'. by exists o'.
  - cbn. intros b' Hb'. destruct (r_all _ _ _ HR b' Hb') as [|(o' & A' & P')]; [by left|right]. exists o'. cbn.
    rewrite !lookup_insert_ne; [done|..]; intros <-; destruct A'; congruence.
  - apply (r_fresh _ _ _ HR).
Qed.
(** An object that no longer counts: its block becomes a temporary one. *)
Lemma rep_take T A m o b : rep T A m -> is_Some (A !! o) -> objects m !! o = Some (Some b) -> rep ({[b]} ∪ T) (delete o A) m.
Proof.
  intros HR Ho Hb. constructor.
  - intros o' v Hv. apply lookup_delete_Some in Hv as [_ Hv]. by apply (r_holds _ _ _ HR).
  - intros o1 o2 b' [? [_ H1]%lookup_delete_Some] [? [_ H2]%lookup_delete_Some]. apply (r_one _ _ _ HR); by eexists.
  - intros b' [->%elem_of_singleton|Hb']%elem_of_union.
    + destruct Ho as [v Hv]. pose proof (r_holds _ _ _ HR _ _ Hv) as Hh. split.
      * destruct v; cbn in Hh; [|congruence]. destruct Hh as (b' & Hb' & Hh & _). rewrite Hb in Hb'. simplify_eq. by eexists.
      * intros (o' & [v' [Hne Hv']%lookup_delete_Some] & Hp). apply Hne. apply (r_one _ _ _ HR o o' b); [by eexists|by eexists|done|done].
    + destruct (r_temp _ _ _ HR b' Hb') as [Hh Hno]. split; [done|]. intros (o' & [v' [_ Hv']%lookup_delete_Some] & Hp). apply Hno. exists o'. by split; [eexists|].
  - intros b' Hb'. destruct (decide (b' = b)) as [->|]; [left; set_solver|]. destruct (r_all _ _ _ HR b' Hb') as [|(o' & A' & Hp)]; [left; set_solver|right].
    exists o'. split; [|done]. rewrite lookup_delete_ne; [done|]. intros <-. congruence.
  - apply (r_fresh _ _ _ HR).
Qed.
Lemma rep_take_null T A m o : rep T A m -> objects m !! o = Some None -> rep T (delete o A) m.
Proof.
  intros HR Hb. constructor.
  - intros o' v Hv. apply lookup_delete_Some in Hv as [_ Hv]. by apply (r_holds _ _ _ HR).
  - intros o1 o2 b' [? [_ H1]%lookup_delete_Some] [? [_ H2]%lookup_delete_Some]. apply (r_one _ _ _ HR); by eexists.
  - intros b' Hb'. destruct (r_temp _ _ _ HR b' Hb') as [Hh Hno]. split; [done|]. intros (o' & [v' [_ Hv']%lookup_delete_Some] & Hp). apply Hno. exists o'. by split; [eexists|].
  - intros b' Hb'. destruct (r_all _ _ _ HR b' Hb') as [|(o' & A' & Hp)]; [by left|right].
    exists o'. split; [|done]. rewrite lookup_delete_ne; [done|]. intros <-. congruence.
  - apply (r_fresh _ _ _ HR).
Qed.
Lemma rep_erase T A m o : rep T A m -> A !! o = None ->
  rep T A (mkMemory (heap m) (fresh m) (delete o (objects m)) (printed m) (junk m)).
Proof.
  intros HR Ho. assert (forall o', is_Some (A !! o') -> delete o (objects m) !! o' = objects m !! o') as Hd.
  { intros o' [v Hv]. apply lookup_delete_ne. intros <-. congruence. }
  constructor.
  - intros o' v Hv. pose proof (r_holds _ _ _ HR _ _ Hv) as Hh. destruct v; cbn; rewrite Hd by (by eexists); exact Hh.
  - intros o1 o2 b H1 H2. cbn. rewrite !Hd by done. by apply (r_one _ _ _ HR).
  - intros b Hb. destruct (r_temp _ _ _ HR b Hb) as [Hh Hno]. split; [done|]. intros (o' & A' & Hp). apply Hno. exists o'. cbn in Hp. by rewrite Hd in Hp.
  - intros b Hb. destruct (r_all _ _ _ HR b Hb) as [|(o' & A' & Hp)]; [by left|right]. exists o'. cbn. by rewrite Hd.
  - apply (r_fresh _ _ _ HR).
Qed.

(** ** The calls *)

Lemma before_nul_text s r : no_nul s = true -> before_nul (s ++ NUL :: r) = Some s.
Proof. induction s as [|c s IH]; cbn; [done|]. intros [Hc Hs]%andb_true_iff. apply negb_true_iff in Hc. rewrite Hc, IH by done. done. Qed.
Lemma c_string_eq b s r m : heap m !! b = Some (s ++ NUL :: r) -> no_nul s = true -> c_string (Some b) m = (Val s, m).
Proof. intros Hb Hs. unfold c_string, block, pbind, pget. cbn. rewrite Hb. cbn. by rewrite before_nul_text. Qed.
Lemma delete_eq b m : is_Some (heap m !! b) -> delete_chars (Some b) m = (Val tt, without_block b m).
Proof. intros [d Hd]. unfold delete_chars, block, pbind, pget. cbn. by rewrite Hd. Qed.

Lemma text_padded s n : (0 < n)%nat -> take (length s + 1) (s ++ replicate n NUL) = s ++ [NUL].
Proof.
  intros Hn. rewrite take_app, take_ge by lia. f_equal. rewrite take_replicate.
  by replace ((length s + 1 - length s) `min` n)%nat with 1%nat by lia.
Qed.

(** A copy is a fresh block with the same text. *)
Lemma duplicate_eq T A m b s r : rep T A m -> heap m !! b = Some (s ++ NUL :: r) -> no_nul s = true ->
  duplicate (Some b) m = (Val (Some (fresh m)), with_block (s ++ [NUL]) m).
Proof.
  intros HR Hb Hs. pose proof (r_fresh _ _ _ HR b ltac:(by eexists)) as Hlt. unfold duplicate, strlen, new_chars, strncpy, pbind.
  rewrite (c_string_eq _ _ _ _ Hb Hs). cbn [pret]. unfold block at 1, pbind, pget. cbn [heap mbind option_bind]. rewrite lookup_insert_eq. cbn [pret].
  rewrite (c_string_eq b s r) by (done || (cbn; by rewrite lookup_insert_ne by lia)).
  rewrite decide_True by (rewrite length_fmap, length_seq; done). unfold store_chars, pmodify, set_heap, with_block. cbn. rewrite insert_insert_eq.
  rewrite drop_ge by (rewrite length_fmap, length_seq; lia). by rewrite app_nil_r, text_padded by lia.
Qed.

Lemma rep_store T A m b d : rep T A m -> b ∈ T -> rep T A (set_heap (<[b := d]> (heap m)) m).
Proof.
  intros HR Hb. destruct (r_temp _ _ _ HR b Hb) as [Hs Hno]. assert (forall b', is_Some (<[b := d]> (heap m) !! b') <-> is_Some (heap m !! b')) as He.
  { intros b'. destruct (decide (b = b')) as [<-|]; [rewrite lookup_insert_eq; by split; [|eexists]|by rewrite lookup_insert_ne]. }
  constructor.
  - intros o v Hv. pose proof (r_holds _ _ _ HR _ _ Hv) as Hh. destruct v as [s|]; [|done]. destruct Hh as (b' & Hb' & Hh & Hn).
    exists b'. cbn. rewrite lookup_insert_ne; [done|]. intros <-. apply Hno. exists o. by split; [eexists|].
  - apply (r_one _ _ _ HR).
  - intros b' Hb'. cbn. rewrite He. by apply (r_temp _ _ _ HR).
  - cbn. intros b' Hb'. apply (r_all _ _ _ HR). by apply He.
  - cbn. intros b' Hb'. apply (r_fresh _ _ _ HR). by apply He.
Qed.
Lemma temp_fresh T A m : rep T A m -> ({[fresh m]} ∪ T) ∖ {[fresh m]} = T.
Proof. intros HR. assert (fresh m ∉ T) by (intros Hb; destruct (r_temp _ _ _ HR _ Hb) as [Hh _]; pose proof (r_fresh _ _ _ HR _ Hh); lia). set_solver. Qed.
Lemma temp_taken T A m b : rep T A m -> owned A m b -> ({[b]} ∪ T) ∖ {[b]} = T.
Proof. intros HR Ho. assert (b ∉ T) by (intros Hb; by destruct (r_temp _ _ _ HR _ Hb)). set_solver. Qed.

(** [f] leads from [m] to a memory for the values [A]. *)
Definition leads (f : M unit) (m : memory) (T : gset nat) (A : values) (out : list (list byte)) : Prop :=
  exists m', f m = (Val tt, m') /\ rep T A m' /\ printed m' = out.

Lemma rep_new T A m o s : rep T A m -> A !! o = None -> no_nul s = true ->
  rep T (<[o := Some s]> A) (with_object o (Some (fresh m)) (with_block (s ++ [NUL]) m)).
Proof.
  intros HR Ho Hs. rewrite <- (temp_fresh _ _ _ HR). apply rep_give; [by apply rep_block|done|set_solver|cbn; by rewrite lookup_insert_eq|done].
Qed.
Lemma make_ok T A m o b s r : rep T A m -> A !! o = None -> heap m !! b = Some (s ++ NUL :: r) -> no_nul s = true ->
  leads (let! p := duplicate (Some b) in set_m_data o p) m T (<[o := Some s]> A) (printed m).
Proof.
  intros HR Ho Hb Hs. eexists. unfold pbind. rewrite (duplicate_eq _ _ _ _ _ _ HR Hb Hs). split; [reflexivity|]. split; [|done]. by apply rep_new.
Qed.
(** The destruction of a value. *)
Lemma drop_ok T A m o : rep T A m -> is_Some (A !! o) ->
  exists p m', objects m !! o = Some p /\ delete_chars p m = (Val tt, m') /\ rep T (delete o A) m' /\ objects m' = objects m /\ printed m' = printed m /\
    (forall b d, heap m !! b = Some d -> p <> Some b -> heap m' !! b = Some d).
Proof.
  intros HR [v Hv]. pose proof (r_holds _ _ _ HR _ _ Hv) as Hh. destruct v as [s|]; cbn in Hh.
  - destruct Hh as (b & Hb & Hh & Hs). exists (Some b), (without_block b m). rewrite delete_eq by (by eexists).
    assert (owned A m b) as Hown by (exists o; by split; [eexists|]).
    split_and!; [done|done| |done|done|].
    + rewrite <- (temp_taken _ _ _ _ HR Hown). apply rep_unblock; [|set_solver]. apply rep_take; [done|by eexists|done].
    + intros b' d Hb' Hne. cbn. rewrite lookup_delete_ne; [done|congruence].
  - exists None, m. split_and!; try done. by apply rep_take_null.
Qed.
Lemma text_block T A m o s : rep T A m -> text o A = Some s ->
  exists b, A !! o = Some (Some s) /\ objects m !! o = Some (Some b) /\ heap m !! b = Some (s ++ [NUL]) /\ no_nul s = true.
Proof.
  unfold text. intros HR Ht. destruct (A !! o) as [[s'|]|] eqn:E; simplify_eq. pose proof (r_holds _ _ _ HR _ _ E) as (b & ? & ? & ?). by exists b.
Qed.
Lemma m_data_eq o p m : objects m !! o = Some p -> m_data o m = (Val p, m).
Proof. intros H. unfold m_data, pbind, pget. by rewrite H. Qed.

Lemma with_literal_ok T A A' m s f : rep T A m ->
  (forall m1 b, rep ({[b]} ∪ T) A m1 -> heap m1 !! b = Some (s ++ [NUL]) -> leads (f (Some b)) m1 ({[b]} ∪ T) A' (printed m1)) ->
  leads (with_literal s f) m T A' (printed m).
Proof.
  intros HR Hf. unfold leads, with_literal, pbind. set (m1 := with_block (junk m (fresh m) <$> seq 0 (length s + 1)) m).
  change (new_chars (length s + 1) m) with (Val (A := pointer) (Some (fresh m)), m1). cbn [store_chars pmodify].
  assert (rep ({[fresh m]} ∪ T) A (set_heap (<[fresh m := s ++ [NUL]]> (heap m1)) m1)) as HR1.
  { apply rep_store; [|set_solver]. apply (rep_block _ _ _ (junk m (fresh m) <$> seq 0 (length s + 1)) HR). }
  destruct (Hf _ (fresh m) HR1) as (m2 & E & HR2 & Hp); [cbn; apply lookup_insert_eq|]. rewrite E.
  exists (without_block (fresh m) m2). rewrite delete_eq by (apply (r_temp _ _ _ HR2); set_solver).
  split_and!; [done| |done]. rewrite <- (temp_fresh _ _ _ HR). apply rep_unblock; [done|set_solver].
Qed.

Lemma plus_ok T A m o1 o2 res a b : rep T A m -> A !! res = None -> text o1 A = Some a -> text o2 A = Some b ->
  leads (plus o1 o2 res) m T (<[res := Some (a ++ b)]> A) (printed m).
Proof.
  intros HR Hres Ha Hb. destruct (text_block _ _ _ _ _ HR Ha) as (p & _ & Hp & Hpa & Na). destruct (text_block _ _ _ _ _ HR Hb) as (q & _ & Hq & Hqb & Nb).
  pose proof (r_fresh _ _ _ HR p ltac:(by eexists)). pose proof (r_fresh _ _ _ HR q ltac:(by eexists)).
  unfold leads, plus, strlen, pbind. rewrite (m_data_eq _ _ _ Hp), (c_string_eq _ _ _ _ Hpa Na). cbn [pret]. rewrite (m_data_eq _ _ _ Hq), (c_string_eq _ _ _ _ Hqb Nb).
  cbn [pret]. set (n := (length a + length b + 1)%nat). set (d := junk m (fresh m) <$> seq 0 n).
  assert (length d = n) as Hd by (unfold d; by rewrite length_fmap, length_seq). change (new_chars n m) with (Val (A := pointer) (Some (fresh m)), with_block d m). cbn iota.
  assert (forall d', c_string (Some p) (with_block d' m) = (Val a, with_block d' m)) as Ep by (intros; apply (c_string_eq _ _ []); [cbn; by rewrite lookup_insert_ne by lia|done]).
  assert (forall d', c_string (Some q) (with_block d' m) = (Val b, with_block d' m)) as Eq by (intros; apply (c_string_eq _ _ []); [cbn; by rewrite lookup_insert_ne by lia|done]).
  assert (forall d', block (Some (fresh m)) (with_block d' m) = (Val d', with_block d' m)) as Eb by (intros; unfold block, pbind, pget; cbn; by rewrite lookup_insert_eq).
  assert (forall d' d'', store_chars (Some (fresh m)) d'' (with_block d' m) = (Val tt, with_block d'' m)) as Es
    by (intros; unfold store_chars, pmodify, set_heap, with_block; cbn; by rewrite insert_insert_eq).
  unfold strncpy, pbind. rewrite Eb, Ep, decide_True, Es by (unfold n in *; lia). rewrite text_padded, <- app_assoc by lia. cbn [app].
  unfold strncat, pbind. rewrite Eb. rewrite (c_string_eq (fresh m) a (drop (length a + 1) d)) by (done || (cbn; apply lookup_insert_eq)).
  rewrite Eq, (take_ge b) by (unfold n; lia).
  rewrite decide_True by (rewrite !length_app; cbn; rewrite length_drop; unfold n in *; lia). rewrite Es.
  rewrite drop_ge by (rewrite !length_app; cbn; rewrite length_drop; unfold n in *; lia). rewrite app_nil_r, (app_assoc a).
  assert (no_nul (a ++ b) = true) as Nab by (unfold no_nul in *; by rewrite forallb_app, Na, Nb).
  pose proof (rep_block _ _ _ ((a ++ b) ++ [NUL]) HR) as HR1.
  destruct (make_ok _ _ _ res (fresh m) (a ++ b) [] HR1 Hres) as (m2 & E & HR2 & Hp2); [cbn; apply lookup_insert_eq|done|].
  change (string_from res (Some (fresh m))) with (let! p := duplicate (Some (fresh m)) in set_m_data res p). rewrite E.
  exists (without_block (fresh m) m2). rewrite delete_eq by (apply (r_temp _ _ _ HR2); set_solver).
  split_and!; [done| |done]. rewrite <- (temp_fresh _ _ _ HR). apply rep_unblock; [done|set_solver].
Qed.

Lemma absent_None o A x : absent o A = Some x -> A !! o = None.
Proof. unfold absent. by destruct (A !! o). Qed.
Lemma literal_text s x : literal (Some s) = Some x -> no_nul s = true.
Proof. unfold literal. by destruct (no_nul s). Qed.

Lemma assign_from_ok T A m o b s r : rep T A m -> is_Some (A !! o) -> b ∈ T -> heap m !! b = Some (s ++ NUL :: r) -> no_nul s = true ->
  leads (assign_from o (Some b)) m T (<[o := Some s]> A) (printed m).
Proof.
  intros HR Ho Hb Hh Hs. destruct (drop_ok _ _ _ _ HR Ho) as (p & m1 & Hp & Ed & HR1 & Ho1 & Hp1 & Hk).
  unfold leads, assign_from, pbind. rewrite (m_data_eq _ _ _ Hp), Ed.
  assert (heap m1 !! b = Some (s ++ NUL :: r)) as Hh1.
  { apply Hk; [done|]. intros ->. destruct (r_temp _ _ _ HR b Hb) as [_ Hno]. apply Hno. by exists o. }
  rewrite <- insert_delete_eq. destruct (make_ok _ _ _ o b s r HR1 (lookup_delete_eq _ _) Hh1 Hs) as (m2 & E & HR2 & Hp2).
  exists m2. rewrite <- Hp1. done.
Qed.
Lemma assign_ok T A m o other s : rep T A m -> is_Some (A !! o) -> o <> other -> text other A = Some s ->
  leads (assign o other) m T (<[o := Some s]> A) (printed m).
Proof.
  intros HR Ho Hne Ht. destruct (text_block _ _ _ _ _ HR Ht) as (b & HA & Hob & Hb & Hs).
  destruct (drop_ok _ _ _ _ HR Ho) as (p & m1 & Hp & Ed & HR1 & Ho1 & Hp1 & Hk).
  unfold leads, assign, pbind. rewrite (proj2 (Nat.eqb_neq o other) Hne), (m_data_eq _ _ _ Hp), Ed.
  rewrite (m_data_eq other (Some b)) by (by rewrite Ho1).
  assert (heap m1 !! b = Some (s ++ [NUL])) as Hh1.
  { apply Hk; [done|]. intros ->. apply Hne. apply (r_one _ _ _ HR o other b); [done|by eexists|done|done]. }
  rewrite <- insert_delete_eq. destruct (make_ok _ _ _ o b s [] HR1 (lookup_delete_eq _ _) Hh1 Hs) as (m2 & E & HR2 & Hp2).
  exists m2. rewrite <- Hp1. done.
Qed.

Lemma exec_ok x T A m out A' out' : rep T A m -> printed m = out -> spec x (A, out) = Some (A', out') -> leads (exec x) m T A' out'.
Proof.
  intros HR Hp Hx. destruct x as [o|o [s|]|o other|o|o other|o [s|]|o1 o2 res|o]; cbn [spec exec] in *.
  - destruct (absent o A) eqn:Ha; simplify_eq/=. apply absent_None in Ha. eexists. split; [reflexivity|]. split; [|done]. by apply rep_null.
  - destruct (absent o A) eqn:Ha; [|done]. destruct (literal (Some s)) eqn:Hl; simplify_eq/=. apply absent_None in Ha. apply literal_text in Hl.
    eapply with_literal_ok; [done|]. intros m1 b HR1 Hb. by apply (make_ok _ _ _ o b s []).
  - destruct (absent o A) eqn:Ha; simplify_eq/=. apply absent_None in Ha. eexists. split; [reflexivity|]. split; [|done]. by apply rep_null.
  - destruct (absent o A) eqn:Ha; [|done]. destruct (A !! other) as [v|] eqn:Hv; simplify_eq/=. apply absent_None in Ha.
    unfold leads, string_copy, pbind. destruct v as [s|].
    + destruct (r_holds _ _ _ HR _ _ Hv) as (b & Hb & Hh & Hs). rewrite (m_data_eq _ _ _ Hb). by apply (make_ok _ _ _ o b s []).
    + pose proof (r_holds _ _ _ HR _ _ Hv) as Hb. cbn in Hb. rewrite (m_data_eq _ _ _ Hb). eexists. split; [reflexivity|]. split; [|done]. by apply rep_null.
  - destruct (A !! o) as [v|] eqn:Hv; simplify_eq/=. destruct (drop_ok _ _ _ o HR ltac:(by eexists)) as (p & m1 & Ho & Ed & HR1 & Ho1 & Hp1 & _).
    unfold leads, string_destroy, pbind. rewrite (m_data_eq _ _ _ Ho).
    assert ((match p with Some _ => delete_chars p | None => pret tt end) m = (Val tt, m1)) as -> by (destruct p; [done|]; exact Ed).
    eexists. split; [reflexivity|]. split; [|done]. apply rep_erase; [done|apply lookup_delete_eq].
  - destruct (A !! o) as [v|] eqn:Hv; [|done]. cbn in Hx. destruct (Nat.eqb_spec o other) as [->|Hne].
    + simplify_eq/=. exists m. unfold assign. by rewrite Nat.eqb_refl.
    + destruct (text other A) as [s|] eqn:Ht; simplify_eq/=. apply assign_ok; [done|by eexists|done|done].
  - destruct (A !! o) as [v|] eqn:Hv; [|done]. destruct (literal (Some s)) eqn:Hl; simplify_eq/=. apply literal_text in Hl.
    eapply with_literal_ok; [done|]. intros m1 b HR1 Hb. apply (assign_from_ok _ _ _ o b s []); [done|by eexists|set_solver|done|done].
  - destruct (A !! o) as [v|] eqn:Hv; simplify_eq/=. destruct (drop_ok _ _ _ o HR ltac:(by eexists)) as (p & m1 & Ho & Ed & HR1 & Ho1 & Hp1 & _).
    unfold leads, assign_from, pbind. rewrite (m_data_eq _ _ _ Ho), Ed. eexists. split; [reflexivity|]. split; [|done].
    rewrite <- insert_delete_eq. apply rep_null; [done|apply lookup_delete_eq].
  - destruct (absent res A) eqn:Ha; [|done]. destruct (text o1 A) as [a|] eqn:H1; [|done]. destruct (text o2 A) as [b|] eqn:H2; simplify_eq/=.
    apply absent_None in Ha. by apply plus_ok.
  - destruct (text o A) as [s|] eqn:Ht; simplify_eq/=. destruct (text_block _ _ _ _ _ HR Ht) as (b & _ & Hb & Hh & Hs).
    unfold leads, print_string, pbind. rewrite (m_data_eq _ _ _ Hb), (c_string_eq _ _ _ _ Hh Hs). eexists. split; [reflexivity|]. split; [|done].
    destruct HR. by constructor.
Qed.
Lemma exec_all_ok l T A m out A' out' : rep T A m -> printed m = out -> spec_all l (A, out) = Some (A', out') -> leads (exec_all l) m T A' out'.
Proof.
  revert A m out. induction l as [|x l IH]; intros A m out HR Hp Hl; cbn [spec_all exec_all] in *; [simplify_eq; by exists m|].
  destruct (spec x (A, out)) as [[A1 out1]|] eqn:Hx; [|done]. cbn in Hl. destruct (exec_ok _ _ _ _ _ _ _ HR Hp Hx) as (m1 & E & HR1 & Hp1).
  unfold leads, pbind. rewrite E. by apply (IH A1 m1 out1).
Qed.

Definition empty (j : nat -> nat -> byte) : memory := mkMemory ∅ 0 ∅ [] j.
Lemma rep_empty j : rep ∅ ∅ (empty j).
Proof. constructor; cbn; try set_solver; intros *; rewrite lookup_empty; by intros []. Qed.

(** C13: The string class refines strings as values.  Any sequence of constructions, copies,
    assignments, self-assignments included, concatenations, prints and destructions within
    the contract runs without undefined behaviour, whatever fresh memory holds; it prints
    what it should, every object then holds its value in a block of its own, and when no
    object is left no block is. *)
Theorem string_refines l j A out : spec_all l (∅, []) = Some (A, out) ->
  exists m, exec_all l (empty j) = (Val tt, m) /\ printed m = out /\ (forall o v, A !! o = Some v -> holds m o v) /\
    (forall b, is_Some (heap m !! b) <-> exists o, is_Some (A !! o) /\ objects m !! o = Some (Some b)) /\ (A = ∅ -> heap m = ∅).
Proof.
  intros Hl. destruct (exec_all_ok l ∅ ∅ (empty j) [] A out (rep_empty j) eq_refl Hl) as (m & E & HR & Hp).
  assert (forall b, is_Some (heap m !! b) <-> owned A m b) as Hall.
  { intros b. split; [by intros [|]%(r_all _ _ _ HR); [set_solver|]|]. intros (o & [v Hv] & Ho). pose proof (r_holds _ _ _ HR _ _ Hv) as Hh.
    destruct v; cbn in Hh; [|congruence]. destruct Hh as (b' & Hb & Hh & _). rewrite Ho in Hb. simplify_eq. by eexists. }
  exists m. split_and!; [done|done|apply (r_holds _ _ _ HR)|exact Hall|]. intros ->. apply map_eq. intros b. rewrite lookup_empty.
  destruct (heap m !! b) eqn:Eb; [|done]. destruct (proj1 (Hall b) ltac:(by eexists)) as (o & [v Hv] & _). by rewrite lookup_empty in Hv.
Qed.

(** The program of [main]. *)
Definition main_ops : list op :=
  [From s1 (Some hello); From s2 (Some world); Assign s2 s1; PrintS s2; Plus s1 s2 result; PrintS result; Destroy result; Destroy s2; Destroy s1].
Lemma main_is_ops m : main m = (exec_all main_ops ;;; pret 0) m.
Proof.
  unfold main, main_ops. cbn [exec_all exec]. unfold pbind.
  repeat (match goal with |- context [match ?f ?x with _ => _ end] => destruct (f x) as [[] ?] end; [|done..]). done.
Qed.
Lemma string_refines_witness : exists m, exec_all main_ops (empty (fun _ _ => Byte.xff)) = (Val tt, m) /\ printed m = [hello; hello ++ hello] /\ heap m = ∅.
Proof.
  destruct (string_refines main_ops (fun _ _ => Byte.xff) ∅ [hello; hello ++ hello]) as (m & E & Hp & _ & _ & Hh); [vm_compute; reflexivity|].
  exists m. split; [exact E|]. split; [exact Hp|]. apply Hh. reflexivity.
Defined.

(** A null string may be copied, but assigning it, or adding it, reads through the null
    pointer; the assignment has freed the old characters before. *)
Theorem null_string_undefined j :
  (exec_all [Default 1; From 2 (Some hello); Assign 2 1] (empty j)).1 = Stuck /\
  (exec_all [Default 1; From 2 (Some hello); Plus 2 1 3] (empty j)).1 = Stuck.
Proof. split; vm_compute; reflexivity. Qed.
End CppString.
