(* ===== verification/MergeSort.v ===== *)
(** [src/examples/openmp/merge_sort.cc]: a merge sort whose two recursive calls are
    sections that OpenMP may run in parallel.  A function is a [task], a tree of actions on
    the shared arrays with parallel sections; [step] interleaves the sections.  Shown for
    every interleaving: the sections do not interfere, every access is within the arrays,
    the sort ends after a bounded number of actions, and the array is then sorted.  The
    proof is in terms of [runs], which gives every part of the work its own window of
    both arrays. *)

From stdpp Require Import prelude list sorting relations.
From Stdlib Require Import ZArith Lia.
From S2P Require Import Prelude.

Module MergeSort.

(** [arr] and [scratch]. *)
Definition mem : Type := list Z * list Z.

(** An action reads and writes the arrays and decides how to go on; it is [None] when it
    accesses a cell that does not exist. *)
Inductive task :=
| TDone
| TDo (f : mem -> option (mem * bool)) (k : bool -> task)
| TPar (t1 t2 k : task).

Inductive step : task * mem -> task * mem -> Prop :=
| step_do f k m m' c : f m = Some (m', c) -> step (TDo f k, m) (k c, m')
| step_left t1 t1' t2 k m m' : step (t1, m) (t1', m') -> step (TPar t1 t2 k, m) (TPar t1' t2 k, m')
| step_right t1 t2 t2' k m m' : step (t2, m) (t2', m') -> step (TPar t1 t2 k, m) (TPar t1 t2' k, m')
| step_join k m : step (TPar TDone TDone k, m) (k, m).

(** The step in the section that [path] leads to. *)
Fixpoint next (path : list bool) (t : task) (m : mem) {struct t} : option (task * mem) :=
  match t with
  | TDone => None
  | TDo f k => '(m', c) ← f m; Some (k c, m')
  | TPar TDone TDone k => Some (k, m)
  | TPar t1 t2 k =>
      match path with
      | false :: path => '(t1', m') ← next path t1 m; Some (TPar t1' t2 k, m')
      | true :: path => '(t2', m') ← next path t2 m; Some (TPar t1 t2' k, m')
      | [] => None
      end
  end.
Lemma next_step path t m c : next path t m = Some c -> step (t, m) c.
Proof.
  revert path c. induction t as [|f k _|t1 IH1 t2 IH2 k _]; intros path c H; cbn in H; [done| |].
  - destruct (f m) as [[m' b]|] eqn:E; simplify_eq/=. by apply step_do.
  - assert (forall path c, match path with
      | false :: path => '(t1', m') ← next path t1 m; Some (TPar t1' t2 k, m')
      | true :: path => '(t2', m') ← next path t2 m; Some (TPar t1 t2' k, m')
      | [] => None
      end = Some c -> step (TPar t1 t2 k, m) c) as Hp.
    { intros [|[] p] d Hd; [done| |].
      - destruct (next p t2 m) as [[t2' m']|] eqn:E; simplify_eq/=. apply step_right. by apply (IH2 p).
      - destruct (next p t1 m) as [[t1' m']|] eqn:E; simplify_eq/=. apply step_left. by apply (IH1 p). }
    destruct t1; [destruct t2|..]; try by apply (Hp path). simplify_eq/=. apply step_join.
Qed.

(** * The program *)

(** One pass of the loop; [true] when the element came from the right half. *)
Definition place (mid to i j target : nat) (m : mem) : option (mem * bool) :=
  let '(arr, scratch) := m in
  right ← (if (i <? to)%nat && (j <? mid)%nat then x ← scratch !! i; y ← scratch !! j; Some (x <? y)
           else Some (i <? to)%nat);
  x ← scratch !! (if right : bool then i else j);
  if decide (target < length arr)%nat then Some ((<[target := x]> arr, scratch), right) else None.

(** [n] is [to - target]. *)
Fixpoint merge (n mid to i j target : nat) : task :=
  match n with
  | O => TDone
  | S n => TDo (place mid to i j target) (fun right : bool =>
      merge n mid to (if right then S i else i) (if right then j else S j) (S target))
  end.

(** [memcpy(scratch+from, arr+from, length*sizeof(int))] *)
Definition copy (from to : nat) (m : mem) : option (mem * bool) :=
  let '(arr, scratch) := m in
  if decide (from <= to <= length arr /\ to <= length scratch)%nat then
    Some ((arr, take from scratch ++ take (to - from) (drop from arr) ++ drop to scratch), false)
  else None.

(** The recursive [mergesort], to a depth of [fuel] calls. *)
Fixpoint mergesort_at (fuel from to : nat) : task :=
  match fuel with
  | O => TDo (fun _ => None) (fun _ => TDone)
  | S fuel =>
      if (u32 (Z.of_nat from + 1) =? Z.of_nat to) then TDone
      else
        let mid := Z.to_nat (u32 (Z.of_nat from + Z.of_nat to) / 2) in
        TPar (mergesort_at fuel from mid) (mergesort_at fuel mid to)
          (TDo (copy from to) (fun _ => merge (to - from) mid to mid from from))
  end.
(** Thirty-two calls halve any range that an [unsigned int] counts. *)
Definition mergesort (size : nat) : task := mergesort_at 33 0 size.

(** [main] for a number of cells: [random i] is what the [i]-th call returns and
    [garbage] is in the fresh scratch array. *)
Definition main_with (size : nat) (random : nat -> Z) (garbage : list Z) : task * mem :=
  (mergesort size, ((fun i => s32 (random i)) <$> seq 0 size, garbage)).
Definition main : (nat -> Z) -> list Z -> task * mem := main_with (Z.to_nat 100000000).

(** * Windows *)

(** A task at offset [a] that needs at most [n] steps, works on the window [wa] of the
    array and [ws] of the scratch array only, and leaves windows with [Q], whatever
    is outside. *)
Inductive runs : nat -> nat -> task -> list Z -> list Z -> (list Z -> list Z -> Prop) -> Prop :=
| runs_done n a wa ws (Q : list Z -> list Z -> Prop) : Q wa ws -> runs n a TDone wa ws Q
| runs_do n a f k c wa ws wa' ws' Q :
    (forall l1 r1 l2 r2, length l1 = a -> length l2 = a ->
       f (l1 ++ wa ++ r1, l2 ++ ws ++ r2) = Some ((l1 ++ wa' ++ r1, l2 ++ ws' ++ r2), c)) ->
    length wa' = length wa -> length ws' = length ws ->
    runs n a (k c) wa' ws' Q -> runs (S n) a (TDo f k) wa ws Q
| runs_par n n1 n2 n3 a t1 t2 k wa1 wa2 ws1 ws2 (Q1 Q2 Q : list Z -> list Z -> Prop) :
    length wa1 = length ws1 ->
    runs n1 a t1 wa1 ws1 Q1 -> runs n2 (a + length wa1) t2 wa2 ws2 Q2 ->
    (forall wa1' ws1' wa2' ws2', length wa1' = length wa1 -> length ws1' = length ws1 ->
       length wa2' = length wa2 -> length ws2' = length ws2 -> Q1 wa1' ws1' -> Q2 wa2' ws2' ->
       runs n3 a k (wa1' ++ wa2') (ws1' ++ ws2') Q) ->
    (n1 + n2 + n3 < n)%nat -> runs n a (TPar t1 t2 k) (wa1 ++ wa2) (ws1 ++ ws2) Q.

Lemma runs_step n a t wa ws Q : runs n a t wa ws Q -> forall l1 r1 l2 r2 t' m',
  length l1 = a -> length l2 = a -> step (t, (l1 ++ wa ++ r1, l2 ++ ws ++ r2)) (t', m') ->
  exists n' wa' ws', (n' < n)%nat /\ m' = (l1 ++ wa' ++ r1, l2 ++ ws' ++ r2) /\
    length wa' = length wa /\ length ws' = length ws /\ runs n' a t' wa' ws' Q.
Proof.
  induction 1 as [n a wa ws Q HQ|n a f k c wa ws wa' ws' Q Hf Hwa Hws Hr _|
    n n1 n2 n3 a t1 t2 k wa1 wa2 ws1 ws2 Q1 Q2 Q Hlen H1 IH1 H2 IH2 H3 IH3 Hn]; intros l1 r1 l2 r2 t' m' Hl1 Hl2 Hs.
  - inversion Hs.
  - inversion Hs as [? ? ? ? d Hd| | |]; subst. rewrite Hf in Hd by done. simplify_eq. exists n, wa', ws'. split_and!; (done || lia).
  - inversion Hs as [|? t1' ? ? ? ? H|? ? t2' ? ? ? H|]; subst.
    + rewrite <- !app_assoc in H. destruct (IH1 _ _ _ _ _ _ eq_refl Hl2 H) as (n' & wa' & ws' & Hn' & -> & Ha & Hs' & Hr).
      exists (n' + n2 + S n3)%nat, (wa' ++ wa2), (ws' ++ ws2). rewrite !length_app, <- !app_assoc.
      split_and!; [lia|done|lia|lia|]. eapply runs_par; [lia|done|by rewrite Ha|intros; eapply H3; (done || lia)|lia].
    + rewrite <- !app_assoc, (app_assoc l1), (app_assoc l2) in H.
      destruct (IH2 (l1 ++ wa1) r1 (l2 ++ ws1) r2 t2' m') as (n' & wa' & ws' & Hn' & -> & Ha & Hs' & Hr);
        [by rewrite length_app|by rewrite length_app; lia|done|].
      exists (n1 + n' + S n3)%nat, (wa1 ++ wa'), (ws1 ++ ws'). rewrite !length_app, <- !app_assoc.
      split_and!; [lia|done|lia|lia|]. eapply runs_par; [lia|done|done|intros; eapply H3; (done || lia)|lia].
    + inversion H1; subst. inversion H2; subst. exists n3, (wa1 ++ wa2), (ws1 ++ ws2).
      split_and!; [lia|done|done|done|]. by apply H3.
Qed.
Lemma runs_progress n a t wa ws Q : runs n a t wa ws Q -> forall l1 r1 l2 r2, length l1 = a -> length l2 = a ->
  (t = TDone /\ Q wa ws) \/ exists c, step (t, (l1 ++ wa ++ r1, l2 ++ ws ++ r2)) c.
Proof.
  induction 1 as [|n a f k c wa ws wa' ws' Q Hf Hwa Hws Hr _|
    n n1 n2 n3 a t1 t2 k wa1 wa2 ws1 ws2 Q1 Q2 Q Hlen H1 IH1 H2 IH2 H3 _ Hn]; intros l1 r1 l2 r2 Hl1 Hl2; [by left|right..].
  - eexists. apply step_do. by apply Hf.
  - rewrite <- !app_assoc. destruct (IH1 l1 (wa2 ++ r1) l2 (ws2 ++ r2) Hl1 Hl2) as [[-> _]|[[t1' m'] Hs]]; [|by eexists; apply step_left].
    rewrite (app_assoc l1), (app_assoc l2).
    destruct (IH2 (l1 ++ wa1) r1 (l2 ++ ws1) r2) as [[-> _]|[[t2' m'] Hs]]; [by rewrite length_app; lia..| |by eexists; apply step_right].
    eexists. apply step_join.
Qed.
Lemma runs_mono n a t wa ws Q (Q' : list Z -> list Z -> Prop) :
  (forall wa ws, Q wa ws -> Q' wa ws) -> runs n a t wa ws Q -> runs n a t wa ws Q'.
Proof. intros HQ H. revert Q' HQ. induction H; intros Q' HQ; econstructor; eauto. Qed.

(** * Sorting *)

(** What is known in the loop: of the sorted halves [p1 ++ q1] and [p2 ++ q2] the parts
    [p1] and [p2] are in [d], sorted and not above what is left. *)
Record merging (p1 q1 p2 q2 d g : list Z) : Prop := {
  mg_left : StronglySorted Z.le q1;
  mg_right : StronglySorted Z.le q2;
  mg_done : StronglySorted Z.le d;
  mg_below : forall x y, x ∈ d -> y ∈ q1 ++ q2 -> x <= y;
  mg_perm : d ≡ₚ p1 ++ p2;
  mg_room : length g = (length q1 + length q2)%nat;
}.

Lemma sorted_snoc (d : list Z) x : StronglySorted Z.le d -> (forall y, y ∈ d -> y <= x) -> StronglySorted Z.le (d ++ [x]).
Proof.
  induction 1 as [|y d Hd IH Hy]; intros H; cbn; [by repeat constructor|]. constructor.
  - apply IH. intros z Hz. apply H. by right.
  - apply Forall_app. split; [done|]. constructor; [|done]. apply H. by left.
Qed.
Lemma sorted_head x y (l : list Z) : StronglySorted Z.le (x :: l) -> y ∈ x :: l -> x <= y.
Proof. inversion 1 as [|? ? ? Hf]; subst. intros [-> |Hy]%elem_of_cons; [done|]. by apply (proj1 (Forall_forall _ _) Hf). Qed.

Lemma take_left p1 x q1 p2 q2 d y g :
  merging p1 (x :: q1) p2 q2 d (y :: g) -> (forall z, z ∈ q2 -> x <= z) -> merging (p1 ++ [x]) q1 p2 q2 (d ++ [x]) g.
Proof.
  intros [Hl Hr Hd Hb Hp Hg] Hx. constructor.
  - by inversion Hl.
  - done.
  - apply sorted_snoc; [done|]. intros z Hz. apply Hb; [done|]. by left.
  - intros u v [Hu| ->%list_elem_of_singleton]%elem_of_app Hv; [apply Hb; [done|]; by right|].
    apply elem_of_app in Hv as [Hv|Hv]; [|by apply Hx]. apply (sorted_head x v q1 Hl). by right.
  - rewrite Hp. solve_Permutation.
  - cbn in Hg. lia.
Qed.
Lemma take_right p1 q1 p2 x q2 d y g :
  merging p1 q1 p2 (x :: q2) d (y :: g) -> (forall z, z ∈ q1 -> x <= z) -> merging p1 q1 (p2 ++ [x]) q2 (d ++ [x]) g.
Proof.
  intros [Hl Hr Hd Hb Hp Hg] Hx. constructor.
  - done.
  - by inversion Hr.
  - apply sorted_snoc; [done|]. intros z Hz. apply Hb; [done|]. apply elem_of_app. right. by left.
  - intros u v [Hu| ->%list_elem_of_singleton]%elem_of_app Hv.
    + apply Hb; [done|]. apply elem_of_app in Hv as [Hv|Hv]; apply elem_of_app; [by left|right; by right].
    + apply elem_of_app in Hv as [Hv|Hv]; [by apply Hx|]. apply (sorted_head x v q2 Hr). by right.
  - rewrite Hp. solve_Permutation.
  - cbn in Hg. lia.
Qed.

(** The cells that the loop accesses, in windows at [a]. *)
Lemma cell_left (l2 r2 p1 q1 p2 q2 : list Z) x1 a : length l2 = a ->
  (l2 ++ ((p1 ++ x1 :: q1) ++ p2 ++ q2) ++ r2) !! (a + length p1)%nat = Some x1.
Proof.
  intros Hl2. replace (l2 ++ ((p1 ++ x1 :: q1) ++ p2 ++ q2) ++ r2) with ((l2 ++ p1) ++ x1 :: q1 ++ p2 ++ q2 ++ r2) by (by rewrite <- !app_assoc).
  apply list_lookup_middle. rewrite length_app. lia.
Qed.
Lemma cell_right (l2 r2 p1 q1 p2 q2 : list Z) x2 a : length l2 = a ->
  (l2 ++ ((p1 ++ q1) ++ p2 ++ x2 :: q2) ++ r2) !! (a + length (p1 ++ q1) + length p2)%nat = Some x2.
Proof.
  intros Hl2. replace (l2 ++ ((p1 ++ q1) ++ p2 ++ x2 :: q2) ++ r2) with ((l2 ++ (p1 ++ q1) ++ p2) ++ x2 :: q2 ++ r2) by (by rewrite <- !app_assoc).
  apply list_lookup_middle. rewrite !length_app. lia.
Qed.
Lemma cell_target (l1 r1 d g : list Z) y a x : length l1 = a ->
  (a + length d < length (l1 ++ (d ++ y :: g) ++ r1))%nat /\
  <[(a + length d)%nat := x]> (l1 ++ (d ++ y :: g) ++ r1) = l1 ++ (d ++ x :: g) ++ r1.
Proof.
  intros Hl1. split; [rewrite !length_app; cbn; lia|].
  replace (l1 ++ (d ++ y :: g) ++ r1) with ((l1 ++ d) ++ y :: g ++ r1) by (by rewrite <- !app_assoc).
  replace (a + length d)%nat with (length (l1 ++ d) + 0)%nat by (rewrite length_app; lia).
  rewrite insert_app_r. cbn. by rewrite <- !app_assoc.
Qed.

(** What the loop takes next. *)
Definition choice (q1 q2 : list Z) : option (bool * Z) :=
  match q1, q2 with
  | x1 :: _, x2 :: _ => Some (if x2 <? x1 then (true, x2) else (false, x1))
  | x1 :: _, [] => Some (false, x1)
  | [], x2 :: _ => Some (true, x2)
  | [], [] => None
  end.
Lemma place_choice l1 r1 l2 r2 a p1 q1 p2 q2 d y g right x :
  length l1 = a -> length l2 = a -> choice q1 q2 = Some (right, x) ->
  place (a + length (p1 ++ q1)) (a + length (p1 ++ q1) + length (p2 ++ q2)) (a + length (p1 ++ q1) + length p2) (a + length p1) (a + length d)
    (l1 ++ (d ++ y :: g) ++ r1, l2 ++ ((p1 ++ q1) ++ p2 ++ q2) ++ r2) =
  Some ((l1 ++ (d ++ x :: g) ++ r1, l2 ++ ((p1 ++ q1) ++ p2 ++ q2) ++ r2), right).
Proof.
  intros Hl1 Hl2 Hc. destruct (cell_target l1 r1 d g y a x Hl1) as [Ht Ew]. unfold place.
  assert (((a + length (p1 ++ q1) + length p2 <? a + length (p1 ++ q1) + length (p2 ++ q2))%nat = match q2 with [] => false | _ => true end)) as ->.
  { rewrite (length_app p2). destruct q2; cbn; [apply Nat.ltb_ge|apply Nat.ltb_lt]; lia. }
  assert ((a + length p1 <? a + length (p1 ++ q1))%nat = match q1 with [] => false | _ => true end) as ->.
  { rewrite length_app. destruct q1; cbn; [apply Nat.ltb_ge|apply Nat.ltb_lt]; lia. }
  destruct q1 as [|x1 q1], q2 as [|x2 q2]; cbn [choice] in Hc; [done|..]; cbn [andb].
  - simplify_eq. cbn [mbind option_bind]. rewrite cell_right by done. cbn. by rewrite decide_True, Ew.
  - simplify_eq. cbn [mbind option_bind]. rewrite cell_left by done. cbn. by rewrite decide_True, Ew.
  - rewrite cell_right, cell_left by done. cbn. destruct (x2 <? x1) eqn:E; simplify_eq;
      [rewrite cell_right by done|rewrite cell_left by done]; cbn; by rewrite decide_True, Ew.
Qed.

Lemma merge_runs n : forall a p1 q1 p2 q2 d g, length g = n -> merging p1 q1 p2 q2 d g ->
  runs n a (merge n (a + length (p1 ++ q1)) (a + length (p1 ++ q1) + length (p2 ++ q2)) (a + length (p1 ++ q1) + length p2) (a + length p1) (a + length d))
    (d ++ g) ((p1 ++ q1) ++ p2 ++ q2)
    (fun wa _ => StronglySorted Z.le wa /\ wa ≡ₚ (p1 ++ q1) ++ p2 ++ q2).
Proof.
  induction n as [|n IH]; intros a p1 q1 p2 q2 d g Hn Hm; pose proof Hm as [Hl Hr Hd Hb Hp Hg]; cbn [merge].
  - destruct g; [|done]. destruct q1, q2; cbn in Hg; try lia. constructor. rewrite !app_nil_r. by split.
  - destruct g as [|y g]; [done|]. injection Hn as Hn.
    destruct (choice q1 q2) as [[right x]|] eqn:Ec; [|destruct q1, q2; cbn in *; (done || lia)].
    eapply runs_do with (c := right) (wa' := d ++ x :: g); [intros; by apply place_choice|by rewrite !length_app|done|].
    assert (exists p1' q1' p2' q2', merging p1' q1' p2' q2' (d ++ [x]) g /\ p1 ++ q1 = p1' ++ q1' /\ p2 ++ q2 = p2' ++ q2' /\
      length p1' = (if right then length p1 else S (length p1)) /\ length p2' = (if right then S (length p2) else length p2))
      as (p1' & q1' & p2' & q2' & Hm' & -> & -> & E1 & E2).
    { destruct q1 as [|x1 q1], q2 as [|x2 q2]; cbn [choice] in Ec; [done|..].
      - simplify_eq. exists p1, [], (p2 ++ [x]), q2. split_and!; [by eapply take_right; [|set_solver]|done|by rewrite <- app_assoc|done|].
        rewrite length_app. cbn. lia.
      - simplify_eq. exists (p1 ++ [x]), q1, p2, []. split_and!; [by eapply take_left; [|set_solver]|by rewrite <- app_assoc|done| |done].
        rewrite length_app. cbn. lia.
      - destruct (Z.ltb_spec x2 x1); simplify_eq.
        + exists p1, (x1 :: q1), (p2 ++ [x]), q2. split_and!; [|done|by rewrite <- app_assoc|done|by rewrite length_app; cbn; lia].
          eapply take_right; [done|]. intros z Hz. pose proof (sorted_head _ _ _ Hl Hz). lia.
        + exists (p1 ++ [x]), q1, p2, (x2 :: q2). split_and!; [|by rewrite <- app_assoc|done|by rewrite length_app; cbn; lia|done].
          eapply take_left; [done|]. intros z Hz. pose proof (sorted_head _ _ _ Hr Hz). lia. }
    specialize (IH a p1' q1' p2' q2' (d ++ [x]) g Hn Hm'). rewrite E1, E2, (length_app d), <- (app_assoc d) in IH. cbn [app length] in IH.
    replace (a + (length d + 1))%nat with (S (a + length d)) in IH by lia. rewrite !Nat.add_succ_r in IH || idtac.
    destruct right; rewrite ?Nat.add_succ_r in IH; exact IH.
Qed.

Lemma copy_window l1 r1 l2 r2 w ws a :
  length l1 = a -> length l2 = a -> length ws = length w ->
  copy a (a + length w) (l1 ++ w ++ r1, l2 ++ ws ++ r2) = Some ((l1 ++ w ++ r1, l2 ++ w ++ r2), false).
Proof.
  intros <- Hl2 Hw. unfold copy. rewrite decide_True by (rewrite !length_app; lia).
  replace (length l1 + length w - length l1)%nat with (length w) by lia.
  rewrite drop_app_length, take_app_length, <- Hl2, take_app_length, <- Hw, <- length_app, (app_assoc l2 ws), drop_app_length. done.
Qed.

Lemma mergesort_runs k : forall fuel a w ws, length ws = length w -> (0 < length w <= 2 ^ k)%nat -> (k < fuel)%nat ->
  Z.of_nat (a + length w) <= 2 ^ 31 ->
  runs (3 * length w * k) a (mergesort_at fuel a (a + length w)) w ws (fun w' _ => StronglySorted Z.le w' /\ w' ≡ₚ w).
Proof.
  induction k as [|k IH]; intros [|fuel] a w ws Hws Hw Hk Ha; try lia; cbn [mergesort_at]; rewrite (u32_small (Z.of_nat a + 1)) by lia.
  - rewrite (proj2 (Z.eqb_eq _ _)) by (cbn in Hw; lia). destruct w as [|x [|]]; cbn in Hw; try lia. constructor. split; [|done]. by repeat constructor.
  - destruct (Z.eqb_spec (Z.of_nat a + 1) (Z.of_nat (a + length w))) as [E|E].
    { destruct w as [|x [|]]; cbn in Hw, E; try lia. constructor. split; [|done]. by repeat constructor. }
    rewrite u32_small by lia. rewrite Nat.pow_succ_r' in Hw.
    set (h := (length w / 2)%nat). assert (0 < h /\ 2 * h <= length w < 2 * h + 2)%nat as Hh.
    { pose proof (Nat.div_mod_eq (length w) 2). pose proof (Nat.mod_upper_bound (length w) 2 ltac:(lia)). unfold h. lia. }
    replace (Z.to_nat ((Z.of_nat a + Z.of_nat (a + length w)) / 2)) with (a + h)%nat by
      (replace (Z.of_nat a + Z.of_nat (a + length w)) with (Z.of_nat a * 2 + Z.of_nat (length w)) by lia;
       rewrite Z.div_add_l by lia; pose proof (Nat2Z.inj_div (length w) 2) as Ed; change (Z.of_nat 2) with 2 in Ed; rewrite <- Ed; unfold h; lia).
    assert (exists w1 w2 ws1 ws2, w = w1 ++ w2 /\ ws = ws1 ++ ws2 /\ length w1 = h /\ length ws1 = h) as (w1 & w2 & ws1 & ws2 & -> & -> & H1 & Hs1).
    { exists (take h w), (drop h w), (take h ws), (drop h ws). rewrite !take_drop, !length_take. split_and!; (done || lia). }
    rewrite !length_app in *.
    eapply (runs_par _ _ _ (S (length w1 + length w2))); [lia|rewrite <- H1; apply IH; lia| | |].
    + replace (a + (length w1 + length w2))%nat with ((a + length w1) + length w2)%nat by lia. rewrite <- H1. apply IH; lia.
    + intros wa1 wsa1 wa2 wsa2 L1 L2 L3 L4 [S1 P1] [S2 P2]. rewrite <- L1, <- L3, <- (length_app wa1).
      eapply (runs_do _ _ _ _ false _ _ (wa1 ++ wa2) (wa1 ++ wa2)); [intros; apply copy_window; [done|done|rewrite !length_app; lia]|done|rewrite !length_app; lia|].
      pose proof (merge_runs (length (wa1 ++ wa2)) a [] wa1 [] wa2 [] (wa1 ++ wa2) eq_refl) as Hm. cbn in Hm.
      rewrite !Nat.add_0_r in Hm. rewrite length_app in Hm |- *.
      replace (a + (length wa1 + length wa2) - a)%nat with (length wa1 + length wa2)%nat by lia.
      replace (a + h)%nat with (a + length wa1)%nat by lia. rewrite (Nat.add_assoc a).
      eapply runs_mono; [|apply Hm; constructor; (done || set_solver || by rewrite length_app || constructor)].
      intros wa _ [Hsw Hpw]. split; [done|]. by rewrite Hpw, P1, P2.
    + nia.
Qed.

(** * Every interleaving *)

Lemma runs_steps n a t wa ws Q l1 r1 l2 r2 m t' m' : runs n a t wa ws Q -> length l1 = a -> length l2 = a ->
  nsteps step m (t, (l1 ++ wa ++ r1, l2 ++ ws ++ r2)) (t', m') ->
  exists n' wa' ws', (m + n' <= n)%nat /\ m' = (l1 ++ wa' ++ r1, l2 ++ ws' ++ r2) /\ length wa' = length wa /\ runs n' a t' wa' ws' Q.
Proof.
  revert n t wa ws. induction m as [|m IH]; intros n t wa ws Hr H1 H2 Hs.
  - inversion Hs; subst. exists n, wa, ws. split_and!; (done || lia).
  - inversion Hs as [|? ? [t1 m1] ? Hst Hrest]; subst. destruct (runs_step _ _ _ _ _ _ Hr _ _ _ _ _ _ eq_refl H2 Hst) as (n1 & wa1 & ws1 & Hn & -> & La & Ls & Hr1).
    destruct (IH n1 t1 wa1 ws1 Hr1 eq_refl H2 Hrest) as (n' & wa' & ws' & Hn' & -> & La' & Hr'). exists n', wa', ws'. split_and!; (done || lia || congruence).
Qed.

(** C11: The parallel merge sort of an array of 1 to 2^31 elements, however the sections
    interleave: with up to 2^k elements it takes at most 3k actions per element, it never
    accesses a cell outside the arrays, and where it ends the array is a sorted
    permutation of what it was; the cells after the sorted ones keep their values. *)
Theorem mergesort_correct k (arr rest garbage : list Z) n t m :
  arr <> [] -> (k <= 31)%nat -> (length arr <= 2 ^ k)%nat -> length garbage = length arr ->
  nsteps step n (mergesort (length arr), (arr ++ rest, garbage)) (t, m) ->
  (n <= 3 * k * length arr)%nat /\
  ((exists c, step (t, m) c) \/ t = TDone /\ exists arr', m.1 = arr' ++ rest /\ StronglySorted Z.le arr' /\ arr' ≡ₚ arr).
Proof.
  intros Hne Hk Hlen Hg Hs.
  assert (runs (3 * length arr * k) 0 (mergesort (length arr)) arr garbage (fun w' _ => StronglySorted Z.le w' /\ w' ≡ₚ arr)) as Hr.
  { apply (mergesort_runs k 33 0); [done| |lia|].
    - split; [destruct arr; cbn; (done || lia)|done].
    - apply Nat2Z.inj_le in Hlen. rewrite Nat2Z.inj_pow in Hlen.
      pose proof (Z.pow_le_mono_r 2 (Z.of_nat k) 31 ltac:(lia) ltac:(lia)). cbn [Nat.add]. change (Z.of_nat 2) with 2 in Hlen. lia. }
  destruct (runs_steps _ _ _ _ _ _ [] rest [] [] n t m Hr eq_refl eq_refl) as (n' & wa & ws & Hn & -> & Hl & Hr').
  { cbn [app]. by rewrite app_nil_r. }
  split; [lia|]. destruct (runs_progress _ _ _ _ _ _ Hr' [] rest [] [] eq_refl eq_refl) as [[-> [S1 P1]]|Hc]; [right|by left].
  split; [done|]. by exists wa.
Qed.

(** The example of the comment in [main], with the second section first. *)
Fixpoint run (n : nat) (c : task * mem) : task * mem :=
  match n with
  | O => c
  | S n => run n (default (default c (next (replicate n false) c.1 c.2)) (next (replicate n true) c.1 c.2))
  end.
Lemma run_nsteps n c : exists k, nsteps step k c (run n c).
Proof.
  revert c. induction n as [|n IH]; intros [t m]; [exists 0%nat; constructor|]. cbn [run fst snd].
  destruct (next (replicate n true) t m) as [c'|] eqn:E; cbn [default from_option id].
  { destruct (IH c') as [k Hk]. exists (S k). econstructor; [by eapply next_step|done]. }
  destruct (next (replicate n false) t m) as [c'|] eqn:E'; cbn [default from_option id]; [|apply IH].
  destruct (IH c') as [k Hk]. exists (S k). econstructor; [by eapply next_step|done].
Qed.
Lemma mergesort_correct_witness :
  (run 40 (mergesort 4, ([4; 5; 7; 6] ++ [0], [9; 9; 9; 9]))).2.1 = [4; 5; 6; 7; 0] /\
  (exists c, step (mergesort 4, ([4; 5; 7; 6] ++ [0], [9; 9; 9; 9])) c) /\
  exists k, (k <= 24)%nat /\ nsteps step k (mergesort 4, ([4; 5; 7; 6] ++ [0], [9; 9; 9; 9])) (run 40 (mergesort 4, ([4; 5; 7; 6] ++ [0], [9; 9; 9; 9]))).
Proof.
  split; [vm_compute; reflexivity|]. split.
  - destruct (mergesort_correct 2 [4; 5; 7; 6] [0] [9; 9; 9; 9] 0 _ _ ltac:(discriminate) ltac:(lia) ltac:(cbn; lia) eq_refl (nsteps_O _ _)) as [_ [H|[H _]]]; [exact H|].
    exfalso. apply (f_equal (fun t => match t with TDone => true | _ => false end)) in H. vm_compute in H. discriminate.
  - destruct (run_nsteps 40 (mergesort 4, ([4; 5; 7; 6] ++ [0], [9; 9; 9; 9]))) as [k Hk].
    exists k. split; [|exact Hk]. destruct (run 40 (mergesort 4, ([4; 5; 7; 6] ++ [0], [9; 9; 9; 9]))) as [t m].
    apply (mergesort_correct 2 [4; 5; 7; 6] [0] [9; 9; 9; 9] k t m); [discriminate|lia|cbn; lia|reflexivity|exact Hk].
Defined.

(** An array of no elements: the call with equal bounds calls itself with the same
    bounds, and no depth of calls is enough. *)
Fixpoint endless (t : task) : Prop :=
  match t with
  | TDone => False
  | TDo f _ => forall m, f m = None
  | TPar t1 _ _ => endless t1
  end.
Lemma endless_step t m c : endless t -> step (t, m) c -> endless c.1.
Proof.
  revert m c. induction t as [|f k IH|t1 IH1 t2 IH2 k IHk]; intros m c Ht Hs; [done|..]; inversion Hs; subst; cbn in *.
  - match goal with H : f m = Some _ |- _ => by rewrite Ht in H end.
  - match goal with H : step (t1, m) _ |- _ => by apply (IH1 _ _ Ht) in H end.
  - done.
  - done.
Qed.
Lemma mergesort_zero_never fuel m c : rtc step (mergesort_at fuel 0 0, m) c -> c.1 <> TDone.
Proof.
  assert (endless (mergesort_at fuel 0 0)) as H by (induction fuel as [|fuel IH]; [done|exact IH]).
  intros Hs. assert (endless c.1) as Hc; [|by intros E; rewrite E in Hc].
  revert H. change (mergesort_at fuel 0 0) with (mergesort_at fuel 0 0, m).1. induction Hs as [|x y z Hxy _ IH]; [done|].
  intros Hx. apply IH. destruct x as [t' m']. by apply (endless_step t' m').
Qed.
End MergeSort.
