(* ===== verification/CString.v ===== *)
(** What the programs use of the strings and of the formatted input of the C
    library: strcmp(3), and scanf(3) with a word or a number.  A C string is the
    list of its bytes before the terminating zero.  Nothing here translates code
    of the repository. *)

From stdpp Require Import prelude list strings.
From Stdlib Require Import ZArith Lia.
From S2P Require Import Prelude.

Abbreviation byte := Byte.byte.
#[global] Instance byte_eq_dec : EqDecision byte := Byte.byte_eq_dec.

Definition bytes (s : string) : list byte := String.list_byte_of_string s.

Fixpoint strcmp (a b : list byte) : Z :=
  match a, b with
  | [], [] => 0
  | [], y :: _ => - Z.of_N (Byte.to_N y)
  | x :: _, [] => Z.of_N (Byte.to_N x)
  | x :: a', y :: b' => if Byte.eqb x y then strcmp a' b' else Z.of_N (Byte.to_N x) - Z.of_N (Byte.to_N y)
  end.

Lemma byte_eqb_spec x y : Byte.eqb x y = true <-> Byte.to_N x = Byte.to_N y.
Proof.
  split; [intros H%Byte.byte_dec_bl; congruence|]. intros H. apply Byte.byte_dec_lb.
  apply (f_equal Byte.of_N) in H. rewrite !Byte.of_to_N in H. congruence.
Qed.

(** A C string has no zero byte before its end; on C strings the sign of
    [strcmp] is the lexicographic order of the unsigned bytes. *)
Definition cstring (a : list byte) : Prop := Forall (fun b => (0 < Byte.to_N b)%N) a.

Lemma strcmp_cons x y a b :
  strcmp (x :: a) (y :: b) < 0 <->
  (Byte.to_N x < Byte.to_N y)%N \/ Byte.to_N x = Byte.to_N y /\ strcmp a b < 0.
Proof.
  cbn [strcmp]. destruct (Byte.eqb x y) eqn:E.
  - apply byte_eqb_spec in E. rewrite E. lia.
  - assert (Byte.to_N x <> Byte.to_N y) by (intros H%byte_eqb_spec; congruence). lia.
Qed.
Lemma strcmp_nil_r a : strcmp a [] < 0 <-> False.
Proof. destruct a; cbn [strcmp]; lia. Qed.
Lemma strcmp_nil_l y b : cstring (y :: b) -> strcmp [] (y :: b) < 0 <-> True.
Proof. intros H%Forall_cons_1. cbn [strcmp]. lia. Qed.

Lemma strcmp_refl a : strcmp a a = 0.
Proof. induction a as [|b a IH]; [done|]. cbn [strcmp]. by rewrite (proj2 (byte_eqb_spec b b)). Qed.

Lemma strcmp_zero a b : cstring a -> cstring b -> strcmp a b = 0 <-> a = b.
Proof.
  intros Ha Hb. split; [|intros ->; apply strcmp_refl]. revert b Hb.
  induction Ha as [|x a Hx Ha IH]; intros [|y b] Hb; cbn [strcmp]; try done.
  - apply Forall_cons_1 in Hb. lia.
  - lia.
  - apply Forall_cons in Hb as [_ Hb]. destruct (Byte.eqb x y) eqn:E.
    + intros H%IH; [|done]. apply Byte.byte_dec_bl in E. by subst.
    + intros H. assert (Byte.to_N x <> Byte.to_N y) by (intros H'%byte_eqb_spec; congruence). lia.
Qed.

(** * Formatted input *)

Definition isspace (b : byte) : bool :=
  let n := Z.of_N (Byte.to_N b) in (n =? 32) || ((9 <=? n) && (n <=? 13)).
Definition isdigit (b : byte) : bool :=
  let n := Z.of_N (Byte.to_N b) in (48 <=? n) && (n <=? 57).

Fixpoint skip_space (l : list byte) : list byte :=
  match l with b :: l' => if isspace b then skip_space l' else l | [] => [] end.

(** At most [w] bytes up to the next white space, and what is left. *)
Fixpoint word (w : nat) (l : list byte) : list byte * list byte :=
  match w, l with
  | S w', b :: l' => if isspace b then ([], l) else let '(x, r) := word w' l' in (b :: x, r)
  | _, _ => ([], l)
  end.

Fixpoint digits (acc : option Z) (l : list byte) : option Z * list byte :=
  match l with
  | b :: l' => if isdigit b then digits (Some (default 0 acc * 10 + (Z.of_N (Byte.to_N b) - 48))) l' else (acc, l)
  | [] => (acc, [])
  end.

Definition EOF : Z := -1.

(** scanf("%<w>s"): the number of conversions, the word, the rest of the input. *)
Definition scanf_s (w : nat) (input : list byte) : Z * list byte * list byte :=
  match skip_space input with
  | [] => (EOF, [], [])
  | l => let '(x, r) := word w l in (1, x, r)
  end.

(** scanf("%d"); a number that does not fit is cut to a [long] and then to an
    [int]. *)
Definition long_of (z : Z) : Z := Z.max (- 9223372036854775808) (Z.min z 9223372036854775807).
Definition scanf_d (input : list byte) : Z * Z * list byte :=
  match skip_space input with
  | [] => (EOF, 0, [])
  | b :: l =>
      let neg := Z.of_N (Byte.to_N b) =? 45 in
      let l1 := if neg || (Z.of_N (Byte.to_N b) =? 43) then l else b :: l in
      match digits None l1 with
      | (Some v, r) => (1, s32 (long_of (if neg then - v else v)), r)
      | (None, r) => (0, 0, r)
      end
  end.

Lemma length_skip_space l : (length (skip_space l) <= length l)%nat.
Proof. induction l as [|b l IH]; [done|]. cbn. destruct (isspace b); cbn; lia. Qed.

Lemma skip_space_head l b r : skip_space l = b :: r -> isspace b = false.
Proof. induction l as [|x l IH]; [done|]. cbn. destruct (isspace x) eqn:E; [done|]. by intros [= -> _]. Qed.

Lemma word_spec w l : let '(x, r) := word w l in
  x ++ r = l /\ (length x <= w)%nat /\ Forall (fun b => isspace b = false) x.
Proof.
  revert l. induction w as [|w IH]; intros [|b l]; cbn; try (split_and!; [done|cbn; lia|constructor]).
  destruct (isspace b) eqn:E; [split_and!; [done|cbn; lia|constructor]|].
  specialize (IH l). destruct (word w l) as [x r]. destruct IH as (<- & ? & ?).
  split_and!; [done|cbn; lia|by constructor].
Qed.

Lemma length_digits acc l : (length (digits acc l).2 <= length l)%nat.
Proof.
  revert acc. induction l as [|b l IH]; intros acc; [done|]. cbn. destruct (isdigit b); [|done].
  etrans; [apply IH|lia].
Qed.

Lemma digits_moves l v r : digits None l = (Some v, r) -> (length r < length l)%nat.
Proof.
  destruct l as [|b l]; [done|]. cbn. destruct (isdigit b); [|done]. intros H.
  pose proof (length_digits (Some (0 * 10 + (Z.of_N (Byte.to_N b) - 48))) l) as Hl. cbn [default] in H. rewrite H in Hl. cbn in *. lia.
Qed.

(** A conversion that succeeds consumes input and gives a word that fits. *)
Lemma scanf_s_spec w l n x r :
  (0 < w)%nat -> scanf_s w l = (n, x, r) ->
  n = EOF \/ n = 1 /\ (1 <= length x <= w)%nat /\ (length r < length l)%nat /\ Forall (fun b => isspace b = false) x.
Proof.
  intros Hw. unfold scanf_s. pose proof (length_skip_space l) as Hl. pose proof (skip_space_head l) as Hh.
  destruct (skip_space l) as [|b l']; [intros; simplify_eq; by left|]. specialize (Hh b l' eq_refl).
  pose proof (word_spec w (b :: l')) as H. destruct w as [|w]; [lia|]. cbn [word] in *. rewrite Hh in *.
  destruct (word w l') as [x' r']. intros [= <- <- <-]. destruct H as (He & H2 & H3). right.
  apply (f_equal length) in He. rewrite length_app in He. cbn in *. split_and!; [done|lia|lia|lia|done].
Qed.

Lemma scanf_d_moves l v r : scanf_d l = (1, v, r) -> (length r < length l)%nat.
Proof.
  unfold scanf_d. pose proof (length_skip_space l) as Hl. destruct (skip_space l) as [|b l']; [done|].
  destruct (digits None _) as [[z|] r'] eqn:E; [|done]. apply digits_moves in E. intros [= _ <-].
  destruct (_ || _); cbn in *; lia.
Qed.
