(* ===== verification/CacheLine.v ===== *)
(** [src/exercises/optimization/cache_line_and_algo/solution.c]: an array processed in
    two passes and the same work done chunk by chunk.  An [int] that overflows and an
    access outside the array are [None].  Shown: both functions compute the same on
    every array, undefined results included, because the second operation on a cell
    commutes with the first one on every later cell; and the program never reports a
    mismatch. *)

From stdpp Require Import prelude list.
From Stdlib Require Import ZArith Lia.
From S2P Require Import Prelude.

Module CacheLine.

Definition ARRAY_SIZE : nat := Z.to_nat (100 * 1024 * 1024 / 4).

(** A computed [int]. *)
Definition int (z : Z) : option Z := if int32 z then Some z else None.

(** [arr[i] = rand() % 1000]; [rand i] is what the [i]-th call returns. *)
Definition init_array (rand : nat -> Z) (arr : list Z) (size : nat) : option (list Z) :=
  for_loop size 0 (fun i arr => if decide (i < length arr)%nat then Some (<[i := Z.rem (rand i) 1000]> arr) else None) arr.

(** [arr[i] += 1] *)
Definition add_one (i : nat) (arr : list Z) : option (list Z) :=
  x ← arr !! i; y ← int (x + 1); Some (<[i := y]> arr).
(** [if (arr[i-1] % 2 == 1) arr[i] *= 2] *)
Definition double_odd (i : nat) (arr : list Z) : option (list Z) :=
  p ← arr !! (i - 1)%nat;
  if Z.rem p 2 =? 1 then x ← arr !! i; y ← int (x * 2); Some (<[i := y]> arr) else Some arr.

Definition process_cache_unfriendly (arr : list Z) (size : nat) : option (list Z) :=
  arr ← for_loop size 0 add_one arr;
  for_loop (size - 1) 1 double_odd arr.

Definition chunk_size : nat := Z.to_nat (64 * 1024 / 4).
(** The body of the loop over the chunks. *)
Definition chunk (size start : nat) (arr : list Z) : option (list Z) :=
  let fin := Z.to_nat (u64 (Z.of_nat start + Z.of_nat chunk_size)) in
  let fin := if (size <? fin)%nat then size else fin in
  arr ← for_loop (fin - start) start add_one arr;
  let loop_start := if (start =? 0)%nat then 1%nat else start in
  for_loop (fin - loop_start) loop_start double_odd arr.
(** The loop; [None] too if [fuel] rounds are not enough. *)
Fixpoint chunks (fuel size start : nat) (arr : list Z) : option (list Z) :=
  if (start <? size)%nat then
    match fuel with
    | O => None
    | S fuel =>
        arr ← chunk size start arr;
        chunks fuel size (Z.to_nat (u64 (Z.of_nat start + Z.of_nat chunk_size))) arr
    end
  else Some arr.
Definition process_cache_friendly (arr : list Z) (size : nat) : option (list Z) := chunks size size 0 arr.

(** The position of the first difference, when there is one. *)
Fixpoint verify_from (n i : nat) (arr1 arr2 : list Z) : option (option nat) :=
  match n with
  | O => Some None
  | S n => x ← arr1 !! i; y ← arr2 !! i; if negb (x =? y) then Some (Some i) else verify_from n (S i) arr1 arr2
  end.
Definition verify_results (arr1 arr2 : list Z) (size : nat) : option Z :=
  r ← verify_from size 0 arr1 arr2; Some (if r is Some _ then 0 else 1).

(** What [main] returns, with the answer of the verification; [arr1] and [arr2] are the
    contents of the blocks malloc(3) returned. *)
Definition main_with (size : nat) (rand : nat -> Z) (arr1 arr2 : option (list Z)) : option (Z * option bool) :=
  match arr1, arr2 with
  | Some arr1, Some arr2 =>
      arr1 ← init_array rand arr1 size;
      let arr2 := take size arr1 ++ drop size arr2 in
      arr1 ← process_cache_unfriendly arr1 size;
      arr2 ← process_cache_friendly arr2 size;
      r ← verify_results arr1 arr2 size;
      Some (0, Some (negb (r =? 0)))
  | _, _ => Some (1, None)
  end.
Definition main : (nat -> Z) -> option (list Z) -> option (list Z) -> option (Z * option bool) := main_with ARRAY_SIZE.

(** * The two orders of the work agree *)

Lemma for_loop_app {A} (body : nat -> A -> option A) n m a s :
  for_loop (n + m) a body s = (s' ← for_loop n a body s; for_loop m (a + n) body s').
Proof.
  revert a s. induction n as [|n IH]; intros a s; cbn [for_loop Nat.add].
  - cbn. by rewrite Nat.add_0_r.
  - destruct (body a s) as [s'|]; [|done]. cbn. rewrite IH. by replace (S a + n)%nat with (a + S n)%nat by lia.
Qed.

(** Two operations that can be swapped. *)
Definition swap {A} (f g : A -> option A) : Prop := forall s, (s' ← f s; g s') = (s' ← g s; f s').
Lemma swap_sym {A} (f g : A -> option A) : swap f g -> swap g f.
Proof. intros H s. symmetry. apply H. Qed.
Lemma swap_loop {A} (f : A -> option A) body n a :
  (forall i, (a <= i < a + n)%nat -> swap f (body i)) -> swap f (for_loop n a body).
Proof.
  revert a. induction n as [|n IH]; intros a H s; cbn [for_loop].
  - cbn. by destruct (f s).
  - pose proof (H a ltac:(lia) s) as Hs.
    assert (swap f (for_loop n (S a) body)) as Hn by (apply IH; intros i Hi; apply H; lia).
    destruct (body a s) as [s2|] eqn:E2; cbn in Hs |- *.
    + rewrite <- (Hn s2), <- Hs. destruct (f s); done.
    + destruct (f s) as [s1|]; cbn in *; [by rewrite Hs|done].
Qed.
Lemma swap_loops {A} (f g : nat -> A -> option A) n a m b :
  (forall i j, (a <= i < a + n)%nat -> (b <= j < b + m)%nat -> swap (f i) (g j)) ->
  swap (for_loop n a f) (for_loop m b g).
Proof. intros H. apply swap_loop. intros j Hj. apply swap_sym, swap_loop. intros i Hi. by apply swap_sym, H. Qed.

(** Doubling a cell and adding one to a later cell. *)
Lemma double_add i j : (i < j)%nat -> swap (double_odd i) (add_one j).
Proof.
  intros Hij arr. unfold double_odd, add_one, int.
  destruct (arr !! j) as [x|] eqn:Ej; cbn.
  - destruct (int32 (x + 1)) eqn:Ex; cbn.
    + rewrite !list_lookup_insert_ne by lia. destruct (arr !! (i - 1)%nat) as [p|]; [|done]. cbn.
      destruct (Z.rem p 2 =? 1); cbn; [|by rewrite Ej; cbn; rewrite Ex].
      destruct (arr !! i) as [y|]; [|done]. cbn. destruct (int32 (y * 2)); [|done]. cbn.
      rewrite list_lookup_insert_ne, Ej by lia. cbn. rewrite Ex. cbn. by rewrite list_insert_insert_ne by lia.
    + destruct (arr !! (i - 1)%nat) as [p|]; [|done]. cbn.
      destruct (Z.rem p 2 =? 1); cbn; [|by rewrite Ej; cbn; rewrite Ex].
      destruct (arr !! i) as [y|]; [|done]. cbn. destruct (int32 (y * 2)); [|done]. cbn.
      rewrite list_lookup_insert_ne, Ej by lia. cbn. by rewrite Ex.
  - destruct (arr !! (i - 1)%nat) as [p|]; [|done]. cbn.
    destruct (Z.rem p 2 =? 1); cbn; [|by rewrite Ej].
    destruct (arr !! i) as [y|]; [|done]. cbn. destruct (int32 (y * 2)); [|done]. cbn.
    by rewrite list_lookup_insert_ne, Ej by lia.
Qed.

(** What is left of the two passes when the cells before [start] are done. *)
Definition first_of (start : nat) : nat := if (start =? 0)%nat then 1%nat else start.
Definition rest (size start : nat) (arr : list Z) : option (list Z) :=
  arr ← for_loop (size - start) start add_one arr; for_loop (size - first_of start) (first_of start) double_odd arr.

Lemma rest_done size start arr : (size <= start)%nat -> rest size start arr = Some arr.
Proof.
  intros H. unfold rest, first_of. replace (size - start)%nat with 0%nat by lia. cbn.
  replace (size - if (start =? 0)%nat then 1 else start)%nat with 0%nat; [done|]. destruct (Nat.eqb_spec start 0); lia.
Qed.
Lemma rest_start size arr : rest size 0 arr = process_cache_unfriendly arr size.
Proof. unfold rest, process_cache_unfriendly. by rewrite Nat.sub_0_r. Qed.
(** The passes over the rest may be stopped at any [fin] and resumed there. *)
Lemma rest_split size start fin arr : (start < fin <= size)%nat ->
  (arr ← (arr ← for_loop (fin - start) start add_one arr; for_loop (fin - first_of start) (first_of start) double_odd arr);
   rest size fin arr) = rest size start arr.
Proof.
  intros H. unfold rest. assert (first_of fin = fin) as -> by (unfold first_of; destruct (Nat.eqb_spec fin 0); lia).
  assert (start <= first_of start <= fin)%nat as Hf by (unfold first_of; destruct (Nat.eqb_spec start 0); lia).
  replace (size - start)%nat with ((fin - start) + (size - fin))%nat by lia.
  replace (size - first_of start)%nat with ((fin - first_of start) + (size - fin))%nat by lia.
  rewrite for_loop_app. replace (start + (fin - start))%nat with fin by lia.
  destruct (for_loop (fin - start) start add_one arr) as [a1|]; [|done]. cbn.
  pose proof (swap_loops double_odd add_one (fin - first_of start) (first_of start) (size - fin) fin
    ltac:(intros; apply double_add; lia) a1) as Hs.
  destruct (for_loop (size - fin) fin add_one a1) as [a2|]; cbn in Hs |- *.
  - rewrite for_loop_app, <- Hs. replace (first_of start + (fin - first_of start))%nat with fin by lia.
    destruct (for_loop (fin - first_of start) (first_of start) double_odd a1) as [a3|]; done.
  - destruct (for_loop (fin - first_of start) (first_of start) double_odd a1) as [a3|]; [|done]. cbn in Hs |- *. by rewrite Hs.
Qed.

Lemma chunk_size_pos : 0 < Z.of_nat chunk_size <= 65536.
Proof. unfold chunk_size. rewrite Z2Nat.id by done. done. Qed.
#[local] Opaque chunk_size.

Lemma chunks_rest fuel size start arr :
  Z.of_nat size <= 2 ^ 63 -> (size - start <= fuel)%nat -> chunks fuel size start arr = rest size start arr.
Proof.
  pose proof chunk_size_pos as Hc. intros Hsz. revert start arr.
  induction fuel as [|fuel IH]; intros start arr Hf; cbn [chunks].
  - destruct (Nat.ltb_spec start size); [lia|]. by rewrite rest_done by lia.
  - destruct (Nat.ltb_spec start size); [|by rewrite rest_done by lia]. unfold chunk. cbv zeta. fold (first_of start).
    rewrite u64_small by lia.
    replace (Z.to_nat (Z.of_nat start + Z.of_nat chunk_size)) with (start + chunk_size)%nat by lia.
    destruct (Nat.ltb_spec size (start + chunk_size)).
    + rewrite <- (rest_split size start size arr) by lia.
      apply option_bind_ext_fun. intros a. by rewrite IH, !rest_done by lia.
    + rewrite <- (rest_split size start (start + chunk_size) arr) by lia.
      apply option_bind_ext_fun. intros a. apply IH. lia.
Qed.

(** C22: Processing the array chunk by chunk is equivalent to the two passes: for every
    array and every size up to 2^63, outside accesses and overflow included, both
    functions give the same result. *)
Theorem friendly_equivalent arr size :
  Z.of_nat size <= 2 ^ 63 -> process_cache_friendly arr size = process_cache_unfriendly arr size.
Proof. intros H. unfold process_cache_friendly. rewrite chunks_rest by (done || lia). apply rest_start. Qed.

Lemma friendly_equivalent_witness :
  process_cache_friendly [2; 1; -2147483648; 4] 4 = Some [3; 4; -2147483647; 5] /\
  process_cache_friendly [2; 1073741824] 2 = None.
Proof. split; (rewrite friendly_equivalent; [vm_compute; reflexivity|lia]). Defined.

(** A negative odd number does not count as odd. *)
Lemma negative_odd_kept p x : -2147483648 <= p < 0 -> double_odd 1 [p; x] = Some [p; x].
Proof. intros H. unfold double_odd. cbn. destruct (Z.eqb_spec (Z.rem p 2) 1) as [E|]; [|done]. pose proof (Z.rem_nonpos p 2 ltac:(lia) ltac:(lia)). lia. Qed.

(** * The program *)

Section program.
Context (size : nat).

(** An array of [size] cells, those before [i] with [P] and the others with [Q]. *)
Definition parted (P Q : Z -> Prop) (i : nat) (arr : list Z) : Prop :=
  length arr = size /\ forall k v, arr !! k = Some v -> if (k <? i)%nat then P v else Q v.
Definition upto (b v : Z) : Prop := 0 <= v <= b.

Lemma parted_set P Q i arr v : parted P Q i arr -> P v -> parted P Q (S i) (<[i := v]> arr).
Proof.
  intros [Hl H] Hv. split; [by rewrite length_insert|]. intros k w Hk. destruct (decide (k = i)) as [->|Hne].
  - apply list_lookup_insert_Some in Hk as [(_ & -> & _)|[? _]]; [|done]. by destruct (Nat.ltb_spec i (S i)); [|lia].
  - rewrite list_lookup_insert_ne in Hk by done. specialize (H _ _ Hk).
    destruct (Nat.ltb_spec k i), (Nat.ltb_spec k (S i)); (done || lia).
Qed.
Lemma parted_keep P Q i arr : (forall v, Q v -> P v) -> parted P Q i arr -> parted P Q (S i) arr.
Proof.
  intros HQ [Hl H]. split; [done|]. intros k w Hk. specialize (H _ _ Hk).
  destruct (Nat.ltb_spec k i), (Nat.ltb_spec k (S i)); (by auto || lia).
Qed.
Lemma parted_all P Q arr : parted P Q size arr <-> length arr = size /\ Forall P arr.
Proof.
  unfold parted. rewrite Forall_lookup. split; intros [Hl H]; (split; [done|]); intros k v Hk;
    pose proof (lookup_lt_Some _ _ _ Hk); specialize (H _ _ Hk); destruct (Nat.ltb_spec k size); (done || lia).
Qed.
Lemma parted_none P Q arr : length arr = size -> Forall Q arr -> parted P Q 0 arr.
Proof. intros Hl H. split; [done|]. intros k v Hk. by apply (Forall_lookup_1 _ _ _ _ H Hk). Qed.
Lemma parted_cell P Q i arr : parted P Q i arr -> (i < size)%nat -> exists v, arr !! i = Some v /\ Q v.
Proof.
  intros [Hl H] Hi. rewrite <- Hl in Hi. destruct (lookup_lt_is_Some_2 _ _ Hi) as [v Hv]. exists v. split; [done|].
  specialize (H _ _ Hv). by destruct (Nat.ltb_spec i i); [lia|].
Qed.

Lemma init_array_spec rand arr : (forall i, 0 <= rand i) -> length arr = size ->
  exists arr', init_array rand arr size = Some arr' /\ length arr' = size /\ Forall (upto 999) arr'.
Proof.
  intros Hr Hl. destruct (for_loop_inv (parted (upto 999) (fun _ => True)) size 0
    (fun i arr => if decide (i < length arr)%nat then Some (<[i := Z.rem (rand i) 1000]> arr) else None) arr) as (arr' & E & H).
  - apply parted_none; [done|]. by apply Forall_true.
  - intros i a Hi Ha. rewrite decide_True by (destruct Ha; lia). eexists. split; [done|]. apply parted_set; [done|].
    pose proof (Z.rem_bound_pos (rand i) 1000 (Hr i) ltac:(lia)). unfold upto. lia.
  - exists arr'. split; [exact E|]. by apply parted_all in H.
Qed.

Lemma int_small z : -2147483648 <= z <= 2147483647 -> int z = Some z.
Proof. intros H. unfold int. by rewrite (proj2 (int32_spec z) H). Qed.

(** On the values of the program nothing overflows. *)
Lemma unfriendly_defined arr : length arr = size -> Forall (upto 999) arr ->
  exists arr', process_cache_unfriendly arr size = Some arr' /\ length arr' = size.
Proof.
  intros Hl Ha. unfold process_cache_unfriendly.
  destruct (for_loop_inv (parted (upto 1000) (upto 999)) size 0 add_one arr) as (a1 & -> & H1).
  { by apply parted_none. }
  { intros i a Hi Hp. destruct (parted_cell _ _ _ _ Hp ltac:(lia)) as (v & Hv & Hb). unfold upto in Hb. unfold add_one.
    rewrite Hv. cbn. rewrite int_small by lia. cbn. eexists. split; [done|]. apply parted_set; [done|]. unfold upto. lia. }
  apply parted_all in H1 as [Hl1 H1]. cbn.
  destruct (for_loop_inv (parted (upto 2000) (upto 1000)) (size - 1) 1 double_odd a1) as (a2 & -> & [H2 _]); [| |by eauto].
  { apply parted_keep; [unfold upto; lia|]. by apply parted_none. }
  intros i a Hi Hp. destruct (parted_cell _ _ _ _ Hp ltac:(lia)) as (v & Hv & Hb). unfold double_odd.
  destruct (lookup_lt_is_Some_2 a (i - 1)) as [p ->]; [destruct Hp; lia|]. cbn. destruct (Z.rem p 2 =? 1).
  - unfold upto in Hb. rewrite Hv. cbn. rewrite int_small by lia. cbn. eexists. split; [done|].
    apply parted_set; [done|]. unfold upto. lia.
  - eexists. split; [done|]. apply parted_keep; [unfold upto; lia|done].
Qed.
Lemma verify_same n i arr : (i + n <= length arr)%nat -> verify_from n i arr arr = Some None.
Proof.
  revert i. induction n as [|n IH]; intros i H; [done|]. cbn. destruct (lookup_lt_is_Some_2 arr i) as [v ->]; [lia|]. cbn.
  rewrite Z.eqb_refl. cbn. apply IH. lia.
Qed.
End program.

(** The comparison program, for any number of cells, any numbers rand(3) gives and
    whatever malloc(3) returns: it accesses its arrays within bounds, no value
    overflows, and it reports that the results match, or that memory is missing. *)
Theorem cache_main_matches size rand arr1 arr2 :
  Z.of_nat size <= 2 ^ 63 -> (forall i, 0 <= rand i) ->
  (forall arr, arr1 = Some arr -> length arr = size) -> (forall arr, arr2 = Some arr -> length arr = size) ->
  main_with size rand arr1 arr2 =
    if decide (is_Some arr1 /\ is_Some arr2) then Some (0, Some true) else Some (1, None).
Proof.
  intros Hs Hr H1 H2. destruct arr1 as [a1|], arr2 as [a2|]; cycle 1.
  1, 2, 3: by rewrite decide_False by (intros [[? ?] [? ?]]; done).
  rewrite decide_True by (split; by eexists). unfold main_with.
  destruct (init_array_spec size rand a1 Hr (H1 _ eq_refl)) as (b1 & -> & Hl & Hb). cbn.
  rewrite drop_ge, app_nil_r, take_ge by (rewrite ?(H2 a2 eq_refl); lia).
  destruct (unfriendly_defined size b1 Hl Hb) as (c & Ec & Hc).
  unfold process_cache_friendly. rewrite chunks_rest by (done || lia).
  rewrite rest_start, Ec. cbn. unfold verify_results.
  by rewrite verify_same by lia.
Qed.
Lemma cache_main_matches_witness : main_with 3 (fun i => 700 * Z.of_nat i) (Some [7; 7; 7]) (Some [8; 8; 8]) = Some (0, Some true).
Proof. rewrite cache_main_matches; [reflexivity|lia|intros; lia|by intros ? [= <-]|by intros ? [= <-]]. Defined.
End CacheLine.
