(* ===== verification/SelectionSort.v ===== *)
(** The sorting template of [src/exercises/cpp/correct_use_of_template/solution.cc]:
    selection sort by index, for any type with an order and, specialised, for C
    strings compared with strcmp(3).  It is shown to end within its array and to
    leave a sorted permutation of it, for every strict weak order; the orders the
    program uses are such orders. *)

From stdpp Require Import prelude list strings.
From Stdlib Require Import ZArith Lia.
From S2P Require Import Prelude CString.

Module SelectionSort.

Section sort.
Context {type : Type} (less : type -> type -> bool).

(** The inner loop: one test of [array[j] < array[min_idx]]. *)
Definition find_min (array : list type) (j min_idx : nat) : option nat :=
  x ← array !! j; y ← array !! min_idx; Some (if less x y then j else min_idx).

(** One round of the outer loop. *)
Definition select_round (size i : nat) (array : list type) : option (list type) :=
  min_idx ← for_loop (size - (i + 1)) (i + 1) (find_min array) i;
  if negb (min_idx =? i)%nat then
    temp ← array !! i;
    x ← array !! min_idx;
    Some (<[min_idx := temp]> (<[i := x]> array))
  else Some array.

Definition sort (array : list type) (size : nat) : option (list type) :=
  for_loop size 0 (select_round size) array.
End sort.

(** The orders of the instances: [int] and [const char*]. *)
Definition sort_int : list Z -> nat -> option (list Z) := sort Z.ltb.

Definition sort_cstr : list (list Byte.byte) -> nat -> option (list (list Byte.byte)) :=
  sort (fun a b => strcmp a b <? 0).

(** * Proofs *)

(** An order on the values with [P] whose incomparable elements are
    equivalent. *)
Class StrictWeakOrder {A} (P : A -> Prop) (less : A -> A -> bool) : Prop := {
  swo_irrefl x : P x -> less x x = false;
  swo_trans x y z : P x -> P y -> P z -> less x y = true -> less y z = true -> less x z = true;
  swo_negtrans x y z : P x -> P y -> P z -> less x z = true -> less x y = true \/ less y z = true;
}.

Section correct.
Context {type : Type} (P : type -> Prop) (less : type -> type -> bool) `{!StrictWeakOrder P less}.
Implicit Types (a : list type).

Lemma elem_P a i x : Forall P a -> a !! i = Some x -> P x.
Proof. intros Ha Hi. by eapply Forall_lookup_1. Qed.

(** [m] is the index of a least element of [a] between [i] and [j]. *)
Definition least (a : list type) (i j m : nat) : Prop :=
  (i <= m < j)%nat /\
  exists x, a !! m = Some x /\ forall k y, (i <= k < j)%nat -> a !! k = Some y -> less y x = false.

Lemma find_min_least a i size :
  Forall P a -> (i < size)%nat -> (size <= length a)%nat ->
  exists m, for_loop (size - (i + 1)) (i + 1) (find_min less a) i = Some m /\ least a i size m.
Proof.
  intros HP Hi Hs. pose proof (elem_P a) as HE.
  destruct (for_loop_inv (fun j m => least a i j m) (size - (i + 1)) (i + 1) (find_min less a) i) as (m & -> & Hm).
  - destruct (lookup_lt_is_Some_2 a i ltac:(lia)) as [x Hx]. split; [lia|]. exists x. split; [done|].
    intros k y Hk Hy. assert (k = i) as -> by lia. simplify_eq. apply (swo_irrefl (P:=P)). eauto.
  - intros j m Hj (Hm & x & Hx & Hleast). destruct (lookup_lt_is_Some_2 a j ltac:(lia)) as [z Hz].
    unfold find_min. rewrite Hz, Hx. cbn. eexists. split; [done|]. destruct (less z x) eqn:E.
    + split; [lia|]. exists z. split; [done|]. intros k y Hk Hy. destruct (decide (k = j)) as [->|Hne].
      * simplify_eq. apply (swo_irrefl (P:=P)). eauto.
      * destruct (less y z) eqn:E2; [|done]. specialize (Hleast k y ltac:(lia) Hy).
        by rewrite (swo_trans (P:=P) y z x) in Hleast by eauto.
    + split; [lia|]. exists x. split; [done|]. intros k y Hk Hy. destruct (decide (k = j)) as [->|Hne].
      * by simplify_eq.
      * apply (Hleast k); [lia|done].
  - exists m. split; [done|]. by replace (i + 1 + (size - (i + 1)))%nat with size in Hm by lia.
Qed.

(** Exchanging two elements permutes. *)
Lemma swap_perm a i m x y :
  i <> m -> a !! i = Some x -> a !! m = Some y -> <[m := x]> (<[i := y]> a) ≡ₚ a.
Proof.
  intros Hne Hi Hm.
  assert (forall a i m x y, (i < m)%nat -> a !! i = Some x -> a !! m = Some y -> <[m := x]> (<[i := y]> a) ≡ₚ a) as Hlt.
  { clear. induction a as [|z a IH]; intros [|i] [|m] x y Hlt Hi Hm; simplify_eq/=; try lia.
    - clear IH. revert m Hlt Hm. induction a as [|w a IH]; intros [|m] Hlt Hm; simplify_eq/=; [constructor|].
      rewrite Permutation_swap. etrans; [apply Permutation_skip, (IH m); [lia|done]|]. apply Permutation_swap.
    - apply Permutation_skip, (IH i m x y); [lia|done|done]. }
  destruct (decide (i < m)%nat); [by apply Hlt|]. rewrite list_insert_insert_ne by done. apply Hlt; [lia|done|done].
Qed.

(** The first [i] elements are in place: sorted, and not greater than the
    others; the elements from [size] on are not touched. *)
Definition sorted_to (a0 : list type) (size i : nat) (a : list type) : Prop :=
  a ≡ₚ a0 /\ drop size a = drop size a0 /\
  (forall j k x y, (j < i)%nat -> (j < k < size)%nat -> a !! j = Some x -> a !! k = Some y -> less y x = false).

Lemma select_round_sorted a0 size i a :
  Forall P a0 -> (size <= length a0)%nat -> (i < size)%nat -> sorted_to a0 size i a ->
  exists a', select_round less size i a = Some a' /\ sorted_to a0 size (S i) a'.
Proof.
  intros HP Hs Hi (Hp & Hd & Hsort). pose proof (Permutation_length Hp) as Hlen. rewrite <- Hp in HP.
  destruct (find_min_least a i size HP Hi ltac:(lia)) as (m & Hm & Hle & x & Hx & Hleast).
  unfold select_round. rewrite Hm. cbn. destruct (m =? i)%nat eqn:E; cbn [negb].
  - apply Nat.eqb_eq in E as ->. exists a. split; [done|]. split_and!; [done|done|].
    intros j k u v Hj Hk Hu Hv. destruct (decide (j = i)) as [->|Hne].
    + simplify_eq. apply (Hleast k); [lia|done].
    + apply (Hsort j k); [lia|lia|done|done].
  - apply Nat.eqb_neq in E. destruct (lookup_lt_is_Some_2 a i ltac:(lia)) as [t Ht]. rewrite Ht, Hx. cbn.
    eexists. split; [done|]. split_and!.
    + rewrite <- Hp. by apply swap_perm.
    + rewrite !drop_insert_lt by lia. done.
    + assert (forall k v, <[m:=t]> (<[i:=x]> a) !! k = Some v -> (i <= k < size)%nat ->
        exists k', (i <= k' < size)%nat /\ a !! k' = Some v) as Hback.
      { intros k v Hv Hk. destruct (decide (k = m)) as [->|Hkm].
        - rewrite list_lookup_insert_eq in Hv by (rewrite length_insert; lia). simplify_eq. exists i. split; [lia|done].
        - rewrite list_lookup_insert_ne in Hv by done. destruct (decide (k = i)) as [->|Hki].
          + rewrite list_lookup_insert_eq in Hv by lia. simplify_eq. exists m. done.
          + rewrite list_lookup_insert_ne in Hv by done. exists k. done. }
      intros j k u v Hj Hk Hu Hv. destruct (decide (j = i)) as [->|Hne].
      * rewrite list_lookup_insert_ne, list_lookup_insert_eq in Hu by lia. simplify_eq.
        destruct (Hback k v Hv ltac:(lia)) as (k' & Hk' & Hv'). by apply (Hleast k').
      * rewrite !list_lookup_insert_ne in Hu by lia. destruct (decide (k < i)%nat).
        -- rewrite !list_lookup_insert_ne in Hv by lia. apply (Hsort j k); [lia|lia|done|done].
        -- destruct (Hback k v Hv ltac:(lia)) as (k' & Hk' & Hv'). apply (Hsort j k'); [lia|lia|done|done].
Qed.

Lemma sort_sorted_to a size :
  Forall P a -> (size <= length a)%nat -> exists a', sort less a size = Some a' /\ sorted_to a size size a'.
Proof.
  intros HP Hs. unfold sort.
  destruct (for_loop_inv (sorted_to a size) size 0 (select_round less size) a) as (a' & -> & Ha').
  - split_and!; [done|done|lia].
  - intros i s Hi HI. apply select_round_sorted; [done|done|lia|done].
  - by exists a'.
Qed.
End correct.

(** C32: For every strict weak order and every [size] within the array, [sort] ends
    without an access outside the array; the result is a permutation in which no
    element of the first [size] is less than an earlier one, and the rest is
    unchanged. *)
Theorem sort_correct {A} (P : A -> Prop) (less : A -> A -> bool) (a : list A) (size : nat) :
  StrictWeakOrder P less -> Forall P a -> (size <= length a)%nat ->
  exists a', sort less a size = Some a' /\ a' ≡ₚ a /\ drop size a' = drop size a /\
    forall j k x y, (j < k < size)%nat -> a' !! j = Some x -> a' !! k = Some y -> less y x = false.
Proof.
  intros Ho HP Hs. destruct (sort_sorted_to P less a size HP Hs) as (a' & He & Hp & Hd & Hsort).
  exists a'. split_and!; [done|done|done|]. intros j k x y Hjk. apply Hsort; lia.
Qed.

(** ** The orders of the program *)

#[global] Instance int_order : StrictWeakOrder (fun _ => True) Z.ltb.
Proof. constructor; intros *; rewrite ?Z.ltb_lt, ?Z.ltb_ge; lia. Qed.

#[global] Instance cstr_order : StrictWeakOrder cstring (fun a b => strcmp a b <? 0).
Proof.
  constructor.
  - intros x _. apply Z.ltb_ge. induction x as [|b x IH]; [done|]. cbn [strcmp].
    by rewrite (proj2 (byte_eqb_spec b b)).
  - intros x y z Hx Hy Hz. rewrite !Z.ltb_lt. revert y z Hx Hy Hz.
    induction x as [|a x IH]; intros [|b y] [|c z] Hx Hy Hz; rewrite ?strcmp_nil_r, ?strcmp_nil_l, ?strcmp_cons by done; try done.
    apply Forall_cons in Hx as [_ Hx], Hy as [_ Hy], Hz as [_ Hz]. specialize (IH y z Hx Hy Hz). intros; intuition lia.
  - intros x y z Hx Hy Hz. rewrite !Z.ltb_lt. revert y z Hx Hy Hz.
    induction x as [|a x IH]; intros [|b y] [|c z] Hx Hy Hz; rewrite ?strcmp_nil_r, ?strcmp_nil_l, ?strcmp_cons by done; try tauto.
    apply Forall_cons in Hx as [_ Hx], Hy as [_ Hy], Hz as [_ Hz]. specialize (IH y z Hx Hy Hz). intros; intuition lia.
Qed.

Lemma sort_correct_witness :
  exists a', sort_int [5; 2; 8; 1; 9; 3] 6 = Some a' /\ a' ≡ₚ [5; 2; 8; 1; 9; 3] /\ drop 6 a' = drop 6 [5; 2; 8; 1; 9; 3] /\
    forall j k x y, (j < k < 6)%nat -> a' !! j = Some x -> a' !! k = Some y -> (y <? x) = false.
Proof.
  apply (sort_correct (fun _ => True) Z.ltb [5; 2; 8; 1; 9; 3] 6); [apply int_order|by repeat constructor|cbn; lia].
Defined.

(** The arrays of the program. *)
Example sorts_int : sort_int [5; 2; 8; 1; 9; 3] 6 = Some [1; 2; 3; 5; 8; 9].
Proof. reflexivity. Qed.

Example sorts_cstr :
  sort_cstr (bytes <$> ["banana"; "apple"; "cherry"; "date"]%string) 4 =
  Some (bytes <$> ["apple"; "banana"; "cherry"; "date"]%string).
Proof. reflexivity. Qed.
End SelectionSort.
