(* ===== verification/Subsequence.v ===== *)
(** [src/exercises/c/longest_increasing_subsequence/solution.c]: the recursive search
    for a longest increasing subsequence of a string.  Shown: started from empty
    strings it finds one and stays within its buffers; started as [check] starts
    it, from copies of the whole string, it cannot. *)

From stdpp Require Import prelude list strings.
From Stdlib Require Import ZArith Lia.
From S2P Require Import Prelude CString.

Module Subsequence.

Definition MAX_STR_LEN : Z := 64.

(** [char] is signed. *)
Definition schar (b : byte) : Z := wraps 8 (Z.of_N (Byte.to_N b)).
Definition greater (a b : byte) : bool := schar b <? schar a.

(** strcpy(3) of a string into a buffer of [MAX_STR_LEN] bytes. *)
Definition fits (s : list byte) : bool := zlen s <? MAX_STR_LEN.

(** The C strings [curr] and [best] are passed in and out; [str] is the rest of the
    string from [index] on.  [None]: a byte beyond the end of a buffer is
    written. *)
Fixpoint maximum_subset (str curr best : list byte) : option (list byte * list byte) :=
  match str with
  | [] => Some (curr, best)
  | c :: rest =>
      let tmp_curr := curr in
      if negb (fits tmp_curr) then None else
      let extends := match last curr with Some x => greater c x | None => false end in
      let curr := (if extends then curr else []) ++ [c] in
      if negb (fits curr) then None else
      let best := if zlen best <? zlen curr then curr else best in
      '(_, best) ← maximum_subset rest curr best;
      let curr := tmp_curr in
      maximum_subset rest curr best
  end.

(** What [check] prints: the result and whether it is the expected one. *)
Definition check (val expected : list byte) : option (bool * list byte) :=
  if negb (fits val) then None else
  '(_, best) ← maximum_subset val val val;
  Some (bool_decide (expected = best), best).

Definition main : list (option (bool * list byte)) :=
  (fun p => check (bytes p.1) (bytes p.2)) <$>
  [("", ""); ("a", "a"); ("abc", "abc"); ("azbcd", "abcd"); ("abcabcd", "abcd"); ("avxwzbcdef", "abcdef");
   ("cbe", "ce"); ("nicbeart", "cert")]%string.

(** * Increasing subsequences *)

Fixpoint increasing (s : list byte) : Prop :=
  match s with
  | [] => True
  | x :: s' => match s' with [] => True | y :: _ => greater y x = true end /\ increasing s'
  end.

Definition extends (curr : list byte) (c : byte) : bool :=
  match last curr with Some x => greater c x | None => false end.
Definition grow (curr : list byte) (c : byte) : list byte := (if extends curr c then curr else []) ++ [c].

Lemma increasing_snoc s c : increasing s -> (s = [] \/ extends s c = true) -> increasing (s ++ [c]).
Proof.
  induction s as [|x s IH]; [done|]. intros [H1 H2] [|He]; [done|]. destruct s as [|y s].
  - cbn in *. done.
  - split; [done|]. apply IH; [done|]. by right.
Qed.

Lemma grow_increasing s c : increasing s -> increasing (grow s c).
Proof. intros Hs. unfold grow. destruct (extends s c) eqn:E; [apply increasing_snoc; auto|done]. Qed.

Lemma grow_sublist s p c : s `sublist_of` p -> grow s c `sublist_of` p ++ [c].
Proof.
  intros Hs. unfold grow. apply sublist_app; [|done]. destruct (extends s c); [done|apply sublist_nil_l].
Qed.

Lemma last_grow s c : last (grow s c) = Some c.
Proof. unfold grow. by rewrite last_snoc. Qed.

Lemma length_grow s c : (1 <= length (grow s c) <= S (length s))%nat.
Proof. unfold grow. rewrite length_app. destruct (extends s c); cbn; lia. Qed.

(** The two calls, one equation. *)
Lemma maximum_subset_cons c rest curr best :
  maximum_subset (c :: rest) curr best =
    (if negb (fits curr) then None else if negb (fits (grow curr c)) then None else
     '(_, b) ← maximum_subset rest (grow curr c) (if zlen best <? zlen (grow curr c) then grow curr c else best);
     maximum_subset rest curr b).
Proof. done. Qed.

(** ** What the search returns

    [curr] comes back as it was, and every string that is stored is an
    increasing subsequence of what has been read, if [curr] and [best] were. *)
Lemma search_ends str curr best :
  zlen curr + zlen str < MAX_STR_LEN -> exists best', maximum_subset str curr best = Some (curr, best').
Proof.
  revert curr best. induction str as [|c rest IH]; intros curr best Hl; [by exists best|].
  rewrite maximum_subset_cons. pose proof (length_grow curr c). cbn [length] in Hl.
  unfold fits. rewrite (proj2 (Z.ltb_lt _ _)), (proj2 (Z.ltb_lt (zlen (grow curr c)) _)) by lia. cbn [negb].
  edestruct (IH (grow curr c)) as (b & ->); [lia|]. cbn. apply IH. lia.
Qed.

Lemma search_sound read str curr best curr' best' :
  increasing curr -> curr `sublist_of` read -> increasing best -> best `sublist_of` read ++ str ->
  maximum_subset str curr best = Some (curr', best') -> increasing best' /\ best' `sublist_of` read ++ str.
Proof.
  revert read curr best curr' best'. induction str as [|c rest IH]; intros read curr best curr' best' Hc Hcs Hb Hbs Hm.
  { cbn in Hm. by simplify_eq. }
  rewrite maximum_subset_cons in Hm. destruct (fits curr); [|done]. destruct (fits _); [|done]. cbn [negb] in Hm.
  apply bind_Some in Hm as ([c1 b1] & H1 & H2). rewrite (cons_middle c read rest) in *.
  rewrite (app_assoc read [c] rest) in *.
  assert (increasing (grow curr c) /\ grow curr c `sublist_of` read ++ [c]) as [Hg Hgs]
    by (split; [by apply grow_increasing|by apply grow_sublist]).
  apply (IH (read ++ [c])) in H1 as [Hb1 Hs1]; [|done|done|by destruct (_ <? _)|].
  - apply (IH (read ++ [c])) in H2; [done|done|by apply sublist_inserts_r|done|done].
  - destruct (_ <? _); [|done]. by apply sublist_inserts_r.
Qed.

(** The best string never gets shorter, and is at least as long as what any
    increasing subsequence of the rest makes of [curr]. *)
Definition follow (curr s : list byte) : list byte :=
  match s with c :: _ => if extends curr c then curr ++ s else s | [] => [] end.

Lemma follow_grow curr c s :
  increasing (c :: s) -> length (follow curr (c :: s)) = length (match s with [] => grow curr c | _ => follow (grow curr c) s end).
Proof.
  intros [Hc _]. unfold follow, grow. destruct s as [|y s]; [by destruct (extends curr c)|].
  assert (extends ((if extends curr c then curr else []) ++ [c]) y = true) as -> by (unfold extends at 1; by rewrite last_snoc).
  destruct (extends curr c); [by rewrite <- app_assoc|done].
Qed.

Lemma search_longest str curr best curr' best' :
  maximum_subset str curr best = Some (curr', best') ->
  (length best <= length best')%nat /\
  forall s, s `sublist_of` str -> increasing s -> (length (follow curr s) <= length best')%nat.
Proof.
  revert curr best curr' best'. induction str as [|c rest IH]; intros curr best curr' best' Hm.
  { cbn in Hm. simplify_eq. split; [done|]. intros s Hs _. apply sublist_nil_r in Hs as ->. cbn. lia. }
  rewrite maximum_subset_cons in Hm. destruct (fits curr); [|done]. destruct (fits _); [|done]. cbn [negb] in Hm.
  apply bind_Some in Hm as ([c1 b1] & H1 & H2). apply IH in H1 as [L1 S1], H2 as [L2 S2].
  assert (length best <= length b1 /\ length (grow curr c) <= length b1)%nat as [Hb1 Hg1].
  { destruct (zlen best <? zlen (grow curr c)) eqn:E; zbool; lia. }
  split; [lia|]. intros s Hs Hinc. apply sublist_cons_r in Hs as [Hs|(s' & -> & Hs)]; [by apply S2|].
  rewrite follow_grow by done. destruct s' as [|y s']; [lia|].
  specialize (S1 (y :: s') Hs (proj2 Hinc)). lia.
Qed.

(** C33: Started from empty strings, [maximum_subset] ends within its buffers for
    every string of less than [MAX_STR_LEN] characters, leaves [curr] empty, and
    [best] is an increasing subsequence of the string such that no other is
    longer. *)
Theorem maximum_subset_correct (str : list byte) :
  zlen str < MAX_STR_LEN ->
  exists best, maximum_subset str [] [] = Some ([], best) /\
    increasing best /\ best `sublist_of` str /\
    forall s, s `sublist_of` str -> increasing s -> (length s <= length best)%nat.
Proof.
  intros Hl. destruct (search_ends str [] []) as (best & Hm); [cbn; lia|].
  exists best. split; [done|]. destruct (search_longest _ _ _ _ _ Hm) as [_ Hs].
  destruct (search_sound [] str [] [] [] best) as [H1 H2]; [done|done|done|apply sublist_nil_l|done|].
  split_and!; [done|done|]. intros s Hss Hi. specialize (Hs s Hss Hi). by destruct s.
Qed.

Lemma maximum_subset_correct_witness :
  exists best, maximum_subset (bytes "azbcd") [] [] = Some ([], best) /\
    increasing best /\ best `sublist_of` bytes "azbcd" /\
    forall s, s `sublist_of` bytes "azbcd" -> increasing s -> (length s <= length best)%nat.
Proof. apply (maximum_subset_correct (bytes "azbcd")). by vm_compute. Defined.

(** [check] starts from copies of the string instead of empty strings.  The result
    is then at least as long as the string itself, so that the test fails whenever
    the expected result is shorter; *)
Theorem check_never_shorter (val expected : list byte) ok best :
  check val expected = Some (ok, best) -> (length val <= length best)%nat /\
  ((length expected < length val)%nat -> ok = false).
Proof.
  unfold check. destruct (fits val); [|done]. cbn [negb]. intros ([c b] & Hm & Hr)%bind_Some. simplify_eq.
  apply search_longest in Hm as [Hl _]. split; [done|]. intros He. apply bool_decide_eq_false. intros ->. lia.
Qed.

Lemma check_never_shorter_witness : (5 <= length (bytes "azbcdz"))%nat.
Proof. apply (check_never_shorter (bytes "azbcd") (bytes "abcd") false (bytes "azbcdz")). by vm_compute. Defined.

(** of the eight tests of the program five print ERROR, and some results are not
    even made of the characters of the string. *)
Theorem main_reports_errors :
  List.map (option_map (fun p => (p.1, String.string_of_list_byte p.2))) main =
  [Some (true, ""); Some (true, "a"); Some (true, "abc"); Some (false, "azbcdz"); Some (false, "abcabcd");
   Some (false, "avxwzbcdefvxz"); Some (false, "cbe"); Some (false, "nicbeart")]%string.
Proof. vm_compute. reflexivity. Qed.
End Subsequence.
