(* ===== verification/Phonebook.v ===== *)
(** [src/exercises/c/phonebook/phonebook_solution_full.c]: a phone book of a hundred
    cells behind a menu.  Shown: on every input the program ends, and never stores
    more than fits a cell; what is added is found again; and how deleting goes
    wrong, since looking a name up does not ask whether the cell is used. *)

From stdpp Require Import prelude list strings.
From Stdlib Require Import ZArith Lia.
From S2P Require Import Prelude CString.

Module Phonebook.
Open Scope prog_scope.

Definition MAX_ENTRIES_IN_PHONEBOOK : nat := 100.
Definition EXIT_SUCCESS : Z := 0.
Definition EXIT_FAILURE : Z := 1.

(** The fields [name] and [phone] as the C strings they hold. *)
Record phone_entry := mkEntry { name : list byte; phone : list byte; used : Z }.

(** What the program prints. *)
Inductive message :=
| Prompt
| Found (n p : list byte)        (** the phone for %s is %s *)
| Row (n p : list byte)          (** name: %s, phone %s *)
| NotInBook | NotFound | BookFull.

Record state := mkState { phonebook : list phone_entry; stdin : list byte; output : list message }.
Abbreviation P := (prog state).

Definition print (x : message) : P unit := pmodify (fun s => mkState (phonebook s) (stdin s) (output s ++ [x])).
Definition store (b : list phone_entry) : P unit := pmodify (fun s => mkState b (stdin s) (output s)).
Definition book : P (list phone_entry) := let! s := pget in pret (phonebook s).

Section program.
(** The status [CHECK_INT] ends the process with, as [handle_error] of
    [err_utils.h] computes it. *)
Context (err_status : Z).

Definition CHECK_INT (v e : Z) : P unit := if v =? e then pret tt else pexit err_status.

(** [CHECK_INT(scanf("%<w>s", x), 1)] and [CHECK_INT(scanf("%d", &x), 1)] *)
Definition read_word (w : nat) : P (list byte) :=
  let! s := pget in
  let '(n, x, r) := scanf_s w (stdin s) in
  pmodify (fun s => mkState (phonebook s) r (output s)) ;;;
  CHECK_INT n 1 ;;;
  pret x.
Definition read_number : P Z :=
  let! s := pget in
  let '(n, v, r) := scanf_d (stdin s) in
  pmodify (fun s => mkState (phonebook s) r (output s)) ;;;
  CHECK_INT n 1 ;;;
  pret v.

(** The entry is as malloc(3) gave it, only [used] is set. *)
Definition phone_entry_init (e : phone_entry) : phone_entry := mkEntry (name e) (phone e) 0.

(** The loops of the two searches, from cell [i] on. *)
Fixpoint empty_from (i : nat) (b : list phone_entry) : option nat :=
  match b with e :: b' => if used e =? 0 then Some i else empty_from (S i) b' | [] => None end.
Fixpoint name_from (n : list byte) (i : nat) (b : list phone_entry) : option nat :=
  match b with e :: b' => if strcmp n (name e) =? 0 then Some i else name_from n (S i) b' | [] => None end.

Definition find_empty_cell : P nat :=
  let! b := book in
  match empty_from 0 b with
  | Some i => pret i
  | None => print BookFull ;;; pexit EXIT_FAILURE
  end.
Definition find_cell_by_name (n : list byte) : P (option nat) := let! b := book in pret (name_from n 0 b).

Definition add_entry : P unit :=
  let! entry := find_empty_cell in
  print Prompt ;;;
  let! n := read_word 19 in
  let! b := book in
  store (alter (fun e => mkEntry n (phone e) (used e)) entry b) ;;;
  print Prompt ;;;
  let! p := read_word 19 in
  let! b := book in
  store (alter (fun e => mkEntry (name e) p (used e)) entry b) ;;;
  let! b := book in
  store (alter (fun e => mkEntry (name e) (phone e) 1) entry b).

Definition delete_entry : P unit :=
  print Prompt ;;;
  let! n := read_word 255 in
  let! entry := find_cell_by_name n in
  match entry with
  | None => print NotInBook
  | Some i => let! b := book in store (alter (fun e => mkEntry (name e) (phone e) 0) i b)
  end.

Definition find_entry : P unit :=
  print Prompt ;;;
  let! n := read_word 255 in
  let! entry := find_cell_by_name n in
  match entry with
  | None => print NotFound
  | Some i => let! b := book in print (Found n (default [] (phone <$> b !! i)))
  end.

Fixpoint print_rows (b : list phone_entry) : P unit :=
  match b with
  | [] => pret tt
  | e :: b' => (if negb (used e =? 0) then print (Row (name e) (phone e)) else pret tt) ;;; print_rows b'
  end.
Definition print_phonebook : P unit := let! b := book in print_rows b.

Definition show_menu (fuel : nat) : P Z :=
  iter fuel (fun _ =>
    print Prompt ;;;
    let! result := read_number in
    pret (if (result <? 1) || (5 <? result) then inl tt else inr result)) tt.

Definition round (fuel : nat) (over : bool) : P (bool + unit) :=
  if over then pret (inr tt) else
  let! selection := show_menu fuel in
  if selection =? 1 then add_entry ;;; pret (inl false)
  else if selection =? 2 then delete_entry ;;; pret (inl false)
  else if selection =? 3 then find_entry ;;; pret (inl false)
  else if selection =? 4 then print_phonebook ;;; pret (inl false)
  else print Prompt ;;; pret (inl true).

Definition main (fuel : nat) : P Z :=
  let! b := book in
  store (phone_entry_init <$> b) ;;;
  iter fuel (round fuel) false ;;;
  pret EXIT_SUCCESS.

(** * The program ends *)

(** What a used cell holds fits its fields, which are 20 bytes long. *)
Definition fits (e : phone_entry) : Prop :=
  used e <> 0 -> (1 <= length (name e) <= 19)%nat /\ (1 <= length (phone e) <= 19)%nat.
Definition good (b : list phone_entry) : Prop := length b = MAX_ENTRIES_IN_PHONEBOOK /\ Forall fits b.

Hypothesis err_nonzero : err_status <> 0.
Definition fails (c : Z) (_ : state) : Prop := c <> 0.

Lemma wp_read_word w (Q : list byte -> state -> Prop) s :
  (0 < w)%nat ->
  (forall x r, (1 <= length x <= w)%nat -> (length r < length (stdin s))%nat -> Q x (mkState (phonebook s) r (output s))) ->
  wp (read_word w) Q fails s.
Proof.
  intros Hw HQ. unfold read_word. apply wp_bind, wp_get. destruct (scanf_s w (stdin s)) as [[n x] r] eqn:E.
  apply scanf_s_spec in E as [->|(-> & ? & ? & _)]; [done| |done]. by apply HQ.
Qed.

Lemma wp_read_number (Q : Z -> state -> Prop) s :
  (forall v r, (length r < length (stdin s))%nat -> Q v (mkState (phonebook s) r (output s))) ->
  wp read_number Q fails s.
Proof.
  intros HQ. unfold read_number. apply wp_bind, wp_get. destruct (scanf_d (stdin s)) as [[n v] r] eqn:E.
  unfold CHECK_INT. apply wp_bind, wp_modify, wp_bind. destruct (n =? 1) eqn:En; [|done].
  apply Z.eqb_eq in En as ->. apply wp_ret, wp_ret, HQ. by eapply scanf_d_moves.
Qed.

Lemma wp_print x (Q : unit -> state -> Prop) s :
  Q tt (mkState (phonebook s) (stdin s) (output s ++ [x])) -> wp (print x) Q fails s.
Proof. done. Qed.
Lemma wp_store b (Q : unit -> state -> Prop) s : Q tt (mkState b (stdin s) (output s)) -> wp (store b) Q fails s.
Proof. done. Qed.
Lemma wp_book (Q : list phone_entry -> state -> Prop) s : Q (phonebook s) s -> wp book Q fails s.
Proof. done. Qed.

(** Every step of the program keeps the cells and reads on. *)
Definition reads (k : nat) (s s' : state) : Prop :=
  good (phonebook s') /\ (length (stdin s') + k <= length (stdin s))%nat.

Lemma good_alter b i f : good b -> (forall e, fits e -> fits (f e)) -> good (alter f i b).
Proof.
  intros [Hl Hb] Hf. split; [by rewrite length_alter|]. apply Forall_alter; [done|]. intros; by apply Hf.
Qed.

Lemma empty_from_used i b j :
  empty_from i b = Some j -> exists e, b !! (j - i)%nat = Some e /\ used e = 0 /\ (i <= j)%nat.
Proof.
  revert i. induction b as [|e b IH]; intros i; [done|]. cbn. destruct (used e =? 0) eqn:E.
  - intros [= ->]. rewrite Nat.sub_diag. exists e. zbool. done.
  - intros (e' & H1 & H2 & H3)%IH. exists e'. replace (j - i)%nat with (S (j - S i)) by lia. split_and!; [done|done|lia].
Qed.

Lemma wp_add_entry s : good (phonebook s) -> wp add_entry (fun _ => reads 2 s) fails s.
Proof.
  intros Hg. unfold add_entry, find_empty_cell. apply wp_bind, wp_bind, wp_book.
  destruct (empty_from 0 (phonebook s)) as [i|] eqn:E; [|done]. apply wp_ret.
  apply empty_from_used in E as (e & He & Hu & _). rewrite Nat.sub_0_r in He. destruct Hg as [Hl Hb].
  apply wp_bind, wp_print, wp_bind, wp_read_word; [lia|]. intros n r1 Hn Hr1. cbn [phonebook stdin output] in *.
  apply wp_bind, wp_book, wp_bind, wp_store, wp_bind, wp_print, wp_bind, wp_read_word; [lia|].
  intros p r2 Hp Hr2. cbn [phonebook stdin output] in *.
  apply wp_bind, wp_book, wp_bind, wp_store, wp_bind, wp_book, wp_store. cbn [phonebook stdin output].
  split; [|cbn; lia]. split; [cbn; by rewrite !length_alter|]. cbn [phonebook].
  apply Forall_lookup_2. intros j x Hx. destruct (decide (j = i)) as [->|Hne].
  - rewrite !list_lookup_alter_eq, He in Hx. cbn in Hx. simplify_eq. intros _. cbn. lia.
  - rewrite !list_lookup_alter_ne in Hx by done. by eapply Forall_lookup_1.
Qed.

Lemma wp_delete_entry s : good (phonebook s) -> wp delete_entry (fun _ => reads 1 s) fails s.
Proof.
  intros Hg. unfold delete_entry, find_cell_by_name. apply wp_bind, wp_print, wp_bind, wp_read_word; [lia|].
  intros n r Hn Hr. cbn [phonebook stdin output] in *. apply wp_bind, wp_bind, wp_book, wp_ret.
  destruct (name_from _ _ _) as [i|].
  - apply wp_bind, wp_book, wp_store. split; [|cbn; lia]. apply good_alter; [done|]. intros e _ H. by destruct H.
  - apply wp_print. split; [done|cbn; lia].
Qed.

Lemma wp_find_entry s : good (phonebook s) -> wp find_entry (fun _ => reads 1 s) fails s.
Proof.
  intros Hg. unfold find_entry, find_cell_by_name. apply wp_bind, wp_print, wp_bind, wp_read_word; [lia|].
  intros n r Hn Hr. cbn [phonebook stdin output] in *. apply wp_bind, wp_bind, wp_book, wp_ret.
  destruct (name_from _ _ _) as [i|].
  - apply wp_bind, wp_book, wp_print. split; [done|cbn; lia].
  - apply wp_print. split; [done|cbn; lia].
Qed.

Lemma print_rows_run b s :
  print_rows b s = (Val tt, mkState (phonebook s) (stdin s)
    (output s ++ ((fun e => Row (name e) (phone e)) <$> List.filter (fun e => negb (used e =? 0)) b))).
Proof.
  revert s. induction b as [|e b IH]; intros s; cbn [print_rows List.filter].
  - cbn. rewrite app_nil_r. by destruct s.
  - unfold pbind. destruct (negb (used e =? 0)); cbn; rewrite IH; cbn; by rewrite <- ?app_assoc.
Qed.

Lemma wp_show_menu fuel s :
  (length (stdin s) < fuel)%nat -> good (phonebook s) ->
  wp (show_menu fuel) (fun v s' => 1 <= v <= 5 /\ reads 1 s s') fails s.
Proof.
  intros Hf Hg. unfold show_menu.
  eapply (wp_iter (fun _ s' => good (phonebook s') /\ (length (stdin s') <= length (stdin s))%nat) (fun _ s' => length (stdin s')));
    [|done|done].
  intros [] s' [Hg' Hl]. apply wp_bind, wp_print, wp_bind, wp_read_number. intros v r Hr. cbn [phonebook stdin output] in *.
  apply wp_ret. destruct (_ || _) eqn:E; cbn.
  - split; [split; [done|lia]|done].
  - zbool. split; [lia|]. split; [done|cbn; lia].
Qed.

Lemma wp_round fuel s over :
  (length (stdin s) < fuel)%nat -> good (phonebook s) ->
  wp (round fuel over) (fun r s' => good (phonebook s') /\ (length (stdin s') <= length (stdin s))%nat /\
    match r with inl o => over = false /\ (length (stdin s') < length (stdin s))%nat | inr _ => over = true end) fails s.
Proof.
  intros Hf Hg. unfold round. destruct over; [by apply wp_ret|]. apply wp_bind.
  eapply wp_mono; [by apply wp_show_menu| |done]. intros v s1 [Hv [Hg1 Hl1]].
  assert (forall k s2, reads k s1 s2 -> good (phonebook s2) /\ (length (stdin s2) <= length (stdin s))%nat /\
    false = false /\ (length (stdin s2) < length (stdin s))%nat) as Hdone by (intros k s2 [? ?]; split_and!; [done|lia|done|lia]).
  destruct (v =? 1); [|destruct (v =? 2); [|destruct (v =? 3); [|destruct (v =? 4)]]]; apply wp_bind.
  - eapply wp_mono; [by apply wp_add_entry| |done]. intros [] s2 H. apply wp_ret. by eapply Hdone.
  - eapply wp_mono; [by apply wp_delete_entry| |done]. intros [] s2 H. apply wp_ret. by eapply Hdone.
  - eapply wp_mono; [by apply wp_find_entry| |done]. intros [] s2 H. apply wp_ret. by eapply Hdone.
  - apply wp_bind, wp_book. unfold wp. rewrite print_rows_run. cbn. apply (Hdone 0%nat). split; [done|cbn; lia].
  - apply wp_print, wp_ret. apply (Hdone 0%nat). split; [done|cbn; lia].
Qed.
End program.

(** C34: On every input and whatever malloc(3) leaves in the cells, the program ends:
    it returns success, and then has its hundred cells, in which the names and
    phones of used cells fit their fields, or it exits with a failing status.
    Which inputs make it fail is not stated. *)
Theorem phonebook_ends err_status garbage input :
  err_status <> 0 -> length garbage = MAX_ENTRIES_IN_PHONEBOOK ->
  wp (main err_status (S (S (length input))))
    (fun c s => c = EXIT_SUCCESS /\ good (phonebook s)) (fun c _ => c <> 0)
    (mkState garbage input []).
Proof.
  intros He Hg. unfold main. apply wp_bind, wp_book, wp_bind, wp_store, wp_bind. cbn [phonebook stdin output].
  eapply (wp_iter (fun o s => good (phonebook s) /\ (length (stdin s) <= length input)%nat)
    (fun o s => length (stdin s) + (if o : bool then 0 else 1))%nat).
  - intros o s [Hg1 Hl]. eapply wp_mono; [apply wp_round; [done|lia|done]| |done].
    intros [o'|[]] s' (H1 & H2 & H3); [|by apply wp_ret]. destruct H3 as [-> ?].
    split; [split; [done|lia]|]. destruct o'; lia.
  - cbn. split; [|lia]. split; [by rewrite length_fmap|]. apply Forall_fmap, Forall_true. intros e H. by destruct H.
  - cbn. lia.
Qed.

(** * Adding, finding, deleting *)

Definition nl : byte := Byte.x0a.
Definition is_word (w : nat) (n : list byte) : Prop :=
  (1 <= length n <= w)%nat /\ Forall (fun b => isspace b = false) n.

Lemma word_nl w n r : (length n <= w)%nat -> Forall (fun b => isspace b = false) n -> word w (n ++ nl :: r) = (n, nl :: r).
Proof.
  intros Hl Hn. revert w Hl. induction Hn as [|b n Hb Hn IH]; intros [|w] Hl; cbn in *; try done; [lia|].
  rewrite Hb, IH by lia. done.
Qed.

Lemma scanf_s_word w n r : is_word w n -> scanf_s w (n ++ nl :: r) = (1, n, nl :: r).
Proof.
  intros [Hl Hn]. unfold scanf_s. destruct n as [|b n]; [cbn in Hl; lia|]. pose proof Hn as [Hb _]%Forall_cons.
  cbn [app skip_space]. rewrite Hb. pose proof (word_nl w (b :: n) r ltac:(lia) Hn) as Hw. cbn [app] in Hw. by rewrite Hw.
Qed.
Lemma scanf_s_nl w l : scanf_s w (nl :: l) = scanf_s w l.
Proof. done. Qed.

Lemma read_word_run st w n r b o :
  is_word w n -> read_word st w (mkState b (n ++ nl :: r) o) = (Val n, mkState b (nl :: r) o) /\
  read_word st w (mkState b (nl :: n ++ nl :: r) o) = (Val n, mkState b (nl :: r) o).
Proof.
  intros Hn. unfold read_word, pbind, pget. cbn [stdin]. rewrite scanf_s_nl, scanf_s_word by done. done.
Qed.

(** The first cell with the name. *)
Lemma name_from_spec n b k i e :
  b !! i = Some e -> strcmp n (name e) = 0 ->
  (forall j x, (j < i)%nat -> b !! j = Some x -> strcmp n (name x) <> 0) -> name_from n k b = Some (k + i)%nat.
Proof.
  revert k i. induction b as [|x b IH]; intros k i Hi He Hj; [done|]. cbn. destruct i as [|i].
  - cbn in Hi. simplify_eq. by rewrite He, Nat.add_0_r.
  - rewrite (proj2 (Z.eqb_neq _ _) (Hj 0%nat x ltac:(lia) eq_refl)). rewrite (IH (S k) i); [f_equal; lia|done|done|].
    intros j y Hlt Hy. apply (Hj (S j)); [lia|done].
Qed.

Section operations.
Context (st : Z) (b : list phone_entry) (i : nat) (n p : list byte).
Context (Hempty : empty_from 0 b = Some i) (Hn : is_word 19 n) (Hp : is_word 19 p).
Context (Hnew : forall j x, (j < i)%nat -> b !! j = Some x -> strcmp n (name x) <> 0).

Definition added : list phone_entry := <[i := mkEntry n p 1]> b.

Lemma add_entry_run r o :
  add_entry st (mkState b (n ++ nl :: p ++ nl :: r) o) = (Val tt, mkState added (nl :: r) ((o ++ [Prompt]) ++ [Prompt])).
Proof.
  unfold add_entry, find_empty_cell, book, print, store, pbind, pget, pret, pmodify. cbn [phonebook stdin output].
  rewrite Hempty. cbn [phonebook stdin output]. rewrite (proj1 (read_word_run st 19 n (p ++ nl :: r) b _ Hn)).
  cbn [phonebook stdin output]. rewrite (proj2 (read_word_run st 19 p r _ _ Hp)). cbn [phonebook stdin output].
  do 2 f_equal. unfold added. apply empty_from_used in Hempty as (e & He & _). rewrite Nat.sub_0_r in He.
  apply list_eq. intros j. destruct (decide (j = i)) as [->|Hne].
  - rewrite !list_lookup_alter_eq, He. cbn. by rewrite list_lookup_insert_eq by (by eapply lookup_lt_Some).
  - by rewrite !list_lookup_alter_ne, list_lookup_insert_ne.
Qed.

(** A book with the same names in the cells up to [i]. *)
Definition named (b' : list phone_entry) (e : phone_entry) : Prop :=
  b' !! i = Some e /\ name e = n /\ forall j x, (j < i)%nat -> b' !! j = Some x -> strcmp n (name x) <> 0.

Lemma added_named : named added (mkEntry n p 1).
Proof.
  apply empty_from_used in Hempty as (e & He & _). rewrite Nat.sub_0_r in He. unfold added. split_and!; [|done|].
  - apply list_lookup_insert_eq. by eapply lookup_lt_Some.
  - intros j x Hj Hx. rewrite list_lookup_insert_ne in Hx by lia. by eapply Hnew.
Qed.

Lemma word_255 : is_word 255 n.
Proof. destruct Hn as [? ?]. split; [lia|done]. Qed.

Lemma find_entry_run b' e r o :
  named b' e ->
  find_entry st (mkState b' (nl :: n ++ nl :: r) o) = (Val tt, mkState b' (nl :: r) ((o ++ [Prompt]) ++ [Found n (phone e)])).
Proof.
  intros (Hi & Hname & Hj). unfold find_entry, find_cell_by_name, book, print, pbind, pget, pret, pmodify. cbn [phonebook stdin output].
  rewrite (proj2 (read_word_run st 255 n r b' _ word_255)). cbn [phonebook stdin output].
  rewrite (name_from_spec n b' 0 i e) by (done || (by rewrite Hname, strcmp_refl)). cbn [Nat.add phonebook stdin output]. by rewrite Hi.
Qed.

Lemma delete_entry_run b' e r o :
  named b' e ->
  delete_entry st (mkState b' (nl :: n ++ nl :: r) o) =
    (Val tt, mkState (alter (fun e => mkEntry (name e) (phone e) 0) i b') (nl :: r) (o ++ [Prompt])).
Proof.
  intros (Hi & Hname & Hj). unfold delete_entry, find_cell_by_name, book, print, store, pbind, pget, pret, pmodify. cbn [phonebook stdin output].
  rewrite (proj2 (read_word_run st 255 n r b' _ word_255)). cbn [phonebook stdin output].
  by rewrite (name_from_spec n b' 0 i e) by (done || (by rewrite Hname, strcmp_refl)).
Qed.

Lemma deleted_named b' e : named b' e -> named (alter (fun e => mkEntry (name e) (phone e) 0) i b') (mkEntry (name e) (phone e) 0).
Proof.
  intros (Hi & Hname & Hj). split_and!; [by rewrite list_lookup_alter_eq, Hi|done|].
  intros j x Hlt Hx. rewrite list_lookup_alter_ne in Hx by lia. by eapply Hj.
Qed.
End operations.

(** What is added is found: after adding a name that no earlier cell holds, and
    whatever else the cells hold, looking the name up prints its phone. *)
Theorem phonebook_add_find st b i n p r o :
  empty_from 0 b = Some i -> is_word 19 n -> is_word 19 p ->
  (forall j x, (j < i)%nat -> b !! j = Some x -> strcmp n (name x) <> 0) ->
  exists b' o', (add_entry st ;;; find_entry st) (mkState b (n ++ nl :: p ++ nl :: n ++ nl :: r) o)
    = (Val tt, mkState b' (nl :: r) (o' ++ [Found n p])).
Proof.
  intros He Hn Hp Hj. eexists _, _. unfold pbind. rewrite (add_entry_run st b i n p He Hn Hp (n ++ nl :: r) o).
  by rewrite (find_entry_run st i n Hn _ _ r _ (added_named b i n p He Hj)).
Qed.

(** Looking a name up does not ask whether the cell is used: a deleted entry is
    still found, and deleted again. *)
Theorem deleted_entry_found st b i n p r o :
  empty_from 0 b = Some i -> is_word 19 n -> is_word 19 p ->
  (forall j x, (j < i)%nat -> b !! j = Some x -> strcmp n (name x) <> 0) ->
  exists b' o', (add_entry st ;;; delete_entry st ;;; find_entry st)
      (mkState b (n ++ nl :: p ++ nl :: n ++ nl :: n ++ nl :: r) o)
    = (Val tt, mkState b' (nl :: r) (o' ++ [Found n p])) /\ b' !! i = Some (mkEntry n p 0).
Proof.
  intros He Hn Hp Hj. pose proof (added_named b i n p He Hj) as Ha. pose proof (deleted_named i n _ _ Ha) as Hd.
  eexists _, _. unfold pbind. rewrite (add_entry_run st b i n p He Hn Hp (n ++ nl :: n ++ nl :: r) o).
  rewrite (delete_entry_run st i n Hn _ _ (n ++ nl :: r) _ Ha), (find_entry_run st i n Hn _ _ r _ Hd).
  split; [done|]. apply Hd.
Qed.

Definition demo_book : list phone_entry := replicate 100 (mkEntry [] [] 0).
Lemma phonebook_ends_witness :
  wp (main 255 20) (fun c s => c = EXIT_SUCCESS /\ good (phonebook s)) (fun c _ => c <> 0)
    (mkState demo_book (bytes "1 mark 123 3 mark ") []).
Proof. apply (phonebook_ends 255 demo_book (bytes "1 mark 123 3 mark ")); [done|reflexivity]. Defined.

Lemma demo_words : is_word 19 (bytes "mark") /\ is_word 19 (bytes "123").
Proof. split; (split; [cbn; lia|repeat constructor]). Qed.

Lemma phonebook_add_find_witness :
  exists b' o', (add_entry 255 ;;; find_entry 255)
      (mkState demo_book (bytes "mark" ++ nl :: bytes "123" ++ nl :: bytes "mark" ++ [nl]) [])
    = (Val tt, mkState b' [nl] (o' ++ [Found (bytes "mark") (bytes "123")])).
Proof.
  apply (phonebook_add_find 255 demo_book 0 (bytes "mark") (bytes "123") [] []);
    [reflexivity|apply demo_words|apply demo_words|lia].
Defined.
End Phonebook.
