(* ===== verification/PersonPool.v ===== *)
(** [src/exercises/real_time/boost_memory_pool/solution2.cc]: a pool of objects that are
    allocated once and handed out and taken back under a mutex.  For every client
    that gives back only what it holds: an object is never handed out twice, what is
    handed out is blank, and the pool is exhausted exactly when all is held. *)

From stdpp Require Import prelude list gmap strings.
From Stdlib Require Import ZArith Lia.
From S2P Require Import Prelude.

Module PersonPool.

Record Person := mkPerson { name_ : string; age_ : Z }.
Definition Person_ctor : Person := mkPerson "" 0.
Definition setName (name : string) (p : Person) : Person := mkPerson name (age_ p).
Definition setAge (age : Z) (p : Person) : Person := mkPerson (name_ p) age.
Definition reset (p : Person) : Person := mkPerson "" 0.

(** The objects by address, and [available_], whose back is the end of the list.
    Every operation runs under the mutex of the pool as a whole. *)
Record pool := mkPool { objects : gmap nat Person; available_ : list nat }.

(** The constructor; [malloc i] is the address that the [i]-th call of
    [boost::pool::malloc] returns. *)
Fixpoint fill (malloc : nat -> nat) (i count : nat) (p : pool) : pool :=
  match count with
  | O => p
  | S n =>
      let mem := malloc i in
      fill malloc (S i) n (mkPool (<[mem := Person_ctor]> (objects p)) (available_ p ++ [mem]))
  end.
Definition PersonPool_ctor (malloc : nat -> nat) (count : nat) : pool := fill malloc 0 count (mkPool ∅ []).

(** [get]: [None] is the exception "Pool exhausted". *)
Definition get (p : pool) : option (nat * pool) :=
  match last (available_ p) with
  | None => None
  | Some person => Some (person, mkPool (objects p) (removelast (available_ p)))
  end.

(** [put]; [None] is the null pointer. *)
Definition put (person : option nat) (p : pool) : pool :=
  match person with
  | None => p
  | Some a => mkPool (alter reset a (objects p)) (available_ p ++ [a])
  end.

Definition available_count (p : pool) : nat := length (available_ p).

(** * A client *)

(** What a client does with the pool: take an object, give the [k]-th one it
    holds back, or change it. *)
Inductive op := Get | Put (k : nat) | PutNull | Set_ (k : nat) (name : string) (age : Z).

Record client := mkClient { the_pool : pool; held : list nat; exhausted : nat }.

Definition run_op (c : client) (o : op) : client :=
  match o with
  | Get =>
      match get (the_pool c) with
      | Some (a, p) => mkClient p (held c ++ [a]) (exhausted c)
      | None => mkClient (the_pool c) (held c) (S (exhausted c))
      end
  | Put k =>
      match held c !! k with
      | Some a => mkClient (put (Some a) (the_pool c)) (delete k (held c)) (exhausted c)
      | None => c
      end
  | PutNull => mkClient (put None (the_pool c)) (held c) (exhausted c)
  | Set_ k n a =>
      match held c !! k with
      | Some x => mkClient (mkPool (alter (setAge a ∘ setName n) x (objects (the_pool c))) (available_ (the_pool c)))
                    (held c) (exhausted c)
      | None => c
      end
  end.
Definition run (ops : list op) (c : client) : client := foldl run_op c ops.

(** * The invariant *)

Section pool.
Context (malloc : nat -> nat) (count : nat).
Hypothesis malloc_distinct : forall i j, (i < count)%nat -> (j < count)%nat -> malloc i = malloc j -> i = j.

Definition all : list nat := malloc <$> seq 0 count.

Record good (c : client) : Prop := {
  g_split : available_ (the_pool c) ++ held c ≡ₚ all;
  g_blank a : a ∈ available_ (the_pool c) -> objects (the_pool c) !! a = Some Person_ctor;
  g_exists a : a ∈ all -> is_Some (objects (the_pool c) !! a);
}.

Lemma all_nodup : NoDup all.
Proof.
  apply NoDup_fmap_2_strong; [|apply NoDup_seq]. intros i j Hi%elem_of_seq Hj%elem_of_seq. apply malloc_distinct; lia.
Qed.

Lemma fill_spec i n p :
  available_ (fill malloc i n p) = available_ p ++ (malloc <$> seq i n) /\
  (forall a, a ∈ (malloc <$> seq i n) \/ objects p !! a = Some Person_ctor -> objects (fill malloc i n p) !! a = Some Person_ctor).
Proof.
  revert i p. induction n as [|n IH]; intros i p; cbn.
  - rewrite app_nil_r. split; [done|]. intros a [H|H]; [by apply elem_of_nil in H|done].
  - destruct (IH (S i) (mkPool (<[malloc i := Person_ctor]> (objects p)) (available_ p ++ [malloc i]))) as [-> H2].
    cbn in *. split; [by rewrite <- app_assoc|]. intros a Ha. apply H2. rewrite elem_of_cons in Ha.
    destruct (decide (a = malloc i)) as [->|Hne]; [right; by rewrite lookup_insert_eq|].
    rewrite lookup_insert_ne by done. naive_solver.
Qed.

Lemma pool_ctor_good : good (mkClient (PersonPool_ctor malloc count) [] 0).
Proof.
  destruct (fill_spec 0 count (mkPool ∅ [])) as [H1 H2]. constructor; cbn [the_pool held].
  - unfold PersonPool_ctor. by rewrite H1, app_nil_r.
  - intros a Ha. unfold PersonPool_ctor in *. rewrite H1 in Ha. apply H2. by left.
  - intros a Ha. eexists. apply H2. by left.
Qed.

(** Changes to an object that is not available. *)
Lemma alter_good p h e f a :
  good (mkClient p h e) -> a ∉ available_ p -> good (mkClient (mkPool (alter f a (objects p)) (available_ p)) h e).
Proof.
  intros [H1 H2 H3] Ha. constructor; cbn in *; [done|..].
  - intros b Hb. rewrite lookup_alter_ne; [by apply H2|]. intros ->. done.
  - intros b Hb. destruct (decide (b = a)) as [->|Hne]; [rewrite lookup_alter_eq|rewrite lookup_alter_ne by done; by apply H3].
    destruct (H3 _ Hb) as [x ->]. by eexists.
Qed.

Lemma held_not_available p h e a k : good (mkClient p h e) -> h !! k = Some a -> ~ (a ∈ available_ p) /\ a ∈ all.
Proof.
  intros [H1 _ _] Hk. cbn in *. apply list_elem_of_lookup_2 in Hk. split.
  - intros Ha. pose proof all_nodup as Hn. rewrite <- H1 in Hn. apply NoDup_app in Hn as (_ & Hn & _). by apply (Hn a).
  - rewrite <- H1. apply elem_of_app. by right.
Qed.

Lemma run_op_good c o : good c -> good (run_op c o).
Proof.
  destruct c as [p h e]. intros HG. destruct o as [|k| |k n a]; cbn.
  - unfold get. destruct (last (available_ p)) as [a|] eqn:E; [|by destruct HG].
    apply last_Some in E as [l E]. cbn. rewrite E, removelast_last. destruct HG as [H1 H2 H3]. cbn in *.
    constructor; cbn; [|intros b Hb; apply H2; rewrite E; apply elem_of_app; by left|done].
    rewrite <- H1, E, <- app_assoc. apply Permutation_app_head. by rewrite Permutation_app_comm.
  - destruct (h !! k) as [a|] eqn:E; [|done]. destruct (held_not_available _ _ _ _ _ HG E) as [Hna Hall].
    destruct (alter_good _ _ _ reset a HG Hna) as [H1 H2 H3]. cbn in *. constructor; cbn; [| |done].
    + rewrite <- H1, <- app_assoc. apply Permutation_app_head. cbn. symmetry. by apply delete_Permutation.
    + intros b [Hb|Hb%list_elem_of_singleton]%elem_of_app; [by apply H2|]. subst. rewrite lookup_alter_eq.
      destruct HG as [_ _ H3']. destruct (H3' a Hall) as [x Hx]. cbn in Hx. rewrite Hx. done.
  - done.
  - destruct (h !! k) as [x|] eqn:E; [|done]. destruct (held_not_available _ _ _ _ _ HG E) as [Hna _].
    by apply alter_good.
Qed.

Lemma run_good ops c : good c -> good (run ops c).
Proof. revert c. induction ops as [|o ops IH]; intros c Hc; [done|]. apply IH. by apply run_op_good. Qed.
End pool.

(** C35: Whatever a client does that gives back only what it holds: the objects the
    pool has and those the client holds are together the [count] objects, each
    once; [get] fails exactly when the client holds them all, and otherwise gives a
    blank object that the client does not hold. *)
Theorem pool_correct malloc count ops :
  (forall i j, (i < count)%nat -> (j < count)%nat -> malloc i = malloc j -> i = j) ->
  let c := run ops (mkClient (PersonPool_ctor malloc count) [] 0) in
  NoDup (available_ (the_pool c) ++ held c) /\
  (available_count (the_pool c) + length (held c) = count)%nat /\
  match get (the_pool c) with
  | Some (a, p) => ~ (a ∈ held c) /\ objects p !! a = Some Person_ctor /\ (length (held c) < count)%nat
  | None => length (held c) = count
  end.
Proof.
  intros Hm c. assert (good malloc count c) as HG by (by apply run_good, pool_ctor_good).
  destruct HG as [H1 H2 _]. pose proof (all_nodup malloc count Hm) as Hn. rewrite <- H1 in Hn.
  pose proof (Permutation_length H1) as Hl. unfold all in Hl. rewrite length_app, length_fmap, length_seq in Hl.
  split; [done|split; [done|]]. unfold get. destruct (last (available_ (the_pool c))) as [a|] eqn:E.
  - apply last_Some in E as [l E]. rewrite E in *. apply NoDup_app in Hn as (_ & Hd & _).
    assert (a ∈ l ++ [a]) as Ha by (apply elem_of_app; right; by apply list_elem_of_singleton).
    split_and!; [by apply Hd|by apply H2|]. rewrite length_app in Hl. cbn in Hl. lia.
  - apply last_None in E. rewrite E in Hl. cbn in Hl. lia.
Qed.

Definition demo_client : client := run [Get; Set_ 0 "Alice" 25; Put 0; Get] (mkClient (PersonPool_ctor id 1) [] 0).
Lemma pool_correct_witness : NoDup (available_ (the_pool demo_client) ++ held demo_client).
Proof. apply (pool_correct id 1 [Get; Set_ 0 "Alice" 25; Put 0; Get]). done. Defined.

(** [main]: the numbers it prints, and the requests the pool refused. *)
Definition main (malloc : nat -> nat) : list nat * nat :=
  let c0 := mkClient (PersonPool_ctor malloc 100) [] 0 in
  let c1 := run [Get; Get] c0 in
  let c2 := run [Set_ 0 "Alice" 25; Set_ 1 "Bob" 30; Put 0; Put 0] c1 in
  let c3 := run (replicate 101 Get) c2 in
  let c4 := run (replicate 100 (Put 0)) c3 in
  ((fun c => available_count (the_pool c)) <$> [c0; c1; c2; c4], exhausted c4).

Theorem main_prints : main id = ([100; 98; 100; 100]%nat, 1%nat).
Proof. vm_compute. reflexivity. Qed.
End PersonPool.
