(* ===== verification/Kernel.v ===== *)
(** What the drivers use of the Linux kernel: copies from and to the memory of
    user processes, and the calls by which a module acquires and gives back
    resources (memory, device numbers, character devices, classes, device
    nodes, proc entries, interrupts).  Nothing here translates code of the
    repository; each call behaves as its documentation says, and whether it
    succeeds is an input. *)

From stdpp Require Import prelude strings list.
From Stdlib Require Import ZArith Lia.
From S2P Require Import Prelude.

Open Scope prog_scope.

Abbreviation byte := Byte.byte.

Definition EIO : Z := 5.
Definition EBADF : Z := 9.
Definition ENOMEM : Z := 12.
Definition EBUSY : Z := 16.
Definition EFAULT : Z := 14.
Definition ENODEV : Z := 19.
Definition ERESTARTSYS : Z := 512.

(** * Memory of user processes

    [u_off] is how far the driver moved the buffer pointer; the first [u_ok]
    bytes of the buffer are mapped.  [copy_to_user] and [copy_from_user] stop at
    the first byte that is not mapped and return the number of bytes they did not copy;
    [copy_from_user] fills the rest of its destination with zeros. *)
Record ubuf := mkUbuf { u_mem : list byte; u_off : Z; u_ok : Z }.

Definition copied (u : ubuf) (n : Z) : Z := Z.max 0 (Z.min n (u_ok u - u_off u)).
Definition copy_to_user (u : ubuf) (d : list byte) : Z * ubuf :=
  let c := copied u (zlen d) in
  (zlen d - c, mkUbuf (buf_put (u_off u) (take (Z.to_nat c) d) (u_mem u)) (u_off u) (u_ok u)).
Definition copy_from_user (u : ubuf) (n : Z) : Z * list byte :=
  let c := copied u n in
  (n - c, buf_get (u_off u) c (u_mem u) ++ replicate (Z.to_nat (n - c)) Byte.x00).
Definition clear_user (u : ubuf) (n : Z) : Z * ubuf := copy_to_user u (replicate (Z.to_nat n) Byte.x00).
Definition advance (u : ubuf) (n : Z) : ubuf := mkUbuf (u_mem u) (u_off u + n) (u_ok u).

Lemma copied_le u n : 0 <= n -> 0 <= copied u n <= n.
Proof. unfold copied. lia. Qed.

Lemma copied_all u n : 0 <= n -> (copied u n =? n) = (n <=? u_ok u - u_off u) || (n =? 0).
Proof.
  intros. unfold copied. apply Bool.eq_iff_eq_true. rewrite orb_true_iff, !Z.eqb_eq, Z.leb_le. lia.
Qed.

Lemma length_from_user u n :
  0 <= n -> 0 <= u_off u -> u_off u + n <= zlen (u_mem u) -> zlen (copy_from_user u n).2 = n.
Proof.
  intros. pose proof (copied_le u n). cbn [copy_from_user snd].
  rewrite length_app, Nat2Z.inj_add, length_buf_get, length_replicate; lia.
Qed.

Lemma length_to_user u d :
  0 <= u_off u -> u_off u + zlen d <= zlen (u_mem u) -> length (u_mem (copy_to_user u d).2) = length (u_mem u).
Proof.
  intros. pose proof (copied_le u (zlen d)). cbn [copy_to_user snd u_mem].
  apply length_buf_put; rewrite ?length_take; lia.
Qed.

Lemma take_buf_get {A} (l : list A) (a b : Z) :
  0 <= a -> 0 <= b -> take (Z.to_nat a) l ++ buf_get a b l = take (Z.to_nat (a + b)) l.
Proof. intros. unfold buf_get. rewrite take_prefix_app. f_equal. lia. Qed.

Lemma take_buf_put {A} (l d : list A) (a : Z) :
  0 <= a -> a + zlen d <= zlen l -> take (Z.to_nat (a + zlen d)) (buf_put a d l) = take (Z.to_nat a) l ++ d.
Proof.
  intros. unfold buf_put. rewrite app_assoc. apply take_app_length'. rewrite length_app, length_take. lia.
Qed.

(** * Wait queues: the tasks that sleep on one *)

Definition mem_nat (t : nat) (l : list nat) : bool := existsb (Nat.eqb t) l.
Definition remove_nat (t : nat) (l : list nat) : list nat := List.filter (fun x => negb (Nat.eqb t x)) l.

Lemma mem_remove t t2 l : mem_nat t (remove_nat t2 l) = true -> mem_nat t l = true.
Proof.
  unfold mem_nat, remove_nat. rewrite !existsb_exists. intros (x & Hx & E). apply filter_In in Hx as [? _]. eauto.
Qed.
Lemma mem_enqueue t t2 l : t <> t2 -> mem_nat t (t2 :: remove_nat t2 l) = true -> mem_nat t l = true.
Proof.
  intros Hne. unfold mem_nat at 1. cbn. rewrite orb_true_iff. intros [E|E]; [by apply Nat.eqb_eq in E|].
  by apply mem_remove in E.
Qed.

(** * Resources of a module *)

Inductive res :=
| RBlock (id : nat)        (** kmalloc'ed memory *)
| RRegion                  (** a range of device numbers *)
| RMajor (major : Z)       (** register_chrdev *)
| RCdev                    (** an added character device *)
| RClass
| RDev (minor : Z)         (** a node in /dev *)
| RProc
| RIrq (irq : Z)
| RBlkMajor (major : Z)    (** register_blkdev *)
| RTagSet                  (** blk_mq_alloc_sq_tag_set *)
| RDisk                    (** blk_mq_alloc_disk *)
| RDiskAdded.              (** add_disk *)
#[global] Instance res_eq_dec : EqDecision res.
Proof. solve_decision. Defined.

(** What the module holds, and how the kernel will answer its calls: 0 for
    success, otherwise the number of the error. *)
Record kern := mkKern { live : list res; next_id : nat; answers : list Z }.

Definition K : Type -> Type := prog kern.

Fixpoint remove_one (r : res) (l : list res) : list res :=
  match l with
  | [] => []
  | x :: l' => if decide (x = r) then l' else x :: remove_one r l'
  end.

Definition answer : K Z := fun s =>
  match answers s with
  | [] => (Val 0, s)
  | a :: rest => (Val (- Z.abs a), mkKern (live s) (next_id s) rest)
  end.
Definition acquire (r : res) : K unit := pmodify (fun s => mkKern (r :: live s) (next_id s) (answers s)).

(** Giving back what the module does not hold is a bug. *)
Definition release (r : res) : K unit := fun s =>
  if decide (r ∈ live s) then (Val tt, mkKern (remove_one r (live s)) (next_id s) (answers s)) else (Stuck, s).

(** A call that returns 0 or a negative error code, or an error pointer. *)
Definition try_acquire (r : res) : K Z :=
  let! a := answer in if a =? 0 then acquire r ;;; pret 0 else pret a.

(** Memory: [None] is NULL. *)
Definition kmalloc : K (option nat) := fun s =>
  match answer s with
  | (Val 0, s) => (Val (Some (next_id s)), mkKern (RBlock (next_id s) :: live s) (S (next_id s)) (answers s))
  | (_, s) => (Val None, s)
  end.
Definition kfree (p : option nat) : K unit :=
  match p with None => pret tt | Some id => release (RBlock id) end.
(** An access through the pointer. *)
Definition deref (p : option nat) : K unit :=
  match p with None => pstuck | Some id => fun s => if decide (RBlock id ∈ live s) then (Val tt, s) else (Stuck, s) end.

Definition alloc_chrdev_region : K Z := try_acquire RRegion.
Definition register_chrdev_region : K Z := try_acquire RRegion.
Definition unregister_chrdev_region : K unit := release RRegion.
Definition register_chrdev (major : Z) : K Z := try_acquire (RMajor major).
Definition unregister_chrdev (major : Z) : K unit := release (RMajor major).
Definition cdev_add : K Z := try_acquire RCdev.
Definition cdev_del : K unit := release RCdev.
(** A cdev from [cdev_alloc] is freed when it is deleted. *)
Definition cdev_alloc : K (option nat) := kmalloc.
Definition cdev_del_dyn (c : option nat) : K unit := cdev_del ;;; kfree c.
Definition class_create : K Z := try_acquire RClass.
Definition class_destroy : K unit := release RClass.
Definition device_create (minor : Z) : K Z := try_acquire (RDev minor).
Definition device_destroy (minor : Z) : K unit := release (RDev minor).
(** [proc_create] returns NULL when it fails. *)
Definition proc_create : K bool := let! a := try_acquire RProc in pret (a =? 0).
Definition proc_remove (entry : bool) : K unit := if entry then release RProc else pret tt.
Definition request_irq (irq : Z) : K Z := try_acquire (RIrq irq).
Definition free_irq (irq : Z) : K unit := release (RIrq irq).

(** [register_blkdev] returns 0 for a major number the caller chose, and the
    number [dyn] it picked when the caller passed 0. *)
Definition register_blkdev (dyn major : Z) : K Z :=
  let m := if major =? 0 then dyn else major in
  let! a := try_acquire (RBlkMajor m) in
  if a =? 0 then pret (if major =? 0 then m else 0) else pret a.
Definition unregister_blkdev (major : Z) : K unit := release (RBlkMajor major).
Definition blk_mq_alloc_sq_tag_set : K Z := try_acquire RTagSet.
Definition blk_mq_free_tag_set : K unit := release RTagSet.
Definition blk_mq_alloc_disk : K Z := try_acquire RDisk.
Definition put_disk : K unit := release RDisk.
Definition add_disk : K Z := try_acquire RDiskAdded.
Definition del_gendisk : K unit := release RDiskAdded.
Definition vmalloc : K (option nat) := kmalloc.
Definition vfree : option nat -> K unit := kfree.

(** * Drivers

    [d_static] are the static variables of the module, which [d_init] sets and
    [d_exit] uses. *)
Record driver := mkDriver { d_static : Type; d_init : K (Z * d_static); d_exit : d_static -> K unit }.

(** A fresh module, and a kernel that will answer with [ans]. *)
Definition fresh_kern (ans : list Z) : kern := mkKern [] 0 ans.

(** A module that loads can be unloaded and then holds nothing; one that
    refuses to load holds nothing; neither misuses a resource. *)
Definition unloads (d : driver) (rg : Z * d_static d) (s : kern) : Prop :=
  if rg.1 =? 0 then wp (d_exit d rg.2) (fun _ s' => live s' = []) (fun _ _ => False) s else live s = [].
Definition clean (d : driver) (ans : list Z) : Prop :=
  wp (d_init d) (unloads d) (fun _ _ => False) (fresh_kern ans).

(** ** Rules for the calls *)

Section rules.
Context {X : Z -> kern -> Prop}.
Implicit Types (l : list res) (n : nat) (ans : list Z).

Lemma wp_try_acquire r Q l n ans :
  (forall ans', Q 0 (mkKern (r :: l) n ans')) -> (forall a ans', a < 0 -> Q a (mkKern l n ans')) ->
  wp (try_acquire r) Q X (mkKern l n ans).
Proof.
  intros H1 H2. unfold wp, try_acquire, pbind, answer. destruct ans as [|a ans]; cbn; [apply H1|].
  destruct (Z.eqb_spec (- Z.abs a) 0); cbn; [apply H1|apply H2; lia].
Qed.

Lemma wp_kmalloc Q l n ans :
  (forall ans', Q (Some n) (mkKern (RBlock n :: l) (S n) ans')) -> (forall ans', Q None (mkKern l n ans')) ->
  wp kmalloc Q X (mkKern l n ans).
Proof.
  intros H1 H2. unfold wp, kmalloc, answer. destruct ans as [|[|p|p] ans]; cbn; [apply H1|apply H1|apply H2|apply H2].
Qed.

(** The same calls when the next answer is known. *)
Lemma wp_try_acquire_cons r Q l n a ans :
  (a = 0 -> Q 0 (mkKern (r :: l) n ans)) -> (forall b, b < 0 -> Q b (mkKern l n ans)) ->
  wp (try_acquire r) Q X (mkKern l n (a :: ans)).
Proof.
  intros H1 H2. unfold wp, try_acquire, pbind, answer. cbn.
  destruct (Z.eqb_spec (- Z.abs a) 0); cbn; [apply H1; lia|apply H2; lia].
Qed.
Lemma wp_try_acquire_ok r Q l n ans :
  Q 0 (mkKern (r :: l) n ans) -> wp (try_acquire r) Q X (mkKern l n (0 :: ans)).
Proof. done. Qed.
Lemma wp_kmalloc_cons Q l n a ans :
  (a = 0 -> Q (Some n) (mkKern (RBlock n :: l) (S n) ans)) -> Q None (mkKern l n ans) ->
  wp kmalloc Q X (mkKern l n (a :: ans)).
Proof. intros H1 H2. unfold wp, kmalloc, answer. cbn. destruct a; cbn; [by apply H1|done|done]. Qed.
Lemma wp_kmalloc_ok Q l n ans :
  Q (Some n) (mkKern (RBlock n :: l) (S n) ans) -> wp kmalloc Q X (mkKern l n (0 :: ans)).
Proof. done. Qed.

Lemma wp_release r Q l n ans :
  r ∈ l -> Q tt (mkKern (remove_one r l) n ans) -> wp (release r) Q X (mkKern l n ans).
Proof. intros Hin HQ. unfold wp, release. cbn. by rewrite decide_True. Qed.

Lemma wp_deref id Q l n ans :
  RBlock id ∈ l -> Q tt (mkKern l n ans) -> wp (deref (Some id)) Q X (mkKern l n ans).
Proof. intros Hin HQ. unfold wp, deref. cbn. by rewrite decide_True. Qed.

Lemma wp_proc_create Q l n ans :
  (forall ans', Q true (mkKern (RProc :: l) n ans')) -> (forall ans', Q false (mkKern l n ans')) ->
  wp proc_create Q X (mkKern l n ans).
Proof.
  intros H1 H2. apply wp_bind, wp_try_acquire; [intros; apply wp_ret, H1|].
  intros a ans' Ha. apply wp_ret. rewrite (proj2 (Z.eqb_neq a 0)); [apply H2|lia].
Qed.
End rules.

(** One step of a driver whose resources are known. *)
Ltac removed :=
  match goal with |- context [remove_one ?r ?l] =>
    let v := eval vm_compute in (remove_one r l) in change (remove_one r l) with v end; cbv beta.
Ltac drv_step :=
  lazymatch goal with
  | |- wp (pbind _ _) _ _ _ => apply wp_bind
  | |- wp (pret _) _ _ _ => apply wp_ret
  | |- wp (try_acquire _) _ _ (mkKern _ _ (0 :: _)) => apply wp_try_acquire_ok
  | |- wp (try_acquire _) _ _ (mkKern _ _ (_ :: _)) => apply wp_try_acquire_cons; [intros ?|intros ? ?]
  | |- wp (try_acquire _) _ _ _ => apply wp_try_acquire; [intros ?|intros ? ? ?]
  | |- wp kmalloc _ _ (mkKern _ _ (0 :: _)) => apply wp_kmalloc_ok
  | |- wp kmalloc _ _ _ => apply wp_kmalloc; intros ?
  | |- wp (release _) _ _ _ => apply wp_release; [by eapply bool_decide_unpack; vm_compute|removed]
  | |- wp (deref (Some _)) _ _ _ => apply wp_deref; [by eapply bool_decide_unpack; vm_compute|]
  | |- wp (kfree (Some _)) _ _ _ => unfold kfree
  | |- wp (kfree None) _ _ _ => apply wp_ret
  | |- wp proc_create _ _ _ => apply wp_proc_create; intros ?
  | |- wp (proc_remove true) _ _ _ => unfold proc_remove
  | |- wp (proc_remove false) _ _ _ => apply wp_ret
  | |- (if (_, _).1 =? 0 then _ else _) => cbn [fst snd]
  | H : ?a < 0 |- context [?a =? 0] => rewrite (proj2 (Z.eqb_neq a 0)) by lia; cbn [negb]
  | |- wp (if negb (0 =? 0) then _ else _) _ _ _ => cbn [negb Z.eqb]
  | |- (if 0 =? 0 then _ else _) => cbn [Z.eqb]
  | |- (if - ?e =? 0 then _ else _) => change (- e =? 0) with false; cbv iota
  | |- live _ = [] => reflexivity
  | |- wp ?m _ _ _ => let h := head_of m in unfold h; cbv beta zeta
  end
with head_of m := lazymatch m with ?f _ => head_of f | _ => m end.
Ltac drive :=
  lazymatch goal with |- clean ?d _ => let h := head_of d in unfold clean, unloads, fresh_kern, h end;
  cbn [d_init d_exit d_static]; repeat drv_step.
