(* ===== verification/Alarms.v ===== *)
(** Programs of [Threads] that sleep by testing the memory, as on the wait
    queues of the kernel, instead of on condition variables.  A thread that
    [needs] a wake-up is one that stands in a queue although what it waits for
    has come true; the alarm invariant says that then some thread is [hot], on
    its way to the call that empties the queue.  The conditions on single
    instructions are in [alarm_ok].  Nothing here translates code of the
    repository. *)

From stdpp Require Import prelude list relations.
From Stdlib Require Import ZArith Lia.
From S2P Require Import Prelude Threads.

Section alarms.
Context {St L K : Type}.
Context (code : nat -> list (instr St L)).
Context (count : K -> St -> Z) (weight : nat -> nat -> L -> K -> Z).
Context (inside : nat -> nat -> bool) (says : nat -> nat -> St -> L -> Prop).
Context (lsays : nat -> nat -> L -> Prop) (G : St -> Prop) (N : Z).
Hypothesis weight_01 : forall t pc l k, 0 <= weight t pc l k <= 1.
Hypothesis all_ok : forall t pc, ok code count weight inside says lsays G N t pc.

Abbreviation INV := (Inv code count weight inside says lsays G N).
Abbreviation knows := (knows count weight inside says lsays G N).

(** The code uses no condition variable. *)
Definition queueing (i : instr St L) : bool :=
  match i with IWait _ | ISignal _ | IBroadcast _ => false | _ => true end.
Hypothesis all_queueing : forall t, forallb queueing (code t) = true.

Lemma code_queueing t pc i : code t !! pc = Some i -> queueing i = true.
Proof.
  intros H. specialize (all_queueing t). rewrite forallb_forall in all_queueing.
  apply all_queueing. apply list_elem_of_In. by eapply list_elem_of_lookup_2.
Qed.

Lemma all_running cf t th : INV cf -> threads cf !! t = Some th -> t_status th = Running.
Proof.
  intros HI Ht. pose proof (inv_wait _ _ _ _ _ _ _ _ _ HI _ _ Ht) as Hw. unfold at_wait in Hw.
  destruct (t_status th) as [|c| |]; [done| |destruct Hw as [c Hw]|done]; by apply code_queueing in Hw.
Qed.

(** What one instruction does to its thread: the new memory, locals and
    program point; [None] if it blocks on the memory. *)
Definition act (pc : nat) (i : instr St L) (m : St) (l : L) : option (St * L * nat) :=
  match i with
  | IDo f => Some (f m l, S pc)
  | IBr b n => Some (m, l, if b m l then S pc else S pc + n)%nat
  | IJmp n => Some (m, l, (S pc + n)%nat)
  | IBack n => Some (m, l, (pc - n)%nat)
  | IAwait b f => if b m l then Some (f m l, S pc) else None
  | _ => Some (m, l, S pc)
  end.

Lemma go_act cf t k cf' :
  INV cf -> go code t k cf = Some cf' ->
  exists th i m' l' pc',
    threads cf !! t = Some th /\ code t !! t_pc th = Some i /\
    knows t (t_pc th) (mem cf) (t_loc th) /\
    act (t_pc th) i (mem cf) (t_loc th) = Some (m', l', pc') /\
    mem cf' = m' /\ threads cf' = <[t := mkThread pc' Running l']> (threads cf).
Proof.
  intros HI Hgo. destruct (threads cf !! t) as [th|] eqn:Ht;
    [|by destruct cf; simpl in *; rewrite Ht in Hgo].
  pose proof (all_running _ _ _ HI Ht) as Hr.
  pose proof (inv_knows _ _ _ _ _ _ _ _ weight_01 _ _ _ HI Ht Hr) as Hk.
  pose proof (all_ok t (t_pc th)) as Hok. unfold ok in Hok.
  destruct cf as [m o ths], th as [pc st l]; simpl in *; subst st. rewrite Ht in Hgo. simpl in Hgo.
  destruct (code t !! pc) as [i|] eqn:Hi; [|done]. pose proof (code_queueing _ _ _ Hi) as Hq.
  exists (mkThread pc Running l), i.
  destruct i as [f|b n|n|n|b|b f| | |c|c|c]; try done; simpl in *; try (case_decide; [|done]);
    try (simplify_eq/=; eexists _, _, _; split; [done|split; [exact Hi|split; [exact Hk|split; [reflexivity|done]]]]).
  - destruct (f m l) as [m' l'] eqn:Ef. simplify_eq. exists m', l', (S pc). rewrite ?Ef. done.
  - destruct Hok as [_ Hb]. rewrite (Hb _ _ Hk) in Hgo. simplify_eq/=.
    eexists _, _, _. split; [done|split; [exact Hi|split; [exact Hk|split; [reflexivity|done]]]].
  - destruct (b m l); [|done]. destruct (f m l) as [m' l'] eqn:Ef. simplify_eq.
    exists m', l', (S pc). rewrite ?Ef. done.
Qed.

(** When no thread can move, each has finished or waits for the memory to change. *)
Lemma blocked_awaits cf t th :
  INV cf -> blocked code cf -> threads cf !! t = Some th ->
  finished code t th \/
  exists b f, code t !! t_pc th = Some (IAwait b f) /\ b (mem cf) (t_loc th) = false.
Proof.
  intros HI Hb Ht. pose proof (all_running _ _ _ HI Ht) as Hr.
  assert (owner cf = None) as Ho.
  { destruct (owner cf) as [t2|] eqn:E; [|done].
    apply (inv_owner _ _ _ _ _ _ _ _ _ HI) in E as (th2 & Ht2 & Hm).
    pose proof (all_ok t2 (t_pc th2)) as Hok. unfold ok in Hok. destruct Hm as [Hr2 Hin].
    assert (owner cf = Some t2) as Ho by (apply (inv_owner _ _ _ _ _ _ _ _ _ HI); exists th2; by split).
    specialize (Hb t2 0%nat). destruct cf as [m o ths], th2 as [pc st l]; simpl in *; subst.
    rewrite Ht2 in Hb. simpl in Hb.
    destruct (code t2 !! pc) as [i|] eqn:Hi; rewrite ?Hi in *; [|congruence].
    pose proof (code_queueing _ _ _ Hi). simpl in Hb.
    destruct i as [f|b n|n|n|b|b f| | |c|c|c]; try done; try (destruct Hok; congruence).
    - by destruct (f m l).
    - by rewrite decide_True in Hb. }
  specialize (Hb t 0%nat). pose proof (all_ok t (t_pc th)) as Hok. unfold ok in Hok.
  assert (inside t (t_pc th) = false) as Hin.
  { destruct (inside t (t_pc th)) eqn:E; [|done].
    assert (owner cf = Some t) by (apply (inv_owner _ _ _ _ _ _ _ _ _ HI); exists th; by split). congruence. }
  destruct cf as [m o ths], th as [pc st l]; simpl in *; subst st o. rewrite Ht in Hb. simpl in Hb.
  destruct (code t !! pc) as [i|] eqn:Hi; [right|by left]. pose proof (code_queueing _ _ _ Hi).
  simpl in Hb. destruct i as [f|b n|n|n|b|b f| | |c|c|c]; try done.
  - by destruct (f m l).
  - exists b, f. split; [done|]. by destruct (b m l); [destruct (f m l)|].
  - destruct Hok. congruence.
Qed.

(** ** The alarm *)

Context (needs : nat -> nat -> L -> St -> Prop) (hot : nat -> nat -> L -> bool).

Definition Alarm (cf : config St L) : Prop := forall t th,
  threads cf !! t = Some th -> needs t (t_pc th) (t_loc th) (mem cf) ->
  exists t2 th2, threads cf !! t2 = Some th2 /\ hot t2 (t_pc th2) (t_loc th2) = true.

(** Nobody comes to need a wake-up unless the thread that moves will give it,
    and it stays hot until nobody needs one. *)
Definition rings (t pc pc' : nat) (m : St) (l : L) (m' : St) (l' : L) : Prop :=
  (hot t pc l = true -> hot t pc' l' = true \/ forall t2 pc2 l2, ~ needs t2 pc2 l2 m') /\
  (hot t pc' l' = true \/
   ((needs t pc' l' m' -> needs t pc l m) /\
    (forall t2 pc2 l2, t2 <> t -> needs t2 pc2 l2 m' -> needs t2 pc2 l2 m))).

Definition alarm_ok (t pc : nat) : Prop := forall i m l m' l' pc',
  code t !! pc = Some i -> knows t pc m l -> act pc i m l = Some (m', l', pc') ->
  rings t pc pc' m l m' l'.

Hypothesis all_alarm : forall t pc, alarm_ok t pc.

Lemma alarm_go cf t k cf' : INV cf -> Alarm cf -> go code t k cf = Some cf' -> Alarm cf'.
Proof.
  intros HI HA Hgo. destruct (go_act _ _ _ _ HI Hgo) as (th & i & m' & l' & pc' & Ht & Hi & Hk & Ha & Hm & Hth).
  destruct (all_alarm _ _ _ _ _ _ _ _ Hi Hk Ha) as [Hstay Hnew].
  assert (threads cf' !! t = Some (mkThread pc' Running l')) as Ht'.
  { rewrite Hth. apply list_lookup_insert_eq. by eapply lookup_lt_Some. }
  intros t2 th2 Ht2 Hn. rewrite Hm in Hn. destruct Hnew as [Hhot|[Hown Hoth]]; [by eauto|].
  assert (exists th0, threads cf !! t2 = Some th0 /\ needs t2 (t_pc th0) (t_loc th0) (mem cf)) as (th0 & H0 & Hn0).
  { destruct (decide (t2 = t)) as [->|Hne]; [simplify_eq; eauto|].
    rewrite Hth, list_lookup_insert_ne in Ht2 by done. eauto. }
  destruct (HA _ _ H0 Hn0) as (t3 & th3 & Ht3 & Hh3).
  destruct (decide (t3 = t)) as [->|Hne].
  - simplify_eq. destruct (Hstay Hh3) as [Hh|Hno]; [by eauto|]. by destruct (Hno _ _ _ Hn).
  - exists t3, th3. by rewrite Hth, list_lookup_insert_ne.
Qed.

Lemma alarm_reachable cf cf' : INV cf -> Alarm cf -> rtc (step code) cf cf' -> INV cf' /\ Alarm cf'.
Proof.
  intros HI HA Hr. induction Hr as [|cf1 cf2 cf3 Hs _ IH]; [done|].
  assert (INV cf2) as HI2 by (eapply inv_step; [apply weight_01|apply all_ok|exact HI|exact Hs]).
  apply IH; [exact HI2|].
  destruct Hs as [t k Hgo|t Hsp]; [exact (alarm_go _ _ _ _ HI HA Hgo)|].
  unfold spurious in Hsp. destruct (threads cf1 !! t) as [th|] eqn:Ht; [|done]. simpl in Hsp.
  by rewrite (all_running _ _ _ HI Ht) in Hsp.
Qed.

(** In a state that cannot go on nobody needs a wake-up. *)
Hypothesis hot_moves_on : forall t pc l, hot t pc l = true ->
  exists i, code t !! pc = Some i /\ match i with IAwait _ _ => False | _ => True end.

Lemma blocked_no_needs cf t th :
  INV cf -> Alarm cf -> blocked code cf -> threads cf !! t = Some th ->
  ~ needs t (t_pc th) (t_loc th) (mem cf).
Proof.
  intros HI HA Hb Ht Hn. destruct (HA _ _ Ht Hn) as (t2 & th2 & Ht2 & Hh).
  destruct (hot_moves_on _ _ _ Hh) as (i & Hi & Hw).
  destruct (blocked_awaits _ _ _ HI Hb Ht2) as [[_ Hf]|(b & f & Hf & _)]; [congruence|].
  rewrite Hi in Hf. by simplify_eq.
Qed.
End alarms.
