(* ===== verification/KPipe.v ===== *)
(** [src/kernel_standalone/pipe/main.c]: the character device that implements
    named pipes.  This file translates the data structure, the copying code and
    the file operations; the operations are statements of [Threads], so that
    processes that use one pipe interleave at every access to it. *)

From stdpp Require Import prelude strings list.
From Stdlib Require Import ZArith Lia.
From S2P Require Import Prelude Threads Kernel.

Module KPipe.

Open Scope stmt_scope.

(** * The pipe *)

(** The mutex is the one of the thread model; a wait queue is the list of the
    tasks that sleep on it. *)
Record my_pipe_t := mkPipe {
  data : list byte;
  size : Z;
  read_pos : Z;
  write_pos : Z;
  read_queue : list nat;
  write_queue : list nat;
  readers : Z;
  writers : Z;
}.

Definition set_data (d : list byte) (p : my_pipe_t) : my_pipe_t :=
  mkPipe d (size p) (read_pos p) (write_pos p) (read_queue p) (write_queue p) (readers p) (writers p).
Definition set_read_pos (x : Z) (p : my_pipe_t) : my_pipe_t :=
  mkPipe (data p) (size p) x (write_pos p) (read_queue p) (write_queue p) (readers p) (writers p).
Definition set_write_pos (x : Z) (p : my_pipe_t) : my_pipe_t :=
  mkPipe (data p) (size p) (read_pos p) x (read_queue p) (write_queue p) (readers p) (writers p).
Definition set_read_queue (q : list nat) (p : my_pipe_t) : my_pipe_t :=
  mkPipe (data p) (size p) (read_pos p) (write_pos p) q (write_queue p) (readers p) (writers p).
Definition set_write_queue (q : list nat) (p : my_pipe_t) : my_pipe_t :=
  mkPipe (data p) (size p) (read_pos p) (write_pos p) (read_queue p) q (readers p) (writers p).
Definition set_readers (x : Z) (p : my_pipe_t) : my_pipe_t :=
  mkPipe (data p) (size p) (read_pos p) (write_pos p) (read_queue p) (write_queue p) x (writers p).
Definition set_writers (x : Z) (p : my_pipe_t) : my_pipe_t :=
  mkPipe (data p) (size p) (read_pos p) (write_pos p) (read_queue p) (write_queue p) (readers p) x.

(** The constructor; [mem] is what kmalloc returned. *)
Definition pipe_ctor (pipe_size : Z) (mem : list byte) : my_pipe_t :=
  mkPipe mem (u64 pipe_size) 0 0 [] [] 0 0.

(** do we have data in the pipe ? *)
Definition pipe_have_data (p : my_pipe_t) : bool := negb (read_pos p =? write_pos p).

(** return the empty room of a pipe *)
Definition pipe_room (p : my_pipe_t) : Z :=
  if read_pos p <=? write_pos p
  then u64 (size p - write_pos p + read_pos p - 1)
  else u64 (read_pos p - write_pos p - 1).

(** return the occupied room of a pipe *)
Definition pipe_data (p : my_pipe_t) : Z :=
  if read_pos p <=? write_pos p
  then u64 (write_pos p - read_pos p)
  else u64 (size p - read_pos p + write_pos p).

(** read into the pipe.  [None]: a byte outside the buffer is accessed, or
    BUG_ON fires. *)
Definition pipe_copy_from_user (p : my_pipe_t) (count : Z) (u : ubuf) : option (Z * my_pipe_t * ubuf) :=
  if (0 <=? count) && (write_pos p + count <=? zlen (data p)) then
    let '(r, d) := copy_from_user u count in
    let ret := s32 r in
    let p := set_data (buf_put (write_pos p) d (data p)) p in
    if ret =? 0 then
      let write_pos := u64 (write_pos p + count) in
      if size p <? write_pos then None
      else Some (ret, set_write_pos (if write_pos =? size p then 0 else write_pos) p, advance u count)
    else Some (ret, p, u)
  else None.

(** read from the pipe *)
Definition pipe_copy_to_user (p : my_pipe_t) (count : Z) (u : ubuf) : option (Z * my_pipe_t * ubuf) :=
  if (0 <=? count) && (read_pos p + count <=? zlen (data p)) then
    let '(ret, u) := copy_to_user u (buf_get (read_pos p) count (data p)) in
    if ret =? 0 then
      let read_pos := u64 (read_pos p + count) in
      if size p <? read_pos then None
      else Some (s32 ret, set_read_pos (if read_pos =? size p then 0 else read_pos) p, advance u count)
    else Some (s32 ret, p, u)
  else None.

(** What [pipe_read] does with [avail] bytes in the locked pipe: the return
    value of the last copy, the number of bytes to move, the pipe and the buffer. *)
Definition pipe_read_copy (p : my_pipe_t) (avail : Z) (u : ubuf) : option (Z * Z * my_pipe_t * ubuf) :=
  let count := zlen (u_mem u) in
  let work_size := Z.min avail count in
  if read_pos p <=? write_pos p then
    '(ret, p, u) ← pipe_copy_to_user p (s32 work_size) u;
    Some (ret, work_size, p, u)
  else
    let first_chunk := Z.min work_size (u64 (size p - read_pos p)) in
    '(ret, p, u) ← pipe_copy_to_user p (s32 first_chunk) u;
    if negb (ret =? 0) then Some (ret, work_size, p, u)
    else if first_chunk <? work_size then
      let second_chunk := work_size - first_chunk in
      '(ret, p, u) ← pipe_copy_to_user p (s32 second_chunk) u;
      Some (ret, work_size, p, u)
    else Some (ret, work_size, p, u).

(** What [pipe_write] does with [room] free bytes in the locked pipe. *)
Definition pipe_write_copy (p : my_pipe_t) (room : Z) (u : ubuf) : option (Z * Z * my_pipe_t * ubuf) :=
  let count := zlen (u_mem u) in
  let work_size := Z.min room count in
  if read_pos p <=? write_pos p then
    let first_chunk := Z.min work_size (u64 (size p - write_pos p)) in
    '(ret, p, u) ← pipe_copy_from_user p (s32 first_chunk) u;
    if negb (ret =? 0) then Some (ret, work_size, p, u)
    else if first_chunk <? work_size then
      let second_chunk := work_size - first_chunk in
      '(ret, p, u) ← pipe_copy_from_user p (s32 second_chunk) u;
      Some (ret, work_size, p, u)
    else Some (ret, work_size, p, u)
  else
    '(ret, p, u) ← pipe_copy_from_user p (s32 work_size) u;
    Some (ret, work_size, p, u).

(** * Processes that use the pipe *)

(** A system call of a process: the buffer, whether [access_ok] accepts it, and
    how much of it is mapped; or a signal to a process. *)
Inductive op :=
| OpRead (count : nat) (access : bool) (ok : Z)
| OpWrite (bytes : list byte) (access : bool) (ok : Z)
| OpKill (t : nat).

(** The pipe, the tasks with a pending signal, and the bytes that went in and
    came out so far. *)
Record kmem := mkMem { pipe : my_pipe_t; pending : list nat; log_in : list byte; log_out : list byte }.

Record local := mkLocal {
  tid : nat;
  fmode_read : bool;
  fmode_write : bool;
  script : list op;
  access : bool;      (** what [access_ok] says of the buffer *)
  ubuf_ : ubuf;
  avail : Z;          (** [data] of [pipe_read], [room] of [pipe_write] *)
  ret : Z;
  work_size : Z;
  cond : bool;        (** the result of the wait condition *)
  intr : bool;        (** prepare_to_wait_event saw a signal *)
  f_pos : Z;
  cur : op;           (** the call that is being made *)
  history : list (op * Z * Z);  (** the calls that returned: what they returned and how far they moved the buffer pointer *)
}.

Definition code_t : Type := stmt kmem local.

Definition results (l : local) : list Z := (fun h => h.1.2) <$> history l.

Definition set_script (s : list op) (c : op) (a : bool) (u : ubuf) (l : local) : local :=
  mkLocal (tid l) (fmode_read l) (fmode_write l) s a u (avail l) (ret l) (work_size l) (cond l) (intr l) (f_pos l) c (history l).
Definition set_avail (x : Z) (l : local) : local :=
  mkLocal (tid l) (fmode_read l) (fmode_write l) (script l) (access l) (ubuf_ l) x (ret l) (work_size l) (cond l) (intr l) (f_pos l) (cur l) (history l).
Definition set_ret (x : Z) (l : local) : local :=
  mkLocal (tid l) (fmode_read l) (fmode_write l) (script l) (access l) (ubuf_ l) (avail l) x (work_size l) (cond l) (intr l) (f_pos l) (cur l) (history l).
Definition set_work (u : ubuf) (r w : Z) (l : local) : local :=
  mkLocal (tid l) (fmode_read l) (fmode_write l) (script l) (access l) u (avail l) r w (cond l) (intr l) (f_pos l) (cur l) (history l).
Definition set_cond (b : bool) (l : local) : local :=
  mkLocal (tid l) (fmode_read l) (fmode_write l) (script l) (access l) (ubuf_ l) (avail l) (ret l) (work_size l) b (intr l) (f_pos l) (cur l) (history l).
Definition set_intr (b : bool) (l : local) : local :=
  mkLocal (tid l) (fmode_read l) (fmode_write l) (script l) (access l) (ubuf_ l) (avail l) (ret l) (work_size l) (cond l) b (f_pos l) (cur l) (history l).
Definition set_pos (x : Z) (l : local) : local :=
  mkLocal (tid l) (fmode_read l) (fmode_write l) (script l) (access l) (ubuf_ l) (avail l) (ret l) (work_size l) (cond l) (intr l) x (cur l) (history l).
Definition add_result (l : local) : local :=
  mkLocal (tid l) (fmode_read l) (fmode_write l) (script l) (access l) (ubuf_ l) (avail l) (ret l) (work_size l) (cond l) (intr l) (f_pos l) (cur l) (history l ++ [(cur l, ret l, u_off (ubuf_ l))]).

Definition set_pipe (p : my_pipe_t) (m : kmem) : kmem := mkMem p (pending m) (log_in m) (log_out m).

(** Assignments to locals, and to the pipe. *)
Definition do_l (f : kmem -> local -> local) : code_t := SDo (fun m l => (m, f m l)).
Definition do_p (f : my_pipe_t -> my_pipe_t) : code_t := SDo (fun m l => (set_pipe (f (pipe m)) m, l)).

(** ** Wait queues of the kernel *)

(** A queue of the pipe, as its getter and setter. *)
Record queue := mkQueue { q_get : my_pipe_t -> list nat; q_set : list nat -> my_pipe_t -> my_pipe_t }.
Definition rq : queue := mkQueue read_queue set_read_queue.
Definition wq : queue := mkQueue write_queue set_write_queue.

Definition signal_pending (m : kmem) (l : local) : bool := mem_nat (tid l) (pending m).
Definition dequeue (q : queue) (t : nat) (p : my_pipe_t) : my_pipe_t := q_set q (remove_nat t (q_get q p)) p.
Definition enqueue (q : queue) (t : nat) (p : my_pipe_t) : my_pipe_t := q_set q (t :: remove_nat t (q_get q p)) p.

Definition prepare_to_wait_event (q : queue) (m : kmem) (l : local) : kmem * local :=
  if signal_pending m l then (set_pipe (dequeue q (tid l) (pipe m)) m, set_intr true l)
  else (set_pipe (enqueue q (tid l) (pipe m)) m, set_intr false l).
Definition finish_wait (q : queue) (r : Z) (m : kmem) (l : local) : kmem * local :=
  (set_pipe (dequeue q (tid l) (pipe m)) m, set_ret r l).

(** schedule() in an interruptible task that stands in the queue: it runs
    again once it was taken out of the queue or has a signal. *)
Definition schedule (q : queue) : code_t :=
  SAwait (fun m l => negb (mem_nat (tid l) (q_get q (pipe m))) || signal_pending m l) (fun m l => (m, l)).

(** A condition with effects is a statement that takes what to do when it is
    true. *)
Definition wait_event_interruptible (q : queue) (condition : code_t -> code_t) : code_t :=
  condition (do_l (fun _ => set_ret 0) ;; SReturn) ;;
  SWhile (fun _ _ => true)
    (SDo (prepare_to_wait_event q) ;;
     condition (SDo (finish_wait q 0) ;; SReturn) ;;
     SIf (fun _ l => intr l) (SDo (finish_wait q (- ERESTARTSYS)) ;; SReturn) SSkip ;;
     schedule q).

Definition wake_up_all (q : queue) : code_t := do_p (q_set q []).

(** ** The file operations *)

(** lock the pipe, unlock the pipe (DO_MUTEX) *)
Definition pipe_lock : code_t := SLock.
Definition pipe_unlock : code_t := SUnlock.

Definition pipe_reader_should_i_wake_up (yes : code_t) : code_t :=
  pipe_lock ;;
  do_l (fun m => set_cond ((0 <? pipe_data (pipe m)) || (writers (pipe m) =? 0))) ;;
  SIf (fun _ l => negb (cond l)) pipe_unlock yes.

(** wait on the pipes readers queue (DO_WAITQUEUE) *)
Definition pipe_wait_read : code_t :=
  pipe_unlock ;;
  SCall (wait_event_interruptible rq pipe_reader_should_i_wake_up).

Definition pipe_writer_should_i_wake_up (yes : code_t) : code_t :=
  pipe_lock ;;
  do_l (fun m => set_cond (0 <? pipe_room (pipe m))) ;;
  SIf (fun _ l => negb (cond l)) pipe_unlock yes.

(** wait on the pipes writers queue (DO_WAITQUEUE) *)
Definition pipe_wait_write : code_t :=
  pipe_unlock ;;
  SCall (wait_event_interruptible wq pipe_writer_should_i_wake_up).

(** wake up the readers, the writers *)
Definition pipe_wake_readers : code_t := wake_up_all rq.
Definition pipe_wake_writers : code_t := wake_up_all wq.

Definition pipe_open : code_t :=
  pipe_lock ;;
  SIf (fun _ l => fmode_read l) (do_p (fun p => set_readers (s32 (readers p + 1)) p)) SSkip ;;
  SIf (fun _ l => fmode_write l) (do_p (fun p => set_writers (s32 (writers p + 1)) p)) SSkip ;;
  pipe_unlock.

Definition pipe_release : code_t :=
  pipe_lock ;;
  SIf (fun _ l => fmode_read l) (do_p (fun p => set_readers (s32 (readers p - 1)) p)) SSkip ;;
  SIf (fun _ l => fmode_write l) (do_p (fun p => set_writers (s32 (writers p - 1)) p)) SSkip ;;
  SIf (fun _ l => fmode_write l)
    (SIf (fun m _ => writers (pipe m) =? 0) pipe_wake_readers SSkip)
    SSkip ;;
  pipe_unlock.

(** The bytes the buffer pointer passed are the ones that left the pipe. *)
Definition read_step (m : kmem) (l : local) : kmem * local :=
  match pipe_read_copy (pipe m) (avail l) (ubuf_ l) with
  | Some (r, w, p, u) =>
      (mkMem p (pending m) (log_in m) (log_out m ++ take (Z.to_nat (u_off u)) (u_mem u)), set_work u r w l)
  | None => (m, l)
  end.
Definition write_step (m : kmem) (l : local) : kmem * local :=
  match pipe_write_copy (pipe m) (avail l) (ubuf_ l) with
  | Some (r, w, p, u) =>
      (mkMem p (pending m) (log_in m ++ take (Z.to_nat (u_off u)) (u_mem u)) (log_out m), set_work u r w l)
  | None => (m, l)
  end.

Definition pipe_read : code_t :=
  SIf (fun _ l => negb (access l)) (do_l (fun _ => set_ret (- EFAULT)) ;; SReturn) SSkip ;;
  pipe_lock ;;
  do_l (fun m => set_avail (pipe_data (pipe m))) ;;
  SWhile (fun m l => (avail l =? 0) && (0 <? writers (pipe m)))
    (pipe_wait_read ;;
     SIf (fun _ l => negb (ret l =? 0)) (pipe_unlock ;; SReturn) SSkip ;;
     do_l (fun m => set_avail (pipe_data (pipe m)))) ;;
  SIf (fun m l => (avail l =? 0) && (writers (pipe m) =? 0))
    (pipe_unlock ;; do_l (fun _ => set_ret 0) ;; SReturn) SSkip ;;
  SAssert (fun m l => match pipe_read_copy (pipe m) (avail l) (ubuf_ l) with Some _ => true | None => false end) ;;
  SDo read_step ;;
  SIf (fun _ l => negb (ret l =? 0)) (pipe_unlock ;; SReturn) SSkip ;;
  do_l (fun _ l => set_pos (s64 (f_pos l + work_size l)) l) ;;
  pipe_unlock ;;
  pipe_wake_writers ;;
  do_l (fun _ l => set_ret (work_size l) l).

Definition pipe_write : code_t :=
  SIf (fun _ l => negb (access l)) (do_l (fun _ => set_ret (- EFAULT)) ;; SReturn) SSkip ;;
  pipe_lock ;;
  do_l (fun m => set_avail (pipe_room (pipe m))) ;;
  SWhile (fun _ l => avail l =? 0)
    (pipe_wait_write ;;
     SIf (fun _ l => negb (ret l =? 0)) (pipe_unlock ;; SReturn) SSkip ;;
     do_l (fun m => set_avail (pipe_room (pipe m)))) ;;
  SAssert (fun m l => match pipe_write_copy (pipe m) (avail l) (ubuf_ l) with Some _ => true | None => false end) ;;
  SDo write_step ;;
  SIf (fun _ l => negb (ret l =? 0)) (pipe_unlock ;; SReturn) SSkip ;;
  do_l (fun _ l => set_pos (s64 (f_pos l + work_size l)) l) ;;
  pipe_unlock ;;
  pipe_wake_readers ;;
  do_l (fun _ l => set_ret (work_size l) l).

(** ** A process: it opens the pipe, makes its calls and closes the pipe.  The
    kernel refuses a read or a write that the open mode does not allow. *)
Definition next_op (m : kmem) (l : local) : kmem * local :=
  match script l with
  | [] => (m, l)
  | OpRead n a ok :: s => (m, set_script s (OpRead n a ok) a (mkUbuf (replicate n Byte.x00) 0 ok) l)
  | OpWrite d a ok :: s => (m, set_script s (OpWrite d a ok) a (mkUbuf d 0 ok) l)
  | OpKill t :: s => (mkMem (pipe m) (t :: pending m) (log_in m) (log_out m), set_script s (OpKill t) (access l) (ubuf_ l) l)
  end.
Definition is_read (_ : kmem) (l : local) : bool := match script l with OpRead _ _ _ :: _ => true | _ => false end.
Definition is_write (_ : kmem) (l : local) : bool := match script l with OpWrite _ _ _ :: _ => true | _ => false end.
Definition more (_ : kmem) (l : local) : bool := match script l with [] => false | _ => true end.

Definition process : code_t :=
  SCall pipe_open ;;
  SWhile more
    (SIf is_read
       (SDo next_op ;; SIf (fun _ l => fmode_read l) (SCall pipe_read) (do_l (fun _ => set_ret (- EBADF))))
       (SIf is_write
          (SDo next_op ;; SIf (fun _ l => fmode_write l) (SCall pipe_write) (do_l (fun _ => set_ret (- EBADF))))
          (SDo next_op)) ;;
     do_l (fun _ => add_result)) ;;
  SCall pipe_release.

(** A process by its open mode and its calls. *)
Definition start (i : nat) (p : bool * bool * list op) : thread local :=
  let '(r, w, s) := p in
  mkThread 0 Running (mkLocal i r w s true (mkUbuf [] 0 0) 0 0 0 false false 0 (OpKill 0) []).
Definition system (p : my_pipe_t) (ps : list (bool * bool * list op)) : config kmem local :=
  mkConfig (mkMem p [] [] []) None (imap start ps).

Definition code (_ : nat) : list (instr kmem local) := compile process.

End KPipe.
