(* ===== verification/KPipeProofs.v ===== *)
(** Proofs about [KPipe]. *)

From stdpp Require Import prelude list relations.
From Stdlib Require Import ZArith Lia.
From S2P Require Import Prelude Posix ErrUtils CircularPipe Threads Alarms Kernel KPipe.

Import KPipe.
Module KPipeProofs.

(** * The copying code *)

(** The buffer of the driver as a ring; both codes compute room and data in
    the same way. *)
Definition ring (p : my_pipe_t) : CircularPipe := mkCircularPipe (size p) (data p) (read_pos p) (write_pos p).

Record wfp (p : my_pipe_t) : Prop := {
  wfp_ring : wf (ring p);
  wfp_size : size p <= INT_MAX;
}.

(** The bytes in the pipe. *)
Definition bytes (p : my_pipe_t) : list byte := content (ring p).

Lemma data_bytes p : wfp p -> pipe_data p = zlen (bytes p) /\ 0 <= pipe_data p < size p.
Proof. intros []. by apply (data_content (ring p)). Qed.
Lemma room_bytes p : wfp p -> pipe_room p = size p - 1 - zlen (bytes p).
Proof. intros []. unfold bytes. rewrite <- (proj1 (data_content (ring p) wfp_ring0)). by apply (room_data (ring p)). Qed.

(** What the copying code leaves alone. *)
Record frame (p p' : my_pipe_t) : Prop := {
  fr_size : size p' = size p;
  fr_rq : read_queue p' = read_queue p;
  fr_wq : write_queue p' = write_queue p;
  fr_readers : readers p' = readers p;
  fr_writers : writers p' = writers p;
}.

Lemma frame_trans p1 p2 p3 : frame p1 p2 -> frame p2 p3 -> frame p1 p3.
Proof. intros [] []. constructor; congruence. Qed.

(** Storing behind the data without moving [write_pos] changes nothing. *)
Lemma content_store (p : CircularPipe) d :
  wf p -> cp_pos_write p + zlen d <= cp_size p -> zlen d <= cp_room p ->
  let p' := mkCircularPipe (cp_size p) (buf_put (cp_pos_write p) d (cp_buf p)) (cp_pos_read p) (cp_pos_write p) in
  wf p' /\ content p' = content p.
Proof.
  intros Hwf Hfit Hroom. destruct Hwf as [Hs Hb Hr Hw].
  assert (zlen (buf_put (cp_pos_write p) d (cp_buf p)) = cp_size p) by (rewrite length_buf_put; lia).
  split; [by constructor|]. unfold content, cp_room in *; cbn [cp_size cp_buf cp_pos_read cp_pos_write].
  destruct (cp_pos_read p <=? cp_pos_write p) eqn:E; zbool; cint.
  - by rewrite buf_get_put_before by lia.
  - rewrite buf_get_put_after by lia. f_equal. by rewrite buf_get_put_before by lia.
Qed.

Lemma wrap_end x s : 0 <= x <= s -> 0 < s -> x mod s = if x =? s then 0 else x.
Proof. intros. rewrite mod_wrap by lia. destruct (x =? s) eqn:E; zbool; case_decide; lia. Qed.

(** [count] bytes fit behind the data and the buffer holds them: all of them
    are stored, or the content is what it was. *)
Lemma from_user_spec p count u :
  wfp p -> 0 <= count <= pipe_room p -> write_pos p + count <= size p ->
  0 <= u_off u -> u_off u + count <= zlen (u_mem u) ->
  exists ret p' u', pipe_copy_from_user p count u = Some (ret, p', u') /\ wfp p' /\ frame p p' /\
    read_pos p' = read_pos p /\
    (if copied u count =? count
     then ret = 0 /\ u' = advance u count /\
          write_pos p' = (if write_pos p + count =? size p then 0 else write_pos p + count) /\
          bytes p' = bytes p ++ buf_get (u_off u) count (u_mem u)
     else 0 < ret /\ u' = u /\ bytes p' = bytes p).
Proof.
  intros [Hwf Hsz] Hc Hfit Ho Hu. pose proof (length_from_user u count ltac:(lia) Ho Hu) as Hl.
  pose proof (copied_le u count ltac:(lia)). pose proof (wf_size _ Hwf) as Hs. pose proof (wf_buf _ Hwf) as Hb.
  pose proof (wf_write _ Hwf) as Hw. cbn in Hs, Hb, Hw. unfold INT_MAX in Hsz.
  pose proof (room_bytes p ltac:(by constructor)) as Hroom.
  unfold pipe_copy_from_user. destruct ((0 <=? count) && _) eqn:E; zbool; [|apply andb_false_iff in E; destruct E; zbool; lia].
  destruct (copy_from_user u count) as [r d] eqn:Ecopy. cbn in Hl.
  assert (r = count - copied u count) as -> by (by injection Ecopy). cint.
  destruct (copied u count =? count) eqn:Ec; zbool.
  - replace (count - copied u count =? 0) with true by (symmetry; apply Z.eqb_eq; lia).
    cbn [size write_pos set_data]. cint. destruct (size p <? _) eqn:Ebug; zbool; [lia|].
    destruct (content_put (ring p) d Hwf) as [Hwf' Hcont]; [cbn; lia|change (zlen d <= pipe_room p); lia|].
    cbn [cp_size cp_buf cp_pos_read cp_pos_write ring] in Hwf', Hcont.
    rewrite Hl, wrap_end in Hwf', Hcont by lia.
    eexists _, _, _. split; [done|split; [by constructor|split; [by constructor|split; [done|]]]].
    split; [lia|split; [done|split; [done|]]]. unfold bytes. etransitivity; [exact Hcont|]. f_equal. assert (d = (copy_from_user u count).2) as -> by (by rewrite Ecopy). cbn [copy_from_user snd]. rewrite Ec.
    rewrite Z.sub_diag. cbn. by rewrite app_nil_r.
  - replace (count - copied u count =? 0) with false by (symmetry; apply Z.eqb_neq; lia).
    destruct (content_store (ring p) d Hwf) as [Hwf' Hcont]; [cbn; lia|change (zlen d <= pipe_room p); lia|].
    eexists _, _, _. split; [done|split; [by constructor|split; [by constructor|split; [done|split; [lia|by split]]]]].
Qed.

(** [count] bytes before the end of the buffer. *)
Lemma to_user_spec p count u :
  wfp p -> 0 <= count <= pipe_data p -> read_pos p + count <= size p ->
  0 <= u_off u -> u_off u + count <= zlen (u_mem u) ->
  exists ret p' u', pipe_copy_to_user p count u = Some (ret, p', u') /\ wfp p' /\ frame p p' /\
    length (u_mem u') = length (u_mem u) /\ u_ok u' = u_ok u /\
    (if copied u count =? count
     then ret = 0 /\ u_off u' = u_off u + count /\ write_pos p' = write_pos p /\
          read_pos p' = (if read_pos p + count =? size p then 0 else read_pos p + count) /\
          u_mem u' = buf_put (u_off u) (buf_get (read_pos p) count (data p)) (u_mem u) /\
          bytes p = buf_get (read_pos p) count (data p) ++ bytes p'
     else 0 < ret /\ u_off u' = u_off u /\ p' = p /\
          take (Z.to_nat (u_off u)) (u_mem u') = take (Z.to_nat (u_off u)) (u_mem u)).
Proof.
  intros [Hwf Hsz] Hc Hfit Ho Hu.
  pose proof (copied_le u count ltac:(lia)). pose proof (wf_size _ Hwf) as Hs. pose proof (wf_buf _ Hwf) as Hb.
  pose proof (wf_read _ Hwf) as Hw. cbn in Hs, Hb, Hw. unfold INT_MAX in Hsz.
  unfold pipe_copy_to_user, copy_to_user.
  destruct ((0 <=? count) && _) eqn:E; zbool; [|apply andb_false_iff in E; destruct E; zbool; lia].
  pose proof (length_buf_get (read_pos p) count (data p) ltac:(lia) ltac:(lia) ltac:(lia)) as Hl. rewrite Hl.
  destruct (copied u count =? count) eqn:Ec; zbool.
  - replace (count - copied u count =? 0) with true by (symmetry; apply Z.eqb_eq; lia). cint.
    destruct (size p <? _) eqn:Ebug; zbool; [lia|].
    destruct (content_get (ring p) count Hwf) as [Hwf' Hcont]; [exact Hc|cbn; lia|].
    cbn [cp_size cp_buf cp_pos_read cp_pos_write ring] in Hwf', Hcont. rewrite wrap_end in Hwf', Hcont by lia.
    rewrite Ec, (take_ge _ (Z.to_nat count)) by lia.
    eexists _, _, _. split; [done|split; [by constructor|split; [by constructor|]]].
    cbn [advance u_mem u_off u_ok]. split; [rewrite length_buf_put; lia|split; [done|split; [lia|done]]].
  - replace (count - copied u count =? 0) with false by (symmetry; apply Z.eqb_neq; lia). cint.
    eexists _, _, _. split; [done|split; [by constructor|split; [by constructor|]]]. cbn [u_mem u_off u_ok].
    split; [rewrite length_buf_put by (rewrite ?length_take; lia); done|split; [done|split; [lia|split; [done|split; [done|]]]]].
    unfold buf_put. rewrite take_app_le, take_take, Nat.min_id; [done|]. rewrite length_take. lia.
Qed.

(** How many bytes go in one copy: up to the end of the buffer. *)
Definition first_in (p : my_pipe_t) (w : Z) : Z :=
  if read_pos p <=? write_pos p then Z.min w (size p - write_pos p) else w.
Definition first_out (p : my_pipe_t) (w : Z) : Z :=
  if read_pos p <=? write_pos p then w else Z.min w (size p - read_pos p).

(** How far the buffer pointer moves when [ok] bytes of the buffer are mapped. *)
Definition passed (first w ok : Z) : Z := if w <=? ok then w else if first <=? ok then first else 0.

(** What the locked part of [pipe_write] may return: the bytes that were stored
    are a prefix of the buffer, all that fit unless the buffer is not mapped. *)
Definition write_result (p : my_pipe_t) (u : ubuf) (w : Z) (res : option (Z * Z * my_pipe_t * ubuf)) : Prop :=
  exists ret p' u', res = Some (ret, w, p', u') /\ wfp p' /\ frame p p' /\
    u_mem u' = u_mem u /\ u_off u' = passed (first_in p w) w (u_ok u) /\
    (if w <=? u_ok u then ret = 0 else 0 < ret) /\
    bytes p' = bytes p ++ take (Z.to_nat (u_off u')) (u_mem u).

Lemma write_copy_wrap p u :
  wfp p -> u_off u = 0 -> 0 <= u_ok u -> read_pos p <= write_pos p ->
  let w := Z.min (pipe_room p) (zlen (u_mem u)) in
  0 <= w <= pipe_room p -> w <= zlen (u_mem u) -> write_result p u w (pipe_write_copy p (pipe_room p) u).
Proof.
  intros Hwf Ho Hok E w Hw1 Hw2. pose proof (data_bytes p Hwf) as [Hd Hd2]. pose proof (room_bytes p Hwf) as Hroom.
  pose proof (wfp_size _ Hwf) as Hsz. pose proof (wfp_ring _ Hwf) as [Hs _ Hr Hw]. cbn in Hs, Hr, Hw. unfold INT_MAX in Hsz.
  unfold pipe_write_copy, write_result, first_in, passed. fold w. rewrite (proj2 (Z.leb_le (read_pos p) (write_pos p)) E).
  rewrite (u64_small (size p - write_pos p)) by lia. set (f := Z.min w (size p - write_pos p)). cint.
  destruct (from_user_spec p f u Hwf) as (r1 & p1 & u1 & -> & Hwf1 & Hf1 & Hrp1 & Hres); [lia..|]. cbn [mbind option_bind].
  rewrite copied_all, Ho, Z.sub_0_r in Hres by lia.
  destruct (f <=? u_ok u) eqn:Ef; cbn [orb] in Hres; zbool.
  + destruct Hres as (-> & -> & Hwp1 & Hb1). rewrite Z.eqb_refl. cbn [negb].
    destruct (f <? w) eqn:Efw; zbool.
    * assert (write_pos p1 = 0) as Hwp0 by (destruct (_ =? size p) eqn:?; zbool; lia).
      assert (zlen (bytes p1) = zlen (bytes p) + f) as Hlen1.
      { rewrite Hb1, length_app, Nat2Z.inj_add, length_buf_get; lia. }
      pose proof (room_bytes p1 Hwf1) as Hroom1. destruct Hf1 as [Hs1 ? ? ? ?].
      pose proof (wf_read _ (wfp_ring _ Hwf1)) as Hr1. cbn in Hr1. cint.
      destruct (from_user_spec p1 (w - f) (advance u f) Hwf1) as (r2 & p2 & u2 & -> & Hwf2 & Hf2 & _ & Hres);
        [lia|rewrite Hwp0; lia|cbn; lia|cbn; lia|]. cbn [mbind option_bind].
      rewrite copied_all in Hres by lia. cbn [u_ok u_off advance u_mem] in Hres. rewrite Ho, Z.add_0_l in Hres.
      eexists _, _, _. split; [done|split; [done|split; [by eapply frame_trans; [by constructor|]|]]].
      destruct (w <=? u_ok u) eqn:Ew; zbool.
      -- replace (w - f <=? u_ok u - f) with true in Hres by (symmetry; apply Z.leb_le; lia).
         destruct Hres as (-> & -> & _ & Hb2). cbn [advance u_mem u_off]. rewrite Ho.
         split; [done|split; [lia|split; [done|]]]. rewrite Hb2, Hb1, <- app_assoc. f_equal.
         replace (Z.to_nat (0 + f + (w - f))) with (Z.to_nat (f + (w - f))) by lia.
         rewrite <- take_buf_get by lia. done.
      -- replace (w - f <=? u_ok u - f) with false in Hres by (symmetry; apply Z.leb_gt; lia).
         replace (w - f =? 0) with false in Hres by (symmetry; apply Z.eqb_neq; lia).
         destruct Hres as (? & -> & Hb2). cbn [advance u_mem u_off]. rewrite Ho.
         split; [done|split; [lia|split; [done|]]]. rewrite Hb2, Hb1. done.
    * assert (f = w) as -> by lia. eexists _, _, _. split; [done|split; [done|split; [done|]]].
      destruct (w <=? u_ok u) eqn:Ew; zbool; [|lia]. cbn [advance u_mem u_off]. rewrite Ho in *.
      split; [done|split; [lia|split; [done|]]]. rewrite Hb1. done.
  + replace (f =? 0) with false in Hres by (symmetry; apply Z.eqb_neq; lia).
    destruct Hres as (Hr1 & -> & Hb1). replace (r1 =? 0) with false by (symmetry; apply Z.eqb_neq; lia). cbn [negb].
    eexists _, _, _. split; [done|split; [done|split; [done|]]].
    destruct (w <=? u_ok u) eqn:Ew; zbool; [lia|]. rewrite Ho.
    split; [done|split; [done|split; [done|]]]. cbn. by rewrite app_nil_r.
Qed.

Lemma write_copy_straight p u :
  wfp p -> u_off u = 0 -> 0 <= u_ok u -> write_pos p < read_pos p ->
  let w := Z.min (pipe_room p) (zlen (u_mem u)) in
  0 <= w <= pipe_room p -> w <= zlen (u_mem u) -> write_result p u w (pipe_write_copy p (pipe_room p) u).
Proof.
  intros Hwf Ho Hok E w Hw1 Hw2. pose proof (data_bytes p Hwf) as [Hd Hd2]. pose proof (room_bytes p Hwf) as Hroom.
  pose proof (wfp_size _ Hwf) as Hsz. pose proof (wfp_ring _ Hwf) as [Hs _ Hr Hw]. cbn in Hs, Hr, Hw. unfold INT_MAX in Hsz.
  unfold pipe_write_copy, write_result, first_in, passed. fold w. rewrite (proj2 (Z.leb_gt (read_pos p) (write_pos p)) E).
  assert (pipe_room p = read_pos p - write_pos p - 1) as Hroom2.
  { unfold pipe_room. rewrite (proj2 (Z.leb_gt _ _)) by lia. by cint. }
  cint. destruct (from_user_spec p w u Hwf) as (r1 & p1 & u1 & -> & Hwf1 & Hf1 & Hrp1 & Hres); [lia..|]. cbn [mbind option_bind].
  rewrite copied_all, Ho, Z.sub_0_r in Hres by lia.
  eexists _, _, _. split; [done|split; [done|split; [done|]]].
  destruct (w <=? u_ok u) eqn:Ew; cbn [orb] in Hres; zbool.
  + destruct Hres as (-> & -> & _ & Hb1). cbn [advance u_mem u_off]. rewrite Ho in *.
    split; [done|split; [lia|split; [done|]]]. rewrite Hb1. done.
  + replace (w =? 0) with false in Hres by (symmetry; apply Z.eqb_neq; lia).
    destruct Hres as (? & -> & Hb1). rewrite Ho. split; [done|split; [done|split; [done|]]]. cbn. by rewrite app_nil_r.
Qed.

(** The locked part of [pipe_write]. *)
Lemma write_copy_spec p u :
  wfp p -> u_off u = 0 -> 0 <= u_ok u ->
  write_result p u (Z.min (pipe_room p) (zlen (u_mem u))) (pipe_write_copy p (pipe_room p) u).
Proof.
  intros Hwf Ho Hok. pose proof (room_bytes p Hwf). pose proof (data_bytes p Hwf).
  destruct (decide (read_pos p <= write_pos p)); [apply write_copy_wrap|apply write_copy_straight]; lia || done.
Qed.

(** What the locked part of [pipe_read] may return: the bytes the buffer
    pointer passed are the ones that left the pipe. *)
Definition read_result (p : my_pipe_t) (u : ubuf) (w : Z) (res : option (Z * Z * my_pipe_t * ubuf)) : Prop :=
  exists ret p' u', res = Some (ret, w, p', u') /\ wfp p' /\ frame p p' /\
    length (u_mem u') = length (u_mem u) /\ u_off u' = passed (first_out p w) w (u_ok u) /\
    (if w <=? u_ok u then ret = 0 else 0 < ret) /\
    bytes p = take (Z.to_nat (u_off u')) (u_mem u') ++ bytes p'.

Lemma read_copy_straight p u :
  wfp p -> u_off u = 0 -> 0 <= u_ok u -> read_pos p <= write_pos p ->
  let w := Z.min (pipe_data p) (zlen (u_mem u)) in
  0 <= w <= pipe_data p -> w <= zlen (u_mem u) -> read_result p u w (pipe_read_copy p (pipe_data p) u).
Proof.
  intros Hwf Ho Hok E w Hw1 Hw2. pose proof (data_bytes p Hwf) as [Hd Hd2].
  pose proof (wfp_size _ Hwf) as Hsz. pose proof (wfp_ring _ Hwf) as [Hs Hbl Hr Hw]. cbn in Hs, Hbl, Hr, Hw. unfold INT_MAX in Hsz.
  assert (pipe_data p = write_pos p - read_pos p) as Hd3.
  { unfold pipe_data. rewrite (proj2 (Z.leb_le _ _)) by lia. by cint. }
  unfold pipe_read_copy, read_result, first_out, passed. fold w. rewrite (proj2 (Z.leb_le (read_pos p) (write_pos p)) E).
  cint. destruct (to_user_spec p w u Hwf) as (r1 & p1 & u1 & -> & Hwf1 & Hf1 & Hlen1 & Hok1 & Hres); [lia..|]. cbn [mbind option_bind].
  rewrite copied_all, Ho, Z.sub_0_r in Hres by lia.
  eexists _, _, _. split; [done|split; [done|split; [done|split; [done|]]]].
  destruct (w <=? u_ok u) eqn:Ew; cbn [orb] in Hres; zbool.
  - destruct Hres as (-> & Hoff & _ & _ & Hmem & Hb1). split; [lia|split; [done|]].
    pose proof (length_buf_get (read_pos p) w (data p) ltac:(lia) ltac:(lia) ltac:(lia)) as Hl.
    rewrite Hoff, Hmem. rewrite <- Hl at 1. rewrite take_buf_put by lia. done.
  - replace (w =? 0) with false in Hres by (symmetry; apply Z.eqb_neq; lia).
    destruct Hres as (? & Hoff & -> & Hmem). rewrite Hoff. by split.
Qed.

(** The second copy, from the start of the buffer. *)
Lemma read_second p u w f c1 :
  wfp p -> read_pos p = 0 -> 0 <= f < w -> w - f <= pipe_data p -> u_off u = 0 + f -> f <= u_ok u ->
  w <= zlen (u_mem u) -> take (Z.to_nat f) (u_mem u) = c1 ->
  exists ret p' u', pipe_copy_to_user p (w - f) u = Some (ret, p', u') /\ wfp p' /\ frame p p' /\
    length (u_mem u') = length (u_mem u) /\ u_off u' = (if w <=? u_ok u then w else f) /\
    (if w <=? u_ok u then ret = 0 else 0 < ret) /\
    c1 ++ bytes p = take (Z.to_nat (u_off u')) (u_mem u') ++ bytes p'.
Proof.
  intros Hwf Hrp Hf Hd Ho Hok Hw Ht. pose proof (data_bytes p Hwf) as [Hd1 Hd2].
  pose proof (wfp_size _ Hwf) as Hsz. pose proof (wfp_ring _ Hwf) as [Hs Hbl _ _]. cbn in Hs, Hbl. unfold INT_MAX in Hsz.
  destruct (to_user_spec p (w - f) u Hwf) as (r & p' & u' & -> & Hwf' & Hf' & Hlen & Hok' & Hres); [lia..|].
  rewrite copied_all in Hres by lia. eexists _, _, _. split; [done|split; [done|split; [done|split; [done|]]]].
  destruct (w <=? u_ok u) eqn:Ew; zbool.
  - replace (w - f <=? u_ok u - u_off u) with true in Hres by (symmetry; apply Z.leb_le; lia).
    destruct Hres as (-> & Hoff & _ & _ & Hmem & Hb). split; [lia|split; [done|]].
    pose proof (length_buf_get (read_pos p) (w - f) (data p) ltac:(lia) ltac:(lia) ltac:(lia)) as Hl.
    rewrite Hoff, Hmem. rewrite <- Hl at 1. rewrite take_buf_put, Ho, Z.add_0_l by lia. by rewrite Ht, Hb, app_assoc.
  - replace (w - f <=? u_ok u - u_off u) with false in Hres by (symmetry; apply Z.leb_gt; lia).
    replace (w - f =? 0) with false in Hres by (symmetry; apply Z.eqb_neq; lia).
    destruct Hres as (? & Hoff & -> & Hmem). rewrite Hoff, Hmem, Ho, Z.add_0_l, Ht. done.
Qed.

Lemma read_copy_wrap p u :
  wfp p -> u_off u = 0 -> 0 <= u_ok u -> write_pos p < read_pos p ->
  let w := Z.min (pipe_data p) (zlen (u_mem u)) in
  0 <= w <= pipe_data p -> w <= zlen (u_mem u) -> read_result p u w (pipe_read_copy p (pipe_data p) u).
Proof.
  intros Hwf Ho Hok E w Hw1 Hw2. pose proof (data_bytes p Hwf) as [Hd Hd2].
  pose proof (wfp_size _ Hwf) as Hsz. pose proof (wfp_ring _ Hwf) as [Hs Hbl Hr Hw]. cbn in Hs, Hbl, Hr, Hw. unfold INT_MAX in Hsz.
  unfold pipe_read_copy, read_result, first_out, passed. fold w. rewrite (proj2 (Z.leb_gt (read_pos p) (write_pos p)) E).
  rewrite (u64_small (size p - read_pos p)) by lia. set (f := Z.min w (size p - read_pos p)). cint.
  destruct (to_user_spec p f u Hwf) as (r1 & p1 & u1 & -> & Hwf1 & Hf1 & Hlen1 & Hok1 & Hres); [lia..|]. cbn [mbind option_bind].
  rewrite copied_all, Ho, Z.sub_0_r in Hres by lia.
  destruct (f <=? u_ok u) eqn:Ef; cbn [orb] in Hres; zbool.
  - destruct Hres as (-> & Hoff1 & Hwp1 & Hrp1 & Hmem1 & Hb1). rewrite Z.eqb_refl. cbn [negb].
    set (c1 := buf_get (read_pos p) f (data p)) in *.
    assert (zlen c1 = f) as Hc1 by (apply length_buf_get; lia).
    assert (take (Z.to_nat f) (u_mem u1) = c1) as Ht1.
    { rewrite Hmem1. rewrite <- Hc1 at 1. pose proof (take_buf_put (u_mem u) c1 0) as T. cbn in T. apply T; lia. }
    destruct (f <? w) eqn:Efw; zbool.
    + destruct (read_second p1 u1 w f c1) as (r2 & p2 & u2 & -> & Hwf2 & Hf2 & Hlen2 & Hoff2 & Hres2 & Hb2); try done; try lia.
      { destruct (_ =? size p) eqn:?; zbool; lia. }
      { apply (f_equal length) in Hb1. rewrite length_app in Hb1. pose proof (data_bytes p1 Hwf1). lia. }
      cbn [mbind option_bind]. eexists _, _, _. rewrite Hoff2, Hok1 in *. cbn in Hres2.
      split; [done|split; [done|split; [by eapply frame_trans|split; [congruence|split; [by destruct (w <=? _)|split; [done|]]]]]].
      by rewrite Hb1, Hb2.
    + assert (f = w) as Efw2 by lia. rewrite Efw2 in *. eexists _, _, _. rewrite (proj2 (Z.leb_le w (u_ok u))) by lia.
      split; [done|split; [done|split; [done|split; [done|split; [lia|split; [done|]]]]]].
      by rewrite Hoff1, Z.add_0_l, Ht1.
  - replace (f =? 0) with false in Hres by (symmetry; apply Z.eqb_neq; lia).
    destruct Hres as (Hr1 & Hoff1 & -> & Hmem1). replace (r1 =? 0) with false by (symmetry; apply Z.eqb_neq; lia). cbn [negb].
    eexists _, _, _. rewrite (proj2 (Z.leb_gt w (u_ok u))) by lia.
    split; [done|split; [done|split; [done|split; [done|split; [done|split; [done|]]]]]]. by rewrite Hoff1.
Qed.

(** The locked part of [pipe_read]. *)
Lemma read_copy_spec p u :
  wfp p -> u_off u = 0 -> 0 <= u_ok u ->
  read_result p u (Z.min (pipe_data p) (zlen (u_mem u))) (pipe_read_copy p (pipe_data p) u).
Proof.
  intros Hwf Ho Hok. pose proof (data_bytes p Hwf).
  destruct (decide (read_pos p <= write_pos p)); [apply read_copy_straight|apply read_copy_wrap]; lia || done.
Qed.

End KPipeProofs.
