(* ===== verification/KPipeSystem.v ===== *)
(** Processes that use one pipe of [KPipe]: safety and wake-ups, for every
    interleaving. *)

From stdpp Require Import prelude list relations.
From Stdlib Require Import ZArith Lia.
From S2P Require Import Prelude Posix ErrUtils CircularPipe Threads Alarms Kernel KPipe KPipeProofs.

Import KPipe KPipeProofs.
Module KPipeSystem.

#[local] Arguments pipe_data : simpl never.
#[local] Arguments pipe_room : simpl never.
#[local] Arguments pipe_read_copy : simpl never.
#[local] Arguments pipe_write_copy : simpl never.
#[local] Arguments bytes : simpl never.
#[local] Arguments Z.add : simpl never.
#[local] Arguments Z.sub : simpl never.

(** * The outline *)

(** Open descriptors for reading and for writing. *)
Inductive ctr := KR | KW.

Definition count (k : ctr) (m : kmem) : Z :=
  match k with KR => readers (pipe m) | KW => writers (pipe m) end.

Definition one_of (l : list nat) (pc : nat) : bool := existsb (Nat.eqb pc) l.

Definition weight (_ pc : nat) (l : local) (k : ctr) : Z :=
  b2z match k with
  | KR => span 3 123 pc && fmode_read l
  | KW => span 6 126 pc && fmode_write l
  end.

Definition inside (_ pc : nat) : bool :=
  span 1 7 pc || span 17 19 pc || one_of [21; 22; 23; 25; 26; 30; 31; 32; 34; 35; 37; 38]%nat pc ||
  span 42 43 pc || span 45 49 pc || span 52 56 pc || span 58 60 pc ||
  span 74 76 pc || one_of [78; 79; 80; 82; 83; 87; 88; 89; 91; 92; 94; 95]%nat pc ||
  span 99 100 pc || span 102 108 pc || span 110 112 pc || span 122 133 pc.

Definition reader_go (p : my_pipe_t) : bool := (0 <? pipe_data p) || (writers p =? 0).
Definition writer_go (p : my_pipe_t) : bool := 0 <? pipe_room p.

Definition says (ff : bool) (_ pc : nat) (m : kmem) (l : local) : Prop :=
  if one_of [18; 47; 48; 52; 53; 54]%nat pc then avail l = pipe_data (pipe m)
  else if one_of [75; 104; 105; 106]%nat pc then avail l = pipe_room (pipe m)
  else if one_of [22; 31]%nat pc then cond l = reader_go (pipe m)
  else if one_of [79; 88]%nat pc then cond l = writer_go (pipe m)
  else if one_of [55; 107]%nat pc then ff = true -> ret l = 0
  else True.

(** Calls that send no signal; [ff]: whose buffers are mapped. *)
Definition op_ok (ff : bool) (o : op) : bool :=
  match o with
  | OpRead n _ ok => (0 <=? ok) && (negb ff || (Z.of_nat n <=? ok))
  | OpWrite d _ ok => (0 <=? ok) && (negb ff || (zlen d <=? ok))
  | OpKill _ => false
  end.
Definition buf_ok (ff : bool) (u : ubuf) : Prop :=
  u_off u = 0 /\ 0 <= u_ok u /\ (ff = true -> zlen (u_mem u) <= u_ok u).

(** What is known of the next call. *)
Definition next_is (pc : nat) (s : list op) : Prop :=
  if (pc =? 9)%nat then s <> []
  else if (pc =? 10)%nat then exists n a ok s', s = OpRead n a ok :: s'
  else if (pc =? 66)%nat then s <> [] /\ (forall n a ok s', s <> OpRead n a ok :: s')
  else if (pc =? 67)%nat then exists d a ok s', s = OpWrite d a ok :: s'
  else if (pc =? 118)%nat then exists t s', s = OpKill t :: s'
  else True.

(** [modes] are the modes the processes open the pipe with. *)
Definition lsays (ff : bool) (modes : nat -> bool * bool) (t pc : nat) (l : local) : Prop :=
  tid l = t /\ forallb (op_ok ff) (script l) = true /\ next_is pc (script l) /\
  (if span 11 54 pc || span 68 106 pc then buf_ok ff (ubuf_ l) else True) /\
  (if span 29 36 pc || span 86 93 pc then intr l = false else True) /\
  (if one_of [37; 38; 94; 95]%nat pc then False else True) /\
  (if one_of [2; 123]%nat pc || span 12 63 pc then fmode_read l = true else True) /\
  (if one_of [5; 126]%nat pc || span 69 115 pc then fmode_write l = true else True) /\
  modes t = (fmode_read l, fmode_write l).

(** First in, first out. *)
Record good (sz : Z) (m : kmem) : Prop := {
  g_wf : wfp (pipe m);
  g_size : size (pipe m) = sz;
  g_quiet : pending m = [];
  g_fifo : log_in m = log_out m ++ bytes (pipe m);
}.

Lemma pipe_weight_01 t pc l k : 0 <= weight t pc l k <= 1.
Proof. unfold weight, b2z. destruct (match k with KR => _ | _ => _ end); lia. Qed.

Lemma pipe_facts sz N t pc l m :
  facts count weight (good sz) N t pc l m ->
  (weight t pc l KR <= readers (pipe m) <= weight t pc l KR + (N - 1)) /\
  (weight t pc l KW <= writers (pipe m) <= weight t pc l KW + (N - 1)) /\ good sz m.
Proof. intros [Hc _ HG _]. split; [apply (Hc KR)|split; [apply (Hc KW)|done]]. Qed.

(** ** The two copies *)

Lemma read_step_ok sz m l ff :
  good sz m -> avail l = pipe_data (pipe m) -> buf_ok ff (ubuf_ l) ->
  exists r w p u, pipe_read_copy (pipe m) (avail l) (ubuf_ l) = Some (r, w, p, u) /\
    read_step m l = (mkMem p (pending m) (log_in m) (log_out m ++ take (Z.to_nat (u_off u)) (u_mem u)), set_work u r w l) /\
    frame (pipe m) p /\ good sz (read_step m l).1 /\ (ff = true -> r = 0) /\
    zlen (bytes p) <= zlen (bytes (pipe m)).
Proof.
  intros [Hwf Hsz Hq Hf] Ha (Ho & Hok & Hff).
  destruct (read_copy_spec (pipe m) (ubuf_ l) Hwf Ho Hok) as (r & p & u & E & Hwf' & Hfr & _ & _ & Hr & Hb).
  unfold read_step. rewrite Ha, E. eexists _, _, _, _. split; [done|split; [done|split; [done|split]]].
  - constructor; [done|by cbn; rewrite (fr_size _ _ Hfr)|done|]. cbn. by rewrite Hf, Hb, app_assoc.
  - split; [|rewrite Hb, length_app; lia]. intros Ht. specialize (Hff Ht). by rewrite (proj2 (Z.leb_le _ _)) in Hr by lia.
Qed.

Lemma write_step_ok sz m l ff :
  good sz m -> avail l = pipe_room (pipe m) -> buf_ok ff (ubuf_ l) ->
  exists r w p u, pipe_write_copy (pipe m) (avail l) (ubuf_ l) = Some (r, w, p, u) /\
    write_step m l = (mkMem p (pending m) (log_in m ++ take (Z.to_nat (u_off u)) (u_mem u)) (log_out m), set_work u r w l) /\
    frame (pipe m) p /\ good sz (write_step m l).1 /\ (ff = true -> r = 0) /\
    zlen (bytes (pipe m)) <= zlen (bytes p).
Proof.
  intros [Hwf Hsz Hq Hf] Ha (Ho & Hok & Hff).
  destruct (write_copy_spec (pipe m) (ubuf_ l) Hwf Ho Hok) as (r & p & u & E & Hwf' & Hfr & Hm & _ & Hr & Hb).
  unfold write_step. rewrite Ha, E. eexists _, _, _, _. split; [done|split; [done|split; [done|split]]].
  - constructor; [done|by cbn; rewrite (fr_size _ _ Hfr)|done|]. cbn. by rewrite Hf, Hb, Hm, app_assoc.
  - split; [|rewrite Hb, length_app; lia]. intros Ht. specialize (Hff Ht). by rewrite (proj2 (Z.leb_le _ _)) in Hr by lia.
Qed.

Lemma good_queue sz m q :
  good sz m -> good sz (set_pipe (set_read_queue q (pipe m)) m) /\ good sz (set_pipe (set_write_queue q (pipe m)) m).
Proof. intros [[Hwf Hs] Hsz Hq Hf]. split; constructor; try done; by constructor. Qed.
Lemma good_counts sz m x :
  good sz m -> good sz (set_pipe (set_readers x (pipe m)) m) /\ good sz (set_pipe (set_writers x (pipe m)) m).
Proof. intros [[Hwf Hs] Hsz Hq Hf]. split; constructor; try done; by constructor. Qed.

(** ** Every instruction keeps to the outline *)

Ltac use_facts :=
  match goal with
  | H : knows _ _ _ _ _ _ _ _ _ _ _ |- _ =>
      let Hs := fresh "Hs" in let Hl := fresh "Hl" in
      destruct H as (H & Hl & Hs); first [specialize (Hs eq_refl); cbn in Hs | clear Hs];
      unfold lsays, next_is in Hl; cbn in Hl; destruct Hl as (Htid & Hscr & Hnext & Hbuf & Hintr & Hno & Hmr & Hmw & Hmodes);
      apply pipe_facts in H as (HR & HW & HG); cbn in HR, HW
  end.

(** A script whose head the code has just looked at. *)
Ltac head_case :=
  match goal with
  | Hc : ?test ?m ?l = _ |- _ =>
      first [constr_eq test more | constr_eq test is_read | constr_eq test is_write];
      unfold more, is_read, is_write in Hc; let E := fresh "Esc" in destruct (script l) as [|[? ? ?|? ? ?|?] ?] eqn:E in Hc; try discriminate Hc
  end.
Ltac solve_says :=
  unfold says; cbn;
  first [ done | congruence
        | match goal with
          | Hc : negb ?x = ?y |- _ => apply negb_true_iff in Hc || apply negb_false_iff in Hc; congruence
          end ].
Ltac solve_weight :=
  intros []; unfold weight in *; cbn in *;
  repeat match goal with H : fmode_read _ = _ |- _ => rewrite H in *; clear H | H : fmode_write _ = _ |- _ => rewrite H in *; clear H end;
  cbn in *; cint; first [done | lia].
Ltac solve_next :=
  unfold next_is; cbn; first [done | match goal with E : script _ = _ |- _ => rewrite E in * end;
    first [ by eauto 6 | match goal with H : _ /\ _ |- _ => destruct H as [H1 H2]; exfalso; first [by apply H1 | by eapply H2] end
          | naive_solver ]].
Ltac solve_lsays :=
  unfold lsays; cbn [tid script ubuf_ intr set_ret set_avail set_work set_cond set_intr set_pos add_result fst snd];
  split; [done|split; [done|split; [solve_next|split; [done|split; [done|split; [done|split; [done|split; [done|done]]]]]]]].

Ltac contra := first [done | congruence].
Ltac move_point :=
  split; [first [left; reflexivity | right; intros m l H Hc; use_facts; contra]|];
  intros m l H Hc; use_facts; try head_case;
  first [ contra
        | split; [solve_weight | split; [solve_lsays | intros Hin; first [discriminate Hin | clear Hin; solve_says]]]].

Ltac good_tac :=
  match goal with
  | HG : good _ ?m |- good _ ?m => exact HG
  | HG : good ?sz ?m |- _ => first [ apply (good_queue sz m _ HG) | apply (good_counts sz m _ HG) ]
  end.
Ltac update_point :=
  split; [reflexivity|]; intros m l H Hc; use_facts;
  first [ contra
        | split; [solve_weight|]; split; [good_tac|]; split; [solve_lsays|];
          split; [intros Hin; first [discriminate Hin | clear Hin; solve_says]
                 | first [discriminate | intros _ ? ? ? H'; exact H']] ].
Ltac lock_point :=
  split; [reflexivity|]; split; [reflexivity|]; split; [intros ? []; reflexivity|];
  intros m l _ Hl; split; [exact Hl|exact I].
Ltac ok_point :=
  unfold ok; cbn;
  lazymatch goal with
  | |- updates _ _ _ _ _ _ _ _ _ _ _ => update_point
  | |- _ /\ updates _ _ _ _ _ _ _ _ _ _ _ => split; [reflexivity|update_point]
  | |- moves _ _ _ _ _ _ _ _ _ _ _ => move_point
  | |- moves _ _ _ _ _ _ _ _ _ _ _ /\ moves _ _ _ _ _ _ _ _ _ _ _ => split; move_point
  | |- moves _ _ _ _ _ _ _ _ _ _ _ /\ _ => split; [move_point | intros m l H; use_facts]
  | |- _ => first [ lock_point
      | split; [reflexivity|]; split; [reflexivity|]; split; [intros ? []; reflexivity|]; intros l Hl; exact Hl ]
  end.

(** The points at which the pipe or the script changes. *)
Lemma prepare_quiet sz q m l :
  good sz m -> q = rq \/ q = wq ->
  prepare_to_wait_event q m l = (set_pipe (enqueue q (tid l) (pipe m)) m, set_intr false l) /\
  good sz (set_pipe (enqueue q (tid l) (pipe m)) m).
Proof.
  intros HG Hq. unfold prepare_to_wait_event, signal_pending. rewrite (g_quiet _ _ HG). cbn.
  split; [done|]. destruct Hq as [-> | ->]; apply (good_queue sz m _ HG).
Qed.

Ltac prepare_point q :=
  split; [reflexivity|]; intros m l H Hc; use_facts;
  let E := fresh in let HG' := fresh "HG'" in
  match goal with
  | HG : good ?sz ?m, l : local |- _ => destruct (prepare_quiet sz q m l HG) as [E HG']; [tauto|]
  end; rewrite E; cbn [fst snd];
  split; [solve_weight|]; split; [exact HG'|]; split; [solve_lsays|];
  split; [intros Hin; discriminate Hin|intros _ ? ? ? H'; exact H'].

Ltac frame_weight Hfr :=
  intros []; unfold weight; cbn; [rewrite (fr_readers _ _ Hfr)|rewrite (fr_writers _ _ Hfr)]; lia.
Ltac copy_point step_ok ff :=
  split; [reflexivity|]; intros m l H Hc; use_facts;
  let E := fresh in let E2 := fresh in let HG' := fresh "HG'" in let Hfr := fresh "Hfr" in let Hr0 := fresh "Hr0" in
  match goal with
  | HG : good ?sz ?m, Hs : avail ?l = _, Hb : buf_ok _ _ |- _ =>
      destruct (step_ok sz m l ff HG Hs Hb) as (r & w & p & u & E & E2 & Hfr & HG' & Hr0 & _)
  end;
  rewrite E2 in *; cbn [fst snd] in *;
  split; [frame_weight Hfr|]; split; [exact HG'|]; split; [solve_lsays|];
  split; [intros _; exact Hr0|discriminate].
Ltac assert_point step_ok ff :=
  split; [move_point|]; intros m l H; use_facts;
  let E := fresh in
  match goal with
  | HG : good ?sz ?m, Hs : avail ?l = _, Hb : buf_ok _ _ |- _ =>
      destruct (step_ok sz m l ff HG Hs Hb) as (r & w & p & u & E & _); by rewrite E
  end.

Lemma head_ok ff n a ok d (b : bool) s :
  op_ok ff (if b then OpRead n a ok else OpWrite d a ok) && forallb (op_ok ff) s = true ->
  forallb (op_ok ff) s = true /\ buf_ok ff (mkUbuf (if b then replicate n Byte.x00 else d) 0 ok).
Proof.
  rewrite andb_true_iff. intros [H ?]. split; [done|]. destruct b; cbn in H; apply andb_true_iff in H as [H1 H2]; zbool.
  all: split; [done|split; [done|]]; intros ->; cbn in *; zbool; rewrite ?length_replicate; done.
Qed.

Ltac script_point :=
  split; [reflexivity|]; intros m l H Hc; use_facts;
  match goal with Hn : exists _ _ _ _, _ |- _ => destruct Hn as (d & a & ok0 & s & Esc) end;
  unfold next_op;
  match goal with
  | Hscr : forallb (op_ok ?ff) _ = true, Esc : script _ = _ |- _ =>
      rewrite Esc in *; cbn [fst snd]; first [ apply (head_ok ff _ _ _ [] true _) in Hscr | apply (head_ok ff 0 _ _ _ false _) in Hscr ]; destruct Hscr
  end;
  split; [solve_weight|]; split; [assumption|]; split; [|split; [intros Hin; discriminate Hin|intros _ ? ? ? H'; exact H']];
  split; [done|split; [done|split; [done|split; [done|split; [done|split; [done|split; [done|split; done]]]]]]].

Lemma pipe_ok_all ff modes sz N t pc : N < 2147483648 -> ok code count weight inside (says ff) (lsays ff modes) (good sz) N t pc.
Proof.
  intros HN. do 10 (destruct pc as [|pc]; [solve [ok_point]|]).
  destruct pc as [|pc]; [script_point|].
  do 17 (destruct pc as [|pc]; [solve [ok_point]|]).
  destruct pc as [|pc]; [prepare_point rq|].
  do 24 (destruct pc as [|pc]; [solve [ok_point]|]).
  destruct pc as [|pc]; [assert_point read_step_ok ff|].
  destruct pc as [|pc]; [copy_point read_step_ok ff|].
  do 12 (destruct pc as [|pc]; [solve [ok_point]|]).
  destruct pc as [|pc]; [script_point|].
  do 17 (destruct pc as [|pc]; [solve [ok_point]|]).
  destruct pc as [|pc]; [prepare_point wq|].
  do 19 (destruct pc as [|pc]; [solve [ok_point]|]).
  destruct pc as [|pc]; [assert_point write_step_ok ff|].
  destruct pc as [|pc]; [copy_point write_step_ok ff|].
  do 11 (destruct pc as [|pc]; [solve [ok_point]|]).
  destruct pc as [|pc].
  { split; [reflexivity|]; intros m l H Hc; use_facts. destruct Hnext as (t0 & s & Esc). by rewrite Esc in Hscr. }
  do 15 (destruct pc as [|pc]; [solve [ok_point]|]). reflexivity.
Qed.

(** ** Reachable states *)

Definition modes_of (ps : list (bool * bool * list op)) (t : nat) : bool * bool :=
  match ps !! t with Some (r, w, _) => (r, w) | None => (false, false) end.
Definition calls_ok (ff : bool) (ps : list (bool * bool * list op)) : bool :=
  forallb (fun p => forallb (op_ok ff) p.2) ps.

Abbreviation INV ff sz ps :=
  (Inv code count weight inside (says ff) (lsays ff (modes_of ps)) (good sz) (Z.of_nat (length ps))).

Lemma pipe_start_lookup p ps t th :
  threads (system p ps) !! t = Some th ->
  exists q, ps !! t = Some q /\ th = start t q.
Proof. cbn. rewrite list_lookup_imap. intros (q & ? & ?)%fmap_Some. eauto. Qed.

Lemma pipe_start_pc t q : t_pc (start t q) = 0%nat /\ t_status (start t q) = Running.
Proof. by destruct q as [[r w] s]. Qed.

Lemma pipe_start_total p ps k : total weight k 0 (threads (system p ps)) = 0.
Proof.
  unfold total. rewrite (total_filter weight k (fun _ => false) 0).
  - by induction (threads (system p ps)).
  - intros i th (q & _ & ->)%pipe_start_lookup. destruct (pipe_start_pc i q) as [E _]. rewrite E. by destruct k.
Qed.

Lemma ctor_good pipe_size mem :
  0 < pipe_size <= INT_MAX -> zlen mem = pipe_size ->
  good pipe_size (mkMem (pipe_ctor pipe_size mem) [] [] []).
Proof.
  unfold INT_MAX. intros H Hm. unfold pipe_ctor. cint.
  constructor; [|done|done|done]. constructor; [|cbn; unfold INT_MAX; lia]. constructor; cbn; lia.
Qed.

Lemma pipe_start_inv ff pipe_size mem ps :
  0 < pipe_size <= INT_MAX -> zlen mem = pipe_size -> calls_ok ff ps = true ->
  INV ff pipe_size ps (system (pipe_ctor pipe_size mem) ps).
Proof.
  intros Hs Hm Hok. set (p := pipe_ctor pipe_size mem).
  assert (forall t th, threads (system p ps) !! t = Some th -> t_pc th = 0%nat /\ t_status th = Running) as H0.
  { intros t th (q & _ & ->)%pipe_start_lookup. apply pipe_start_pc. }
  constructor.
  - cbn. by rewrite length_imap.
  - intros t. split; [done|]. intros (th & Ht & _ & Hin). destruct (H0 _ _ Ht) as [E _]. by rewrite E in Hin.
  - intros t th Ht [_ Hin]. destruct (H0 _ _ Ht) as [E _]. by rewrite E in Hin.
  - intros k. rewrite pipe_start_total. by destruct k.
  - by apply ctor_good.
  - intros t th Ht. destruct (H0 _ _ Ht) as [_ E]. unfold at_wait. by rewrite E.
  - intros t th Ht. destruct (pipe_start_lookup _ _ _ _ Ht) as (q & Hq & ->). destruct q as [[r w] s] eqn:Eq.
    unfold calls_ok in Hok. rewrite forallb_forall in Hok.
    specialize (Hok _ (proj1 (list_elem_of_In _ _) (list_elem_of_lookup_2 _ _ _ Hq))). cbn in Hok.
    unfold lsays, modes_of. cbn. rewrite Hq. done.
Qed.

Lemma pipe_reach_inv ff pipe_size mem ps cf :
  0 < pipe_size <= INT_MAX -> zlen mem = pipe_size -> Z.of_nat (length ps) < 2147483648 ->
  calls_ok ff ps = true -> rtc (step code) (system (pipe_ctor pipe_size mem) ps) cf -> INV ff pipe_size ps cf.
Proof.
  intros Hs Hm Hn Hok Hr. eapply inv_reachable; [apply pipe_weight_01|intros; by apply pipe_ok_all|by apply pipe_start_inv|done].
Qed.

(** ** Wake-ups *)

(** A process sleeps at one of the points [reg] in the queue [q] although
    [want] holds of the pipe. *)
Definition needs (reg : list nat) (q : queue) (want : my_pipe_t -> bool) (t pc : nat) (_ : local) (m : kmem) : Prop :=
  one_of reg pc = true /\ mem_nat t (q_get q (pipe m)) = true /\ want (pipe m) = true.

Definition read_sleep : list nat := [32; 33; 36; 39; 40]%nat.
Definition write_sleep : list nat := [89; 90; 93; 96; 97]%nat.

(** Readers wait for data or for the last writer to leave, writers for room. *)
Definition has_data (p : my_pipe_t) : bool := 0 <? pipe_data p.
Definition no_writers (p : my_pipe_t) : bool := writers p =? 0.
Definition has_room (p : my_pipe_t) : bool := 0 <? pipe_room p.

(** Who is about to wake them. *)
Definition hot_data (_ pc : nat) (_ : local) : bool := one_of [107; 110; 111; 112; 113]%nat pc.
Definition hot_last (_ pc : nat) (l : local) : bool := one_of [127; 128; 129; 130]%nat pc && fmode_write l.
Definition hot_room (_ pc : nat) (_ : local) : bool := one_of [55; 58; 59; 60; 61]%nat pc.

(** Reading only takes data away, writing only room; neither touches [writers]. *)
Lemma read_wants sz m l ff :
  good sz m -> avail l = pipe_data (pipe m) -> buf_ok ff (ubuf_ l) ->
  let p' := pipe (read_step m l).1 in
  frame (pipe m) p' /\ (has_data p' = true -> has_data (pipe m) = true) /\ (no_writers p' = no_writers (pipe m)).
Proof.
  intros HG Ha Hb. destruct (read_step_ok sz m l ff HG Ha Hb) as (r & w & p & u & _ & -> & Hfr & HG' & _ & Hle).
  cbn in *. split; [done|]. destruct (data_bytes _ (g_wf _ _ HG)) as [E1 _]. destruct (data_bytes _ (g_wf _ _ HG')) as [E2 _].
  cbn in E2. unfold has_data, no_writers. rewrite (fr_writers _ _ Hfr), E1, E2, !Z.ltb_lt. split; [lia|done].
Qed.
Lemma write_wants sz m l ff :
  good sz m -> avail l = pipe_room (pipe m) -> buf_ok ff (ubuf_ l) ->
  let p' := pipe (write_step m l).1 in
  frame (pipe m) p' /\ (has_room p' = true -> has_room (pipe m) = true) /\ (no_writers p' = no_writers (pipe m)).
Proof.
  intros HG Ha Hb. destruct (write_step_ok sz m l ff HG Ha Hb) as (r & w & p & u & _ & -> & Hfr & HG' & _ & Hle).
  cbn in *. split; [done|]. pose proof (room_bytes _ (g_wf _ _ HG)) as E1. pose proof (room_bytes _ (g_wf _ _ HG')) as E2.
  cbn in E2. unfold has_room, no_writers. rewrite (fr_writers _ _ Hfr), E1, E2, (fr_size _ _ Hfr), !Z.ltb_lt. split; [lia|done].
Qed.

Lemma code_quiet t : forallb queueing (code t) = true.
Proof. reflexivity. Qed.

End KPipeSystem.
