(* ===== verification/KPipeAnswers.v ===== *)
(** What the calls of the processes of [KPipeSystem] return, when there are no signals
    and the buffers are mapped: a read or a write that the open mode and [access_ok] allow
    returns the number of bytes it moved, and no error; a process makes all its calls. *)

From stdpp Require Import prelude list relations.
From Stdlib Require Import ZArith Lia.
From S2P Require Import Prelude Posix ErrUtils CircularPipe Threads Alarms Kernel KPipe KPipeProofs KPipeSystem.

Import KPipe KPipeProofs KPipeSystem.
Module KPipeAnswers.

#[local] Arguments pipe_data : simpl never.
#[local] Arguments pipe_room : simpl never.
#[local] Arguments pipe_read_copy : simpl never.
#[local] Arguments pipe_write_copy : simpl never.
#[local] Arguments read_step : simpl never.
#[local] Arguments write_step : simpl never.
#[local] Arguments bytes : simpl never.
#[local] Arguments Z.add : simpl never.
#[local] Arguments Z.sub : simpl never.

Definition op_count (o : op) : Z :=
  match o with OpRead n _ _ => Z.of_nat n | OpWrite d _ _ => zlen d | OpKill _ => 0 end.
Definition op_access (o : op) : bool := match o with OpRead _ a _ | OpWrite _ a _ => a | OpKill _ => true end.
Definition op_reads (o : op) : bool := match o with OpRead _ _ _ => true | _ => false end.

(** A call of a process with these modes, what it returned, and the number of bytes that
    its buffer pointer passed. *)
Definition answered (reads writes : bool) (h : op * Z * Z) : Prop :=
  let '(o, r, n) := h in
  if (if op_reads o then reads else writes) then
    if op_access o then r = n /\ 0 <= n <= op_count o else r = - EFAULT /\ n = 0
  else r = - EBADF /\ n = 0.

(** * The outline *)

Definition in_call (pc : nat) : bool := span 11 65 pc || span 68 117 pc || (pc =? 119)%nat.
Definition when (b : bool) (P : Prop) : Prop := if b then P else True.

(** What a process knows at each point of its calls; [calls] are all of them. *)
Record jsays (calls : list op) (pc : nat) (l : local) : Prop := {
  j_calls : (history l).*1.*1 ++ (if in_call pc then [cur l] else []) ++ script l = calls;
  j_hist : Forall (answered (fmode_read l) (fmode_write l)) (history l);
  j_cur : when (in_call pc) (op_access (cur l) = access l /\ op_count (cur l) = zlen (u_mem (ubuf_ l)));
  j_kind : when (span 11 65 pc || span 68 117 pc) (op_reads (cur l) = (pc <=? 65)%nat);
  j_off : when (span 11 54 pc || span 68 106 pc || one_of [64; 116]%nat pc) (u_off (ubuf_ l) = 0);
  j_access : when (span 16 62 pc || span 73 114 pc) (access l = true);
  j_fault : when (one_of [13; 14; 70; 71]%nat pc) (access l = false);
  j_zero : when (one_of [26; 35; 42; 51; 55; 83; 92; 99; 107]%nat pc) (ret l = 0);
  j_efault : when (one_of [14; 71]%nat pc) (ret l = - EFAULT);
  j_work : when (span 55 62 pc || span 107 114 pc)
    (work_size l = u_off (ubuf_ l) /\ 0 <= work_size l <= zlen (u_mem (ubuf_ l)));
  j_mode : when (one_of [64; 116]%nat pc) ((if (pc =? 64)%nat then fmode_read l else fmode_write l) = false);
  j_dead : when (one_of [15; 43; 44; 45; 52; 56; 57; 58; 72; 100; 101; 102; 108; 109; 110]%nat pc) False;
  j_end : when (121 <=? pc)%nat (script l = []);
  j_done : when (one_of [63; 65; 115; 117; 119]%nat pc)
    (answered (fmode_read l) (fmode_write l) (cur l, ret l, u_off (ubuf_ l)));
}.

(** The copies, for mapped buffers. *)
Lemma read_moves sz m l : good sz m -> avail l = pipe_data (pipe m) -> buf_ok true (ubuf_ l) ->
  exists m' u w, read_step m l = (m', set_work u 0 w l) /\ u_off u = w /\ 0 <= w <= zlen (u_mem u) /\ zlen (u_mem u) = zlen (u_mem (ubuf_ l)).
Proof.
  intros [Hwf _ _ _] Ha (Ho & Hok & Hff). specialize (Hff eq_refl).
  destruct (read_copy_spec (pipe m) (ubuf_ l) Hwf Ho Hok) as (r & p & u & E & _ & _ & Hl & Hu & Hr & _).
  pose proof (data_bytes _ Hwf). unfold read_step. rewrite Ha, E. rewrite (proj2 (Z.leb_le _ _)) in Hr by lia. subst r.
  unfold passed in Hu. rewrite (proj2 (Z.leb_le _ _)) in Hu by lia. eexists _, u, _. split; [done|]. rewrite Hl. split; [done|lia].
Qed.
Lemma write_moves sz m l : good sz m -> avail l = pipe_room (pipe m) -> buf_ok true (ubuf_ l) ->
  exists m' u w, write_step m l = (m', set_work u 0 w l) /\ u_off u = w /\ 0 <= w <= zlen (u_mem u) /\ zlen (u_mem u) = zlen (u_mem (ubuf_ l)).
Proof.
  intros [Hwf _ _ _] Ha (Ho & Hok & Hff). specialize (Hff eq_refl).
  destruct (write_copy_spec (pipe m) (ubuf_ l) Hwf Ho Hok) as (r & p & u & E & _ & _ & Hl & Hu & Hr & _).
  pose proof (room_bytes _ Hwf). pose proof (data_bytes _ Hwf). unfold write_step. rewrite Ha, E. rewrite (proj2 (Z.leb_le _ _)) in Hr by lia. subst r.
  unfold passed in Hu. rewrite (proj2 (Z.leb_le _ _)) in Hu by lia. eexists _, u, _. split; [done|]. rewrite Hl. split; [done|lia].
Qed.

(** * Every instruction keeps to the outline *)

Ltac answer_facts :=
  match goal with H : jsays _ _ _ |- _ => destruct H as [Jc Jh Jcur Jkind Joff Jacc Jf Jz Je Jw Jm Jd Jend Jdone]; cbn in * end.
Ltac answer_goal :=
  first [done | congruence | lia | tauto
        | split; first [done | congruence | lia]
        | unfold answered in *; cbn in *;
          repeat match goal with
          | H : _ /\ _ |- _ => destruct H
          | H : op_reads _ = _ |- _ => rewrite H in *; clear H
          | H : fmode_read _ = _ |- _ => rewrite H in *; clear H
          | H : fmode_write _ = _ |- _ => rewrite H in *; clear H
          | H : op_access _ = access _ |- _ => rewrite H in *; clear H
          | H : access _ = _ |- _ => rewrite H in *; clear H
          end; cbn in *; first [done | split; first [done | congruence | lia]]].
Section steps.
Context (modes : nat -> bool * bool) (sz N : Z).
Abbreviation knows := (knows count weight inside (says true) (lsays true modes) (good sz) N).
Definition answer_ok (t pc : nat) : Prop := forall calls i m l m' l' pc',
  code t !! pc = Some i -> knows t pc m l -> jsays calls pc l -> act pc i m l = Some (m', l', pc') -> jsays calls pc' l'.

Ltac answer_step :=
  intros calls i m l m' l' pc' Hi Hk HJ Ha; cbn in Hi; injection Hi as <-; cbn in Ha; use_facts;
  try match type of Ha with context [if ?b then _ else _] => destruct b eqn:Hbr; try discriminate Ha end;
  unfold finish_wait, dequeue in Ha; cbn in Ha;
  first [ injection Ha as <- <- <- | injection Ha as Ha <- ].
Ltac answer_plain :=
  answer_facts;
  try match goal with
  | Hb : negb _ = true |- _ => apply negb_true_iff in Hb
  | Hb : negb _ = false |- _ => apply negb_false_iff in Hb
  | Hb : more _ ?l = false |- _ => unfold more in Hb; destruct (script l) eqn:?; [|discriminate Hb]
  end;
  constructor; cbn; answer_goal.
Ltac answer_record :=
  answer_step; answer_facts; constructor; cbn;
  [by rewrite !fmap_app, <- app_assoc|apply Forall_app; split; [done|by apply Forall_singleton]|done..].

Ltac answer_script :=
  answer_step; unfold next_op in *;
  match goal with
  | Hn : exists _ _ _ _, _ |- _ => destruct Hn as (? & ? & ? & ? & Esc)
  | Hn : exists _ _, _ |- _ => destruct Hn as (? & ? & Esc)
  end;
  match goal with Esc : script _ = _ |- _ => rewrite Esc in *; try done end;
  match goal with Ha : (_, _) = (_, _) |- _ => injection Ha as <- <- end;
  answer_facts; match goal with Esc : script _ = _ |- _ => rewrite Esc in * end; constructor; cbn; rewrite ?length_replicate; answer_goal.
Ltac answer_prepare q :=
  answer_step;
  match goal with
  | HG : good ?sz ?m, l : local, Ha : prepare_to_wait_event _ _ _ = _ |- _ =>
      rewrite (proj1 (prepare_quiet sz q m l HG ltac:(tauto))) in Ha; unfold enqueue in Ha; cbn in Ha; injection Ha as <- <-
  end; answer_plain.
Ltac answer_copy step :=
  answer_step;
  match goal with
  | HG : good ?sz ?m, Hs : avail ?l = _, Hb : buf_ok _ _, Ha : ?f ?m ?l = (_, _) |- _ =>
      destruct (step sz m l HG Hs Hb) as (? & ? & ? & E & ? & ? & ?); rewrite E in Ha; injection Ha as <- <-
  end; answer_plain.
Ltac answer_point :=
  lazymatch goal with
  | |- answer_ok _ ?n =>
      let b := eval cbv in (one_of [10; 67; 118]%nat n) in
      lazymatch b with
      | true => answer_script
      | false =>
          lazymatch n with
          | 28%nat => answer_prepare rq
          | 119%nat => answer_record
          | 85%nat => answer_prepare wq
          | 54%nat => answer_copy read_moves
          | 106%nat => answer_copy write_moves
          | _ => answer_step; answer_plain
          end
      end
  end.

Lemma answer_all t pc : answer_ok t pc.
Proof.
  do 134 (destruct pc as [|pc]; [answer_point|]). by intros ? ? ? ? ? ? ? Hi.
Qed.
End steps.

(** * Reachable states *)

Section reachable.
Context (pipe_size : Z) (mem : list byte) (ps : list (bool * bool * list op)).
Hypothesis size_ok : 0 < pipe_size <= INT_MAX.
Hypothesis mem_ok : zlen mem = pipe_size.
Hypothesis few : Z.of_nat (length ps) < 2147483648.
Hypothesis calls : calls_ok true ps = true.

(** The calls of a process. *)
Definition calls_of (t : nat) : list op := from_option snd [] (ps !! t).
Definition all_says (cf : config kmem local) : Prop :=
  forall t th, threads cf !! t = Some th -> jsays (calls_of t) (t_pc th) (t_loc th).

Lemma start_says : all_says (system (pipe_ctor pipe_size mem) ps).
Proof.
  intros t th (q & Hq & ->)%pipe_start_lookup. unfold calls_of. rewrite Hq. destruct q as [[r w] s]. by constructor.
Qed.
Lemma says_step cf cf' : INV true pipe_size ps cf -> all_says cf -> step code cf cf' -> all_says cf'.
Proof using few.
  intros HI HJ [t k Hgo|t Hsp].
  - destruct (go_act code count weight inside (says true) (lsays true (modes_of ps)) (good pipe_size) _ pipe_weight_01
      (fun t pc => pipe_ok_all true _ _ _ t pc few) code_quiet _ _ _ _ HI Hgo) as (th & i & m' & l' & pc' & Ht & Hi & Hk & Ha & _ & Hth).
    intros t2 th2 Ht2. rewrite Hth in Ht2. destruct (decide (t2 = t)) as [->|Hne].
    + rewrite list_lookup_insert_eq in Ht2 by (by eapply lookup_lt_Some). injection Ht2 as <-. cbn.
      exact (answer_all _ _ _ t _ _ _ _ _ _ _ _ Hi Hk (HJ t th Ht) Ha).
    + rewrite list_lookup_insert_ne in Ht2 by done. by apply HJ.
  - unfold spurious in Hsp. destruct (threads cf !! t) as [th|] eqn:Ht; [|done]. cbn in Hsp.
    by rewrite (all_running _ _ _ _ _ _ _ _ code_quiet _ _ _ HI Ht) in Hsp.
Qed.
Lemma reach_says cf : rtc (step code) (system (pipe_ctor pipe_size mem) ps) cf -> all_says cf.
Proof using few mem_ok size_ok calls.
  intros Hr. assert (INV true pipe_size ps (system (pipe_ctor pipe_size mem) ps)) as HI by (by apply pipe_start_inv).
  pose proof start_says as HJ. revert HI HJ. induction Hr as [|cf1 cf2 cf3 Hs _ IH]; [done|]. intros HI HJ. apply IH.
  - eapply inv_step; [apply pipe_weight_01|intros; by apply pipe_ok_all|exact HI|exact Hs].
  - by eapply says_step.
Qed.

(** A process that has finished made all its calls, and they returned what they did. *)
Lemma finished_answers cf t th : rtc (step code) (system (pipe_ctor pipe_size mem) ps) cf ->
  threads cf !! t = Some th -> finished code t th ->
  (history (t_loc th)).*1.*1 = calls_of t /\ Forall (answered (modes_of ps t).1 (modes_of ps t).2) (history (t_loc th)).
Proof using few mem_ok size_ok calls.
  intros Hr Ht [_ Hf]. pose proof (reach_says _ Hr t th Ht) as [Jc Jh _ _ _ _ _ _ _ _ _ _ Jend _].
  assert (INV true pipe_size ps cf) as HI by (by eapply pipe_reach_inv).
  pose proof (inv_lsays _ _ _ _ _ _ _ _ _ HI _ _ Ht) as (_ & _ & _ & _ & _ & _ & _ & _ & ->).
  apply lookup_ge_None in Hf. change (134 <= t_pc th)%nat in Hf. split; [|done].
  unfold in_call, span in Jc. rewrite !(proj2 (Nat.leb_gt (t_pc th) _)), (proj2 (Nat.eqb_neq _ _)), !andb_false_r in Jc by lia. cbn in Jc.
  unfold when in Jend. rewrite (proj2 (Nat.leb_le _ _)) in Jend by lia. by rewrite Jend, app_nil_r in Jc.
Qed.
End reachable.
End KPipeAnswers.
