(* ===== verification/KPipeWake.v ===== *)
(** The processes of [KPipeSystem] are woken when they have to be. *)

From stdpp Require Import prelude list relations.
From Stdlib Require Import ZArith Lia.
From S2P Require Import Prelude Posix ErrUtils CircularPipe Threads Alarms Kernel KPipe KPipeProofs KPipeSystem KPipeAnswers.

Import KPipe KPipeProofs KPipeSystem KPipeAnswers.
Module KPipeWake.

#[local] Arguments pipe_data : simpl never.
#[local] Arguments pipe_room : simpl never.
#[local] Arguments pipe_read_copy : simpl never.
#[local] Arguments pipe_write_copy : simpl never.
#[local] Arguments read_step : simpl never.
#[local] Arguments write_step : simpl never.
#[local] Arguments bytes : simpl never.
#[local] Arguments Z.add : simpl never.
#[local] Arguments Z.sub : simpl never.
#[local] Arguments mem_nat : simpl never.
#[local] Arguments remove_nat : simpl never.

Ltac one_step :=
  intros i m l m' l' pc' Hi Hk Ha; cbn in Hi; injection Hi as <-; cbn in Ha; use_facts;
  try match type of Ha with context [if ?b then _ else _] => destruct b eqn:Hbr; try discriminate Ha end;
  unfold finish_wait, dequeue in Ha; cbn in Ha;
  first [ injection Ha as <- <- <- | injection Ha as Ha <- ].

Ltac wants_tac :=
  try solve [match goal with Hw : _ = true |- _ => exact Hw end];
  unfold has_data, no_writers, has_room, reader_go, writer_go in *; cbn in *;
  try match goal with Hs : cond _ = _ |- _ => rewrite Hs in * end; zbool;
  first [done | congruence | lia | unfold weight in *; cbn in *; cint; lia].

(** The call changes the pipe by a copy, a queue or a counter. *)
Ltac same_needs :=
  match goal with
  | Hq : mem_nat ?t _ = true |- _ => first
      [ done
      | split; [done|split; [first [done | by eapply mem_remove | eapply mem_enqueue; [|eassumption]; congruence]|wants_tac]] ]
  end.
Ltac plain_step :=
  unfold rings; split;
  [ cbn; first [ discriminate | by left | by intros ->; left | right; unfold needs; cbn; intros ? ? ? (? & ? & ?); first [discriminate | wants_tac] ]
  | first
    [ left; cbn; first [done | congruence]
    | right; split;
      [ unfold needs; cbn; intros (? & Hq & Hw); first [ discriminate | exfalso; wants_tac | same_needs ]
      | unfold needs; cbn; intros ? ? ? ? (? & Hq & Hw); same_needs ] ] ].

(** The other steps. *)
Ltac script_step :=
  one_step; unfold next_op in *;
  match goal with
  | Hn : exists _ _ _ _, _ |- _ => destruct Hn as (? & ? & ? & ? & Esc)
  | Hn : exists _ _, _ |- _ => destruct Hn as (? & ? & Esc)
  end;
  match goal with Esc : script _ = _ |- _ => rewrite Esc in *; try done end;
  match goal with Ha : (_, _) = (_, _) |- _ => injection Ha as <- <- end; plain_step.
Ltac prepare_step q :=
  one_step;
  match goal with
  | HG : good ?sz ?m, l : local, Ha : prepare_to_wait_event _ _ _ = _ |- _ =>
      rewrite (proj1 (prepare_quiet sz q m l HG ltac:(tauto))) in Ha; unfold enqueue in Ha; cbn in Ha; injection Ha as <- <-
  end; plain_step.
Ltac copy_step wants :=
  one_step;
  match goal with
  | HG : good ?sz ?m, Hs : avail ?l = _, Hb : buf_ok ?ff _, Ha : ?f ?m ?l = (?m', ?l') |- _ =>
      let Hfr := fresh "Hfr" in let Hd := fresh "Hd" in let Hw := fresh "Hw" in
      destruct (wants sz m l ff HG Hs Hb) as (Hfr & Hd & Hw);
      rewrite Ha in Hfr, Hd, Hw; cbn in Hfr, Hd, Hw;
      unfold rings; split; [cbn; discriminate|]; first
      [ left; reflexivity
      | right; split; [unfold needs; cbn; by intros (? & _)|];
        unfold needs; cbn; rewrite ?(fr_rq _ _ Hfr), ?(fr_wq _ _ Hfr);
        intros ? ? ? ? (? & ? & ?); split; [done|split; [done|first [by apply Hd | congruence]]] ]
  end.
Ltac alarm_point :=
  lazymatch goal with
  | |- alarm_ok _ _ _ _ _ _ _ _ _ _ _ ?n =>
      let b := eval cbv in (one_of [10; 67; 118]%nat n) in
      lazymatch b with
      | true => script_step
      | false =>
          lazymatch n with
          | 28%nat => prepare_step rq
          | 85%nat => prepare_step wq
          | 54%nat => copy_step read_wants
          | 106%nat => copy_step write_wants
          | _ => one_step; plain_step
          end
      end
  end.

Section alarms.
Context (modes : nat -> bool * bool) (sz N : Z) (HN : N < 2147483648).
Abbreviation OK reg q want hot :=
  (forall t pc, alarm_ok code count weight inside (says true) (lsays true modes) (good sz) N (needs reg q want) hot t pc).

Lemma alarm_data : OK read_sleep rq has_data hot_data.
Proof.
  intros t pc. do 134 (destruct pc as [|pc]; [alarm_point|]). by intros ? ? ? ? ? ? Hi.
Qed.
Lemma alarm_last : OK read_sleep rq no_writers hot_last.
Proof.
  intros t pc. do 134 (destruct pc as [|pc]; [alarm_point|]). by intros ? ? ? ? ? ? Hi.
Qed.
Lemma alarm_room : OK write_sleep wq has_room hot_room.
Proof.
  intros t pc. do 134 (destruct pc as [|pc]; [alarm_point|]). by intros ? ? ? ? ? ? Hi.
Qed.
End alarms.

(** * The theorems *)

Lemma start_alarm p ps needs hot :
  (forall t l m, ~ needs t 0%nat l m) -> Alarm needs hot (system p ps).
Proof. intros H t th (q & _ & ->)%pipe_start_lookup Hn. destruct (pipe_start_pc t q) as [E _]. rewrite E in Hn. by destruct (H _ _ _ Hn). Qed.

(** A process that holds a descriptor for reading, for writing. *)
Definition reads_open (th : thread local) : bool := span 3 123 (t_pc th) && fmode_read (t_loc th).
Definition writes_open (th : thread local) : bool := span 6 126 (t_pc th) && fmode_write (t_loc th).

(** C1: Whatever the processes that use a pipe call and however they interleave
    (no signals; buffers may be unmapped; the pipe has a buffer of at least one
    byte, and kmalloc gave it): the bytes that went in are the bytes
    that came out followed by the ones in the pipe, which holds at most [size - 1];
    [readers] and [writers] count the open descriptors; BUG_ON never fires and no
    byte outside the buffer is touched; and only the holder unlocks the mutex. *)
Theorem pipe_safe pipe_size mem ps cf :
  0 < pipe_size <= INT_MAX -> zlen mem = pipe_size -> Z.of_nat (length ps) < 2147483648 ->
  calls_ok false ps = true -> rtc (step code) (system (pipe_ctor pipe_size mem) ps) cf ->
  let p := pipe (Threads.mem cf) in
  log_in (Threads.mem cf) = log_out (Threads.mem cf) ++ bytes p /\
  zlen (bytes p) <= pipe_size - 1 /\
  readers p = zlen (List.filter reads_open (threads cf)) /\
  writers p = zlen (List.filter writes_open (threads cf)) /\
  (forall t th, threads cf !! t = Some th -> t_status th <> Failed) /\
  (forall t th, threads cf !! t = Some th -> code t !! t_pc th = Some IUnlock -> owner cf = Some t).
Proof.
  cbv zeta. intros Hs Hm Hn Hok Hr. pose proof (pipe_reach_inv _ _ _ _ _ Hs Hm Hn Hok Hr) as HI.
  pose proof (inv_G _ _ _ _ _ _ _ _ _ HI) as [Hwf Hsz Hq Hf].
  assert (forall t th, threads cf !! t = Some th -> t_status th = Running) as Hrun.
  { intros t th. eapply all_running; [apply code_quiet|exact HI]. }
  split; [done|split; [|split; [|split; [|split]]]].
  - pose proof (data_bytes _ Hwf). lia.
  - pose proof (inv_count _ _ _ _ _ _ _ _ _ HI KR) as Hc. cbn in Hc. rewrite Hc. by apply total_filter.
  - pose proof (inv_count _ _ _ _ _ _ _ _ _ HI KW) as Hc. cbn in Hc. rewrite Hc. by apply total_filter.
  - intros t th Ht. by rewrite (Hrun _ _ Ht).
  - intros t th Ht Hi. apply (inv_owner _ _ _ _ _ _ _ _ _ HI). exists th. split; [done|split; [by eapply Hrun|]].
    pose proof (pipe_ok_all false (modes_of ps) pipe_size _ t (t_pc th) Hn) as Ho. unfold ok in Ho. rewrite Hi in Ho. apply Ho.
Qed.

(** What is known when no process can go on: the ones that have not finished
    sleep in a queue, and rightly so. *)
Definition reader_waits (cf : config kmem local) (th : thread local) : Prop :=
  t_pc th = 40%nat /\ pipe_data (pipe (Threads.mem cf)) = 0 /\ 0 < writers (pipe (Threads.mem cf)).
Definition writer_waits (cf : config kmem local) (th : thread local) : Prop :=
  t_pc th = 97%nat /\ pipe_room (pipe (Threads.mem cf)) = 0.

Lemma await_points t pc b f :
  code t !! pc = Some (IAwait b f) ->
  (pc = 40%nat /\ b = fun m l => negb (mem_nat (tid l) (read_queue (pipe m))) || signal_pending m l) \/
  (pc = 97%nat /\ b = fun m l => negb (mem_nat (tid l) (write_queue (pipe m))) || signal_pending m l).
Proof.
  do 134 (destruct pc as [|pc]; [first [discriminate | intros [= <- _]; tauto]|]). discriminate.
Qed.

Lemma one_of_In l pc : one_of l pc = true -> In pc l.
Proof. unfold one_of. rewrite existsb_exists. intros (x & Hx & E). apply Nat.eqb_eq in E. by subst. Qed.

(** A thread that is about to wake others is neither asleep nor at its end. *)
Lemma hot_points l t pc :
  incl l [55; 58; 59; 60; 61; 107; 110; 111; 112; 113; 127; 128; 129; 130]%nat -> one_of l pc = true ->
  exists i, code t !! pc = Some i /\ match i with IAwait _ _ => False | _ => True end.
Proof.
  intros Hl Hh%one_of_In%Hl. repeat (destruct Hh as [<-|Hh]; [eexists; split; [reflexivity|exact I]|]). destruct Hh.
Qed.

Section stuck.
Context (pipe_size : Z) (mem : list byte) (ps : list (bool * bool * list op)) (cf : config kmem local).
Hypothesis size_ok : 0 < pipe_size <= INT_MAX.
Hypothesis mem_ok : zlen mem = pipe_size.
Hypothesis few : Z.of_nat (length ps) < 2147483648.
Hypothesis calls : calls_ok true ps = true.
Hypothesis reach : rtc (step code) (system (pipe_ctor pipe_size mem) ps) cf.
Hypothesis stuck : blocked code cf.

Lemma stuck_inv : INV true pipe_size ps cf.
Proof. by eapply pipe_reach_inv. Qed.

Let all_ok t pc : ok code count weight inside (says true) (lsays true (modes_of ps)) (good pipe_size) (Z.of_nat (length ps)) t pc :=
  pipe_ok_all true _ _ _ t pc few.

Lemma nobody_needs reg q want hot t th :
  one_of reg 0 = false ->
  (forall t pc, alarm_ok code count weight inside (says true) (lsays true (modes_of ps)) (good pipe_size)
     (Z.of_nat (length ps)) (needs reg q want) hot t pc) ->
  (forall t pc l, hot t pc l = true -> exists i, code t !! pc = Some i /\ match i with IAwait _ _ => False | _ => True end) ->
  threads cf !! t = Some th ->
  ~ needs reg q want t (t_pc th) (t_loc th) (Threads.mem cf).
Proof.
  intros H0 Hal Hhot Ht.
  assert (Alarm (needs reg q want) hot (system (pipe_ctor pipe_size mem) ps)) as A0.
  { apply start_alarm. intros ? ? ? (E & _). congruence. }
  destruct (alarm_reachable _ _ _ _ _ _ _ _ pipe_weight_01 all_ok code_quiet _ _ Hal _ _
    (pipe_start_inv _ _ _ _ size_ok mem_ok calls) A0 reach) as [HI HA].
  exact (blocked_no_needs _ _ _ _ _ _ _ _ all_ok code_quiet _ _ Hhot _ _ _ HI HA stuck Ht).
Qed.

Lemma no_data_asleep t th : threads cf !! t = Some th ->
  ~ needs read_sleep rq has_data t (t_pc th) (t_loc th) (Threads.mem cf).
Proof.
  apply (nobody_needs _ _ _ hot_data); [done|by apply alarm_data|]. intros ? ? ?. apply hot_points. intros x. cbn. tauto.
Qed.
Lemma no_last_asleep t th : threads cf !! t = Some th ->
  ~ needs read_sleep rq no_writers t (t_pc th) (t_loc th) (Threads.mem cf).
Proof.
  apply (nobody_needs _ _ _ hot_last); [done|by apply alarm_last|]. intros ? ? ? [Hh _]%andb_true_iff. revert Hh.
  apply hot_points. intros x. cbn. tauto.
Qed.
Lemma no_room_asleep t th : threads cf !! t = Some th ->
  ~ needs write_sleep wq has_room t (t_pc th) (t_loc th) (Threads.mem cf).
Proof.
  apply (nobody_needs _ _ _ hot_room); [done|by apply alarm_room|]. intros ? ? ?. apply hot_points. intros x. cbn. tauto.
Qed.

Lemma sleepers t th : threads cf !! t = Some th ->
  finished code t th \/ reader_waits cf th \/ writer_waits cf th.
Proof.
  intros Ht. pose proof stuck_inv as HI. pose proof (inv_G _ _ _ _ _ _ _ _ _ HI) as [Hwf Hsz Hq Hf].
  pose proof (inv_lsays _ _ _ _ _ _ _ _ _ HI _ _ Ht) as (Htid & _).
  pose proof (inv_facts _ _ _ _ _ _ _ _ pipe_weight_01 _ _ _ HI Ht) as (_ & HW & _)%pipe_facts.
  pose proof (pipe_weight_01 t (t_pc th) (t_loc th) KW). pose proof (data_bytes _ Hwf). pose proof (room_bytes _ Hwf).
  destruct (blocked_awaits _ _ _ _ _ _ _ _ all_ok code_quiet _ _ _ HI stuck Ht)
    as [Hfin|(b & f & Hi & Hbf)]; [by left|right].
  assert (signal_pending (Threads.mem cf) (t_loc th) = false) as Hsig by (unfold signal_pending; by rewrite Hq).
  destruct (await_points _ _ _ _ Hi) as [[Hpc ->]|[Hpc ->]]; rewrite Hsig, orb_false_r, negb_false_iff, Htid in Hbf.
  - left. pose proof (no_data_asleep _ _ Ht) as Hn1. pose proof (no_last_asleep _ _ Ht) as Hn2. rewrite Hpc in Hn1, Hn2.
    split; [done|split].
    + destruct (decide (0 < pipe_data (pipe (Threads.mem cf)))) as [Hd|]; [|lia].
      destruct Hn1. split; [done|split; [done|by apply Z.ltb_lt]].
    + destruct (decide (writers (pipe (Threads.mem cf)) = 0)) as [Hd|]; [|lia].
      destruct Hn2. split; [done|split; [done|by apply Z.eqb_eq]].
  - right. pose proof (no_room_asleep _ _ Ht) as Hn1. rewrite Hpc in Hn1. split; [done|].
    destruct (decide (0 < pipe_room (pipe (Threads.mem cf)))) as [Hd|]; [|lia].
    destruct Hn1. split; [done|split; [done|by apply Z.ltb_lt]].
Qed.
(** Somebody who holds a descriptor has not finished, so he waits. *)
Lemma holder_waits k :
  0 < count k (Threads.mem cf) ->
  exists t th, threads cf !! t = Some th /\ (reader_waits cf th \/ writer_waits cf th) /\
    match k with KR => fmode_read (t_loc th) = true | KW => fmode_write (t_loc th) = true end.
Proof.
  rewrite (inv_count _ _ _ _ _ _ _ _ _ stuck_inv k). intros (t & th & Ht & Hw)%total_pos. cbn in Hw.
  exists t, th. split; [done|]. unfold weight, b2z in Hw.
  assert (code t !! t_pc th <> None) as Hpc.
  { intros E%lookup_ge_None. change (134 <= t_pc th)%nat in E. unfold span in Hw.
    rewrite !(proj2 (Nat.leb_gt (t_pc th) _)), !andb_false_r in Hw by lia. by destruct k. }
  destruct (sleepers t th Ht) as [[_ Hf]|H]; [congruence|]. split; [done|].
  destruct k; [destruct (fmode_read _)|destruct (fmode_write _)]; rewrite ?andb_false_r in Hw; done.
Qed.

(** The mode a sleeper opened the pipe with. *)
Lemma waits_mode t th :
  threads cf !! t = Some th ->
  (reader_waits cf th -> (modes_of ps t).1 = true) /\ (writer_waits cf th -> (modes_of ps t).2 = true) /\
  modes_of ps t = (fmode_read (t_loc th), fmode_write (t_loc th)).
Proof.
  intros Ht. pose proof (inv_lsays _ _ _ _ _ _ _ _ _ stuck_inv _ _ Ht) as (_ & _ & _ & _ & _ & _ & Hr & Hw & ->).
  split; [intros [E _]|split; [intros [E _]|done]]; rewrite E in *; cbn in *; done.
Qed.
End stuck.

(** C27: No lost wake-up, for a pipe of positive size and processes whose calls have
    mapped buffers and that send no signals ([calls_ok true]): when none of the processes
    can go on, each has closed the pipe, or sleeps in a read while the pipe is empty and
    somebody could still write, or sleeps in a write while it is full. *)
Theorem pipe_no_lost_wakeup pipe_size mem ps cf :
  0 < pipe_size <= INT_MAX -> zlen mem = pipe_size -> Z.of_nat (length ps) < 2147483648 ->
  calls_ok true ps = true -> rtc (step code) (system (pipe_ctor pipe_size mem) ps) cf -> blocked code cf ->
  forall t th, threads cf !! t = Some th -> finished code t th \/ reader_waits cf th \/ writer_waits cf th.
Proof. apply sleepers. Qed.


End KPipeWake.
