(* ===== verification/KPipeExamples.v ===== *)
(** Runs of the pipe driver: the theorems of [KPipeWake] at concrete systems,
    and the cases in which the driver goes wrong. *)

From stdpp Require Import prelude list relations.
From Stdlib Require Import ZArith Lia.
From S2P Require Import Prelude Posix ErrUtils CircularPipe Threads Alarms Kernel KPipe KPipeProofs KPipeSystem KPipeAnswers KPipeWake.

Import KPipe KPipeProofs KPipeSystem KPipeAnswers KPipeWake.
Module KPipeExamples.

Abbreviation x1 := Byte.x01.
Abbreviation x2 := Byte.x02.
Abbreviation x3 := Byte.x03.
Definition zeros (n : nat) : list byte := replicate n Byte.x00.

(** ** Copies *)

(** Writing a buffer into an empty pipe and reading as many bytes gives the
    buffer back and leaves the pipe empty, wherever in the buffer the pipe stands. *)
Theorem pipe_copy_roundtrip p d ok :
  wfp p -> bytes p = [] -> zlen d <= pipe_room p -> zlen d <= ok ->
  exists p1 u1 p2 u2,
    pipe_write_copy p (pipe_room p) (mkUbuf d 0 ok) = Some (0, zlen d, p1, u1) /\
    pipe_read_copy p1 (pipe_data p1) (mkUbuf (zeros (length d)) 0 ok) = Some (0, zlen d, p2, u2) /\
    u_mem u2 = d /\ bytes p2 = [].
Proof.
  intros Hwf He Hd Hok.
  destruct (write_copy_spec p (mkUbuf d 0 ok) Hwf eq_refl) as (r1 & p1 & u1 & E1 & Hwf1 & _ & _ & Ho1 & Hr1 & Hb1); [cbn; lia|].
  cbn [u_mem u_ok] in *. rewrite Z.min_r in * by lia. rewrite (proj2 (Z.leb_le (zlen d) ok)) in Hr1 by lia. subst r1.
  unfold passed in Ho1. rewrite (proj2 (Z.leb_le (zlen d) ok)) in Ho1 by lia.
  rewrite He, Ho1, Nat2Z.id, firstn_all in Hb1. cbn in Hb1.
  pose proof (data_bytes p1 Hwf1) as [Hdata _]. rewrite Hb1 in Hdata.
  destruct (read_copy_spec p1 (mkUbuf (zeros (length d)) 0 ok) Hwf1 eq_refl) as (r2 & p2 & u2 & E2 & _ & _ & Hl2 & Ho2 & Hr2 & Hb2); [cbn; lia|].
  unfold zeros in *. cbn [u_mem u_ok] in *. rewrite length_replicate, Hdata, Z.min_id in *.
  unfold passed in Ho2. rewrite (proj2 (Z.leb_le (zlen d) ok)) in Hr2, Ho2 by lia. subst r2.
  exists p1, u1, p2, u2. split; [done|split; [by rewrite Hdata|]].
  rewrite Ho2, Nat2Z.id, take_ge, Hb1 in Hb2 by lia.
  assert (length (bytes p2) = 0%nat) as Hnil by (apply (f_equal length) in Hb2; rewrite length_app in Hb2; lia).
  apply nil_length_inv in Hnil. rewrite Hnil, app_nil_r in Hb2. done.
Qed.

Lemma pipe_copy_roundtrip_witness :
  exists p1 u1 p2 u2,
    pipe_write_copy (mkPipe (zeros 4) 4 3 3 [] [] 1 1) 3 (mkUbuf [x1; x2] 0 2) = Some (0, 2, p1, u1) /\
    pipe_read_copy p1 (pipe_data p1) (mkUbuf (zeros 2) 0 2) = Some (0, 2, p2, u2) /\
    u_mem u2 = [x1; x2] /\ bytes p2 = [].
Proof.
  apply (pipe_copy_roundtrip (mkPipe (zeros 4) 4 3 3 [] [] 1 1) [x1; x2] 2);
    [constructor; [constructor; cbn; lia|done]|reflexivity|vm_compute; done|done].
Defined.

(** With [pipe_size] 0, which the module parameter allows, every write of at
    least one byte stores outside the buffer. *)
Theorem empty_pipe_overruns b d :
  zlen (b :: d) <= INT_MAX ->
  pipe_write_copy (pipe_ctor 0 []) (pipe_room (pipe_ctor 0 [])) (mkUbuf (b :: d) 0 (zlen (b :: d))) = None.
Proof.
  unfold INT_MAX. intros H. unfold pipe_write_copy. set (n := zlen (b :: d)) in *.
  assert (0 < n) by (unfold n; cbn; lia). cbn [u_mem]. fold n.
  change (pipe_room (pipe_ctor 0 [])) with 18446744073709551615. rewrite Z.min_r by lia.
  change (read_pos (pipe_ctor 0 []) <=? write_pos (pipe_ctor 0 [])) with true. cbv iota.
  change (u64 (size (pipe_ctor 0 []) - write_pos (pipe_ctor 0 []))) with 0. rewrite Z.min_r by lia.
  change (s32 0) with 0.
  assert (copied (mkUbuf (b :: d) 0 n) 0 = 0) as Ec by (unfold copied; cbn [u_ok u_off]; lia).
  assert (pipe_copy_from_user (pipe_ctor 0 []) 0 (mkUbuf (b :: d) 0 n) = Some (0, pipe_ctor 0 [], mkUbuf (b :: d) 0 n)) as ->.
  { unfold pipe_copy_from_user, copy_from_user. cbn [data write_pos pipe_ctor]. rewrite Ec. reflexivity. }
  cbn [mbind option_bind negb Z.eqb]. rewrite (proj2 (Z.ltb_lt 0 n)) by lia. rewrite Z.sub_0_r.
  cint. unfold pipe_copy_from_user at 1. cbn [data write_pos pipe_ctor length Z.of_nat].
  destruct ((0 <=? n) && _) eqn:E; [|done]. zbool. cbn in *. lia.
Qed.

Lemma empty_pipe_overruns_witness :
  pipe_write_copy (pipe_ctor 0 []) (pipe_room (pipe_ctor 0 [])) (mkUbuf [x1] 0 1) = None.
Proof. apply (empty_pipe_overruns x1 []). done. Defined.

(** A read that faults in its second copy has already taken the bytes of the
    first one out of the pipe; the process is told neither: it sees the number of
    bytes that were not copied, as if it had read so many. *)
Theorem faulty_read_loses_bytes :
  let p := mkPipe [x3; Byte.x00; x1; x2] 4 2 1 [] [] 1 1 in
  bytes p = [x1; x2; x3] /\
  exists p' u', pipe_read_copy p 3 (mkUbuf (zeros 3) 0 2) = Some (1, 3, p', u') /\ bytes p' = [x3].
Proof. split; [reflexivity|]. eexists _, _. split; reflexivity. Qed.

(** ** Systems *)

(** A writer of two bytes and a reader that reads until the end of file. *)
Definition two : list (bool * bool * list op) :=
  [(false, true, [OpWrite [x1; x2] true 2]); (true, false, [OpRead 1 true 1; OpRead 4 true 4; OpRead 4 true 4])].
Definition turns (t n : nat) : list (nat * nat) := replicate n (t, 0%nat).
Definition two_end : config kmem local :=
  run_schedule code (turns 0 9 ++ turns 1 60 ++ turns 0 90 ++ turns 1 400) (system (pipe_ctor 3 (zeros 3)) two).

Lemma two_reach : rtc (step code) (system (pipe_ctor 3 (zeros 3)) two) two_end.
Proof. apply run_schedule_reachable. Qed.
Lemma two_blocked : blocked code two_end.
Proof. intros t k. destruct t as [|[|t]]; vm_compute; reflexivity. Qed.
Lemma two_results : (fun th => results (t_loc th)) <$> threads two_end = [[2]; [1; 1; 0]].
Proof. reflexivity. Qed.

Lemma pipe_safe_witness :
  log_in (mem two_end) = log_out (mem two_end) ++ bytes (pipe (mem two_end)).
Proof.
  apply (pipe_safe 3 (zeros 3) two two_end); [done|reflexivity|reflexivity|reflexivity|apply two_reach].
Defined.

Lemma pipe_no_lost_wakeup_witness :
  exists th, threads two_end !! 1%nat = Some th /\
    (finished code 1 th \/ reader_waits two_end th \/ writer_waits two_end th).
Proof.
  eexists. split; [vm_compute; reflexivity|].
  apply (pipe_no_lost_wakeup 3 (zeros 3) two two_end 
    ltac:(done) eq_refl eq_refl eq_refl two_reach two_blocked 1). vm_compute. reflexivity.
Defined.


(** A read that a signal interrupts unlocks the mutex although it does not
    hold it: [wait_event_interruptible] returned because of the signal, with the
    condition false and the mutex released. *)
Theorem interrupted_read_unlocks :
  exists cf th,
    rtc (step code) (system (pipe_ctor 3 (zeros 3)) [(true, false, [OpRead 1 true 1]); (false, true, [OpKill 0])]) cf /\
    threads cf !! 0%nat = Some th /\ ret (t_loc th) = - ERESTARTSYS /\
    code 0 !! t_pc th = Some IUnlock /\ owner cf = None.
Proof.
  eexists (run_schedule code (turns 1 9 ++ turns 0 60 ++ turns 1 1 ++ turns 0 60) _), _.
  split; [apply run_schedule_reachable|]. split; [vm_compute; reflexivity|]. split; [reflexivity|split; reflexivity].
Qed.

(** A writer whose readers have all closed a full pipe sleeps for ever; there
    is no EPIPE. *)
Theorem abandoned_writer_sleeps :
  exists cf th,
    rtc (step code) (system (pipe_ctor 2 (zeros 2)) [(false, true, [OpWrite [x1] true 1; OpWrite [x2] true 1]); (true, false, [])]) cf /\
    blocked code cf /\ threads cf !! 0%nat = Some th /\ writer_waits cf th /\ readers (pipe (mem cf)) = 0.
Proof.
  eexists (run_schedule code (turns 1 30 ++ turns 0 150) _), _.
  split; [apply run_schedule_reachable|]. split; [intros t k; destruct t as [|[|t]]; vm_compute; reflexivity|].
  split; [vm_compute; reflexivity|]. split; [split; reflexivity|reflexivity].
Qed.

End KPipeExamples.
