(* ===== verification/SimplePipe.v ===== *)
(** [src/kernel_standalone/simple_pipe/main.c]: the pipe driver without locks,
    sleeping and counters, for one caller at a time.  Its read and write are
    shown to do what the locked parts of [KPipe] do, so that any sequence of
    calls implements a bounded queue of bytes. *)

From stdpp Require Import prelude strings list.
From Stdlib Require Import ZArith Lia.
From S2P Require Import Prelude Posix ErrUtils CircularPipe Threads Kernel KPipe KPipeProofs.

Module SimplePipe.

(** * The driver *)

Record my_pipe_t := mkPipe {
  data : list byte;
  size : Z;
  read_pos : Z;
  write_pos : Z;
}.

(** The constructor; [mem] is what kmalloc returned. *)
Definition pipe_ctor (pipe_size : Z) (mem : option (list byte)) : Z + my_pipe_t :=
  match mem with
  | None => inl (- EFAULT)
  | Some d => inr (mkPipe d (u64 pipe_size) 0 0)
  end.

(** do we have data in the pipe ? *)
Definition pipe_have_data (p : my_pipe_t) : bool := negb (read_pos p =? write_pos p).

(** return the empty room of a pipe *)
Definition pipe_room (p : my_pipe_t) : Z :=
  if read_pos p <=? write_pos p
  then u64 (size p - write_pos p + read_pos p - 1)
  else u64 (read_pos p - write_pos p - 1).

(** return the occupied room of a pipe *)
Definition pipe_data (p : my_pipe_t) : Z :=
  if read_pos p <=? write_pos p
  then u64 (write_pos p - read_pos p)
  else u64 (size p - read_pos p + write_pos p).

(** read into the pipe.  [None]: a byte outside the buffer is accessed. *)
Definition pipe_copy_from_user (p : my_pipe_t) (count : Z) (u : ubuf) : option (Z * my_pipe_t * ubuf) :=
  if (0 <=? count) && (write_pos p + count <=? zlen (data p)) then
    let '(r, d) := copy_from_user u count in
    let ret := s32 r in
    let p := mkPipe (buf_put (write_pos p) d (data p)) (size p) (read_pos p) (write_pos p) in
    if ret =? 0 then
      let write_pos := u64 (write_pos p + count) in
      Some (ret, mkPipe (data p) (size p) (read_pos p) (if write_pos =? size p then 0 else write_pos), advance u count)
    else Some (ret, p, u)
  else None.

(** read from the pipe *)
Definition pipe_copy_to_user (p : my_pipe_t) (count : Z) (u : ubuf) : option (Z * my_pipe_t * ubuf) :=
  if (0 <=? count) && (read_pos p + count <=? zlen (data p)) then
    let '(r, u) := copy_to_user u (buf_get (read_pos p) count (data p)) in
    let ret := s32 r in
    if ret =? 0 then
      let read_pos := u64 (read_pos p + count) in
      Some (ret, mkPipe (data p) (size p) (if read_pos =? size p then 0 else read_pos) (write_pos p), advance u count)
    else Some (ret, p, u)
  else None.

(** The result of a call: return value, pipe, buffer and file position. *)
Definition res : Type := option (Z * my_pipe_t * ubuf * Z).

Definition pipe_read (p : my_pipe_t) (access : bool) (u : ubuf) (ppos : Z) : res :=
  if negb access then Some (- EFAULT, p, u, ppos) else
  let count := zlen (u_mem u) in
  let data := pipe_data p in
  if data =? 0 then Some (0, p, u, ppos) else
  let work_size := Z.min data count in
  let finish p u := Some (work_size, p, u, s64 (ppos + work_size)) in
  if read_pos p <=? write_pos p then
    '(ret, p, u) ← pipe_copy_to_user p (s32 work_size) u;
    if negb (ret =? 0) then Some (ret, p, u, ppos) else finish p u
  else
    let first_chunk := Z.min work_size (u64 (size p - read_pos p)) in
    '(ret, p, u) ← pipe_copy_to_user p (s32 first_chunk) u;
    if negb (ret =? 0) then Some (ret, p, u, ppos) else
    if first_chunk <? work_size then
      let second_chunk := work_size - first_chunk in
      '(ret, p, u) ← pipe_copy_to_user p (s32 second_chunk) u;
      if negb (ret =? 0) then Some (ret, p, u, ppos) else finish p u
    else finish p u.

Definition pipe_write (p : my_pipe_t) (access : bool) (u : ubuf) (ppos : Z) : res :=
  if negb access then Some (- EFAULT, p, u, ppos) else
  let count := zlen (u_mem u) in
  let room := pipe_room p in
  if room =? 0 then Some (0, p, u, ppos) else
  let work_size := Z.min room count in
  let finish p u := Some (work_size, p, u, s64 (ppos + work_size)) in
  if read_pos p <=? write_pos p then
    let first_chunk := Z.min work_size (u64 (size p - write_pos p)) in
    '(ret, p, u) ← pipe_copy_from_user p (s32 first_chunk) u;
    if negb (ret =? 0) then Some (ret, p, u, ppos) else
    if first_chunk <? work_size then
      let second_chunk := work_size - first_chunk in
      '(ret, p, u) ← pipe_copy_from_user p (s32 second_chunk) u;
      if negb (ret =? 0) then Some (ret, p, u, ppos) else finish p u
    else finish p u
  else
    '(ret, p, u) ← pipe_copy_from_user p (s32 work_size) u;
    if negb (ret =? 0) then Some (ret, p, u, ppos) else finish p u.

(** * The same as the locked part of the other driver *)

(** A pipe of the other driver without its queues and counters. *)
Definition strip (p : KPipe.my_pipe_t) : my_pipe_t :=
  mkPipe (KPipe.data p) (KPipe.size p) (KPipe.read_pos p) (KPipe.write_pos p).
Definition dress (p : my_pipe_t) : KPipe.my_pipe_t :=
  KPipe.mkPipe (data p) (size p) (read_pos p) (write_pos p) [] [] 0 0.

Definition strip_res (ppos : Z) (x : Z * Z * KPipe.my_pipe_t * ubuf) : Z * my_pipe_t * ubuf * Z :=
  let '(ret, w, p, u) := x in
  if ret =? 0 then (w, strip p, u, s64 (ppos + w)) else (ret, strip p, u, ppos).
Definition strip_copy (x : Z * KPipe.my_pipe_t * ubuf) : Z * my_pipe_t * ubuf :=
  let '(ret, p, u) := x in (ret, strip p, u).

(** Without the BUG_ON, which does not fire. *)
Lemma from_user_same p count u x :
  KPipe.pipe_copy_from_user p count u = Some x -> pipe_copy_from_user (strip p) count u = Some (strip_copy x).
Proof.
  unfold KPipe.pipe_copy_from_user, pipe_copy_from_user. cbn. destruct ((0 <=? count) && _); [|done].
  destruct (s32 _ =? 0); [|by (intros Hx; injection Hx as <-)].
  destruct (KPipe.size p <? _); [done|]. by (intros Hx; injection Hx as <-).
Qed.

Lemma to_user_same p count u x :
  0 <= count <= INT_MAX ->
  KPipe.pipe_copy_to_user p count u = Some x -> pipe_copy_to_user (strip p) count u = Some (strip_copy x).
Proof.
  unfold INT_MAX. intros Hc. unfold KPipe.pipe_copy_to_user, pipe_copy_to_user. cbn.
  destruct ((0 <=? count) && _) eqn:E; [|done].
  set (d := buf_get _ count _). assert (0 <= zlen d <= count) as Hd by (unfold d, buf_get; rewrite length_take; lia).
  unfold copy_to_user. pose proof (copied_le u (zlen d) ltac:(lia)).
  assert (s32 (zlen d - copied u (zlen d)) = zlen d - copied u (zlen d)) as -> by (apply s32_small; lia).
  destruct (_ =? 0); [|by (intros Hx; injection Hx as <-)]. cbn. destruct (KPipe.size p <? _); [done|]. by (intros Hx; injection Hx as <-).
Qed.
Import KPipeProofs.

(** A length that is at most the size of a pipe survives the conversion to int. *)
Lemma chunk_range p n : wfp p -> 0 <= n <= KPipe.size p -> s32 n = n /\ 0 <= n <= INT_MAX.
Proof. intros [_ Hs] Hn. unfold INT_MAX in *. rewrite s32_small by lia. lia. Qed.

Lemma read_same p u ppos x :
  wfp p -> 0 < KPipe.pipe_data p -> KPipe.pipe_read_copy p (KPipe.pipe_data p) u = Some x ->
  pipe_read (strip p) true u ppos = Some (strip_res ppos x).
Proof.
  intros Hwf Hd. pose proof (data_bytes p Hwf) as [_ Hd2].
  unfold KPipe.pipe_read_copy, pipe_read. cbn [negb].
  change (pipe_data (strip p)) with (KPipe.pipe_data p). rewrite (proj2 (Z.eqb_neq _ _)) by lia.
  set (w := Z.min (KPipe.pipe_data p) (zlen (u_mem u))). cbn [strip read_pos write_pos size]. fold (strip p).
  destruct (chunk_range p w Hwf ltac:(lia)) as [-> Hw]. pose proof (wfp_ring _ Hwf) as [Hs _ Hr _]. cbn in Hs, Hr.
  rewrite (u64_small (KPipe.size p - KPipe.read_pos p)) by lia. set (f := Z.min w (KPipe.size p - KPipe.read_pos p)).
  destruct (chunk_range p f Hwf ltac:(lia)) as [-> Hf]. destruct (chunk_range p (w - f) Hwf ltac:(lia)) as [-> Hwf2].
  pose proof (fun p c u x H => to_user_same p c u x H) as same.
  destruct (KPipe.read_pos p <=? KPipe.write_pos p).
  - destruct (KPipe.pipe_copy_to_user p w u) as [[[r1 p1] u1]|] eqn:E1; [|done]. rewrite (same _ _ _ _ Hw E1).
    cbn. intros Hx; injection Hx as <-. unfold strip_res. by destruct (r1 =? 0).
  - destruct (KPipe.pipe_copy_to_user p f u) as [[[r1 p1] u1]|] eqn:E1; [|done]. rewrite (same _ _ _ _ Hf E1). cbn.
    destruct (r1 =? 0) eqn:Er1; cbn [negb].
    + destruct (f <? w); [|intros Hx; injection Hx as <-; unfold strip_res; by rewrite Er1].
      destruct (KPipe.pipe_copy_to_user p1 (w - f) u1) as [[[r2 p2] u2]|] eqn:E2; [|done]. rewrite (same _ _ _ _ Hwf2 E2).
      cbn. intros Hx; injection Hx as <-. unfold strip_res. by destruct (r2 =? 0).
    + intros Hx; injection Hx as <-. unfold strip_res. by rewrite Er1.
Qed.

Lemma write_same p u ppos x :
  wfp p -> 0 < KPipe.pipe_room p -> KPipe.pipe_write_copy p (KPipe.pipe_room p) u = Some x ->
  pipe_write (strip p) true u ppos = Some (strip_res ppos x).
Proof.
  intros Hwf Hd. pose proof (room_bytes p Hwf) as Hr2. pose proof (data_bytes p Hwf) as [_ Hd2].
  unfold KPipe.pipe_write_copy, pipe_write. cbn [negb].
  change (pipe_room (strip p)) with (KPipe.pipe_room p). rewrite (proj2 (Z.eqb_neq _ _)) by lia.
  set (w := Z.min (KPipe.pipe_room p) (zlen (u_mem u))). cbn [strip read_pos write_pos size]. fold (strip p).
  destruct (chunk_range p w Hwf ltac:(lia)) as [-> Hw]. pose proof (wfp_ring _ Hwf) as [Hs _ _ Hwr]. cbn in Hs, Hwr.
  rewrite (u64_small (KPipe.size p - KPipe.write_pos p)) by lia. set (f := Z.min w (KPipe.size p - KPipe.write_pos p)).
  destruct (chunk_range p f Hwf ltac:(lia)) as [-> Hf]. destruct (chunk_range p (w - f) Hwf ltac:(lia)) as [-> Hwf2].
  destruct (KPipe.read_pos p <=? KPipe.write_pos p).
  - destruct (KPipe.pipe_copy_from_user p f u) as [[[r1 p1] u1]|] eqn:E1; [|done]. rewrite (from_user_same _ _ _ _ E1). cbn.
    destruct (r1 =? 0) eqn:Er1; cbn [negb].
    + destruct (f <? w); [|intros Hx; injection Hx as <-; unfold strip_res; by rewrite Er1].
      destruct (KPipe.pipe_copy_from_user p1 (w - f) u1) as [[[r2 p2] u2]|] eqn:E2; [|done]. rewrite (from_user_same _ _ _ _ E2).
      cbn. intros Hx; injection Hx as <-. unfold strip_res. by destruct (r2 =? 0).
    + intros Hx; injection Hx as <-. unfold strip_res. by rewrite Er1.
  - destruct (KPipe.pipe_copy_from_user p w u) as [[[r1 p1] u1]|] eqn:E1; [|done]. rewrite (from_user_same _ _ _ _ E1).
    cbn. intros Hx; injection Hx as <-. unfold strip_res. by destruct (r1 =? 0).
Qed.


(** * Any sequence of calls *)

Inductive call := CRead (u : ubuf) | CWrite (u : ubuf).
Definition call_buf (c : call) : ubuf := match c with CRead u | CWrite u => u end.

(** The pipe, and the bytes that went in and came out. *)
Definition do_call (c : call) (st : my_pipe_t * list byte * list byte) : option (my_pipe_t * list byte * list byte) :=
  let '(p, i, o) := st in
  match c with
  | CRead u =>
      '(_, p', u', _) ← pipe_read p true u 0; Some (p', i, o ++ take (Z.to_nat (u_off u')) (u_mem u'))
  | CWrite u =>
      '(_, p', u', _) ← pipe_write p true u 0; Some (p', i ++ take (Z.to_nat (u_off u')) (u_mem u'), o)
  end.
Fixpoint calls (cs : list call) (st : my_pipe_t * list byte * list byte) : option (my_pipe_t * list byte * list byte) :=
  match cs with [] => Some st | c :: cs => st' ← do_call c st; calls cs st' end.

(** A bounded queue of bytes. *)
Definition queue_of (sz : Z) (st : my_pipe_t * list byte * list byte) : Prop :=
  let '(p, i, o) := st in wfp (dress p) /\ size p = sz /\ i = o ++ bytes (dress p).

Lemma strip_dress p : strip (dress p) = p.
Proof. by destruct p. Qed.

Lemma do_call_ok sz c st :
  u_off (call_buf c) = 0 -> 0 <= u_ok (call_buf c) -> queue_of sz st ->
  exists st', do_call c st = Some st' /\ queue_of sz st'.
Proof.
  destruct st as [[p i] o]. intros Ho Hok (Hwf & Hsz & Hq). pose proof (data_bytes _ Hwf) as [? ?]. pose proof (room_bytes _ Hwf).
  destruct c as [u|u]; cbn [call_buf do_call] in *.
  - destruct (decide (KPipe.pipe_data (dress p) = 0)) as [E|E].
    + unfold pipe_read. cbn [negb]. change (pipe_data p) with (KPipe.pipe_data (dress p)). rewrite E. cbn.
      eexists. split; [done|]. rewrite Ho. cbn. by rewrite app_nil_r.
    + destruct (read_copy_spec _ u Hwf Ho Hok) as (r & p' & u' & Er & Hwf' & Hfr & _ & _ & _ & Hb).
      pose proof (read_same (dress p) u 0 _ Hwf ltac:(lia) Er) as E2. rewrite strip_dress in E2. rewrite E2.
      unfold strip_res. destruct (r =? 0); cbn; eexists; (split; [done|]);
        (split; [by destruct Hwf'|split; [by cbn; rewrite (KPipeProofs.fr_size _ _ Hfr)|by rewrite Hq, Hb, app_assoc]]).
  - destruct (decide (KPipe.pipe_room (dress p) = 0)) as [E|E].
    + unfold pipe_write. cbn [negb]. change (pipe_room p) with (KPipe.pipe_room (dress p)). rewrite E. cbn.
      eexists. split; [done|]. rewrite Ho. cbn. by rewrite app_nil_r.
    + destruct (write_copy_spec _ u Hwf Ho Hok) as (r & p' & u' & Er & Hwf' & Hfr & Hm & _ & _ & Hb).
      pose proof (write_same (dress p) u 0 _ Hwf ltac:(lia) Er) as E2. rewrite strip_dress in E2. rewrite E2.
      unfold strip_res. destruct (r =? 0); cbn; eexists; (split; [done|]);
        (split; [by destruct Hwf'|split; [by cbn; rewrite (KPipeProofs.fr_size _ _ Hfr)|
          rewrite Hq, Hm, <- app_assoc; f_equal; exact (eq_sym Hb)]]).
Qed.

(** C23: Whatever is read from and written to the simple pipe, no byte outside its
    buffer is touched, the bytes come out in the order they went in, and at most
    [pipe_size - 1] of them are inside. *)
Theorem simple_pipe_fifo pipe_size mem cs :
  0 < pipe_size <= INT_MAX -> zlen mem = pipe_size ->
  Forall (fun c => u_off (call_buf c) = 0 /\ 0 <= u_ok (call_buf c)) cs ->
  exists p, pipe_ctor pipe_size (Some mem) = inr p /\
  exists p' i o, calls cs (p, [], []) = Some (p', i, o) /\ i = o ++ bytes (dress p') /\ zlen (bytes (dress p')) <= pipe_size - 1.
Proof.
  intros Hs Hm Hcs. unfold INT_MAX in Hs. unfold pipe_ctor. rewrite u64_small by lia. eexists. split; [done|].
  assert (forall st, queue_of pipe_size st -> exists st', calls cs st = Some st' /\ queue_of pipe_size st') as Hrun.
  { induction Hcs as [|c cs [Hc1 Hc2] _ IH]; intros st Hst; [by eexists|].
    destruct (do_call_ok _ c st Hc1 Hc2 Hst) as (st1 & E & Hst1). cbn. rewrite E. cbn. by apply IH. }
  destruct (Hrun (mkPipe mem pipe_size 0 0, [], [])) as ([[p' i] o] & E & Hwf & Hsz & Hq).
  - split; [|done]. constructor; [constructor; cbn; lia|cbn; unfold INT_MAX; lia].
  - exists p', i, o. split; [done|split; [done|]]. pose proof (data_bytes _ Hwf) as [? Hlt]. cbn in Hlt. lia.
Qed.

Lemma simple_pipe_fifo_witness :
  exists p, pipe_ctor 2 (Some [Byte.x00; Byte.x00]) = inr p /\
  exists p' i o, calls [CWrite (mkUbuf [Byte.x07; Byte.x08] 0 2); CRead (mkUbuf [Byte.x00] 0 1)] (p, [], []) = Some (p', i, o) /\
    i = o ++ bytes (dress p') /\ zlen (bytes (dress p')) <= 2 - 1.
Proof.
  apply (simple_pipe_fifo 2 [Byte.x00; Byte.x00]); [unfold INT_MAX; lia|reflexivity|].
  repeat constructor; cbn; lia.
Defined.
End SimplePipe.
