(* ===== verification/PipeModules.v ===== *)
(** How the two pipe drivers load and unload ([pipe_init] and [pipe_exit] of
    [src/kernel_standalone/pipe/main.c] and [simple_pipe/main.c]): the loops that
    construct the pipes and their device nodes, and what the error labels undo. *)

From stdpp Require Import prelude strings list sorting.
From Stdlib Require Import ZArith Lia.
From S2P Require Import Prelude Kernel.

Open Scope prog_scope.

(** * Loops *)

(** [for (i = 0; i < n; i++) a[i] = body()]. *)
Fixpoint kmap {A} (n : nat) (body : K A) : K (list A) :=
  match n with
  | O => pret []
  | S n' => let! a := body in let! l := kmap n' body in pret (a :: l)
  end.
Fixpoint kiter {A} (l : list A) (body : A -> K unit) : K unit :=
  match l with [] => pret tt | a :: l' => body a ;;; kiter l' body end.

(** The device nodes of [n] pipes, from the [i]-th on; an error ends the loop. *)
Fixpoint create_devices (i n : nat) : K Z :=
  match n with
  | O => pret 0
  | S n' =>
      let! d := device_create (Z.of_nat i) in
      if negb (d =? 0) then pret d else create_devices (S i) n'
  end.
Fixpoint destroy_devices (i n : nat) : K unit :=
  match n with
  | O => pret tt
  | S n' => device_destroy (Z.of_nat i) ;;; destroy_devices (S i) n'
  end.

(** * The pipe driver *)
Module PipeModule.
(** [pipes] and the [data] of every pipe. *)
Definition static : Type := option nat * list (option nat).

Section pipe.
Context (pipes_count : nat).

(** The constructor of one pipe stores through [pipes]; a NULL from kmalloc is
    stored like any pointer. *)
Definition pipe_ctor (pipes : option nat) : K (option nat) := deref pipes ;;; kmalloc.
Definition pipe_dtor (pipes data : option nat) : K unit := deref pipes ;;; kfree data.

(** [kmalloc_array] returns NULL, not an error pointer, when it fails. *)
Definition pipe_init : K (Z * static) :=
  let! pipes := kmalloc in
  let! data := kmap pipes_count (pipe_ctor pipes) in
  let err_return ret := pret (ret, (pipes, data)) in
  let err_final ret := kiter data (pipe_dtor pipes) ;;; kfree pipes ;;; err_return ret in
  let err_dealloc ret := unregister_chrdev_region ;;; err_final ret in
  let err_cdev_del ret := cdev_del ;;; err_dealloc ret in
  let err_class ret := class_destroy ;;; err_cdev_del ret in
  let! ret := alloc_chrdev_region in
  if negb (ret =? 0) then err_final ret else
  let! ret := cdev_add in
  if negb (ret =? 0) then err_dealloc ret else
  let! my_class := class_create in
  if negb (my_class =? 0) then err_cdev_del my_class else
  let! pipe_device := create_devices 0 pipes_count in
  if negb (pipe_device =? 0) then err_class pipe_device else
  err_return 0.

Definition pipe_exit (g : static) : K unit :=
  let '(pipes, data) := g in
  destroy_devices 0 pipes_count ;;;
  class_destroy ;;;
  cdev_del ;;;
  unregister_chrdev_region ;;;
  kiter data (pipe_dtor pipes) ;;;
  kfree pipes.

Definition pipe : driver := mkDriver static pipe_init pipe_exit.
End pipe.
End PipeModule.

(** * The simple pipe driver *)
Module SimplePipeModule.
Definition static : Type := option nat * list (option nat).

Section pipe.
Context (pipes_count : nat).

Definition pipe_dtor (pipes data : option nat) : K unit := deref pipes ;;; kfree data.

(** The loop over [pipe_ctor]: it stops at the first pipe without memory, frees
    the ones before it and returns the error. *)
Fixpoint ctor_all (pipes : option nat) (n : nat) (done : list (option nat)) : K (Z + list (option nat)) :=
  match n with
  | O => pret (inr done)
  | S n' =>
      deref pipes ;;;
      let! data := kmalloc in
      match data with
      | None => kiter done (pipe_dtor pipes) ;;; pret (inl (- EFAULT))
      | Some _ => ctor_all pipes n' (done ++ [data])
      end
  end.

Definition pipe_init : K (Z * static) :=
  let! pipes := kmalloc in
  let! c := ctor_all pipes pipes_count [] in
  match c with
  | inl ret => kfree pipes ;;; pret (ret, (pipes, []))
  | inr data =>
      let err_return ret := pret (ret, (pipes, data)) in
      let err_pipes ret := kfree pipes ;;; err_return ret in
      let err_pipes_ctor ret := kiter data (pipe_dtor pipes) ;;; err_pipes ret in
      let err_dealloc ret := unregister_chrdev_region ;;; err_pipes_ctor ret in
      let err_cdev_del ret := cdev_del ;;; err_dealloc ret in
      let err_class ret := class_destroy ;;; err_cdev_del ret in
      let! ret := alloc_chrdev_region in
      if negb (ret =? 0) then err_pipes_ctor ret else
      let! ret := cdev_add in
      if negb (ret =? 0) then err_dealloc ret else
      let! my_class := class_create in
      if negb (my_class =? 0) then err_cdev_del my_class else
      let! pipe_device := create_devices 0 pipes_count in
      if negb (pipe_device =? 0) then err_class pipe_device else
      err_return 0
  end.

Definition pipe_exit (g : static) : K unit :=
  let '(pipes, data) := g in
  destroy_devices 0 pipes_count ;;;
  class_destroy ;;;
  cdev_del ;;;
  unregister_chrdev_region ;;;
  kiter data (pipe_dtor pipes) ;;;
  kfree pipes.

Definition simple_pipe : driver := mkDriver static pipe_init pipe_exit.
End pipe.
End SimplePipeModule.

(** * What the loops hold *)

(** The module holds exactly the resources [l]. *)
Definition owns (s : kern) (l : list res) : Prop := live s ≡ₚ l.

Section owns.
Context {X : Z -> kern -> Prop}.

Lemma remove_one_perm r l l' : l ≡ₚ r :: l' -> remove_one r l ≡ₚ l'.
Proof.
  revert l'. induction l as [|x l IH]; intros l' Hp; [by apply Permutation_nil_cons in Hp|].
  cbn. destruct (decide (x = r)) as [->|Hne]; [by apply Permutation_cons_inv in Hp|].
  assert (x ∈ l') as Hx.
  { assert (x ∈ r :: l') as [?|?]%elem_of_cons by (rewrite <- Hp; left); congruence. }
  apply elem_of_Permutation in Hx as [l2 Hl2]. rewrite Hl2. f_equiv. apply IH.
  rewrite Hl2 in Hp. apply (Permutation_cons_inv (a := x)). rewrite Hp. apply perm_swap.
Qed.

Lemma remove_one_absent r l : r ∉ l -> remove_one r l = l.
Proof.
  induction l as [|x l IH]; [done|]. rewrite not_elem_of_cons. intros [Hne ?]. cbn. rewrite decide_False by done. by rewrite IH.
Qed.

Lemma wp_release_owns r l Q s :
  owns s (r :: l) -> (forall s', owns s' l -> Q tt s') -> wp (release r) Q X s.
Proof.
  intros Hs HQ. unfold wp, release. rewrite decide_True; [|by rewrite Hs; left]. apply HQ. by apply remove_one_perm.
Qed.

Lemma wp_try_owns r l Q s :
  owns s l -> (forall s', owns s' (r :: l) -> Q 0 s') -> (forall a s', a < 0 -> owns s' l -> Q a s') ->
  wp (try_acquire r) Q X s.
Proof.
  intros Hs H1 H2. destruct s as [lv n ans]. apply wp_try_acquire.
  - intros. apply H1. unfold owns in *. cbn in *. by f_equiv.
  - intros. by apply H2.
Qed.
Lemma wp_kmalloc_owns l Q s :
  owns s l -> (forall id s', owns s' (RBlock id :: l) -> Q (Some id) s') -> (forall s', owns s' l -> Q None s') ->
  wp kmalloc Q X s.
Proof.
  intros Hs H1 H2. destruct s as [lv n ans]. apply wp_kmalloc.
  - intros. apply H1. unfold owns in *. cbn in *. by f_equiv.
  - intros. by apply H2.
Qed.
Lemma wp_deref_owns id l Q s : owns s l -> RBlock id ∈ l -> Q tt s -> wp (deref (Some id)) Q X s.
Proof. intros Hs Hin HQ. unfold wp, deref. rewrite decide_True; [done|by rewrite Hs]. Qed.

Definition block (p : option nat) : list res := match p with Some id => [RBlock id] | None => [] end.
Definition blocks (ps : list (option nat)) : list res := flat_map block ps.
Definition nodes (i n : nat) : list res := (fun k => RDev (Z.of_nat k)) <$> seq i n.

Lemma wp_kfree_owns p l Q s :
  owns s (block p ++ l) -> (forall s', owns s' l -> Q tt s') -> wp (kfree p) Q X s.
Proof.
  destruct p as [id|]; cbn; intros Hs HQ; [by eapply wp_release_owns|]. apply wp_ret. by apply HQ.
Qed.

Lemma wp_ctors pid n l Q s :
  owns s (RBlock pid :: l) ->
  (forall data s', owns s' (blocks data ++ RBlock pid :: l) -> Q data s') ->
  wp (kmap n (PipeModule.pipe_ctor (Some pid))) Q X s.
Proof.
  revert Q l s. induction n as [|n IH]; intros Q l s Hs HQ; cbn [kmap]; [by apply wp_ret, HQ|].
  apply wp_bind. unfold PipeModule.pipe_ctor at 1. apply wp_bind.
  eapply wp_deref_owns; [done|left|]. eapply wp_kmalloc_owns; [done| |].
  - intros id s' Hs'. apply wp_bind. apply (IH _ (RBlock id :: l)).
    { unfold owns in *. rewrite Hs'. apply perm_swap. }
    intros data s2 Hs2. apply wp_ret, HQ. cbn. unfold owns in *. rewrite Hs2. by rewrite perm_swap, <- Permutation_middle.
  - intros s' Hs'. apply wp_bind. apply (IH _ l); [done|]. intros data s2 Hs2. by apply wp_ret, HQ.
Qed.
Lemma wp_dtors pid data l Q s :
  owns s (blocks data ++ RBlock pid :: l) -> (forall s', owns s' (RBlock pid :: l) -> Q tt s') ->
  wp (kiter data (PipeModule.pipe_dtor (Some pid))) Q X s.
Proof.
  revert s. induction data as [|d data IH]; intros s Hs HQ; cbn [kiter]; [by apply wp_ret, HQ|].
  apply wp_bind. unfold PipeModule.pipe_dtor at 1. apply wp_bind.
  eapply wp_deref_owns; [done|cbn; rewrite !elem_of_app, elem_of_cons; auto|].
  apply (wp_kfree_owns d (blocks data ++ RBlock pid :: l)); [by unfold owns in *; rewrite Hs, app_assoc|].
  intros s' Hs'. by apply IH.
Qed.

Lemma wp_create i n l Q s :
  owns s l ->
  (forall s', owns s' (nodes i n ++ l) -> Q 0 s') ->
  (forall a k s', a < 0 -> (k < n)%nat -> owns s' (nodes i k ++ l) -> Q a s') ->
  wp (create_devices i n) Q X s.
Proof.
  revert i l s. induction n as [|n IH]; intros i l s Hs H1 H2; cbn [create_devices]; [by apply wp_ret, H1|].
  apply wp_bind. eapply wp_try_owns; [done| |].
  - intros s' Hs'. cbn [negb Z.eqb]. apply (IH (S i) (RDev (Z.of_nat i) :: l)); [done| |].
    + intros s2 Hs2. apply H1. unfold owns in *. rewrite Hs2. cbn. by rewrite <- Permutation_middle.
    + intros a k s2 Ha Hk Hs2. apply (H2 a (S k)); [done|lia|]. unfold owns in *. rewrite Hs2. cbn. by rewrite <- Permutation_middle.
  - intros a s' Ha Hs'. rewrite (proj2 (Z.eqb_neq a 0) (Z.lt_neq a 0 Ha)). cbn [negb]. apply wp_ret. by apply (H2 a 0%nat); [|lia|].
Qed.

Lemma wp_destroy i n l Q s :
  owns s (nodes i n ++ l) -> (forall s', owns s' l -> Q tt s') -> wp (destroy_devices i n) Q X s.
Proof.
  revert i s. induction n as [|n IH]; intros i s Hs HQ; cbn [destroy_devices]; [by apply wp_ret, HQ|].
  apply wp_bind. eapply wp_release_owns; [exact Hs|]. intros s' Hs'. by apply (IH (S i)).
Qed.
End owns.

Lemma owns_nil s : owns s [] -> live s = [].
Proof. apply Permutation_nil_r. Qed.

(** Steps of a driver by what it holds; the resource that is given back comes
    first in the list after [norm]. *)
Ltac own_step :=
  lazymatch goal with
  | |- wp (pbind _ _) _ _ _ => apply wp_bind
  | |- wp (pret _) _ _ _ => apply wp_ret
  | H : owns ?s ?l |- wp (try_acquire _) _ _ ?s =>
      apply (wp_try_owns _ l _ _ H); [let s' := fresh "s" in let H' := fresh "Hs" in intros s' H'; clear H; cbn [negb Z.eqb]
        | let a := fresh "a" in let s' := fresh "s" in let Ha := fresh "Ha" in let H' := fresh "Hs" in
          intros a s' Ha H'; clear H; rewrite ?(proj2 (Z.eqb_neq a 0) (Z.lt_neq a 0 Ha)); cbn [negb]]
  | H : owns ?s (?r :: ?l) |- wp (release ?r) _ _ ?s =>
      apply (wp_release_owns _ l _ _ H); let s' := fresh "s" in let H' := fresh "Hs" in intros s' H'; clear H
  | H : owns ?s _ |- wp (kiter _ _) _ _ ?s =>
      eapply wp_dtors; [exact H|]; let s' := fresh "s" in let H' := fresh "Hs" in intros s' H'; clear H
  | H : owns ?s _ |- wp (destroy_devices _ _) _ _ ?s =>
      eapply wp_destroy; [exact H|]; let s' := fresh "s" in let H' := fresh "Hs" in intros s' H'; clear H
  | |- wp (kfree (Some _)) _ _ _ => unfold kfree
  | |- wp alloc_chrdev_region _ _ _ => unfold alloc_chrdev_region
  | |- wp unregister_chrdev_region _ _ _ => unfold unregister_chrdev_region
  | |- wp cdev_add _ _ _ => unfold cdev_add
  | |- wp cdev_del _ _ _ => unfold cdev_del
  | |- wp class_create _ _ _ => unfold class_create
  | |- wp class_destroy _ _ _ => unfold class_destroy
  end.

(** What is left when the module refuses to load: nothing, or the nodes that
    [create_devices] had made before it failed. *)
Definition leaves_nodes (n : nat) (s : kern) : Prop :=
  live s = [] \/ exists k, (0 < k < n)%nat /\ owns s (nodes 0 k).

(** From the state of a loaded module to the end of [pipe_exit]. *)
Lemma pipe_unload n pid data s :
  owns s (nodes 0 n ++ RClass :: RCdev :: RRegion :: blocks data ++ [RBlock pid]) ->
  wp (PipeModule.pipe_exit n (Some pid, data)) (fun _ s' => live s' = []) (fun _ _ => False) s.
Proof. intros Hs. unfold PipeModule.pipe_exit. repeat own_step. by apply owns_nil. Qed.

Lemma nodes_left n k s : (k < n)%nat -> owns s (nodes 0 k) -> leaves_nodes n s.
Proof.
  intros Hk Hs. destruct k as [|k]; [left; by apply owns_nil|]. right. exists (S k). split; [lia|done].
Qed.

(** From the constructed pipes to the end of [pipe_init]; both drivers go on in
    the same way. *)
Definition register_all (n : nat) (pipes : option nat) (data : list (option nat)) : K (Z * PipeModule.static) :=
  let err_return ret := pret (ret, (pipes, data)) in
  let err_final ret := kiter data (PipeModule.pipe_dtor pipes) ;;; kfree pipes ;;; err_return ret in
  let err_dealloc ret := unregister_chrdev_region ;;; err_final ret in
  let err_cdev_del ret := cdev_del ;;; err_dealloc ret in
  let err_class ret := class_destroy ;;; err_cdev_del ret in
  let! ret := alloc_chrdev_region in
  if negb (ret =? 0) then err_final ret else
  let! ret := cdev_add in
  if negb (ret =? 0) then err_dealloc ret else
  let! my_class := class_create in
  if negb (my_class =? 0) then err_cdev_del my_class else
  let! pipe_device := create_devices 0 n in
  if negb (pipe_device =? 0) then err_class pipe_device else
  err_return 0.

Definition loaded_or_left (n : nat) (rg : Z * PipeModule.static) (s : kern) : Prop :=
  if rg.1 =? 0
  then wp (PipeModule.pipe_exit n rg.2) (fun _ s' => live s' = []) (fun _ _ => False) s
  else leaves_nodes n s.

Lemma wp_register_all n pid data s :
  owns s (blocks data ++ [RBlock pid]) ->
  wp (register_all n (Some pid) data) (loaded_or_left n) (fun _ _ => False) s.
Proof.
  intros Hs. unfold register_all. repeat own_step.
  all: try (unfold loaded_or_left; cbn [fst snd]; rewrite (proj2 (Z.eqb_neq _ 0)) by lia; left; by apply owns_nil).
  eapply wp_create; [done| |].
  - intros s' Hs'. cbn [negb Z.eqb]. apply wp_ret. unfold loaded_or_left. cbn [fst snd Z.eqb]. by apply pipe_unload.
  - intros a k s' Ha Hk Hs'. rewrite (proj2 (Z.eqb_neq a 0) (Z.lt_neq a 0 Ha)). cbn [negb].
    assert (owns s' (RClass :: RCdev :: RRegion :: blocks data ++ RBlock pid :: nodes 0 k)) as H2.
    { unfold owns in *. rewrite Hs', Permutation_app_comm. cbn. by rewrite <- app_assoc. }
    clear Hs'. repeat own_step. unfold loaded_or_left. cbn [fst snd]. rewrite (proj2 (Z.eqb_neq a 0) (Z.lt_neq a 0 Ha)).
    by eapply nodes_left.
Qed.

Lemma wp_ctor_all pid n done l Q s X :
  owns s (blocks done ++ RBlock pid :: l) ->
  (forall s', owns s' (RBlock pid :: l) -> Q (inl (- EFAULT)) s') ->
  (forall data s', owns s' (blocks data ++ RBlock pid :: l) -> Q (inr data) s') ->
  wp (SimplePipeModule.ctor_all (Some pid) n done) Q X s.
Proof.
  revert done s. induction n as [|n IH]; intros dn s Hs H1 H2; cbn [SimplePipeModule.ctor_all]; [by apply wp_ret, H2|].
  apply wp_bind. eapply wp_deref_owns; [done|rewrite elem_of_app, elem_of_cons; auto|].
  apply wp_bind. eapply wp_kmalloc_owns; [done| |].
  - intros id s' Hs'. apply IH; [|done|done]. unfold owns in *. rewrite Hs'. unfold blocks. rewrite flat_map_app. cbn.
    rewrite <- app_assoc. cbn. apply Permutation_middle.
  - intros s' Hs'. apply wp_bind. eapply (wp_dtors pid dn l); [exact Hs'|]. intros s2 Hs2. by apply wp_ret, H1.
Qed.

(** C25: The pipe driver, for any number of pipes and whatever the kernel answers
    once [kmalloc_array] succeeded: after loading and unloading it holds nothing, and
    if it refuses to load it has given back everything but, when creating a device
    node failed, the nodes it had created before. *)
Theorem pipe_module_clean n ans :
  wp (PipeModule.pipe_init n) (loaded_or_left n) (fun _ _ => False) (fresh_kern (0 :: ans)).
Proof.
  unfold PipeModule.pipe_init. apply wp_bind, wp_kmalloc_ok. apply wp_bind.
  eapply (wp_ctors 0%nat n []); [by unfold owns|]. intros data s Hs. exact (wp_register_all n 0%nat data s Hs).
Qed.

(** The simple pipe driver gives back what it holds in the same way; it also
    checks the memory of every pipe, and frees the ones it has when one is missing. *)
Theorem simple_pipe_module_clean n ans :
  wp (SimplePipeModule.pipe_init n) (loaded_or_left n) (fun _ _ => False) (fresh_kern (0 :: ans)).
Proof.
  unfold SimplePipeModule.pipe_init. apply wp_bind, wp_kmalloc_ok. apply wp_bind.
  eapply (wp_ctor_all 0%nat n [] []); [by unfold owns| |].
  - intros s Hs. repeat own_step. unfold loaded_or_left. cbn [fst snd]. left. by apply owns_nil.
  - intros data s Hs. exact (wp_register_all n 0%nat data s Hs).
Qed.

(** Both test the result of [kmalloc_array] for an error pointer and go on
    with a NULL; and both leave a node behind when creating the second one fails. *)
Theorem pipe_modules_errors (e : positive) n ans :
  (PipeModule.pipe_init (S n) (fresh_kern (Z.neg e :: ans))).1 = Stuck /\
  (SimplePipeModule.pipe_init (S n) (fresh_kern (Z.neg e :: ans))).1 = Stuck /\
  live (PipeModule.pipe_init 2 (fresh_kern [0; 0; 0; 0; 0; 0; 0; Z.neg e])).2 = [RDev 0] /\
  live (SimplePipeModule.pipe_init 2 (fresh_kern [0; 0; 0; 0; 0; 0; 0; Z.neg e])).2 = [RDev 0].
Proof. done. Qed.
