(* ===== verification/CharDrivers.v ===== *)
(** The small character drivers of [src/kernel_standalone]: how their modules
    load and unload, and what their file operations do.  A goto label of the
    source is a local definition that undoes what was acquired before it. *)

From stdpp Require Import prelude strings list.
From Stdlib Require Import ZArith Lia.
From S2P Require Import Prelude Kernel.

Open Scope prog_scope.

(** File operations return their result, the user buffer and the file
    position. *)
Definition io : Type := Z * ubuf * Z.

(** * [myzero/main.c] *)
Module MyZero.
(** DO_CLEAR *)
Definition read_zero (u : ubuf) (ppos : Z) : io :=
  let count := zlen (u_mem u) in
  let '(ret, u) := clear_user u count in
  if negb (s32 ret =? 0) then (- EFAULT, u, ppos)
  else (count, u, s64 (ppos + count)).

Definition zero_init : K (Z * unit) :=
  let err_final err := pret (err, tt) in
  let err_dealloc err := unregister_chrdev_region ;;; err_final err in
  let err_cdev_del err := cdev_del ;;; err_dealloc err in
  let err_class err := class_destroy ;;; err_cdev_del err in
  let! err := alloc_chrdev_region in
  if negb (err =? 0) then err_final err else
  let! err := cdev_add in
  if negb (err =? 0) then err_dealloc err else
  let! my_class := class_create in
  if negb (my_class =? 0) then err_cdev_del my_class else
  let! my_device := device_create 0 in
  if negb (my_device =? 0) then err_class my_device else
  pret (0, tt).
Definition zero_exit (_ : unit) : K unit :=
  device_destroy 0 ;;; class_destroy ;;; cdev_del ;;; unregister_chrdev_region.
Definition myzero : driver := mkDriver unit zero_init zero_exit.
End MyZero.

(** * [use_count/main.c] *)
Module UseCount.
Definition read_zero (u : ubuf) (ppos : Z) : io :=
  let count := zlen (u_mem u) in
  let '(ret, u) := clear_user u count in
  if negb (ret =? 0) then (- EFAULT, u, ppos) else (count, u, ppos).

Definition zero_init : K (Z * unit) :=
  let err_final err := pret (err, tt) in
  let err_dealloc err := unregister_chrdev_region ;;; err_final err in
  let err_cdev_del err := cdev_del ;;; err_dealloc err in
  let err_class err := class_destroy ;;; err_cdev_del err in
  let! err := alloc_chrdev_region in
  if negb (err =? 0) then err_final err else
  let! err := cdev_add in
  if negb (err =? 0) then err_dealloc err else
  let! my_class := class_create in
  if negb (my_class =? 0) then err_cdev_del my_class else
  let! my_device := device_create 0 in
  if negb (my_device =? 0) then err_class my_device else
  pret (0, tt).
Definition zero_exit (_ : unit) : K unit :=
  device_destroy 0 ;;; class_destroy ;;; cdev_del ;;; unregister_chrdev_region.
Definition use_count : driver := mkDriver unit zero_init zero_exit.
End UseCount.

(** * [aaa/main.c] *)
Module Aaa.
(** The loop of [read_aaa]; [__put_user] fails on a byte that is not mapped. *)
Fixpoint put_as (remaining : nat) (u : ubuf) : Z * ubuf :=
  match remaining with
  | O => (0, u)
  | S remaining =>
      let '(failed, u) := copy_to_user u [Byte.x61] in
      if failed =? 0 then put_as remaining (advance u 1) else (- EFAULT, u)
  end.
(** [access] is what access_ok says of the buffer. *)
Definition read_aaa (access : bool) (u : ubuf) (ppos : Z) : io :=
  if negb access then (0, u, ppos)
  else
    let count := length (u_mem u) in
    let '(ret, u) := put_as count u in
    if ret <? 0 then (ret, u, ppos) else (Z.of_nat count, u, ppos).

Definition aaa_init : K (Z * unit) :=
  let err_final err := pret (err, tt) in
  let err_dealloc err := unregister_chrdev_region ;;; err_final err in
  let err_cdev_del err := cdev_del ;;; err_dealloc err in
  let err_class err := class_destroy ;;; err_cdev_del err in
  let! err := alloc_chrdev_region in
  if negb (err =? 0) then err_final err else
  let! err := cdev_add in
  if negb (err =? 0) then err_dealloc err else
  let! my_class := class_create in
  if negb (my_class =? 0) then err_cdev_del my_class else
  let! my_device := device_create 0 in
  if negb (my_device =? 0) then err_class my_device else
  pret (0, tt).
Definition aaa_exit (_ : unit) : K unit :=
  device_destroy 0 ;;; class_destroy ;;; cdev_del ;;; unregister_chrdev_region.
Definition aaa : driver := mkDriver unit aaa_init aaa_exit.
End Aaa.

(** * [markveltzer/main.c] *)
Module MarkVeltzer.
Definition my_buf : list byte := String.list_byte_of_string "markveltzer".
Definition read_markveltzer (u : ubuf) (ppos : Z) : io :=
  let count := zlen (u_mem u) in
  if count <? 11 then (- EFAULT, u, ppos)
  else
    let '(ret, u) := copy_to_user u my_buf in
    if negb (ret =? 0) then (- EFAULT, u, ppos) else (11, u, s64 (ppos + 11)).

Definition markveltzer_init : K (Z * unit) :=
  let err_final err := pret (err, tt) in
  let err_dealloc err := unregister_chrdev_region ;;; err_final err in
  let err_cdev_del err := cdev_del ;;; err_dealloc err in
  let err_class err := class_destroy ;;; err_cdev_del err in
  let! err := alloc_chrdev_region in
  if negb (err =? 0) then err_final err else
  let! err := cdev_add in
  if negb (err =? 0) then err_dealloc err else
  let! my_class := class_create in
  if negb (my_class =? 0) then err_cdev_del my_class else
  let! my_device := device_create 0 in
  if negb (my_device =? 0) then err_class my_device else
  pret (0, tt).
Definition markveltzer_exit (_ : unit) : K unit :=
  device_destroy 0 ;;; class_destroy ;;; cdev_del ;;; unregister_chrdev_region.
Definition markveltzer : driver := mkDriver unit markveltzer_init markveltzer_exit.
End MarkVeltzer.

(** * [myempty/main.c] *)
Module MyEmpty.
Definition read_empty (u : ubuf) (ppos : Z) : io := (zlen (u_mem u), u, ppos).

Definition empty_init : K (Z * unit) :=
  let err_final err := pret (err, tt) in
  let err_dealloc err := unregister_chrdev_region ;;; err_final err in
  let err_cdev_del err := cdev_del ;;; err_dealloc err in
  let err_class err := class_destroy ;;; err_cdev_del err in
  let! err := alloc_chrdev_region in
  if negb (err =? 0) then err_final err else
  let! err := cdev_add in
  if negb (err =? 0) then err_dealloc err else
  let! my_class := class_create in
  if negb (my_class =? 0) then err_cdev_del my_class else
  let! my_device := device_create 0 in
  if negb (my_device =? 0) then err_class my_device else
  pret (0, tt).
Definition empty_exit (_ : unit) : K unit :=
  device_destroy 0 ;;; class_destroy ;;; cdev_del ;;; unregister_chrdev_region.
Definition myempty : driver := mkDriver unit empty_init empty_exit.
End MyEmpty.

(** * [betternull/main.c] *)
Module BetterNull.
Definition write_null (u : ubuf) (ppos : Z) : io :=
  let count := zlen (u_mem u) in (count, u, s64 (ppos + count)).

(** A failed [cdev_add] goes to the label that also deletes the cdev, which was not
    added. *)
Definition null_init : K (Z * unit) :=
  let err_nothing err := pret (err, tt) in
  let err_cdev_del err := cdev_del ;;; unregister_chrdev_region ;;; err_nothing err in
  let err_class err := class_destroy ;;; err_cdev_del err in
  let! err := alloc_chrdev_region in
  if negb (err =? 0) then err_nothing err else
  let! err := cdev_add in
  if negb (err =? 0) then err_cdev_del err else
  let! my_class := class_create in
  if negb (my_class =? 0) then err_cdev_del my_class else
  let! my_device := device_create 0 in
  if negb (my_device =? 0) then err_class my_device else
  pret (0, tt).
Definition null_exit (_ : unit) : K unit :=
  device_destroy 0 ;;; class_destroy ;;; cdev_del ;;; unregister_chrdev_region.
Definition betternull : driver := mkDriver unit null_init null_exit.
End BetterNull.

(** * [mynull/main.c] *)
Module MyNull.
Definition NULL_MAJOR : Z := 190.
Definition NULL_MINOR : Z := 0.
Definition write_null (u : ubuf) (ppos : Z) : io :=
  let count := zlen (u_mem u) in (count, u, s64 (ppos + count)).

Definition null_init : K (Z * unit) :=
  let err_nothing err := pret (err, tt) in
  let err_register err := unregister_chrdev NULL_MAJOR ;;; err_nothing err in
  let err_class err := class_destroy ;;; err_register err in
  let! err := register_chrdev NULL_MAJOR in
  if negb (err =? 0) then err_nothing err else
  let! my_class := class_create in
  if negb (my_class =? 0) then err_register my_class else
  let! my_device := device_create NULL_MINOR in
  if negb (my_device =? 0) then err_class my_device else
  pret (0, tt).
Definition null_exit (_ : unit) : K unit :=
  device_destroy NULL_MINOR ;;; class_destroy ;;; unregister_chrdev NULL_MAJOR.
Definition mynull : driver := mkDriver unit null_init null_exit.
End MyNull.

(** * [chrdev/main.c] *)
Module Chrdev.
Definition NULL_MAJOR : Z := 190.
Definition NULL_MINOR : Z := 0.
Section chrdev.
Context (auto_register : bool).
Definition skeleton_init : K (Z * unit) :=
  let err_nothing err := pret (err, tt) in
  let err_register err := unregister_chrdev NULL_MAJOR ;;; err_nothing err in
  let err_class err := class_destroy ;;; err_register err in
  let! err := register_chrdev NULL_MAJOR in
  if negb (err =? 0) then err_nothing err else
  if auto_register then
    let! my_class := class_create in
    if negb (my_class =? 0) then err_register my_class else
    let! my_device := device_create NULL_MINOR in
    if negb (my_device =? 0) then err_class my_device else
    pret (0, tt)
  else pret (0, tt).
Definition skeleton_exit (_ : unit) : K unit :=
  (if auto_register then device_destroy NULL_MINOR ;;; class_destroy else pret tt) ;;;
  unregister_chrdev NULL_MAJOR.
Definition chrdev : driver := mkDriver unit skeleton_init skeleton_exit.
End chrdev.
End Chrdev.

(** * [sleep_wakeup/main.c]: loading *)
Module SleepWakeup.
Definition IOCTL_MAJOR : Z := 190.
Definition IOCTL_MINOR : Z := 0.
Definition ioctl_init : K (Z * unit) :=
  let err_nothing err := pret (err, tt) in
  let err_register err := unregister_chrdev IOCTL_MAJOR ;;; err_nothing err in
  let err_class err := class_destroy ;;; err_register err in
  let! err := register_chrdev IOCTL_MAJOR in
  if negb (err =? 0) then err_nothing err else
  let! my_class := class_create in
  if negb (my_class =? 0) then err_register my_class else
  let! my_device := device_create IOCTL_MINOR in
  if negb (my_device =? 0) then err_class my_device else
  pret (0, tt).
Definition ioctl_exit (_ : unit) : K unit :=
  device_destroy IOCTL_MINOR ;;; class_destroy ;;; unregister_chrdev IOCTL_MAJOR.
Definition sleep_wakeup : driver := mkDriver unit ioctl_init ioctl_exit.
End SleepWakeup.

(** * [cant_kill/main.c]: loading *)
Module CantKill.
Definition IOCTL_MAJOR : Z := 190.
Definition IOCTL_MINOR : Z := 0.
Definition ioctl_init : K (Z * unit) :=
  let err_nothing err := pret (err, tt) in
  let err_register err := unregister_chrdev IOCTL_MAJOR ;;; err_nothing err in
  let err_class err := class_destroy ;;; err_register err in
  let! err := register_chrdev IOCTL_MAJOR in
  if negb (err =? 0) then err_nothing err else
  let! my_class := class_create in
  if negb (my_class =? 0) then err_register my_class else
  let! my_device := device_create IOCTL_MINOR in
  if negb (my_device =? 0) then err_class my_device else
  pret (0, tt).
Definition ioctl_exit (_ : unit) : K unit :=
  device_destroy IOCTL_MINOR ;;; class_destroy ;;; unregister_chrdev IOCTL_MAJOR.
Definition cant_kill : driver := mkDriver unit ioctl_init ioctl_exit.
End CantKill.

(** * [irqcatch/main.c] *)
Module IrqCatch.
Section irqcatch.
Context (irq_num : Z).
(** The handler counts in a 32-bit counter and says the interrupt is not its own. *)
Definition IRQ_NONE : Z := 0.
Definition irqcatch_int_handler (counter : Z) : Z * Z := (IRQ_NONE, u32 (counter + 1)).

(** A NULL entry is not an error pointer, so a failed [proc_create] goes
    unnoticed. *)
Definition irqcatch_init : K (Z * bool) :=
  let error_start err e := pret (err, e) in
  let error_after_proc err e := proc_remove e ;;; error_start err e in
  let! my_entry := proc_create in
  let! ret := request_irq irq_num in
  if negb (ret =? 0) then error_after_proc ret my_entry else
  pret (0, my_entry).
Definition irqcatch_cleanup (my_entry : bool) : K unit :=
  free_irq irq_num ;;; proc_remove my_entry.
Definition irqcatch : driver := mkDriver bool irqcatch_init irqcatch_cleanup.
End irqcatch.
End IrqCatch.

(** * [clipboard_basic/main.c] *)
Module ClipboardBasic.
Definition BUFFER_SIZE : Z := 4096.

(** The buffer and the position of the open file; [None]: a byte outside the
    buffer is accessed. *)
Definition clipboard_read (buffer : list byte) (u : ubuf) (offset : Z) : option io :=
  let bytes_to_read := s32 (Z.min (BUFFER_SIZE - offset) (zlen (u_mem u))) in
  if bytes_to_read =? 0 then Some (0, u, offset)
  else if (0 <=? offset) && (0 <=? bytes_to_read) && (offset + bytes_to_read <=? zlen buffer) then
    let '(ret, u) := copy_to_user u (buf_get offset bytes_to_read buffer) in
    if negb (ret =? 0) then Some (ret, u, offset)
    else Some (bytes_to_read, u, offset + bytes_to_read)
  else None.

Definition clipboard_write (buffer : list byte) (u : ubuf) (offset : Z) : option (io * list byte) :=
  let bytes_to_write := s32 (Z.min (BUFFER_SIZE - offset) (zlen (u_mem u))) in
  if bytes_to_write =? 0 then Some (- EIO, u, offset, buffer)
  else if (0 <=? offset) && (0 <=? bytes_to_write) && (offset + bytes_to_write <=? zlen buffer) then
    let '(ret, d) := copy_from_user u bytes_to_write in
    let buffer := buf_put offset d buffer in
    if negb (ret =? 0) then Some (ret, u, offset, buffer)
    else Some (bytes_to_write, u, offset + bytes_to_write, buffer)
  else None.

(** Neither [kmalloc] nor [cdev_alloc] returns an error pointer: NULL goes
    unnoticed and is dereferenced. *)
Definition clipboard_init : K (Z * (option nat * option nat)) :=
  let! buffer := kmalloc in
  deref buffer ;;;
  let error_after_alloc ret c := kfree buffer ;;; pret (ret, (buffer, c)) in
  let error_after_region ret c := unregister_chrdev_region ;;; error_after_alloc ret c in
  let! ret := alloc_chrdev_region in
  if negb (ret =? 0) then error_after_alloc ret None else
  let! clipboard_cdev := cdev_alloc in
  deref clipboard_cdev ;;;
  let error_after_register ret := cdev_del_dyn clipboard_cdev ;;; error_after_region ret clipboard_cdev in
  let error_after_class_create ret := class_destroy ;;; error_after_register ret in
  let! ret := cdev_add in
  if negb (ret =? 0) then kfree clipboard_cdev ;;; error_after_region ret clipboard_cdev else
  let! my_class := class_create in
  if negb (my_class =? 0) then error_after_register my_class else
  let! clipboard_device := device_create 0 in
  if negb (clipboard_device =? 0) then error_after_class_create clipboard_device else
  pret (0, (buffer, clipboard_cdev)).
Definition clipboard_cleanup (g : option nat * option nat) : K unit :=
  let '(buffer, clipboard_cdev) := g in
  device_destroy 0 ;;; class_destroy ;;; cdev_del_dyn clipboard_cdev ;;;
  unregister_chrdev_region ;;; kfree buffer.
Definition clipboard_basic : driver := mkDriver (option nat * option nat) clipboard_init clipboard_cleanup.
End ClipboardBasic.

(** * [clipboard/main.c]: loading *)
Module Clipboard.
Definition MOUSE_INT : Z := 12.

Definition clipboard_init : K (Z * (option nat * option nat * bool)) :=
  let! clipboard := kmalloc in
  let any_error ret c e := pret (ret, (clipboard, c, e)) in
  match clipboard with
  | None => any_error (- ENOMEM) None false
  | Some _ =>
      deref clipboard ;;;
      let error_after_alloc ret c e := kfree clipboard ;;; any_error ret c e in
      let! entry := proc_create in
      let error_after_proc ret c := proc_remove entry ;;; error_after_alloc ret c entry in
      let! r := alloc_chrdev_region in
      if negb (r =? 0) then error_after_proc (- ENODEV) None else
      let error_after_region ret c := unregister_chrdev_region ;;; error_after_proc ret c in
      let! clipboard_cdev := cdev_alloc in
      match clipboard_cdev with
      | None => error_after_region (- ENOMEM) None
      | Some _ =>
          deref clipboard_cdev ;;;
          let! r := cdev_add in
          if negb (r =? 0) then kfree clipboard_cdev ;;; error_after_region (- ENODEV) clipboard_cdev else
          let error_after_register ret := cdev_del_dyn clipboard_cdev ;;; error_after_region ret clipboard_cdev in
          let! ret := request_irq MOUSE_INT in
          if negb (ret =? 0) then error_after_register ret else
          pret (0, (clipboard, clipboard_cdev, entry))
      end
  end.
Definition clipboard_cleanup (g : option nat * option nat * bool) : K unit :=
  let '(clipboard, clipboard_cdev, entry) := g in
  proc_remove entry ;;; free_irq MOUSE_INT ;;; cdev_del_dyn clipboard_cdev ;;;
  unregister_chrdev_region ;;; kfree clipboard.
Definition clipboard : driver := mkDriver (option nat * option nat * bool) clipboard_init clipboard_cleanup.
End Clipboard.

(** * [src/kernel/device.inc], which the modules of [src/kernel] include *)
Module DeviceInc.
Section device.
Context (chrdev_alloc_dynamic : bool).
(** [kmalloc] does not return error pointers: NULL is dereferenced. *)
Definition register_dev : K (Z * option nat) :=
  let goto_nothing ret p := pret (ret, p) in
  let goto_destroy ret p := class_destroy ;;; goto_nothing ret p in
  let! my_class := class_create in
  if negb (my_class =? 0) then goto_nothing my_class None else
  let! pdev := kmalloc in
  deref pdev ;;;
  let goto_dealloc ret := kfree pdev ;;; goto_destroy ret pdev in
  let goto_deregister ret := unregister_chrdev_region ;;; goto_dealloc ret in
  let goto_create_device ret := cdev_del ;;; goto_deregister ret in
  let! ret := (if chrdev_alloc_dynamic then alloc_chrdev_region else register_chrdev_region) in
  if negb (ret =? 0) then goto_dealloc ret else
  let! ret := cdev_add in
  if negb (ret =? 0) then goto_deregister ret else
  let! my_device := device_create 0 in
  if negb (my_device =? 0) then goto_create_device my_device else
  pret (0, pdev).
Definition unregister_dev (pdev : option nat) : K unit :=
  device_destroy 0 ;;; cdev_del ;;; unregister_chrdev_region ;;; kfree pdev ;;; class_destroy.
Definition mod_dev : driver := mkDriver (option nat) register_dev unregister_dev.
End device.
End DeviceInc.
