(* ===== verification/CharDriversProofs.v ===== *)
(** The drivers of [CharDrivers] give back what they acquire, and their file
    operations do what they say. *)

From stdpp Require Import prelude strings list.
From Stdlib Require Import ZArith Lia.
From S2P Require Import Prelude Kernel CharDrivers.

Module CharDriversProofs.

(** The drivers that check every call, with the parameters of two of them. *)
Definition careful (auto_register : bool) (irq_num : Z) : list driver :=
  [MyZero.myzero; UseCount.use_count; Aaa.aaa; MarkVeltzer.markveltzer; MyEmpty.myempty;
   MyNull.mynull; Chrdev.chrdev auto_register; SleepWakeup.sleep_wakeup; CantKill.cant_kill;
   IrqCatch.irqcatch irq_num; Clipboard.clipboard].

Lemma remove_one_head r l : remove_one r (r :: l) = l.
Proof. cbn. by rewrite decide_True. Qed.
(** An interrupt is released by its number, whatever it is. *)
Lemma irqcatch_clean irq ans : clean (IrqCatch.irqcatch irq) ans.
Proof.
  unfold clean, unloads, fresh_kern, IrqCatch.irqcatch. cbn [d_init d_exit d_static]. unfold IrqCatch.irqcatch_init, IrqCatch.irqcatch_cleanup, request_irq, free_irq.
  repeat drv_step; (apply wp_release; [by left|]; rewrite remove_one_head); repeat drv_step.
Qed.

(** C26: Whatever the kernel answers while they load, and whatever their parameters,
    these eleven drivers end up holding nothing when they refuse to load, and nothing
    after they were loaded and unloaded; they release nothing they do not hold and use no
    freed or NULL pointer. *)
Theorem careful_drivers_clean auto irq ans : Forall (fun d => clean d ans) (careful auto irq).
Proof. repeat constructor; try apply irqcatch_clean; destruct auto; drive. Qed.

(** The better null driver does so when its cdev can be added; when it cannot, it deletes
    a cdev that was not added. *)
Theorem betternull_deletes_unadded a (e : positive) ans :
  clean BetterNull.betternull (a :: 0 :: ans) /\
  (BetterNull.null_init (fresh_kern (0 :: Z.neg e :: ans))).1 = Stuck.
Proof. split; [drive|done]. Qed.

(** The clipboard of [clipboard_basic] and the modules built on [device.inc]
    are as clean as long as their allocations succeed; they test the result of
    [kmalloc] and [cdev_alloc] for an error pointer, not for NULL, and an allocation
    that fails is dereferenced. *)
Theorem unchecked_allocations dyn a (e : positive) ans :
  clean ClipboardBasic.clipboard_basic (0 :: a :: 0 :: ans) /\
  clean (DeviceInc.mod_dev dyn) (a :: 0 :: ans) /\
  (ClipboardBasic.clipboard_init (fresh_kern (Z.neg e :: ans))).1 = Stuck /\
  (ClipboardBasic.clipboard_init (fresh_kern (0 :: 0 :: Z.neg e :: ans))).1 = Stuck /\
  (DeviceInc.register_dev dyn (fresh_kern (0 :: Z.neg e :: ans))).1 = Stuck.
Proof. split; [drive|split; [destruct dyn; drive|done]]. Qed.

(** ** File operations *)

(** Reading the zero devices fills the whole buffer with zeros and reports its
    length, or fails with EFAULT when part of it is not mapped. *)
Theorem zero_devices_read u ppos :
  u_off u = 0 -> 0 <= u_ok u -> zlen (u_mem u) <= INT_MAX -> 0 <= ppos -> ppos + zlen (u_mem u) <= 9223372036854775807 ->
  let zeros := mkUbuf (replicate (length (u_mem u)) Byte.x00) 0 (u_ok u) in
  if zlen (u_mem u) <=? u_ok u then
    MyZero.read_zero u ppos = (zlen (u_mem u), zeros, ppos + zlen (u_mem u)) /\
    UseCount.read_zero u ppos = (zlen (u_mem u), zeros, ppos)
  else
    exists u', MyZero.read_zero u ppos = (- EFAULT, u', ppos) /\ UseCount.read_zero u ppos = (- EFAULT, u', ppos).
Proof.
  unfold INT_MAX. intros Ho Hok Hl Hp Hpos. unfold MyZero.read_zero, UseCount.read_zero, clear_user, copy_to_user.
  rewrite Nat2Z.id, length_replicate. set (n := length (u_mem u)) in *.
  pose proof (copied_all u (Z.of_nat n) ltac:(lia)) as Hc. rewrite Ho, Z.sub_0_r in Hc.
  pose proof (copied_le u (Z.of_nat n) ltac:(lia)). cint.
  destruct (Z.of_nat n <=? u_ok u) eqn:E; cbn [orb] in Hc.
  - apply Z.eqb_eq in Hc. rewrite Hc, Z.sub_diag. cbn [negb Z.eqb].
    rewrite take_ge by (rewrite length_replicate; lia). unfold buf_put. rewrite Ho, length_replicate.
    cbn [Z.to_nat take app]. rewrite drop_ge by (unfold n; lia). rewrite app_nil_r. done.
  - zbool. rewrite (proj2 (Z.eqb_neq (Z.of_nat n) 0)) in Hc by lia. apply Z.eqb_neq in Hc.
    rewrite (proj2 (Z.eqb_neq (Z.of_nat n - copied u (Z.of_nat n)) 0)) by lia. cbn [negb]. by eexists.
Qed.

Lemma zero_devices_read_witness :
  MyZero.read_zero (mkUbuf [Byte.x01; Byte.x02] 0 2) 5 = (2, mkUbuf [Byte.x00; Byte.x00] 0 2, 7).
Proof. apply (zero_devices_read (mkUbuf [Byte.x01; Byte.x02] 0 2) 5); cbn; unfold INT_MAX; lia. Defined.

(** The loop of [read_aaa]: [k] bytes are still to be written. *)
Lemma put_as_spec k u :
  0 <= u_off u -> u_off u + Z.of_nat k = zlen (u_mem u) ->
  if u_off u + Z.of_nat k <=? u_ok u then
    Aaa.put_as k u =
      (0, mkUbuf (take (Z.to_nat (u_off u)) (u_mem u) ++ replicate k Byte.x61) (u_off u + Z.of_nat k) (u_ok u))
  else k <> 0%nat -> (Aaa.put_as k u).1 = - EFAULT.
Proof.
  revert u. induction k as [|k IH]; intros u Ho Hl.
  - destruct (_ <=? _) eqn:E; [|done]. cbn [Aaa.put_as]. rewrite Z.add_0_r in *. cbn [replicate].
    rewrite app_nil_r, take_ge by lia. by destruct u.
  - cbn [Aaa.put_as]. unfold copy_to_user. change (zlen [Byte.x61]) with 1.
    pose proof (copied_all u 1 ltac:(lia)) as Hc. cbn [orb] in Hc. rewrite orb_false_r in Hc.
    pose proof (copied_le u 1 ltac:(lia)).
    destruct (1 <=? u_ok u - u_off u) eqn:E1; zbool.
    + rewrite Hc. change (1 - 1 =? 0) with true. cbv iota.
      change (take (Z.to_nat 1) [Byte.x61]) with [Byte.x61].
      set (u1 := advance _ 1). assert (zlen (u_mem u1) = zlen (u_mem u)) as Hl1.
      { unfold u1. cbn [advance u_mem]. rewrite length_buf_put; [done|lia|]. cbn [length]. lia. }
      specialize (IH u1 ltac:(cbn; lia) ltac:(rewrite Hl1; cbn; lia)). cbn [u_off u_ok advance u1] in IH.
      replace (u_off u + 1 + Z.of_nat k) with (u_off u + Z.of_nat (S k)) in IH by lia.
      destruct (_ <=? u_ok u) eqn:E2.
      * rewrite IH. f_equal. f_equal. unfold u1. cbn [u_mem advance replicate].
        pose proof (take_buf_put (u_mem u) [Byte.x61] (u_off u) Ho ltac:(cbn; lia)) as T. change (zlen [Byte.x61]) with 1 in T.
        rewrite T, <- app_assoc. done.
      * intros _. destruct k as [|k]; [zbool; lia|]. by apply IH.
    + destruct (_ <=? u_ok u) eqn:E2; zbool; [lia|]. intros _.
      rewrite (proj2 (Z.eqb_neq (1 - copied u 1) 0)) by lia. done.
Qed.

(** Reading [/dev/aaa] fills a mapped buffer with the letter a; it fails with
    EFAULT at the first byte that is not mapped.  A buffer that [access_ok] rejects
    is reported as end-of-file. *)
Theorem aaa_read u ppos :
  u_off u = 0 -> 0 <= u_ok u ->
  (zlen (u_mem u) <= u_ok u ->
   exists u', Aaa.read_aaa true u ppos = (zlen (u_mem u), u', ppos) /\
     u_mem u' = replicate (length (u_mem u)) Byte.x61) /\
  (u_ok u < zlen (u_mem u) -> (Aaa.read_aaa true u ppos).1.1 = - EFAULT) /\
  Aaa.read_aaa false u ppos = (0, u, ppos).
Proof.
  intros Ho Hok. pose proof (put_as_spec (length (u_mem u)) u ltac:(lia) ltac:(lia)) as H.
  rewrite Ho, Z.add_0_l in H. unfold Aaa.read_aaa. cbn [negb]. split; [|split; [|done]]; intros Hm.
  - rewrite (proj2 (Z.leb_le _ _) Hm) in H. rewrite H. by eexists.
  - rewrite (proj2 (Z.leb_gt _ _) Hm) in H. destruct (Aaa.put_as _ u) as [r u']. cbn in H. rewrite H by lia. done.
Qed.

Lemma aaa_read_witness : (Aaa.read_aaa true (mkUbuf [Byte.x00; Byte.x00] 0 1) 0).1.1 = - EFAULT.
Proof. apply (aaa_read (mkUbuf [Byte.x00; Byte.x00] 0 1) 0); cbn; lia. Defined.

(** What is written to the clipboard at an offset is read back from that
    offset, up to the end of the buffer; at the end a write fails with EIO and a
    read returns end-of-file. *)
Theorem clipboard_roundtrip buffer d o ok :
  zlen buffer = ClipboardBasic.BUFFER_SIZE -> 0 <= o < ClipboardBasic.BUFFER_SIZE -> d <> [] -> zlen d <= ok ->
  let n := Z.min (ClipboardBasic.BUFFER_SIZE - o) (zlen d) in
  exists buffer' u u',
    ClipboardBasic.clipboard_write buffer (mkUbuf d 0 ok) o = Some (n, u, o + n, buffer') /\
    zlen buffer' = ClipboardBasic.BUFFER_SIZE /\
    ClipboardBasic.clipboard_read buffer' (mkUbuf (replicate (Z.to_nat n) Byte.x00) 0 n) o = Some (n, u', o + n) /\
    u_mem u' = take (Z.to_nat n) d /\
    ClipboardBasic.clipboard_write buffer' (mkUbuf d 0 ok) ClipboardBasic.BUFFER_SIZE =
      Some (- EIO, mkUbuf d 0 ok, ClipboardBasic.BUFFER_SIZE, buffer') /\
    ClipboardBasic.clipboard_read buffer' (mkUbuf d 0 ok) ClipboardBasic.BUFFER_SIZE =
      Some (0, mkUbuf d 0 ok, ClipboardBasic.BUFFER_SIZE).
Proof.
  intros Hb Ho Hd Hok n. unfold ClipboardBasic.BUFFER_SIZE in *.
  assert (0 < zlen d) by (destruct d; [done|cbn; lia]). assert (0 < n <= 4096 /\ n <= zlen d /\ o + n <= 4096) as (? & ? & ?) by lia.
  assert (copied (mkUbuf d 0 ok) n = n) as Hc by (unfold copied; cbn; lia).
  assert (zlen (buf_get 0 n d) = n) as Hg by (apply length_buf_get; lia).
  assert (zlen (buf_put o (buf_get 0 n d) buffer) = 4096) as Hb' by (rewrite length_buf_put; lia).
  unfold ClipboardBasic.clipboard_write, ClipboardBasic.clipboard_read, ClipboardBasic.BUFFER_SIZE. cbn [u_mem].
  fold n. rewrite length_replicate, Z2Nat.id, (Z.min_r (4096 - o) n) by lia. rewrite !(s32_small n) by lia.
  rewrite (proj2 (Z.eqb_neq n 0)), (proj2 (Z.leb_le 0 o)), (proj2 (Z.leb_le 0 n)), Hb, (proj2 (Z.leb_le (o + n) 4096)) by lia.
  cbn [andb]. unfold copy_from_user. rewrite Hc, Z.sub_diag. cbn [Z.eqb negb u_off replicate Z.to_nat u_mem]. rewrite app_nil_r.
  eexists _, _, _. split; [reflexivity|split; [exact Hb'|]]. rewrite Hb', (proj2 (Z.leb_le (o + n) 4096)) by lia.
  assert (buf_get o n (buf_put o (buf_get 0 n d) buffer) = buf_get 0 n d) as -> by (rewrite <- Hg at 1; apply buf_get_put_eq; lia).
  unfold copy_to_user. rewrite Hg. assert (copied (mkUbuf (replicate (Z.to_nat n) Byte.x00) 0 n) n = n) as -> by (unfold copied; cbn; lia).
  rewrite Z.sub_diag. cbn [Z.eqb negb]. split; [reflexivity|]. cbn [u_mem u_off]. split.
  - unfold buf_put. cbn [Z.to_nat take app Nat.add]. rewrite (take_ge (buf_get 0 n d)) by lia.
    rewrite drop_ge by (rewrite length_replicate; lia). by rewrite app_nil_r.
  - change (4096 - 4096) with 0. by rewrite Z.min_l by lia.
Qed.

Lemma clipboard_roundtrip_witness :
  exists buffer' u u',
    ClipboardBasic.clipboard_write (replicate 4096 Byte.x00) (mkUbuf [Byte.x01; Byte.x02] 0 2) 4095 = Some (1, u, 4096, buffer') /\
    ClipboardBasic.clipboard_read buffer' (mkUbuf [Byte.x00] 0 1) 4095 = Some (1, u', 4096) /\ u_mem u' = [Byte.x01].
Proof.
  destruct (clipboard_roundtrip (replicate 4096 Byte.x00) [Byte.x01; Byte.x02] 4095 2) as (b & u & u' & H1 & _ & H2 & H3 & _).
  - reflexivity.
  - unfold ClipboardBasic.BUFFER_SIZE. lia.
  - done.
  - cbn. lia.
  - exists b, u, u'. done.
Defined.

(** A read or a write past the end of the clipboard, which
    pread(2) and pwrite(2) can ask for, computes a negative length and goes outside
    the buffer. *)
Theorem clipboard_past_end buffer u o :
  ClipboardBasic.BUFFER_SIZE < o <= INT_MAX ->
  ClipboardBasic.clipboard_read buffer u o = None /\ ClipboardBasic.clipboard_write buffer u o = None.
Proof.
  unfold ClipboardBasic.BUFFER_SIZE, INT_MAX. intros Ho. unfold ClipboardBasic.clipboard_read, ClipboardBasic.clipboard_write, ClipboardBasic.BUFFER_SIZE.
  rewrite Z.min_l by lia. cint. rewrite (proj2 (Z.eqb_neq (4096 - o) 0)), (proj2 (Z.leb_gt 0 (4096 - o))) by lia.
  by rewrite andb_false_r.
Qed.

Lemma clipboard_past_end_witness :
  ClipboardBasic.clipboard_read (replicate 4096 Byte.x00) (mkUbuf [Byte.x00] 0 1) 5000 = None.
Proof. apply (clipboard_past_end (replicate 4096 Byte.x00) (mkUbuf [Byte.x00] 0 1) 5000). unfold ClipboardBasic.BUFFER_SIZE, INT_MAX. lia. Defined.

(** The null devices accept every write as a whole; [/dev/markveltzer] delivers
    its eleven bytes at once or fails; [/dev/myempty] reports a full buffer without
    touching it. *)
Theorem text_devices u ppos :
  0 <= ppos -> ppos + zlen (u_mem u) <= 9223372036854775807 -> u_off u = 0 ->
  MyNull.write_null u ppos = (zlen (u_mem u), u, ppos + zlen (u_mem u)) /\
  BetterNull.write_null u ppos = (zlen (u_mem u), u, ppos + zlen (u_mem u)) /\
  MyEmpty.read_empty u ppos = (zlen (u_mem u), u, ppos) /\
  (if (11 <=? zlen (u_mem u)) && (11 <=? u_ok u) then
     exists u', MarkVeltzer.read_markveltzer u ppos = (11, u', ppos + 11) /\
       u_mem u' = MarkVeltzer.my_buf ++ drop 11 (u_mem u)
   else (MarkVeltzer.read_markveltzer u ppos).1.1 = - EFAULT).
Proof.
  intros Hp Hl Ho. unfold MyNull.write_null, BetterNull.write_null. cint. split; [done|split; [done|split; [done|]]].
  unfold MarkVeltzer.read_markveltzer. change (zlen MarkVeltzer.my_buf) with 11.
  destruct (11 <=? zlen (u_mem u)) eqn:E1; zbool; cbn [andb].
  2: { by rewrite (proj2 (Z.ltb_lt _ _)) by lia. }
  rewrite (proj2 (Z.ltb_ge _ _)) by lia. unfold copy_to_user. change (zlen MarkVeltzer.my_buf) with 11.
  pose proof (copied_all u 11 ltac:(lia)) as Hc. rewrite Ho, Z.sub_0_r, orb_false_r in Hc. pose proof (copied_le u 11 ltac:(lia)).
  destruct (11 <=? u_ok u) eqn:E2; zbool.
  - rewrite Hc, Ho. change (negb (11 - 11 =? 0)) with false. cbv iota. cint. by eexists.
  - rewrite (proj2 (Z.eqb_neq (11 - copied u 11) 0)) by lia. done.
Qed.

Lemma text_devices_witness :
  exists u', MarkVeltzer.read_markveltzer (mkUbuf (replicate 12 Byte.x00) 0 12) 0 = (11, u', 0 + 11) /\
    u_mem u' = MarkVeltzer.my_buf ++ [Byte.x00].
Proof. apply (text_devices (mkUbuf (replicate 12 Byte.x00) 0 12) 0); cbn; lia. Defined.

End CharDriversProofs.
