(* ===== verification/SleepWake.v ===== *)
(** The ioctl calls of [src/kernel_standalone/sleep_wakeup/main.c] and
    [cant_kill/main.c], which put a process to sleep and wake the sleepers: the
    first sleeps interruptibly, the second does not.  Shown for every
    interleaving: nobody stays asleep once the state says awake.  What does go
    wrong is shown as well: a new sleeper takes the wake-up of an old one back. *)

From stdpp Require Import prelude list relations.
From Stdlib Require Import ZArith Lia.
From S2P Require Import Prelude Threads Alarms Kernel.

Module SleepWake.
Open Scope stmt_scope.

(** * The driver and its callers *)

(** The static variables [state] and [queue], and the tasks with a signal. *)
Record kmem := mkMem { state : Z; queue : list nat; pending : list nat }.

(** What a process does next. *)
Inductive op := IOCTL_SLEEP | IOCTL_WAKEUP | OtherIoctl | Kill (t : nat).

Record local := mkLocal { tid : nat; script : list op; ret : Z; intr : bool; results : list Z }.

Definition code_t : Type := stmt kmem local.

Definition signal_pending (m : kmem) (l : local) : bool := mem_nat (tid l) (pending m).
Definition set_ret (r : Z) (l : local) : local := mkLocal (tid l) (script l) r (intr l) (results l).

Definition do_l (f : local -> local) : code_t := SDo (fun m l => (m, f l)).
Definition set_state (x : Z) : code_t := SDo (fun m l => (mkMem x (queue m) (pending m), l)).

(** The wait macros of the kernel on the condition [state == 1]; [i] says
    whether a signal ends the sleep.  The result goes to [ret]. *)
Definition awake (m : kmem) (_ : local) : bool := state m =? 1.
Definition prepare_to_wait_event (i : bool) (m : kmem) (l : local) : kmem * local :=
  if i && signal_pending m l
  then (mkMem (state m) (remove_nat (tid l) (queue m)) (pending m), mkLocal (tid l) (script l) (ret l) true (results l))
  else (mkMem (state m) (tid l :: remove_nat (tid l) (queue m)) (pending m), mkLocal (tid l) (script l) (ret l) false (results l)).
Definition finish_wait (r : Z) (m : kmem) (l : local) : kmem * local :=
  (mkMem (state m) (remove_nat (tid l) (queue m)) (pending m), set_ret r l).
Definition wait_event_ (i : bool) : code_t :=
  SIf awake SReturn SSkip ;;
  SWhile (fun _ _ => true)
    (SDo (prepare_to_wait_event i) ;;
     SIf awake (SDo (finish_wait 0) ;; SReturn) SSkip ;;
     SIf (fun _ l => intr l) (SDo (finish_wait (- ERESTARTSYS)) ;; SReturn) SSkip ;;
     SAwait (fun m l => negb (mem_nat (tid l) (queue m)) || (i && signal_pending m l)) (fun m l => (m, l))).
Definition wait_event_interruptible : code_t := wait_event_ true.
Definition wait_event : code_t := wait_event_ false.

Definition wake_up : code_t := SDo (fun m l => (mkMem (state m) [] (pending m), l)).

Definition is_op (o : op) (_ : kmem) (l : local) : bool :=
  match script l, o with
  | IOCTL_SLEEP :: _, IOCTL_SLEEP | IOCTL_WAKEUP :: _, IOCTL_WAKEUP => true
  | _, _ => false
  end.

(** [ioctl] of [sleep_wakeup]: the result of the wait is not looked at. *)
Definition sleep_ioctl : code_t :=
  SIf (is_op IOCTL_SLEEP)
    (set_state 0 ;; SCall wait_event_interruptible ;; do_l (set_ret 0) ;; SReturn)
    (SIf (is_op IOCTL_WAKEUP)
       (set_state 1 ;; wake_up ;; do_l (set_ret 0) ;; SReturn)
       (do_l (set_ret (- EFAULT)) ;; SReturn)).

(** [ioctl] of [cant_kill]. *)
Definition cant_kill_ioctl : code_t :=
  SIf (is_op IOCTL_SLEEP)
    (set_state 0 ;; SCall wait_event ;; do_l (set_ret 0) ;; SReturn)
    (SIf (is_op IOCTL_WAKEUP)
       (set_state 1 ;; wake_up ;; do_l (set_ret 0) ;; SReturn)
       (do_l (set_ret (- EFAULT)) ;; SReturn)).

(** A process makes its calls one after the other. *)
Definition more (_ : kmem) (l : local) : bool := match script l with [] => false | _ => true end.
Definition is_kill (_ : kmem) (l : local) : bool := match script l with Kill _ :: _ => true | _ => false end.
Definition kill_step (m : kmem) (l : local) : kmem * local :=
  match script l with Kill t :: _ => (mkMem (state m) (queue m) (t :: pending m), l) | _ => (m, l) end.
Definition next (l : local) : local := mkLocal (tid l) (tl (script l)) (ret l) (intr l) (results l ++ [ret l]).
Definition process (ioctl : code_t) : code_t :=
  SWhile more (SIf is_kill (SDo kill_step) (SCall ioctl) ;; do_l next).

Definition start (i : nat) (s : list op) : thread local := mkThread 0 Running (mkLocal i s 0 false []).
Definition system (ss : list (list op)) : config kmem local := mkConfig (mkMem 0 [] []) None (imap start ss).

Definition ioctl_of (i : bool) : code_t := if i then sleep_ioctl else cant_kill_ioctl.
Definition code (i : bool) (_ : nat) : list (instr kmem local) := compile (process (ioctl_of i)).

(** * No lost wake-up *)

Definition count (k : Empty_set) (_ : kmem) : Z := match k with end.
Definition weight (_ _ : nat) (_ : local) (k : Empty_set) : Z := match k with end.
Definition inside (_ _ : nat) : bool := false.
Definition says (_ _ : nat) (_ : kmem) (_ : local) : Prop := True.
Definition lsays (t _ : nat) (l : local) : Prop := tid l = t.
Definition anything (_ : kmem) : Prop := True.

(** Asleep in the queue although the state is 1. *)
Definition needs (t pc : nat) (_ : local) (m : kmem) : Prop :=
  existsb (Nat.eqb pc) [14; 15; 18; 19]%nat = true /\ mem_nat t (queue m) = true /\ state m = 1.
(** Between [state = 1] and [wake_up]. *)
Definition hot (_ pc : nat) (_ : local) : bool := (pc =? 26)%nat.

#[local] Arguments mem_nat : simpl never.
#[local] Arguments remove_nat : simpl never.

Section proofs.
Context (i : bool) (N : Z).

Ltac tid_tac := cbn; unfold kill_step, prepare_to_wait_event; repeat case_match; done.
Ltac ok_point :=
  unfold ok; destruct i; cbn;
  repeat match goal with
  | |- updates _ _ _ _ _ _ _ _ _ _ _ =>
      split; [done|]; intros m l (_ & Hl & _) _; split; [intros []|]; split; [done|]; split; [unfold lsays in *; tid_tac|done]
  | |- moves _ _ _ _ _ _ _ _ _ _ _ => split; [by left|]; intros m l (_ & Hl & _) _; split; [intros []|done]
  | |- _ /\ _ => split
  | |- _ = _ => reflexivity
  end.
Lemma sleep_ok_all t pc : ok (code i) count weight inside says lsays anything N t pc.
Proof. do 34 (destruct pc as [|pc]; [ok_point|]). unfold ok. by destruct i. Qed.

Ltac one_step :=
  intros ins m l m' l' pc' Hi (_ & Hl & _) Ha; unfold lsays in Hl; destruct i; cbn in Hi; injection Hi as <-; cbn in Ha;
  unfold prepare_to_wait_event, finish_wait, kill_step, next in Ha;
  repeat match type of Ha with
  | context [if ?b then _ else _] => destruct b eqn:?; try discriminate Ha
  | context [match script ?l with _ => _ end] => destruct (script l) as [|[] ?] eqn:?
  end; cbn in Ha; injection Ha as <- <- <-.
Ltac same_needs :=
  split; [done|split; [|first [done | cbn in *; lia]]];
  first [done | by eapply mem_remove | eapply mem_enqueue; [|eassumption]; congruence].
Ltac alarm_point :=
  one_step; unfold rings; (split;
  [ first [ by cbn | by left | intros _; right; unfold needs; cbn; by intros ? ? ? (? & ? & ?) ]
  | first
    [ by left
    | right; split; unfold needs; cbn;
      [ intros (? & ? & ?); first [ discriminate | exfalso; unfold awake in *; zbool; lia | same_needs ]
      | intros ? ? ? ? (? & ? & ?); first [ exfalso; lia | same_needs ] ] ] ]).
Lemma alarm_all t pc : alarm_ok (code i) count weight inside says lsays anything N needs hot t pc.
Proof.
  do 34 (destruct pc as [|pc]; [alarm_point|]). intros ? ? ? ? ? ? Hi. by destruct i.
Qed.
End proofs.

Abbreviation INV i n := (Inv (code i) count weight inside says lsays anything (Z.of_nat n)).

Lemma sleep_start_lookup ss t th : threads (system ss) !! t = Some th -> exists s, ss !! t = Some s /\ th = start t s.
Proof. cbn. rewrite list_lookup_imap. intros (s & ? & ?)%fmap_Some. eauto. Qed.

Lemma sleep_start_inv i ss : INV i (length ss) (system ss).
Proof.
  constructor; try done.
  - cbn. by rewrite length_imap.
  - intros t. split; [done|]. by intros (th & _ & _ & ?).
  - intros t th (s & _ & ->)%sleep_start_lookup. done.
  - intros t th (s & _ & ->)%sleep_start_lookup. done.
Qed.

(** In both drivers, whatever the processes call and however they interleave:
    when none of them can go on, each has made all its calls or sleeps in
    IOCTL_SLEEP while the state says so; nobody sleeps through an IOCTL_WAKEUP that
    nobody took back. *)
Theorem sleep_no_lost_wakeup i ss cf :
  rtc (step (code i)) (system ss) cf -> blocked (code i) cf ->
  forall t th, threads cf !! t = Some th ->
    finished (code i) t th \/ (t_pc th = 19%nat /\ t ∈ queue (mem cf) /\ state (mem cf) <> 1).
Proof.
  intros Hr Hb t th Ht.
  assert (forall t pc l k, 0 <= weight t pc l k <= 1) as H01 by (intros ? ? ? []).
  assert (forall t, forallb queueing (code i t) = true) as Hq by (by destruct i).
  assert (Alarm needs hot (system ss)) as A0 by (by intros t0 th0 (s & _ & ->)%sleep_start_lookup (E & _)).
  destruct (alarm_reachable _ _ _ _ _ _ _ _ H01 (sleep_ok_all i _) Hq _ _ (alarm_all i _) _ _ (sleep_start_inv i ss) A0 Hr) as [HI HA].
  pose proof (inv_lsays _ _ _ _ _ _ _ _ _ HI _ _ Ht) as Htid. unfold lsays in Htid.
  destruct (blocked_awaits _ _ _ _ _ _ _ _ (sleep_ok_all i _) Hq _ _ _ HI Hb Ht) as [Hf|(b & f & Hi & Hbf)]; [by left|right].
  assert (t_pc th = 19%nat /\ b = (fun m l => negb (mem_nat (tid l) (queue m)) || (i && signal_pending m l))) as [Hpc ->].
  { revert Hi. generalize (t_pc th). intros pc. destruct i; do 34 (destruct pc as [|pc]; [first [discriminate | by intros [= <- _]]|]); discriminate. }
  apply orb_false_iff in Hbf as [Hin%negb_false_iff _]. rewrite Htid in Hin.
  split; [done|split].
  - unfold mem_nat in Hin. apply existsb_exists in Hin as (x & Hx & E). apply Nat.eqb_eq in E. subst x. by apply list_elem_of_In.
  - intros Hs. eapply (blocked_no_needs _ _ _ _ _ _ _ _ (sleep_ok_all i _) Hq _ _ _ _ _ _ HI HA Hb Ht). Unshelve.
    + rewrite Hpc. done.
    + intros t0 pc0 l0 Hh. apply Nat.eqb_eq in Hh as ->. destruct i; eexists; split; reflexivity || exact I.
Qed.

(** ** Runs *)

Definition turns (t n : nat) : list (nat * nat) := replicate n (t, 0%nat).

Definition pair_end : config kmem local :=
  run_schedule (code true) (turns 0 20 ++ turns 1 20 ++ turns 0 20) (system [[IOCTL_SLEEP]; [IOCTL_WAKEUP]]).

Lemma sleep_no_lost_wakeup_witness :
  exists th, threads pair_end !! 0%nat = Some th /\
    (finished (code true) 0 th \/ (t_pc th = 19%nat /\ 0%nat ∈ queue (mem pair_end) /\ state (mem pair_end) <> 1)).
Proof.
  eexists. split; [vm_compute; reflexivity|].
  apply (sleep_no_lost_wakeup true [[IOCTL_SLEEP]; [IOCTL_WAKEUP]] pair_end); [apply run_schedule_reachable| |vm_compute; reflexivity].
  intros t k. destruct t as [|[|t]]; vm_compute; reflexivity.
Defined.

(** A process that goes to sleep sets the state back and so takes away the
    wake-up of one that slept before and has not run yet: both sleep although
    IOCTL_WAKEUP was called while the first one slept. *)
Theorem wakeup_taken_back :
  exists cf, rtc (step (code true)) (system [[IOCTL_SLEEP]; [IOCTL_WAKEUP]; [IOCTL_SLEEP]]) cf /\
    blocked (code true) cf /\ t_pc <$> threads cf = [19; 34; 19]%nat /\
    (fun th => results (t_loc th)) <$> threads cf = [[]; [0]; []].
Proof.
  eexists (run_schedule (code true) (turns 0 20 ++ turns 1 20 ++ turns 2 20 ++ turns 0 20) _).
  split; [apply run_schedule_reachable|]. split; [|split; reflexivity].
  intros t k. destruct t as [|[|[|t]]]; vm_compute; reflexivity.
Qed.

(** A signal ends the interruptible sleep, and the call returns 0 as if it had
    been woken; the other driver sleeps on. *)
Theorem signal_while_asleep :
  let run i := run_schedule (code i) (turns 0 20 ++ turns 1 20 ++ turns 0 40) (system [[IOCTL_SLEEP]; [Kill 0]]) in
  (fun th => results (t_loc th)) <$> threads (run true) = [[0]; [0]] /\ state (mem (run true)) = 0 /\
  (fun th => results (t_loc th)) <$> threads (run false) = [[]; [0]] /\ blocked (code false) (run false).
Proof.
  split; [reflexivity|split; [reflexivity|split; [reflexivity|]]].
  intros t k. destruct t as [|[|t]]; vm_compute; reflexivity.
Qed.

End SleepWake.
