(* ===== verification/ClipboardDev.v ===== *)
(** The file operations of [src/kernel_standalone/clipboard/main.c] and its interrupt
    handler.  A read sleeps until the next mouse interrupt; a write to a full
    clipboard sleeps until there is room.  Shown for every interleaving: no copy
    leaves the buffer, and a reader sleeps on only while no interrupt came.  A write
    that finds no room never returns, since nothing can make the room it waits
    for. *)

From stdpp Require Import prelude list relations.
From Stdlib Require Import ZArith Lia.
From S2P Require Import Prelude Threads Alarms Kernel.

Module ClipboardDev.
Open Scope stmt_scope.

Definition CLIPBOARD_SIZE : Z := 4096.

(** The static variables, and the tasks with a signal. *)
Record kmem := mkMem {
  clipboard : list byte;
  flag : Z;
  clipboard_read_wq : list nat;
  clipboard_write_wq : list nat;
  pending : list nat;
}.

(** The system calls of a process (how many bytes, how much of the buffer is
    mapped), a signal to another process, a mouse interrupt. *)
Inductive op := OpRead (count : nat) (ok : Z) | OpWrite (d : list byte) (ok : Z) | OpKill (t : nat) | OpInterrupt.

Record local := mkLocal {
  tid : nat;
  script : list op;
  user_buf : ubuf;
  offset : Z;             (** the position of the open file *)
  remaining_bytes : Z;
  ret : Z;
  intr : bool;
  results : list Z;
}.

Definition code_t : Type := stmt kmem local.

Definition set_script (s : list op) (u : ubuf) (l : local) : local :=
  mkLocal (tid l) s u (offset l) (remaining_bytes l) (ret l) (intr l) (results l).
Definition set_buf (u : ubuf) (r : Z) (l : local) : local :=
  mkLocal (tid l) (script l) u (offset l) (remaining_bytes l) r (intr l) (results l).
Definition set_offset (o : Z) (l : local) : local :=
  mkLocal (tid l) (script l) (user_buf l) o (remaining_bytes l) (ret l) (intr l) (results l).
Definition set_remaining (x : Z) (l : local) : local :=
  mkLocal (tid l) (script l) (user_buf l) (offset l) x (ret l) (intr l) (results l).
Definition set_ret (x : Z) (l : local) : local :=
  mkLocal (tid l) (script l) (user_buf l) (offset l) (remaining_bytes l) x (intr l) (results l).
Definition set_intr (b : bool) (l : local) : local :=
  mkLocal (tid l) (script l) (user_buf l) (offset l) (remaining_bytes l) (ret l) b (results l).
Definition add_result (l : local) : local :=
  mkLocal (tid l) (script l) (user_buf l) (offset l) (remaining_bytes l) (ret l) (intr l) (results l ++ [ret l]).

Definition do_l (f : local -> local) : code_t := SDo (fun m l => (m, f l)).
Definition set_flag (x : Z) : code_t :=
  SDo (fun m l => (mkMem (clipboard m) x (clipboard_read_wq m) (clipboard_write_wq m) (pending m), l)).

(** ** Wait queues *)

Inductive queue := RQ | WQ.
Definition q_get (q : queue) (m : kmem) : list nat :=
  match q with RQ => clipboard_read_wq m | WQ => clipboard_write_wq m end.
Definition q_set (q : queue) (x : list nat) (m : kmem) : kmem :=
  match q with
  | RQ => mkMem (clipboard m) (flag m) x (clipboard_write_wq m) (pending m)
  | WQ => mkMem (clipboard m) (flag m) (clipboard_read_wq m) x (pending m)
  end.

Definition signal_pending (m : kmem) (l : local) : bool := mem_nat (tid l) (pending m).
Definition flagged (m : kmem) (_ : local) : bool := negb (flag m =? 0).
Definition prepare_to_wait_event (q : queue) (m : kmem) (l : local) : kmem * local :=
  if signal_pending m l then (q_set q (remove_nat (tid l) (q_get q m)) m, set_intr true l)
  else (q_set q (tid l :: remove_nat (tid l) (q_get q m)) m, set_intr false l).
Definition finish_wait (q : queue) (m : kmem) (l : local) : kmem * local :=
  (q_set q (remove_nat (tid l) (q_get q m)) m, l).

(** The driver does not look at the result of the wait. *)
Definition wait_event_interruptible (q : queue) : code_t :=
  SIf flagged SReturn SSkip ;;
  SWhile (fun _ _ => true)
    (SDo (prepare_to_wait_event q) ;;
     SIf flagged (SDo (finish_wait q) ;; SReturn) SSkip ;;
     SIf (fun _ l => intr l) (SDo (finish_wait q) ;; SReturn) SSkip ;;
     SAwait (fun m l => negb (mem_nat (tid l) (q_get q m)) || signal_pending m l) (fun m l => (m, l))).
Definition wake_up_interruptible (q : queue) : code_t := SDo (fun m l => (q_set q [] m, l)).

(** ** The file operations *)

(** [min(CLIPBOARD_SIZE-( *offset), (loff_t)count)] *)
Definition room (l : local) : Z := s32 (Z.min (CLIPBOARD_SIZE - offset l) (zlen (u_mem (user_buf l)))).
Definition in_buffer (m : kmem) (l : local) : bool :=
  (0 <=? offset l) && (0 <=? remaining_bytes l) && (offset l + remaining_bytes l <=? zlen (clipboard m)).

Definition read_step (m : kmem) (l : local) : kmem * local :=
  let '(r, u) := copy_to_user (user_buf l) (buf_get (offset l) (remaining_bytes l) (clipboard m)) in
  (m, set_buf u (s32 r) l).
Definition write_step (m : kmem) (l : local) : kmem * local :=
  let '(r, d) := copy_from_user (user_buf l) (remaining_bytes l) in
  (mkMem (buf_put (offset l) d (clipboard m)) (flag m) (clipboard_read_wq m) (clipboard_write_wq m) (pending m),
   set_buf (user_buf l) (s32 r) l).

Definition clipboard_read : code_t :=
  do_l (fun l => set_remaining (room l) l) ;;
  SIf (fun _ l => remaining_bytes l =? 0) (do_l (set_ret 0) ;; SReturn) SSkip ;;
  set_flag 0 ;;
  SCall (wait_event_interruptible RQ) ;;
  SAssert in_buffer ;;
  SDo read_step ;;
  SIf (fun _ l => negb (ret l =? 0)) SReturn SSkip ;;
  do_l (fun l => set_offset (s64 (offset l + remaining_bytes l)) l) ;;
  wake_up_interruptible WQ ;;
  do_l (fun l => set_ret (remaining_bytes l) l).

Definition clipboard_write : code_t :=
  do_l (fun l => set_remaining (room l) l) ;;
  SWhile (fun _ l => remaining_bytes l =? 0)
    (SCall (wait_event_interruptible WQ) ;;
     do_l (fun l => set_remaining (room l) l)) ;;
  SAssert in_buffer ;;
  SDo write_step ;;
  SIf (fun _ l => negb (ret l =? 0)) SReturn SSkip ;;
  do_l (fun l => set_offset (s64 (offset l + remaining_bytes l)) l) ;;
  do_l (fun l => set_ret (remaining_bytes l) l).

Definition clipboard_int_handler : code_t :=
  set_flag 1 ;;
  wake_up_interruptible RQ.

(** ** Processes, and the mouse as one more *)
Definition next_op (m : kmem) (l : local) : kmem * local :=
  match script l with
  | [] => (m, l)
  | OpRead n ok :: s => (m, set_script s (mkUbuf (replicate n Byte.x00) 0 ok) l)
  | OpWrite d ok :: s => (m, set_script s (mkUbuf d 0 ok) l)
  | OpKill t :: s =>
      (mkMem (clipboard m) (flag m) (clipboard_read_wq m) (clipboard_write_wq m) (t :: pending m), set_script s (user_buf l) l)
  | OpInterrupt :: s => (m, set_script s (user_buf l) l)
  end.
Definition more (_ : kmem) (l : local) : bool := match script l with [] => false | _ => true end.
Definition is_read (_ : kmem) (l : local) : bool := match script l with OpRead _ _ :: _ => true | _ => false end.
Definition is_write (_ : kmem) (l : local) : bool := match script l with OpWrite _ _ :: _ => true | _ => false end.
Definition is_interrupt (_ : kmem) (l : local) : bool := match script l with OpInterrupt :: _ => true | _ => false end.

Definition process : code_t :=
  SWhile more
    (SIf is_read (SDo next_op ;; SCall clipboard_read)
       (SIf is_write (SDo next_op ;; SCall clipboard_write)
          (SIf is_interrupt (SDo next_op ;; SCall clipboard_int_handler) (SDo next_op))) ;;
     do_l add_result).

Definition start (i : nat) (s : list op) : thread local :=
  mkThread 0 Running (mkLocal i s (mkUbuf [] 0 0) 0 0 0 false []).
Definition system (mem : list byte) (ss : list (list op)) : config kmem local :=
  mkConfig (mkMem mem 0 [] [] []) None (imap start ss).

Definition code (_ : nat) : list (instr kmem local) := compile process.

(** * The outline *)

Definition count (k : Empty_set) (_ : kmem) : Z := match k with end.
Definition weight (_ _ : nat) (_ : local) (k : Empty_set) : Z := match k with end.
Definition inside (_ _ : nat) : bool := false.
Definition says (_ _ : nat) (_ : kmem) (_ : local) : Prop := True.
Definition good (m : kmem) : Prop := zlen (clipboard m) = CLIPBOARD_SIZE.

(** The loop of a write that waits for room. *)
Definition waits_for_room (pc : nat) : bool := span 36 53 pc.

(** [dead] is a process that is known to be in this loop without room, and what
    its calls returned before. *)
Definition lsays (dead : option (nat * list Z)) (t pc : nat) (l : local) : Prop :=
  tid l = t /\ 0 <= offset l <= CLIPBOARD_SIZE /\ u_off (user_buf l) = 0 /\
  (span 4 25 pc || span 36 55 pc = true -> remaining_bytes l = room l) /\
  (span 26 29 pc || span 56 59 pc = true -> 0 <= remaining_bytes l <= CLIPBOARD_SIZE - offset l) /\
  match dead with
  | Some (t0, r0) => t = t0 -> waits_for_room pc = true /\ remaining_bytes l = 0 /\ results l = r0
  | None => True
  end.

Lemma room_range l : 0 <= offset l <= CLIPBOARD_SIZE -> 0 <= room l <= CLIPBOARD_SIZE - offset l /\ room l <= zlen (u_mem (user_buf l)).
Proof. intros. unfold room, CLIPBOARD_SIZE in *. rewrite s32_small; lia. Qed.

Section proofs.
Context (dead : option (nat * list Z)) (N : Z).
Abbreviation OK := (ok code count weight inside says (lsays dead) good N).

Ltac dead_tac :=
  lazymatch goal with |- match _ with _ => _ end => destruct dead as [[? ?]|]; [|exact I] | |- _ => idtac end;
  intros Ht;
  match goal with Hd : _ -> _ /\ _ /\ _ |- _ =>
    specialize (Hd Ht); destruct Hd as (? & ? & ?); first [discriminate | split_and!; [reflexivity|congruence|assumption] | exfalso; zbool; lia]
  end.
Ltac lsays_tac :=
  unfold lsays in *; cbn in *;
  repeat match goal with
  | H : _ /\ _ /\ _ /\ _ /\ _ /\ _ |- _ => destruct H as (? & ? & ? & ? & ? & ?)
  | H : true = true -> _ |- _ => specialize (H eq_refl)
  end;
  split_and!; try done; try (intros; done); try lia; try dead_tac.
Ltac move_point :=
  split; [by left|]; intros m l (_ & Hl & _) Hc; split; [intros []|split; [|done]]; lsays_tac.

Lemma ok_read_step t : updates count weight inside says (lsays dead) good N t 25 always read_step.
Proof.
  split; [done|]. intros m l (Hf & Hl & _) _. split; [intros []|].
  unfold lsays in Hl. cbn in Hl. destruct Hl as (? & Ho & Hu & Hrem & _ & Hd). specialize (Hrem eq_refl).
  pose proof (room_range l Ho) as [Hr _]. rewrite <- Hrem in Hr.
  unfold read_step. destruct (copy_to_user _ _) as [r u] eqn:E. cbn. split; [apply Hf|]. split; [|done].
  unfold copy_to_user in E. simplify_eq. unfold lsays. cbn. split_and!; try done; try lia; try dead_tac.
Qed.

Lemma ok_write_step t : updates count weight inside says (lsays dead) good N t 55 always write_step.
Proof.
  split; [done|]. intros m l (Hf & Hl & _) _. split; [intros []|].
  unfold lsays in Hl. cbn in Hl. destruct Hl as (? & Ho & Hu & Hrem & _ & Hd). specialize (Hrem eq_refl).
  pose proof (room_range l Ho) as [Hr1 Hr2]. rewrite <- Hrem in Hr1, Hr2. pose proof (f_G _ _ _ _ _ _ _ _ Hf) as HG. unfold good in HG.
  pose proof (length_from_user (user_buf l) (remaining_bytes l)) as Hlen.
  unfold write_step. destruct (copy_from_user _ _) as [r d] eqn:E. cbn in Hlen |- *.
  split; [unfold good; cbn; rewrite length_buf_put; rewrite ?Hlen; lia|]. split; [|done].
  unfold lsays. cbn. split_and!; try done; try lia; try dead_tac.
Qed.

Lemma in_buffer_ok t pc m l :
  good m -> lsays dead t pc l -> span 4 25 pc || span 36 55 pc = true -> in_buffer m l = true.
Proof.
  intros HG (_ & Ho & _ & Hrem & _) Hpc. specialize (Hrem Hpc). pose proof (room_range l Ho) as [Hr _]. unfold in_buffer, good in *.
  rewrite Hrem. apply andb_true_iff. rewrite andb_true_iff, !Z.leb_le. lia.
Qed.

Ltac update_point :=
  first [ apply ok_read_step | apply ok_write_step |
    split; [done|]; intros m l (Hf & Hl & _) _; pose proof (f_G _ _ _ _ _ _ _ _ Hf) as HG;
    split; [intros []|]; split;
      [ unfold good in *; cbn; unfold next_op, prepare_to_wait_event; repeat case_match; exact HG
      | split; [|done]; unfold lsays in *; cbn in *; unfold next_op, prepare_to_wait_event in *;
        repeat case_match; lsays_tac; unfold CLIPBOARD_SIZE in *; cint; lia ] ].
Ltac ok_point :=
  unfold ok; cbn;
  lazymatch goal with
  | |- updates _ _ _ _ _ _ _ _ _ _ _ => update_point
  | |- moves _ _ _ _ _ _ _ _ _ _ _ => move_point
  | |- moves _ _ _ _ _ _ _ _ _ _ _ /\ moves _ _ _ _ _ _ _ _ _ _ _ => split; move_point
  | |- moves _ _ _ _ _ _ _ _ _ _ _ /\ _ =>
      split; [move_point|intros m l (Hf & Hl & _); eapply in_buffer_ok; [exact (f_G _ _ _ _ _ _ _ _ Hf)|exact Hl|reflexivity]]
  | |- _ /\ updates _ _ _ _ _ _ _ _ _ _ _ => split; [reflexivity|]; update_point
  | |- _ => reflexivity
  end.
Lemma clipboard_ok_all t pc : OK t pc.
Proof. do 70 (destruct pc as [|pc]; [ok_point|]). reflexivity. Qed.
End proofs.

(** ** Wake-ups *)

(** A reader in the queue although the interrupt came. *)
Definition needs (t pc : nat) (_ : local) (m : kmem) : Prop :=
  existsb (Nat.eqb pc) [17; 18; 21; 22]%nat = true /\ mem_nat t (clipboard_read_wq m) = true /\ flag m <> 0.
(** The interrupt handler between [flag = 1] and the wake-up. *)
Definition hot (_ pc : nat) (_ : local) : bool := (pc =? 65)%nat.

#[local] Arguments mem_nat : simpl never.
#[local] Arguments remove_nat : simpl never.

Section alarm.
Context (N : Z).
Ltac one_step :=
  intros ins m l m' l' pc' Hi (_ & Hl & _) Ha; destruct Hl as (Hl & _); cbn in Hi; injection Hi as <-; cbn in Ha;
  unfold prepare_to_wait_event, finish_wait, next_op, read_step, write_step, copy_to_user, copy_from_user in Ha;
  repeat match type of Ha with
  | context [if ?b then _ else _] => destruct b eqn:?; try discriminate Ha
  | context [match script ?l with _ => _ end] => destruct (script l) as [|[] ?] eqn:?
  end; cbn in Ha; injection Ha as <- <- <-.
Ltac same_needs :=
  split; [done|split; [|first [done | cbn in *; congruence]]];
  first [done | by eapply mem_remove | eapply mem_enqueue; [|eassumption]; congruence].
Ltac alarm_point :=
  one_step; unfold rings; (split;
  [ first [ by cbn | by left | intros _; right; unfold needs; cbn; by intros ? ? ? (? & ? & ?) ]
  | first
    [ by left
    | right; split; unfold needs; cbn;
      [ intros (? & ? & ?); first [ discriminate | exfalso; unfold flagged in *; zbool; lia | same_needs ]
      | intros ? ? ? ? (? & ? & ?); first [ exfalso; lia | same_needs ] ] ] ]).
Lemma clipboard_alarm_all t pc : alarm_ok code count weight inside says (lsays None) good N needs hot t pc.
Proof. do 70 (destruct pc as [|pc]; [alarm_point|]). by intros ? ? ? ? ? ? Hi. Qed.
End alarm.

(** * Reachable states *)

Abbreviation INV d n := (Inv code count weight inside says (lsays d) good (Z.of_nat n)).

Lemma clip_start_lookup mem ss t th : threads (system mem ss) !! t = Some th -> exists s, ss !! t = Some s /\ th = start t s.
Proof. cbn. rewrite list_lookup_imap. intros (s & ? & ?)%fmap_Some. eauto. Qed.

Lemma clip_weight_01 t pc l (k : Empty_set) : 0 <= weight t pc l k <= 1.
Proof. destruct k. Qed.

Lemma clip_start_inv mem ss : zlen mem = CLIPBOARD_SIZE -> INV None (length ss) (system mem ss).
Proof.
  intros Hm. constructor.
  - cbn. by rewrite length_imap.
  - intros t. split; [done|]. by intros (th & _ & _ & ?).
  - intros t th _ [_ ?]. done.
  - intros [].
  - exact Hm.
  - intros t th (s & _ & ->)%clip_start_lookup. done.
  - intros t th (s & _ & ->)%clip_start_lookup. unfold lsays. cbn. split_and!; done.
Qed.

Lemma clip_reach mem ss cf :
  zlen mem = CLIPBOARD_SIZE -> rtc (step code) (system mem ss) cf -> INV None (length ss) cf /\ Alarm needs hot cf.
Proof.
  intros Hm Hr. refine (alarm_reachable _ _ _ _ _ _ _ _ clip_weight_01 (clipboard_ok_all None _) _ _ _ (clipboard_alarm_all _) _ _ (clip_start_inv mem ss Hm) _ Hr).
  - done.
  - by intros t0 th0 (s & _ & ->)%clip_start_lookup (E & _).
Qed.

(** Where the code waits. *)
Lemma clip_await t pc b f :
  code t !! pc = Some (IAwait b f) ->
  pc = 22%nat /\ b = (fun m l => negb (mem_nat (tid l) (clipboard_read_wq m)) || signal_pending m l) \/
  pc = 50%nat /\ b = (fun m l => negb (mem_nat (tid l) (clipboard_write_wq m)) || signal_pending m l).
Proof. intros H. do 70 (destruct pc as [|pc]; [first [discriminate H | cbn in H; injection H as <- _; auto]|]). discriminate. Qed.

(** Whatever processes call on the clipboard, whatever signals and mouse
    interrupts arrive and however all interleave: no copy leaves the buffer, and
    when nobody can go on, each process has made all its calls, or sleeps in a read
    and no interrupt has come since the last read began, or is in a write that found
    no room. *)
Theorem clipboard_no_lost_wakeup mem ss cf :
  zlen mem = CLIPBOARD_SIZE -> rtc (step code) (system mem ss) cf ->
  (forall t th, threads cf !! t = Some th -> t_status th <> Failed) /\
  (blocked code cf -> forall t th, threads cf !! t = Some th ->
     finished code t th \/ (t ∈ clipboard_read_wq (Threads.mem cf) /\ flag (Threads.mem cf) = 0) \/
     waits_for_room (t_pc th) = true).
Proof.
  intros Hm Hr. destruct (clip_reach _ _ _ Hm Hr) as [HI HA].
  assert (forall t, forallb queueing (code t) = true) as Hq by done. split.
  - intros t th Ht Hf. pose proof (inv_wait _ _ _ _ _ _ _ _ _ HI _ _ Ht) as Hw. unfold at_wait in Hw. by rewrite Hf in Hw.
  - intros Hb t th Ht. destruct (blocked_awaits _ _ _ _ _ _ _ _ (clipboard_ok_all None _) Hq _ _ _ HI Hb Ht) as [Hf|(b & f & Hi & Hbf)]; [by left|right].
    pose proof (inv_lsays _ _ _ _ _ _ _ _ _ HI _ _ Ht) as (Htid & _).
    apply clip_await in Hi as [[Hpc ->]|[Hpc ->]]; [left|right; by rewrite Hpc].
    apply orb_false_iff in Hbf as [Hin%negb_false_iff _]. rewrite Htid in Hin. split.
    + unfold mem_nat in Hin. apply existsb_exists in Hin as (x & Hx & E). apply Nat.eqb_eq in E. subst x. by apply list_elem_of_In.
    + destruct (decide (flag (Threads.mem cf) = 0)) as [?|Hn]; [done|exfalso].
      refine (blocked_no_needs _ _ _ _ _ _ _ _ (clipboard_ok_all None _) Hq _ _ _ _ _ _ HI HA Hb Ht _).
      * intros t0 pc0 l0 Hh. apply Nat.eqb_eq in Hh as ->. eexists. split; [reflexivity|exact I].
      * unfold needs. rewrite Hpc. done.
Qed.

(** A write that finds no room (the position is at the end of the clipboard, or
    nothing is to be written) never returns: in every later state the process is
    still in the loop that waits for room. *)
Theorem clipboard_write_never_returns mem ss cf cf' t th :
  zlen mem = CLIPBOARD_SIZE -> rtc (step code) (system mem ss) cf -> rtc (step code) cf cf' ->
  threads cf !! t = Some th -> waits_for_room (t_pc th) = true -> remaining_bytes (t_loc th) = 0 ->
  exists th', threads cf' !! t = Some th' /\ waits_for_room (t_pc th') = true /\ results (t_loc th') = results (t_loc th).
Proof.
  intros Hm Hr Hr' Ht Hpc Hrem. destruct (clip_reach _ _ _ Hm Hr) as [HI _].
  set (d := Some (t, results (t_loc th))).
  assert (INV d (length ss) cf) as HI1.
  { destruct HI as [H1 H2 H3 H4 H5 H6 H7]. constructor; try done. intros t' th' Ht'.
    destruct (H7 t' th' Ht') as (? & ? & ? & ? & ? & _). unfold lsays. split_and!; try done; try lia.
    intros ->. by simplify_eq. }
  assert (INV d (length ss) cf') as HI2.
  { eapply inv_reachable; [apply clip_weight_01|apply clipboard_ok_all|exact HI1|exact Hr']. }
  pose proof (inv_len _ _ _ _ _ _ _ _ _ HI1) as L1. pose proof (inv_len _ _ _ _ _ _ _ _ _ HI2) as L2.
  assert (exists th', threads cf' !! t = Some th') as [th' Ht'].
  { apply lookup_lt_is_Some. apply lookup_lt_Some in Ht. lia. }
  exists th'. destruct (inv_lsays _ _ _ _ _ _ _ _ _ HI2 _ _ Ht') as (_ & _ & _ & _ & _ & Hd).
  destruct (Hd eq_refl) as (? & _ & ?). done.
Qed.

(** A process reads and gets its bytes with the interrupt, another reads after it
    and sleeps, a third one writes nothing. *)
Definition turns (t n : nat) : list (nat * nat) := replicate n (t, 0%nat).
Definition demo_mem : list byte := replicate 4096 Byte.x00.
Definition demo_system : config kmem local :=
  system demo_mem [[OpRead 4 4]; [OpInterrupt]; [OpRead 4 4]; [OpWrite [] 0]].
Definition demo_end : config kmem local :=
  run_schedule code (turns 0 30 ++ turns 1 30 ++ turns 0 40 ++ turns 2 30 ++ turns 3 30) demo_system.

Lemma demo_blocked : blocked code demo_end.
Proof. intros t k. destruct t as [|[|[|[|t]]]]; vm_compute; reflexivity. Qed.

Lemma demo_sleeper : exists th, threads demo_end !! 2%nat = Some th.
Proof. vm_compute. by eexists. Qed.

Lemma clipboard_no_lost_wakeup_witness :
  exists th, threads demo_end !! 2%nat = Some th /\
    (finished code 2 th \/ (2%nat ∈ clipboard_read_wq (Threads.mem demo_end) /\ flag (Threads.mem demo_end) = 0) \/
     waits_for_room (t_pc th) = true).
Proof.
  destruct demo_sleeper as [th Ht]. exists th. split; [exact Ht|]. revert Ht.
  apply (clipboard_no_lost_wakeup demo_mem [[OpRead 4 4]; [OpInterrupt]; [OpRead 4 4]; [OpWrite [] 0]] demo_end);
    [reflexivity|apply run_schedule_reachable|apply demo_blocked].
Defined.

(** What the calls returned: the writer never returns, whatever happens. *)
Theorem clipboard_empty_write :
  (fun th => results (t_loc th)) <$> threads demo_end = [[4]; [0]; []; []] /\
  forall cf, rtc (step code) demo_end cf ->
    exists th, threads cf !! 3%nat = Some th /\ results (t_loc th) = [].
Proof.
  split; [reflexivity|]. intros cf Hr.
  assert (exists th, threads demo_end !! 3%nat = Some th /\ waits_for_room (t_pc th) = true /\
    remaining_bytes (t_loc th) = 0 /\ results (t_loc th) = []) as (th & Ht & Hpc & Hrem & Hres)
    by (vm_compute; eexists; split; [reflexivity|done]).
  destruct (clipboard_write_never_returns demo_mem [[OpRead 4 4]; [OpInterrupt]; [OpRead 4 4]; [OpWrite [] 0]]
    demo_end cf 3 th eq_refl (run_schedule_reachable _ _ _) Hr Ht Hpc Hrem) as (th' & ? & _ & ?).
  exists th'. split; [done|congruence].
Qed.
End ClipboardDev.
