(* ===== verification/BlkDev.v ===== *)
(** [src/kernel_standalone/blkdev/main.c]: a block device in memory.  Requests
    are shown to read back what was written; loading is shown to fail always. *)

From stdpp Require Import prelude strings list.
From Stdlib Require Import ZArith Lia.
From S2P Require Import Prelude Kernel.

Module BlkDev.
Open Scope prog_scope.

Definition MEMBLOCK_MAJOR : Z := 240.
Definition MEMBLOCK_SIZE : Z := 1024 * 1024.
Definition nsectors : Z := MEMBLOCK_SIZE / 512.

Record memblock_dev := mkDev { size : Z; data : list byte }.

(** One transfer; [None]: a byte outside the device or the buffer is accessed. *)
Definition memblock_transfer (dev : memblock_dev) (sector nsect : Z) (buffer : list byte) (write : bool) :
    option (memblock_dev * list byte) :=
  let offset := u64 (sector * 512) in
  let nbytes := u64 (nsect * 512) in
  if u64 (size dev) <? u64 (offset + nbytes) then Some (dev, buffer)
  else if (offset + nbytes <=? zlen (data dev)) && (nbytes <=? zlen buffer) then
    if write then Some (mkDev (size dev) (buf_put offset (buf_get 0 nbytes buffer) (data dev)), buffer)
    else Some (dev, buf_put 0 (buf_get offset nbytes (data dev)) buffer)
  else None.

(** The loop over the segments of a request; a segment is its buffer, whose
    length is [bv_len]. *)
Fixpoint segments (dev : memblock_dev) (sector : Z) (write : bool) (bvecs : list (list byte)) :
    option (memblock_dev * list (list byte)) :=
  match bvecs with
  | [] => Some (dev, [])
  | buffer :: rest =>
      let len := u32 (zlen buffer) in
      '(dev, buffer) ← memblock_transfer dev sector (len / 512) buffer write;
      '(dev, rest) ← segments dev (u64 (sector + len / 512)) write rest;
      Some (dev, buffer :: rest)
  end.

Definition BLK_STS_OK : Z := 0.

(** The request is always reported as done. *)
Definition memblock_request (dev : memblock_dev) (sector : Z) (write : bool) (bvecs : list (list byte)) :
    option (Z * memblock_dev * list (list byte)) :=
  '(dev, bvecs) ← segments dev sector write bvecs;
  Some (BLK_STS_OK, dev, bvecs).

(** The geometry of the disk: heads, cylinders, sectors, start. *)
Definition memblock_getgeo : Z * Z * Z * Z := (1, 32, 32, 0).

(** ** Loading *)
Section load.
(** The major number the kernel picks when it is asked to, and the initial
    value of the static variable [memblock_major]. *)
Context (dyn memblock_major0 : Z).

Definition static : Type := option nat * option nat * Z.

Definition memblock_init : K (Z * static) :=
  let! memblock_device := kmalloc in
  match memblock_device with
  | None => pret (- ENOMEM, (None, None, memblock_major0))
  | Some _ =>
  let! data := vmalloc in
  match data with
  | None => kfree memblock_device ;;; pret (- ENOMEM, (memblock_device, None, memblock_major0))
  | Some _ =>
  let! memblock_major := register_blkdev dyn memblock_major0 in
  let ret r : K (Z * static) := pret (r, (memblock_device, data, memblock_major)) in
  if memblock_major <=? 0 then
    vfree data ;;; kfree memblock_device ;;; ret (- EBUSY) else
  let! err := blk_mq_alloc_sq_tag_set in
  if negb (err =? 0) then
    unregister_blkdev memblock_major ;;; vfree data ;;; kfree memblock_device ;;; ret err else
  let! gd := blk_mq_alloc_disk in
  if negb (gd =? 0) then
    blk_mq_free_tag_set ;;; unregister_blkdev memblock_major ;;; vfree data ;;; kfree memblock_device ;;;
    deref memblock_device ;;; ret gd else
  let! err := add_disk in
  if negb (err =? 0) then
    put_disk ;;; blk_mq_free_tag_set ;;; unregister_blkdev memblock_major ;;; vfree data ;;;
    kfree memblock_device ;;; ret err else
  ret 0
  end end.

Definition memblock_exit (g : static) : K unit :=
  let '(memblock_device, data, memblock_major) := g in
  match memblock_device with
  | None => pret tt
  | Some _ =>
      del_gendisk ;;; put_disk ;;; blk_mq_free_tag_set ;;; unregister_blkdev memblock_major ;;;
      vfree data ;;; kfree memblock_device
  end.

Definition memblock : driver := mkDriver static memblock_init memblock_exit.
End load.

(** * Requests *)

Definition wf_dev (dev : memblock_dev) : Prop := size dev = MEMBLOCK_SIZE /\ zlen (data dev) = MEMBLOCK_SIZE.

(** Buffers of whole sectors that together end before the end of the device. *)
Definition whole (b : list byte) : Prop := (512 | zlen b).
Definition fits (sector : Z) (bvecs : list (list byte)) : Prop :=
  0 <= sector /\ sector * 512 + zlen (concat bvecs) <= MEMBLOCK_SIZE.

Lemma transfer_in dev sector b write :
  wf_dev dev -> 0 <= sector -> whole b -> sector * 512 + zlen b <= MEMBLOCK_SIZE ->
  memblock_transfer dev sector (u32 (zlen b) / 512) b write =
    Some (if write then (mkDev (size dev) (buf_put (sector * 512) b (data dev)), b)
          else (dev, buf_get (sector * 512) (zlen b) (data dev))).
Proof.
  unfold MEMBLOCK_SIZE. intros [Hs Hd] H0 [k Hk] Hf. unfold MEMBLOCK_SIZE in *. cint.
  assert (zlen b / 512 * 512 = zlen b) as Hm by (rewrite Hk, Z.div_mul; lia).
  unfold memblock_transfer. rewrite Hm, Hs. cint.
  rewrite (proj2 (Z.ltb_ge _ _)) by lia. rewrite (proj2 (Z.leb_le _ _)), Z.leb_refl by lia. cbn [andb].
  assert (buf_get 0 (zlen b) b = b) as E by (unfold buf_get; cbn; rewrite Nat2Z.id; apply take_ge; lia).
  destruct write; [by rewrite E|]. do 2 f_equal. unfold buf_put. cbn.
  pose proof (length_buf_get (sector * 512) (zlen b) (data dev) ltac:(lia) ltac:(lia) ltac:(lia)).
  rewrite drop_ge by lia. by rewrite app_nil_r.
Qed.

Lemma sector_step sector b : 0 <= sector -> whole b -> sector * 512 + zlen b <= MEMBLOCK_SIZE ->
  u64 (sector + u32 (zlen b) / 512) * 512 = sector * 512 + zlen b /\ 0 <= u64 (sector + u32 (zlen b) / 512).
Proof.
  unfold MEMBLOCK_SIZE. intros H0 [k Hk] Hf. cint. rewrite Hk, Z.div_mul by lia. rewrite u64_small by lia. lia.
Qed.

Lemma buf_put_app {A} (o : Z) (d1 d2 l : list A) :
  0 <= o -> o + zlen d1 + zlen d2 <= zlen l ->
  buf_put (o + zlen d1) d2 (buf_put o d1 l) = buf_put o (d1 ++ d2) l.
Proof.
  intros. unfold buf_put.
  replace (Z.to_nat (o + zlen d1)) with (Z.to_nat o + length d1)%nat by lia.
  assert (length (take (Z.to_nat o) l ++ d1) = (Z.to_nat o + length d1)%nat) as E by (rewrite length_app, length_take; lia).
  rewrite (app_assoc (take (Z.to_nat o) l) d1), (take_app_length' (take (Z.to_nat o) l ++ d1)) by lia.
  rewrite (drop_app_ge (take (Z.to_nat o) l ++ d1)) by lia. rewrite E, drop_drop, length_app, <- !app_assoc.
  do 4 f_equal. lia.
Qed.

(** A write request stores its buffers one after the other. *)
Lemma segments_write dev sector bvecs :
  wf_dev dev -> Forall whole bvecs -> fits sector bvecs ->
  segments dev sector true bvecs = Some (mkDev (size dev) (buf_put (sector * 512) (concat bvecs) (data dev)), bvecs).
Proof.
  revert dev sector. induction bvecs as [|b bvecs IH]; intros dev sector Hwf Hall [H0 Hf].
  - cbn. unfold buf_put. cbn. rewrite Nat.add_0_r, take_drop. by destruct dev.
  - inversion_clear Hall as [|? ? Hb Hrest]. cbn [concat] in Hf. rewrite length_app in Hf.
    cbn [segments]. rewrite transfer_in by (done || lia). cbn [mbind option_bind].
    destruct (sector_step sector b H0 Hb ltac:(lia)) as [Hs Hs0].
    pose proof Hwf as [Hsz Hd].
    rewrite IH; [|split; cbn; [done|rewrite length_buf_put; [done|lia..]]|done|split; lia].
    cbn [mbind option_bind size data]. rewrite Hs, buf_put_app by lia. done.
Qed.

(** A read request returns what the device holds there. *)
Lemma segments_read dev sector bvecs :
  wf_dev dev -> Forall whole bvecs -> fits sector bvecs ->
  exists out, segments dev sector false bvecs = Some (dev, out) /\
    concat out = buf_get (sector * 512) (zlen (concat bvecs)) (data dev) /\ length <$> out = length <$> bvecs.
Proof.
  revert sector. induction bvecs as [|b bvecs IH]; intros sector Hwf Hall [H0 Hf].
  - by exists [].
  - inversion_clear Hall as [|? ? Hb Hrest]. cbn [concat] in Hf. rewrite length_app in Hf.
    cbn [segments]. rewrite transfer_in by (done || lia). cbn [mbind option_bind].
    destruct (sector_step sector b H0 Hb ltac:(lia)) as [Hs Hs0].
    destruct (IH (u64 (sector + u32 (zlen b) / 512)) Hwf Hrest) as (out & -> & Hc & Hl); [split; lia|].
    cbn [mbind option_bind]. eexists. split; [done|]. cbn [concat fmap list_fmap]. pose proof Hwf as [Hsz Hd].
    rewrite Hc, Hs, Hl, length_app, Nat2Z.inj_add, <- buf_get_split by lia. split; [done|]. f_equal.
    pose proof (length_buf_get (sector * 512) (zlen b) (data dev) ltac:(lia) ltac:(lia) ltac:(lia)). lia.
Qed.

(** C30: Within the device, and with segments of whole sectors, a request that reads
    the sectors of an earlier write gets the bytes that were written, however the two are cut into segments, and the
    write changes no other byte. *)
Theorem memblock_roundtrip dev sector ws rs :
  wf_dev dev -> Forall whole ws -> Forall whole rs -> fits sector ws -> length (concat rs) = length (concat ws) ->
  exists dev' out,
    memblock_request dev sector true ws = Some (BLK_STS_OK, dev', ws) /\
    memblock_request dev' sector false rs = Some (BLK_STS_OK, dev', out) /\
    concat out = concat ws /\ wf_dev dev' /\ data dev' = buf_put (sector * 512) (concat ws) (data dev).
Proof.
  intros Hwf Hw Hr Hf Hl. unfold memblock_request. rewrite segments_write by done. cbn [mbind option_bind].
  pose proof Hwf as [Hsz Hd]. destruct Hf as [H0 Hf]. set (dev' := mkDev _ _).
  assert (wf_dev dev') as Hwf' by (split; cbn; [done|rewrite length_buf_put; [done|lia..]]).
  destruct (segments_read dev' sector rs Hwf' Hr) as (out & Er & Hc & _); [split; lia|].
  exists dev', out. rewrite Er. split; [done|split; [done|split; [|done]]].
  rewrite Hc, Hl. unfold dev'. cbn [data]. apply buf_get_put_eq; lia.
Qed.

(** A transfer past the end of the device moves nothing, and the request is
    reported as done all the same. *)
Theorem memblock_beyond_end dev sector b write :
  wf_dev dev -> 0 <= sector < 18014398509481984 -> zlen b < 4294967296 -> whole b -> MEMBLOCK_SIZE < sector * 512 + zlen b ->
  memblock_request dev sector write [b] = Some (BLK_STS_OK, dev, [b]).
Proof.
  unfold MEMBLOCK_SIZE. intros [Hs Hd] H0 Hb [k Hk] Hf. unfold MEMBLOCK_SIZE in *.
  unfold memblock_request. cbn [segments]. unfold memblock_transfer. cint.
  assert (zlen b / 512 * 512 = zlen b) as Hm by (rewrite Hk, Z.div_mul; lia). rewrite Hm, Hs.
  cint. rewrite (proj2 (Z.ltb_lt _ _)) by lia. done.
Qed.

(** An empty device. *)
Definition disk : memblock_dev := mkDev MEMBLOCK_SIZE (replicate (Z.to_nat MEMBLOCK_SIZE) Byte.x00).
Lemma disk_wf : wf_dev disk.
Proof.
  split; [reflexivity|]. unfold disk, data. rewrite length_replicate, Z2Nat.id; [reflexivity|]. unfold MEMBLOCK_SIZE. lia.
Qed.

Lemma memblock_roundtrip_witness :
  exists dev' out,
    memblock_request disk 3 true [replicate 1024 Byte.x05] = Some (BLK_STS_OK, dev', [replicate 1024 Byte.x05]) /\
    memblock_request dev' 3 false [replicate 512 Byte.x00; replicate 512 Byte.x00] = Some (BLK_STS_OK, dev', out) /\
    concat out = replicate 1024 Byte.x05.
Proof.
  destruct (memblock_roundtrip disk 3 [replicate 1024 Byte.x05] [replicate 512 Byte.x00; replicate 512 Byte.x00])
    as (dev' & out & H1 & H2 & H3 & _).
  - apply disk_wf.
  - constructor; [exists 2; reflexivity|constructor].
  - constructor; [exists 1; reflexivity|constructor; [exists 1; reflexivity|constructor]].
  - split; [lia|]. vm_compute. discriminate.
  - reflexivity.
  - exists dev', out. split; [exact H1|split; [exact H2|exact H3]].
Defined.

Lemma memblock_beyond_end_witness :
  memblock_request disk 2048 true [replicate 512 Byte.x01] = Some (BLK_STS_OK, disk, [replicate 512 Byte.x01]).
Proof.
  apply (memblock_beyond_end disk 2048 (replicate 512 Byte.x01) true);
    [apply disk_wf|lia|reflexivity|exists 1; reflexivity|reflexivity].
Defined.

(** * Loading *)

Lemma wp_register_blkdev X dyn major Q l n ans :
  (forall ans', Q (if major =? 0 then dyn else 0) (mkKern (RBlkMajor (if major =? 0 then dyn else major) :: l) n ans')) ->
  (forall a ans', a < 0 -> Q a (mkKern l n ans')) ->
  wp (register_blkdev dyn major) Q X (mkKern l n ans).
Proof.
  intros H1 H2. unfold register_blkdev. cbv zeta. apply wp_bind, wp_try_acquire.
  - intros ans'. cbn [Z.eqb]. apply wp_ret. destruct (major =? 0); apply H1.
  - intros a ans' Ha. rewrite (proj2 (Z.eqb_neq a 0)) by lia. apply wp_ret. by apply H2.
Qed.

Lemma wp_register_dynamic X dyn Q l n a ans :
  (a = 0 -> Q dyn (mkKern (RBlkMajor dyn :: l) n ans)) -> (forall b, b < 0 -> Q b (mkKern l n ans)) ->
  wp (register_blkdev dyn 0) Q X (mkKern l n (a :: ans)).
Proof.
  intros H1 H2. unfold register_blkdev. cbv zeta. cbn [Z.eqb]. apply wp_bind, wp_try_acquire_cons.
  - intros Ha. apply wp_ret. by apply H1.
  - intros b Hb. rewrite (proj2 (Z.eqb_neq b 0)) by lia. apply wp_ret. by apply H2.
Qed.

(** Giving back a resource whose number is a variable. *)
Ltac give_back :=
  lazymatch goal with
  | |- wp (pbind _ _) _ _ _ => apply wp_bind
  | |- wp (release _) _ _ _ =>
      apply wp_release;
      [repeat (apply list_elem_of_here || apply list_elem_of_further)
      |cbn [remove_one]; repeat (rewrite decide_True by done || rewrite decide_False by done)]
  | |- wp (pret _) _ _ _ => apply wp_ret
  | |- wp (kfree (Some _)) _ _ _ => unfold kfree
  | |- wp ?m _ _ _ => let h := head_of m in unfold h; cbv beta zeta
  end.

(** The driver never loads: [register_blkdev] returns 0 when it has registered
    the major number it was given, and [memblock_init] takes every result that is not
    positive for a failure.  It then returns without giving the number back. *)
Theorem memblock_never_loads dyn ans :
  wp (memblock_init dyn MEMBLOCK_MAJOR)
    (fun rg s => (rg.1 = - ENOMEM \/ rg.1 = - EBUSY) /\ (live s = [] \/ live s = [RBlkMajor 240]))
    (fun _ _ => False) (fresh_kern ans) /\
  memblock_init dyn MEMBLOCK_MAJOR (fresh_kern []) =
    (Val (- EBUSY, (Some 0%nat, Some 1%nat, 0)), mkKern [RBlkMajor 240] 2 []).
Proof.
  split; [|done]. unfold memblock_init, fresh_kern, vmalloc, vfree. apply wp_bind, wp_kmalloc; intros ans1; [|by apply wp_ret; auto].
  apply wp_bind, wp_kmalloc; intros ans2; [|repeat drv_step; auto].
  apply wp_bind, wp_register_blkdev; cbn [MEMBLOCK_MAJOR Z.eqb].
  - intros ans3. cbv zeta. cbn [Z.leb Z.compare]. repeat drv_step; cbn; auto.
  - intros a ans3 Ha. cbv zeta. rewrite (proj2 (Z.leb_le a 0)) by lia. repeat drv_step; cbn; auto.
Qed.

(** With a major number of the kernel's choosing the module would load, and
    unload without leaving anything behind; every failure on the way is undone, except
    that an error from [blk_mq_alloc_disk] is fetched from memory that has been freed. *)
Theorem memblock_dynamic_major dyn a b c d ans :
  0 < dyn ->
  clean (memblock dyn 0) (a :: b :: c :: d :: 0 :: ans) /\
  (memblock_init 254 0 (fresh_kern [0; 0; 0; 0; 12])).1 = Stuck.
Proof.
  intros Hd. split; [|reflexivity].
  unfold clean, unloads, fresh_kern, memblock. cbn [d_init d_exit d_static]. unfold memblock_init, vmalloc, vfree.
  apply wp_bind, wp_kmalloc_cons; [intros _|by apply wp_ret].
  apply wp_bind, wp_kmalloc_cons; [intros _|repeat drv_step].
  apply wp_bind, wp_register_dynamic; [intros _|]; cbv zeta.
  - rewrite (proj2 (Z.leb_gt dyn 0)) by lia. apply wp_bind. unfold blk_mq_alloc_sq_tag_set.
    apply wp_try_acquire_cons; [intros _|intros e He]; [|rewrite (proj2 (Z.eqb_neq e 0)) by lia]; cbn [negb Z.eqb].
    + apply wp_bind. unfold blk_mq_alloc_disk. apply wp_try_acquire_ok. cbn [negb Z.eqb].
      apply wp_bind. unfold add_disk.
      apply wp_try_acquire; [intros ans'|intros e ans' He]; [|rewrite (proj2 (Z.eqb_neq e 0)) by lia]; cbn [negb Z.eqb].
      * apply wp_ret. cbn [fst snd Z.eqb]. repeat give_back. reflexivity.
      * repeat give_back. cbn [fst snd]. rewrite (proj2 (Z.eqb_neq e 0)) by lia. reflexivity.
    + repeat give_back. cbn [fst snd]. rewrite (proj2 (Z.eqb_neq e 0)) by lia. reflexivity.
  - intros e He. rewrite (proj2 (Z.leb_le e 0)) by lia. repeat drv_step.
Qed.

Lemma memblock_dynamic_major_witness : clean (memblock 254 0) [0; 0; 0; 0; 0; -5].
Proof. apply (memblock_dynamic_major 254 0 0 0 0 [-5]). lia. Defined.
End BlkDev.
