(* ===== verification/KMem.v ===== *)
(** The memory calls of the kernel as the drivers of [src/kernel] use them: blocks of
    kernel memory, pages, the areas a process has mapped, and what happens when the
    process touches them.  Freeing or using memory that is not allocated is a fault
    ([Stuck]).  What the kernel is free to choose (where a block or an area is placed,
    whether a call fails) comes from an oracle.  Nothing here translates code of the
    repository. *)

From stdpp Require Import prelude list gmap.
From Stdlib Require Import ZArith Lia.
From S2P Require Import Prelude Kernel.

Open Scope prog_scope.

Definition PAGE_SIZE : Z := 4096.
Definition TASK_SIZE : Z := 140737488351232.
Definition EINVAL : Z := 22.
Definition page_up (n : Z) : Z := (n + (PAGE_SIZE - 1)) / PAGE_SIZE * PAGE_SIZE.
(** The least order whose pages hold [n] bytes. *)
Definition get_order (n : Z) : Z := Z.log2_up (page_up n / PAGE_SIZE).
(** [IS_ERR_VALUE] of an unsigned long. *)
Definition IS_ERR_VALUE (x : Z) : bool := u64 (- 4095) <=? x.

(** Conversion to a character. *)
Definition to_byte (z : Z) : byte := default Byte.x00 (Byte.of_N (Z.to_N (z mod 256))).

(** * State *)

Inductive alloc := AKmalloc | APages (order : Z).
#[global] Instance alloc_eq_dec : EqDecision alloc.
Proof. solve_decision. Defined.

(** A block, with its address modulo the page size. *)
Record block := mkBlock { b_kind : alloc; b_mis : Z; b_data : list byte }.
(** A pointer is NULL or a block and an offset in it; a page is given by a block and
    its number, counted from the page of the block's first byte. *)
Definition kptr : Type := option (nat * Z).
Definition page : Type := nat * Z.

(** An area of a process.  [vm_mine]: it has the driver's [vm_ops]; [vm_pfn]: the pages
    that [remap_pfn_range] put there. *)
Record vma := mkVma { vm_start : Z; vm_end : Z; vm_private_data : kptr; vm_mine : bool; vm_pfn : option page }.

(** [reserved] are the pages that carry the mark of [SetPageReserved]: a mark stays when
    the block is freed.  [junk] is what fresh memory holds, [statics] the variables of
    the driver. *)
Record mm (S : Type) := mkMm {
  heap : gmap nat block;
  next_block : nat;
  vmas : list vma;
  reserved : gset page;
  tick : nat;
  oracle : nat -> Z;
  junk : nat -> nat -> byte;
  statics : S;
}.
Arguments mkMm {S} _ _ _ _ _ _ _ _.
Arguments heap {S} _.
Arguments next_block {S} _.
Arguments vmas {S} _.
Arguments reserved {S} _.
Arguments tick {S} _.
Arguments oracle {S} _ _.
Arguments junk {S} _ _ _.
Arguments statics {S} _.

Section calls.
Context {S : Type}.
Abbreviation M := (prog (mm S)).

Definition set_heap (h : gmap nat block) (s : mm S) : mm S :=
  mkMm h (next_block s) (vmas s) (reserved s) (tick s) (oracle s) (junk s) (statics s).
Definition set_vmas (v : list vma) (s : mm S) : mm S :=
  mkMm (heap s) (next_block s) v (reserved s) (tick s) (oracle s) (junk s) (statics s).
Definition set_reserved (r : gset page) (s : mm S) : mm S :=
  mkMm (heap s) (next_block s) (vmas s) r (tick s) (oracle s) (junk s) (statics s).
Definition set_statics (x : S) (s : mm S) : mm S :=
  mkMm (heap s) (next_block s) (vmas s) (reserved s) (tick s) (oracle s) (junk s) x.

Definition answer : M Z := fun s =>
  (Val (oracle s (tick s)), mkMm (heap s) (next_block s) (vmas s) (reserved s) (1 + tick s) (oracle s) (junk s) (statics s)).

(** * Blocks *)

Definition fresh (j : nat -> byte) (n : Z) : list byte := j <$> seq 0 (Z.to_nat n).
Definition new_block (kind : alloc) (mis n : Z) : M kptr := fun s =>
  (Val (Some (next_block s, 0)),
   mkMm (<[next_block s := mkBlock kind mis (fresh (junk s (next_block s)) n)]> (heap s)) (1 + next_block s)
     (vmas s) (reserved s) (tick s) (oracle s) (junk s) (statics s)).

(** Zero bytes are allocated at the address 16. *)
Definition kmalloc (n : Z) : M kptr :=
  let! a := answer in
  if a <? 0 then pret None else new_block AKmalloc (if n =? 0 then 16 else a mod PAGE_SIZE) n.
Definition get_free_pages (order : Z) : M kptr :=
  let! a := answer in
  if a <? 0 then pret None else new_block (APages order) 0 (2 ^ order * PAGE_SIZE).

Definition free_block (kind : alloc) (p : kptr) : M unit := fun s =>
  match p with
  | None => (Val tt, s)
  | Some (id, off) =>
      match heap s !! id with
      | Some b => if decide (b_kind b = kind /\ off = 0) then (Val tt, set_heap (delete id (heap s)) s) else (Stuck, s)
      | None => (Stuck, s)
      end
  end.
Definition kfree : kptr -> M unit := free_block AKmalloc.
Definition free_pages (p : kptr) (order : Z) : M unit := free_block (APages order) p.

Definition at_block {A} (p : kptr) (k : nat -> Z -> block -> M A) : M A := fun s =>
  match p with
  | None => (Stuck, s)
  | Some (id, off) => match heap s !! id with Some b => k id off b s | None => (Stuck, s) end
  end.
(** The address modulo the page size. *)
Definition page_offset (p : kptr) : M Z :=
  match p with None => pret 0 | _ => at_block p (fun _ off b => pret ((b_mis b + off) mod PAGE_SIZE)) end.
Definition kstore (p : kptr) (d : list byte) : M unit :=
  at_block p (fun id off b =>
    if (0 <=? off) && (off + zlen d <=? zlen (b_data b)) then
      pmodify (fun s => set_heap (<[id := mkBlock (b_kind b) (b_mis b) (buf_put off d (b_data b))]> (heap s)) s)
    else pstuck).
Definition kload (p : kptr) (n : Z) : M (list byte) :=
  at_block p (fun _ off b =>
    if (0 <=? off) && (0 <=? n) && (off + n <=? zlen (b_data b)) then pret (buf_get off n (b_data b)) else pstuck).
Definition memset (p : kptr) (v : byte) (n : Z) : M unit := kstore p (replicate (Z.to_nat n) v).
Definition ptr_add (p : kptr) (n : Z) : kptr := prod_map id (Z.add n) <$> p.

(** * Pages and areas *)

Definition virt_to_page (p : kptr) : M page :=
  at_block p (fun id off b => pret (id, (b_mis b + off) / PAGE_SIZE)).
Definition SetPageReserved (pg : page) : M unit := pmodify (fun s => set_reserved ({[pg]} ∪ reserved s) s).
(** The pointer behind offset [o] of a page. *)
Definition page_ptr (pg : page) (o : Z) : M kptr :=
  at_block (Some (pg.1, 0)) (fun id _ b => pret (Some (id, pg.2 * PAGE_SIZE + o - b_mis b))).

Definition vma_free (a b : Z) (v : vma) : bool := (vm_end v <=? a) || (b <=? vm_start v).

(** [vm_mmap] for a driver whose mmap operation is [mmap]; it returns an address or an
    error as an unsigned long. *)
Definition vm_mmap (mmap : vma -> M (Z * vma)) (len : Z) : M Z :=
  if len =? 0 then pret (u64 (- EINVAL)) else
  let! a := answer in
  let! s := pget in
  let e := a + page_up len in
  if (a <? PAGE_SIZE) || negb (a mod PAGE_SIZE =? 0) || (TASK_SIZE <? e) || negb (forallb (vma_free a e) (vmas s))
  then pret (u64 (- ENOMEM)) else
  let! '(res, v) := mmap (mkVma a e None false None) in
  if negb (res =? 0) then pret (u64 res) else
  pmodify (fun s => set_vmas (v :: vmas s) s) ;;;
  pret a.

(** What is left of an area, and what goes. *)
Definition keep (a b : Z) (v : vma) : list vma :=
  (if vm_start v <? a then [mkVma (vm_start v) (Z.min (vm_end v) a) (vm_private_data v) (vm_mine v) (vm_pfn v)] else []) ++
  (if b <? vm_end v then [mkVma (Z.max (vm_start v) b) (vm_end v) (vm_private_data v) (vm_mine v) (vm_pfn v)] else []).
Definition cut (a b : Z) (v : vma) : vma :=
  mkVma (Z.max (vm_start v) a) (Z.min (vm_end v) b) (vm_private_data v) (vm_mine v) (vm_pfn v).
Fixpoint unmap (close : vma -> M unit) (a b : Z) (l : list vma) : M (list vma) :=
  match l with
  | [] => pret []
  | v :: l =>
      let! r := unmap close a b l in
      if vma_free a b v then pret (v :: r) else
      (if vm_mine v then close (cut a b v) else pret tt) ;;;
      pret (keep a b v ++ r)
  end.
Definition vm_munmap (close : vma -> M unit) (a len : Z) : M Z :=
  if negb (a mod PAGE_SIZE =? 0) || (len =? 0) || (TASK_SIZE <? a + page_up len) then pret (- EINVAL) else
  let! x := answer in
  if x <? 0 then pret (- ENOMEM) else
  let! s := pget in
  let! l := unmap close a (a + page_up len) (vmas s) in
  pmodify (set_vmas l) ;;;
  pret 0.

(** The first area that ends above an address. *)
Definition find_vma (a : Z) : M (option vma) := fun s =>
  (Val (foldr (fun v r =>
      if a <? vm_end v then
        match r with Some v' => if vm_start v' <? vm_start v then r else Some v | None => Some v end
      else r) None (vmas s)), s).

(** [remap_pfn_range] over a whole area. *)
Definition remap_pfn_range (v : vma) (pg : page) : M (Z * vma) :=
  let! a := answer in
  if a <? 0 then pret (- ENOMEM, v) else
  pret (0, mkVma (vm_start v) (vm_end v) (vm_private_data v) (vm_mine v) (Some pg)).

(** * The process *)

(** An access to a mapped address, with the driver's fault handler. *)
Section user.
Context (fault : vma -> Z -> M page).

Definition user_ptr (a : Z) : M kptr := fun s =>
  match List.find (fun v => (vm_start v <=? a) && (a <? vm_end v) && vm_mine v) (vmas s) with
  | None => (Stuck, s)
  | Some v =>
      (let! pg := match vm_pfn v with
                  | Some (id, n) => pret (id, n + (a - vm_start v) / PAGE_SIZE)
                  | None => fault v (a - a mod PAGE_SIZE)
                  end in
       page_ptr pg (a mod PAGE_SIZE)) s
  end.
Definition user_store (a : Z) (v : byte) : M unit := let! p := user_ptr a in kstore p [v].
Definition user_load (a : Z) : M byte :=
  let! p := user_ptr a in let! d := kload p 1 in pret (List.hd Byte.x00 d).

Fixpoint user_memset (a : Z) (v : byte) (n : nat) : M unit :=
  match n with
  | O => pret tt
  | Datatypes.S n => user_store a v ;;; user_memset (a + 1) v n
  end.
End user.
End calls.

(** * Rules *)

Lemma length_fresh (f : nat -> byte) n : 0 <= n -> zlen (fresh f n) = n.
Proof. intros. unfold fresh. rewrite length_fmap, length_seq. lia. Qed.
Lemma page_up_bound n : n <= page_up n < n + PAGE_SIZE.
Proof.
  unfold page_up, PAGE_SIZE. pose proof (Z.div_mod (n + (4096 - 1)) 4096).
  pose proof (Z.mod_pos_bound (n + (4096 - 1)) 4096). lia.
Qed.

Lemma aligned_offset a i : a mod PAGE_SIZE = 0 -> (a + i) mod PAGE_SIZE = i mod PAGE_SIZE.
Proof. intros Ha. rewrite Z.add_mod, Ha, Z.add_0_l, Zmod_mod; done. Qed.

(** An area of [n] bytes at [a] is within the addresses of a process. *)
Definition placed (a n : Z) : Prop := PAGE_SIZE <= a /\ a mod PAGE_SIZE = 0 /\ a + page_up n <= TASK_SIZE.

Lemma placed_no_err a n : 0 <= n -> placed a n -> IS_ERR_VALUE a = false.
Proof.
  intros Hn (H1 & _ & H3). pose proof (page_up_bound n). unfold IS_ERR_VALUE, TASK_SIZE, PAGE_SIZE in *.
  apply Z.leb_gt. change (u64 (- 4095)) with 18446744073709547521. lia.
Qed.

Lemma pbind_val {St A B} (m : prog St A) (k : A -> prog St B) s a s' :
  m s = (Val a, s') -> pbind m k s = k a s'.
Proof. unfold pbind. by intros ->. Qed.

Section rules.
Context {S : Type}.
Implicit Types (h : gmap nat block) (v : list vma) (rs : gset page) (st : S) (o : nat -> Z) (j : nat -> nat -> byte).

Lemma kmalloc_ok n h k v rs t o j st : 0 <= o t -> 0 < n ->
  kmalloc n (mkMm h k v rs t o j st) =
    (Val (Some (k, 0)), mkMm (<[k := mkBlock AKmalloc (o t mod PAGE_SIZE) (fresh (j k) n)]> h) (1 + k) v rs (1 + t) o j st).
Proof.
  intros Ho Hn. unfold kmalloc, answer, pbind. cbn [oracle tick heap next_block vmas reserved junk statics].
  destruct (Z.ltb_spec (o t) 0); [lia|]. destruct (Z.eqb_spec n 0); [lia|]. done.
Qed.
Lemma kmalloc_fails n h k v rs t o j st : o t < 0 ->
  kmalloc n (mkMm h k v rs t o j st) = (Val None, mkMm h k v rs (1 + t) o j st).
Proof.
  intros Ho. unfold kmalloc, answer, pbind. cbn [oracle tick heap next_block vmas reserved junk statics].
  destruct (Z.ltb_spec (o t) 0); [done|lia].
Qed.

Lemma vm_mmap_ok mmap n h k v rs t o j st w s' :
  0 < n -> placed (o t) n -> forallb (vma_free (o t) (o t + page_up n)) v = true ->
  mmap (mkVma (o t) (o t + page_up n) None false None) (mkMm h k v rs (1 + t) o j st) = (Val (0, w), s') ->
  vm_mmap mmap n (mkMm h k v rs t o j st) = (Val (o t), set_vmas (w :: vmas s') s').
Proof.
  intros Hn (H1 & H2 & H3) Hv Hm. unfold vm_mmap. destruct (Z.eqb_spec n 0); [lia|].
  erewrite pbind_val by reflexivity. erewrite pbind_val by reflexivity.
  cbn [oracle tick heap next_block vmas reserved junk statics]. rewrite H2, Hv. destruct (Z.ltb_spec (o t) PAGE_SIZE); [lia|].
  destruct (Z.ltb_spec TASK_SIZE (o t + page_up n)); [lia|]. cbn [Z.eqb negb orb].
  by rewrite (pbind_val _ _ _ _ _ Hm).
Qed.

Lemma vm_munmap_ok close a n h k v rs t o j st l s' :
  0 < n -> placed a n -> 0 <= o t ->
  unmap close a (a + page_up n) v (mkMm h k v rs (1 + t) o j st) = (Val l, s') ->
  vm_munmap close a n (mkMm h k v rs t o j st) = (Val 0, set_vmas l s').
Proof.
  intros Hn (H1 & H2 & H3) Ho Hm. unfold vm_munmap. rewrite H2. destruct (Z.eqb_spec n 0); [lia|].
  destruct (Z.ltb_spec TASK_SIZE (a + page_up n)); [lia|]. cbn [Z.eqb negb orb].
  erewrite pbind_val by reflexivity. cbn [oracle tick heap next_block vmas reserved junk statics].
  destruct (Z.ltb_spec (o t) 0); [lia|]. erewrite pbind_val by reflexivity. cbn [vmas]. by rewrite (pbind_val _ _ _ _ _ Hm).
Qed.

(** An address that is no multiple of the page size is refused. *)
Lemma vm_munmap_odd close a n (s : mm S) : a mod PAGE_SIZE <> 0 -> vm_munmap close a n s = (Val (- EINVAL), s).
Proof. intros Ha. unfold vm_munmap. by rewrite (proj2 (Z.eqb_neq _ _) Ha). Qed.

Lemma kstore_ok id off d b (s : mm S) :
  heap s !! id = Some b -> 0 <= off -> off + zlen d <= zlen (b_data b) ->
  kstore (Some (id, off)) d s =
    (Val tt, set_heap (<[id := mkBlock (b_kind b) (b_mis b) (buf_put off d (b_data b))]> (heap s)) s).
Proof.
  intros Hb H0 H1. unfold kstore, at_block. rewrite Hb. destruct (Z.leb_spec 0 off); [|lia].
  destruct (Z.leb_spec (off + zlen d) (zlen (b_data b))); [|lia]. done.
Qed.
Lemma kload_ok id off n b (s : mm S) :
  heap s !! id = Some b -> 0 <= off -> 0 <= n -> off + n <= zlen (b_data b) ->
  kload (Some (id, off)) n s = (Val (buf_get off n (b_data b)), s).
Proof.
  intros Hb H0 H1 H2. unfold kload, at_block. rewrite Hb. destruct (Z.leb_spec 0 off), (Z.leb_spec 0 n); try lia.
  destruct (Z.leb_spec (off + n) (zlen (b_data b))); [|lia]. done.
Qed.
Lemma free_ok kind id b (s : mm S) :
  heap s !! id = Some b -> b_kind b = kind -> free_block kind (Some (id, 0)) s = (Val tt, set_heap (delete id (heap s)) s).
Proof. intros Hb Hk. unfold free_block. rewrite Hb. by rewrite decide_True. Qed.
Lemma free_dead kind id off (s : mm S) : heap s !! id = None -> free_block kind (Some (id, off)) s = (Stuck, s).
Proof. intros Hb. unfold free_block. by rewrite Hb. Qed.
End rules.
