(* ===== verification/MmapToUser.v ===== *)
(** [src/kernel/mod_mmap_to_user.c]: a driver whose ioctl allocates a buffer and maps it
    into the calling process, and [src/kernel/test_mmap_to_user.cc], the program that
    tries it.  What the kernel and the process write into the buffer is what the other
    reads, a session gives back all memory, and the test passes when the kernel grants
    what it asks for; theorems at the end show what is lost when it does not. *)

From stdpp Require Import prelude list gmap.
From Stdlib Require Import ZArith Lia.
From S2P Require Import Prelude Kernel KMem.

Module MmapToUser.
Open Scope prog_scope.

(** * The driver *)

(** The static variables, and [private_data] of the open file. *)
Record static := mkStatic { kptr_ : kptr; size : Z; uptr : Z; private_data : kptr }.
Abbreviation M := (prog (mm static)).
Definition do_kmalloc : bool := true.
Definition initial : static := mkStatic None (u32 (- 1)) (u64 (- 1)) None.

Definition set_kptr (p : kptr) : M unit :=
  pmodify (fun s => set_statics (mkStatic p (size (statics s)) (uptr (statics s)) (private_data (statics s))) s).
Definition set_size (n : Z) : M unit :=
  pmodify (fun s => set_statics (mkStatic (kptr_ (statics s)) n (uptr (statics s)) (private_data (statics s))) s).
Definition set_uptr (a : Z) : M unit :=
  pmodify (fun s => set_statics (mkStatic (kptr_ (statics s)) (size (statics s)) a (private_data (statics s))) s).
Definition set_private (p : kptr) : M unit :=
  pmodify (fun s => set_statics (mkStatic (kptr_ (statics s)) (size (statics s)) (uptr (statics s)) p) s).

Definition alloc_mem (size : Z) : M kptr :=
  let! kaddr := (if do_kmalloc then kmalloc size else get_free_pages (get_order size)) in
  let! o := page_offset kaddr in
  if negb (o =? 0) then pret None else pret kaddr.

Definition free_mem (kptr : kptr) (size : Z) : M unit :=
  if do_kmalloc then kfree kptr else free_pages kptr (get_order size).

(** The mmap operation, called by [vm_mmap]. *)
Definition kern_mmap (v : vma) : M (Z * vma) :=
  let! s := pget in
  pret (0, mkVma (vm_start v) (vm_end v) (private_data (statics s)) true (vm_pfn v)).

Definition kern_vma_close (_ : vma) : M unit := pret tt.

Definition kern_vma_fault (v : vma) (address : Z) : M page :=
  let offset := address - vm_start v in
  virt_to_page (ptr_add (vm_private_data v) offset).

Definition map_to_user (kptr : kptr) (size : Z) : M Z :=
  let! s := pget in
  let oldval := private_data (statics s) in
  set_private kptr ;;;
  let! mapped_uptr := vm_mmap kern_mmap size in
  set_private oldval ;;;
  pret mapped_uptr.

(** [memcheck] of [kernel_helper.h]. *)
Fixpoint memcheck_from (cbuf : list byte) (val : byte) : Z :=
  match cbuf with
  | [] => 0
  | c :: r => if Byte.eqb c val then memcheck_from r val else - EFAULT
  end.
Definition memcheck (buf : kptr) (val : byte) (size : Z) : M Z :=
  let! d := kload buf size in pret (memcheck_from d val).

Inductive command := IOCTL_DEMO_MAP | IOCTL_DEMO_UNMAP | IOCTL_DEMO_WRITE | IOCTL_DEMO_READ | IOCTL_DEMO_COPY | IOCTL_OTHER.

(** [arg] is the argument of the call, or for [IOCTL_DEMO_COPY] the address of [u]. *)
Definition kern_unlocked_ioctl (cmd : command) (arg : Z) (u : ubuf) : M (Z * ubuf) :=
  let ret r := pret (r, u) in
  match cmd with
  | IOCTL_DEMO_MAP =>
      set_size (u32 arg) ;;;
      let! s := pget in
      let! p := alloc_mem (size (statics s)) in
      set_kptr p ;;;
      match p with
      | None => ret (- EFAULT)
      | Some _ =>
          let! s := pget in
          let! a := map_to_user (kptr_ (statics s)) (size (statics s)) in
          set_uptr a ;;;
          if IS_ERR_VALUE a then ret (- EFAULT) else ret a
      end
  | IOCTL_DEMO_UNMAP =>
      let! s := pget in
      let! res := vm_munmap kern_vma_close (uptr (statics s)) (size (statics s)) in
      if negb (res =? 0) then ret res else
      let! s := pget in
      free_mem (kptr_ (statics s)) (size (statics s)) ;;;
      set_kptr None ;;; set_size (u32 (- 1)) ;;; set_uptr (u64 (- 1)) ;;;
      ret 0
  | IOCTL_DEMO_WRITE =>
      let! s := pget in
      match kptr_ (statics s) with
      | None => ret (- EFAULT)
      | p => memset p (to_byte arg) (size (statics s)) ;;; ret 0
      end
  | IOCTL_DEMO_READ =>
      let! s := pget in
      match kptr_ (statics s) with
      | None => ret (- EFAULT)
      | p => let! r := memcheck p (to_byte arg) (size (statics s)) in ret r
      end
  | IOCTL_DEMO_COPY =>
      let! s := pget in
      match kptr_ (statics s) with
      | None => ret (- EFAULT)
      | p => let! d := kload p (size (statics s)) in pret (copy_to_user u d)
      end
  | IOCTL_OTHER => ret (- EINVAL)
  end.

(** * The test *)

(** ioctl(2): the C function returns an int, and -1 for an error of the driver. *)
Definition ioctl (cmd : command) (arg : Z) : M Z :=
  let! '(r, _) := kern_unlocked_ioctl cmd arg (mkUbuf [] 0 0) in
  if (- 4096 <? r) && (r <? 0) then pret (- 1) else pret (s32 r).

Definition EXIT_FAILURE : Z := 1.
Definition CHECK_NOT_M1 (r : Z) : M Z := if r =? - 1 then pexit EXIT_FAILURE else pret r.
Definition CHECK_NOT_NULL (p : Z) : M Z := if p =? 0 then pexit EXIT_FAILURE else pret p.
Definition CHECK_NOT_VOIDP (p e : Z) : M Z := if p =? e then pexit EXIT_FAILURE else pret p.
Definition MAP_FAILED : Z := u64 (- 1).

(** [memcheck] of [us_helper.h], on mapped memory. *)
Fixpoint user_memcheck (a : Z) (val : byte) (n : nat) : M unit :=
  match n with
  | O => pret tt
  | S n =>
      let! c := user_load kern_vma_fault a in
      if Byte.eqb c val then user_memcheck (a + 1) val n else pexit EXIT_FAILURE
  end.

Definition single : M unit :=
  let size := 1000000 in
  let! r := ioctl IOCTL_DEMO_MAP size in
  let! ptr := CHECK_NOT_VOIDP (u64 r) MAP_FAILED in
  user_memset kern_vma_fault ptr (to_byte 97) (Z.to_nat size) ;;;
  let! r := ioctl IOCTL_DEMO_READ 97 in CHECK_NOT_M1 r ;;;
  let! r := ioctl IOCTL_DEMO_WRITE (97 + 1) in CHECK_NOT_M1 r ;;;
  user_memcheck ptr (to_byte (97 + 1)) (Z.to_nat size) ;;;
  let! r := ioctl IOCTL_DEMO_UNMAP 0 in CHECK_NOT_M1 r ;;;
  pret tt.

Definition count : Z := 10000.
Definition stress_round (i : Z) : M unit :=
  let size := (i mod 1000 + 1) * 4096 in
  let c := i mod 20 + 97 in
  let! r := ioctl IOCTL_DEMO_MAP size in
  let! ptr := CHECK_NOT_NULL (u64 r) in
  user_memset kern_vma_fault ptr (to_byte c) (Z.to_nat size) ;;;
  let! r := ioctl IOCTL_DEMO_READ c in CHECK_NOT_M1 r ;;;
  let! r := ioctl IOCTL_DEMO_WRITE (c + 1) in CHECK_NOT_M1 r ;;;
  user_memcheck ptr (to_byte (c + 1)) (Z.to_nat size) ;;;
  let! r := ioctl IOCTL_DEMO_UNMAP 0 in CHECK_NOT_M1 r ;;;
  pret tt.
Definition stress_loop (i : Z) : M (Z + unit) :=
  if i <? count then stress_round i ;;; pret (inl (i + 1)) else pret (inr tt).
Definition stress : M unit := iter (Z.to_nat count + 1) stress_loop 0.

Definition do_single : bool := false.
Definition do_stress : bool := true.
(** After the device has been opened. *)
Definition main : M Z :=
  (if do_single then single else pret tt) ;;;
  (if do_stress then stress else pret tt) ;;;
  pret 0.

Definition boot (o : nat -> Z) (j : nat -> nat -> byte) : mm static := mkMm ∅ 0 [] ∅ 0 o j initial.

(** * A session *)

Ltac fields := unfold set_statics, set_heap, set_vmas; cbn [heap next_block vmas reserved tick oracle junk statics size uptr kptr_ private_data].
Ltac run := erewrite pbind_val by reflexivity.

Section session.
Context (o : nat -> Z) (j : nat -> nat -> byte).

(** Nothing is mapped, or the buffer with contents [d] is mapped at [a]. *)
Definition idle (k t : nat) : mm static := mkMm ∅ k [] ∅ t o j initial.
Definition mapped (k t : nat) (a : Z) (d : list byte) : mm static :=
  mkMm {[k := mkBlock AKmalloc 0 d]} (S k) [mkVma a (a + page_up (zlen d)) (Some (k, 0)) true None] ∅ t o j
    (mkStatic (Some (k, 0)) (zlen d) a None).

Lemma session_map k t n u :
  0 < n < 4294967296 -> 0 <= o t -> o t mod PAGE_SIZE = 0 -> placed (o (1 + t)%nat) n ->
  kern_unlocked_ioctl IOCTL_DEMO_MAP n u (idle k t) =
    (Val (o (1 + t)%nat, u), mapped k (2 + t) (o (1 + t)%nat) (fresh (j k) n)).
Proof.
  intros Hn Ha Hmis Hp. unfold kern_unlocked_ioctl, idle. do 2 run. fields. rewrite u32_small by lia.
  erewrite (pbind_val (alloc_mem n)).
  2:{ unfold alloc_mem. cbn [do_kmalloc]. rewrite (pbind_val _ _ _ _ _ (kmalloc_ok n ∅ k [] ∅ t o j _ Ha ltac:(lia))).
      erewrite pbind_val. 2:{ unfold page_offset, at_block. fields. rewrite lookup_insert_eq. reflexivity. }
      cbn [b_mis]. rewrite Z.add_0_r, Zmod_mod, Hmis. reflexivity. }
  do 2 run. fields. erewrite (pbind_val (map_to_user _ _)).
  2:{ unfold map_to_user. do 2 run. fields.
      erewrite pbind_val; [|eapply vm_mmap_ok; [lia|exact Hp|reflexivity|reflexivity]]. reflexivity. }
  run. rewrite (placed_no_err _ n) by (lia || done). unfold mapped.
  rewrite length_fresh by lia. reflexivity.
Qed.

(** ** The calls while the buffer is mapped *)

Section buffer.
Context (k t : nat) (a : Z) (d : list byte).
Hypothesis Ha : placed a (zlen d).
Abbreviation now := (mapped k t a).

Lemma now_heap (d' : list byte) : heap (now d') !! k = Some (mkBlock AKmalloc 0 d').
Proof. apply lookup_singleton_eq. Qed.
Lemma now_store (d' d'' : list byte) : length d'' = length d' ->
  set_heap (<[k := mkBlock AKmalloc 0 d'']> (heap (now d'))) (now d') = now d''.
Proof. intros E. unfold mapped. fields. by rewrite insert_singleton_eq, E. Qed.

(** The fault handler finds the page and the access its byte. *)
Lemma user_ptr_ok (i : nat) : (i < length d)%nat ->
  user_ptr kern_vma_fault (a + Z.of_nat i) (now d) = (Val (Some (k, Z.of_nat i)), now d).
Proof using Ha.
  intros Hi. destruct Ha as (H1 & H2 & H3). pose proof (page_up_bound (zlen d)) as Hup. unfold user_ptr.
  cbn [vmas mapped List.find vm_start vm_end vm_mine].
  destruct (Z.leb_spec a (a + Z.of_nat i)); [|lia]. destruct (Z.ltb_spec (a + Z.of_nat i) (a + page_up (zlen d))); [|lia].
  cbn [andb vm_pfn]. unfold kern_vma_fault, virt_to_page, page_ptr, at_block, pbind.
  cbn [vm_private_data vm_start ptr_add fmap option_fmap option_map prod_map id fst snd].
  rewrite now_heap. cbn [pret fst snd]. rewrite now_heap. cbn [b_mis]. unfold pret. do 4 f_equal.
  rewrite aligned_offset, Z.add_0_r by done. replace (a + Z.of_nat i - Z.of_nat i mod PAGE_SIZE - a) with (Z.of_nat i / PAGE_SIZE * PAGE_SIZE).
  - rewrite Z.add_0_l, Z.div_mul by done. pose proof (Z.div_mod (Z.of_nat i) PAGE_SIZE). unfold PAGE_SIZE in *. lia.
  - pose proof (Z.div_mod (Z.of_nat i) PAGE_SIZE). unfold PAGE_SIZE in *. lia.
Qed.
Lemma user_store_ok (i : nat) v : (i < length d)%nat ->
  user_store kern_vma_fault (a + Z.of_nat i) v (now d) = (Val tt, now (<[i := v]> d)).
Proof using Ha.
  intros Hi. unfold user_store. rewrite (pbind_val _ _ _ _ _ (user_ptr_ok i Hi)).
  rewrite (kstore_ok _ _ _ _ _ (now_heap d)) by (cbn; lia). cbn [b_kind b_mis b_data]. rewrite buf_put_one by done.
  by rewrite now_store by (by rewrite length_insert).
Qed.
Lemma user_load_ok (i : nat) v : d !! i = Some v ->
  user_load kern_vma_fault (a + Z.of_nat i) (now d) = (Val v, now d).
Proof using Ha.
  intros Hv. pose proof (lookup_lt_Some _ _ _ Hv) as Hi. unfold user_load. rewrite (pbind_val _ _ _ _ _ (user_ptr_ok i Hi)).
  erewrite pbind_val; [|apply (kload_ok _ _ _ _ _ (now_heap d)); cbn; lia]. cbn [b_data]. by rewrite (buf_get_one _ v).
Qed.

Lemma session_write arg u :
  kern_unlocked_ioctl IOCTL_DEMO_WRITE arg u (now d) = (Val (0, u), now (replicate (length d) (to_byte arg))).
Proof.
  unfold kern_unlocked_ioctl. run. cbn [statics mapped kptr_ size]. erewrite pbind_val.
  2:{ unfold memset. rewrite Nat2Z.id. apply (kstore_ok _ _ _ _ _ (now_heap d)); [done|]. cbn. rewrite length_replicate. lia. }
  cbn [b_kind b_mis b_data]. rewrite buf_put_all by (by rewrite length_replicate).
  by rewrite now_store by (by rewrite length_replicate).
Qed.
Lemma session_load {A} (f : list byte -> M A) : pbind (kload (Some (k, 0)) (zlen d)) f (now d) = f d (now d).
Proof.
  erewrite pbind_val; [|apply (kload_ok _ _ _ _ _ (now_heap d)); cbn; lia]. cbn [b_data]. by rewrite buf_get_all.
Qed.
Lemma session_read arg u :
  kern_unlocked_ioctl IOCTL_DEMO_READ arg u (now d) = (Val (memcheck_from d (to_byte arg), u), now d).
Proof. unfold kern_unlocked_ioctl. run. cbn [statics mapped kptr_ size]. unfold memcheck. unfold pbind at 1. by rewrite session_load. Qed.
Lemma session_copy arg u : kern_unlocked_ioctl IOCTL_DEMO_COPY arg u (now d) = (Val (copy_to_user u d), now d).
Proof. unfold kern_unlocked_ioctl. run. cbn [statics mapped kptr_ size]. by rewrite session_load. Qed.

Lemma session_unmap arg u : (0 < length d)%nat -> 0 <= o t ->
  kern_unlocked_ioctl IOCTL_DEMO_UNMAP arg u (now d) = (Val (0, u), idle (S k) (1 + t)).
Proof using Ha.
  intros Hd Ho. unfold kern_unlocked_ioctl. run. cbn [statics mapped kptr_ size uptr].
  assert (unmap kern_vma_close a (a + page_up (zlen d)) (vmas (now d)) (mapped k (1 + t) a d) = (Val [], mapped k (1 + t) a d)) as Hu.
  { cbn [vmas mapped unmap]. run. unfold vma_free, keep, cut. cbn [vm_start vm_end vm_mine].
    pose proof (page_up_bound (zlen d)). destruct (Z.leb_spec (a + page_up (zlen d)) a); [lia|]. cbn [orb]. run.
    by rewrite !Z.ltb_irrefl. }
  unfold mapped at 1. erewrite pbind_val; [|eapply vm_munmap_ok; [lia|exact Ha|exact Ho|exact Hu]].
  cbn [Z.eqb negb]. run. unfold mapped. fields. unfold free_mem. cbn [do_kmalloc].
  erewrite pbind_val; [|eapply free_ok; [apply lookup_singleton_eq|done]]. do 3 run. fields.
  unfold pret, idle, initial. by rewrite delete_singleton_eq.
Qed.
End buffer.

(** ** The buffer as client and driver see it *)

Inductive op := OWrite (arg : Z) | ORead (arg : Z) | OCopy (u : ubuf) | OStore (i : nat) (v : byte) | OLoad (i : nat).
Inductive reply := RInt (r : Z) | RCopied (r : Z * ubuf) | RByte (v : byte) | RDone.

Definition no_buf : ubuf := mkUbuf [] 0 0.
(** The operations through the driver and through the mapping at [a]. *)
Definition run_op (a : Z) (x : op) : M reply :=
  match x with
  | OWrite arg => let! '(r, _) := kern_unlocked_ioctl IOCTL_DEMO_WRITE arg no_buf in pret (RInt r)
  | ORead arg => let! '(r, _) := kern_unlocked_ioctl IOCTL_DEMO_READ arg no_buf in pret (RInt r)
  | OCopy u => let! r := kern_unlocked_ioctl IOCTL_DEMO_COPY 0 u in pret (RCopied r)
  | OStore i v => user_store kern_vma_fault (a + Z.of_nat i) v ;;; pret RDone
  | OLoad i => let! v := user_load kern_vma_fault (a + Z.of_nat i) in pret (RByte v)
  end.
Fixpoint run_ops (a : Z) (l : list op) : M (list reply) :=
  match l with
  | [] => pret []
  | x :: l => let! r := run_op a x in let! rs := run_ops a l in pret (r :: rs)
  end.
Definition run_session (n : Z) (l : list op) : M (list reply * Z) :=
  let! '(a, _) := kern_unlocked_ioctl IOCTL_DEMO_MAP n no_buf in
  let! rs := run_ops a l in
  let! '(r, _) := kern_unlocked_ioctl IOCTL_DEMO_UNMAP 0 no_buf in
  pret (rs, r).

(** The same on one list of bytes. *)
Definition spec_op (x : op) (d : list byte) : reply * list byte :=
  match x with
  | OWrite arg => (RInt 0, replicate (length d) (to_byte arg))
  | ORead arg => (RInt (if forallb (Byte.eqb (to_byte arg)) d then 0 else - EFAULT), d)
  | OCopy u => (RCopied (copy_to_user u d), d)
  | OStore i v => (RDone, <[i := v]> d)
  | OLoad i => (RByte (default Byte.x00 (d !! i)), d)
  end.
Fixpoint spec_ops (l : list op) (d : list byte) : list reply :=
  match l with
  | [] => []
  | x :: l => (spec_op x d).1 :: spec_ops l (spec_op x d).2
  end.
Definition in_range (n : Z) (x : op) : Prop :=
  match x with OStore i _ | OLoad i => Z.of_nat i < n | _ => True end.

Lemma spec_op_length x d : length (spec_op x d).2 = length d.
Proof. destruct x; cbn; rewrite ?length_replicate, ?length_insert; done. Qed.
Lemma byte_eqb_eq x y : Byte.eqb x y = true <-> x = y.
Proof. split; [apply Byte.byte_dec_bl|intros ->; by apply Byte.byte_dec_lb]. Qed.
Lemma memcheck_forall d v : memcheck_from d v = if forallb (Byte.eqb v) d then 0 else - EFAULT.
Proof.
  induction d as [|c d IH]; [done|]. cbn [memcheck_from forallb]. rewrite IH.
  replace (Byte.eqb v c) with (Byte.eqb c v) by (apply Bool.eq_iff_eq_true; rewrite !byte_eqb_eq; naive_solver).
  by destruct (Byte.eqb c v).
Qed.

Lemma run_op_ok k t a d x : placed a (zlen d) -> in_range (zlen d) x ->
  run_op a x (mapped k t a d) = (Val (spec_op x d).1, mapped k t a (spec_op x d).2).
Proof.
  intros Ha Hx. destruct x as [arg|arg|u|i v|i]; cbn [run_op spec_op fst snd in_range] in *.
  - by rewrite (pbind_val _ _ _ _ _ (session_write k t a d arg no_buf)).
  - rewrite (pbind_val _ _ _ _ _ (session_read k t a d arg no_buf)). by rewrite memcheck_forall.
  - by rewrite (pbind_val _ _ _ _ _ (session_copy k t a d 0 u)).
  - by rewrite (pbind_val _ _ _ _ _ (user_store_ok k t a d Ha i v ltac:(lia))).
  - destruct (lookup_lt_is_Some_2 d i ltac:(lia)) as [v Hv]. rewrite Hv.
    by rewrite (pbind_val _ _ _ _ _ (user_load_ok k t a d Ha i v Hv)).
Qed.
Lemma run_ops_ok k t a l d : placed a (zlen d) -> Forall (in_range (zlen d)) l ->
  exists d', length d' = length d /\ run_ops a l (mapped k t a d) = (Val (spec_ops l d), mapped k t a d').
Proof.
  revert d. induction l as [|x l IH]; intros d Ha Hl; [by exists d|]. apply Forall_cons in Hl as [Hx Hl].
  pose proof (spec_op_length x d) as E. cbn [run_ops spec_ops]. rewrite (pbind_val _ _ _ _ _ (run_op_ok k t a d x Ha Hx)).
  destruct (IH (spec_op x d).2) as (d' & Hd' & Hr); [by rewrite E..|].
  exists d'. split; [lia|]. by rewrite (pbind_val _ _ _ _ _ Hr).
Qed.

(** ** The test *)

Lemma user_memset_ok k t a v n d d0 : placed a (zlen (d0 ++ d)) -> length d = n ->
  user_memset kern_vma_fault (a + zlen d0) v n (mapped k t a (d0 ++ d)) = (Val tt, mapped k t a (d0 ++ replicate n v)).
Proof.
  revert d d0. induction n as [|n IH]; intros d d0 Ha Hd; [by destruct d|]. destruct d as [|c d]; [done|].
  injection Hd as Hd. cbn [user_memset].
  assert (<[length d0 := v]> (d0 ++ c :: d) = (d0 ++ [v]) ++ d) as E by (rewrite insert_app_r_alt, Nat.sub_diag, <- app_assoc by done; done).
  erewrite pbind_val; [|apply user_store_ok; [done|]; rewrite length_app; cbn; lia]. rewrite E.
  replace (a + zlen d0 + 1) with (a + zlen (d0 ++ [v])) by (rewrite length_app; cbn; lia).
  rewrite (IH d (d0 ++ [v])); [by rewrite <- app_assoc| |done].
  rewrite <- E, length_insert. done.
Qed.
Lemma user_memcheck_ok k t a v n d i : placed a (zlen d) -> (forall x, x ∈ d -> x = v) -> (i + n <= length d)%nat ->
  user_memcheck (a + Z.of_nat i) v n (mapped k t a d) = (Val tt, mapped k t a d).
Proof.
  intros Ha Hd. revert i. induction n as [|n IH]; intros i Hi; [done|]. cbn [user_memcheck].
  destruct (lookup_lt_is_Some_2 d i ltac:(lia)) as [x Hx]. rewrite (pbind_val _ _ _ _ _ (user_load_ok k t a d Ha i x Hx)).
  rewrite (Hd x) by (by eapply list_elem_of_lookup_2). rewrite (proj2 (byte_eqb_eq v v)) by done.
  replace (a + Z.of_nat i + 1) with (a + Z.of_nat (S i)) by lia. apply IH. lia.
Qed.
Lemma memcheck_same v n : memcheck_from (replicate n v) v = 0.
Proof. induction n as [|n IH]; [done|]. cbn. by rewrite (proj2 (byte_eqb_eq v v)). Qed.

(** An address the test can use: below the range of an int. *)
Definition low (a n : Z) : Prop := placed a n /\ a + n <= 2147483648.
Lemma ioctl_val cmd arg s r u s' : 0 <= r < 2147483648 ->
  kern_unlocked_ioctl cmd arg no_buf s = (Val (r, u), s') -> ioctl cmd arg s = (Val r, s').
Proof.
  intros Hr H. unfold ioctl. rewrite (pbind_val _ _ _ _ _ H). destruct (Z.ltb_spec r 0); [lia|].
  rewrite andb_false_r, s32_small by lia. done.
Qed.
Lemma ioctl_low k t n : 0 < n < 4294967296 -> 0 <= o t -> o t mod PAGE_SIZE = 0 -> low (o (1 + t)%nat) n ->
  ioctl IOCTL_DEMO_MAP n (idle k t) = (Val (o (1 + t)%nat), mapped k (2 + t) (o (1 + t)%nat) (fresh (j k) n)).
Proof.
  intros Hn H1 H2 [Hp Hl]. eapply ioctl_val; [|by apply session_map]. destruct Hp as (Hp & _). unfold PAGE_SIZE in Hp. lia.
Qed.

Lemma stress_round_ok k t i :
  let n := (i mod 1000 + 1) * 4096 in
  0 <= o t -> o t mod PAGE_SIZE = 0 -> low (o (1 + t)%nat) n -> 0 <= o (2 + t)%nat ->
  stress_round i (idle k t) = (Val tt, idle (S k) (3 + t)).
Proof.
  intros n H1 H2 Hlow H3. pose proof (Z.mod_pos_bound i 1000 ltac:(lia)) as Hm. assert (0 < n < 4294967296) as Hn by (unfold n; lia).
  unfold stress_round. fold n. rewrite (pbind_val _ _ _ _ _ (ioctl_low k t n Hn H1 H2 Hlow)).
  destruct Hlow as [Hp Hl]. pose proof Hp as (Hge & _). set (a := o (1 + t)%nat) in *. set (v := to_byte (i mod 20 + 97)).
  assert (u64 a = a) as -> by (apply u64_small; unfold PAGE_SIZE in *; lia).
  unfold CHECK_NOT_NULL. destruct (Z.eqb_spec a 0); [unfold PAGE_SIZE in *; lia|]. run.
  assert (forall d : list byte, length d = Z.to_nat n -> placed a (zlen d)) as Hpd by (intros d ->; by rewrite Z2Nat.id by lia).
  pose proof (length_fresh (j k) n ltac:(lia)) as Hf.
  erewrite pbind_val.
  2:{ replace a with (a + zlen (@nil byte)) at 1 by (cbn; lia). apply (user_memset_ok k (2 + t) a v (Z.to_nat n) (fresh (j k) n) []); [apply Hpd; cbn; lia|lia]. }
  cbn [app]. set (d := replicate (Z.to_nat n) v). assert (length d = Z.to_nat n) as Hd by apply length_replicate.
  erewrite pbind_val; [|apply (ioctl_val _ _ _ 0 no_buf); [lia|]; rewrite session_read; fold v; unfold d; by rewrite memcheck_same]. run.
  erewrite pbind_val; [|apply (ioctl_val _ _ _ 0 no_buf); [lia|]; by rewrite session_write]. run. rewrite length_replicate.
  set (w := to_byte (i mod 20 + 97 + 1)). erewrite pbind_val.
  2:{ replace a with (a + Z.of_nat 0) at 1 by lia. apply user_memcheck_ok; [apply Hpd; apply length_replicate| |rewrite length_replicate; lia].
      intros x Hx. by apply elem_of_replicate_inv in Hx. }
  erewrite pbind_val; [|apply (ioctl_val _ _ _ 0 no_buf); [lia|]; apply session_unmap; [apply Hpd; apply length_replicate|rewrite length_replicate; lia|done]].
  run. done.
Qed.

(** The kernel grants everything, at addresses an int can hold. *)
Definition generous : Prop := forall n, PAGE_SIZE <= o n /\ o n mod PAGE_SIZE = 0 /\ o n + 4096000 + PAGE_SIZE <= 2147483648.

Lemma generous_round k t i : generous -> stress_round i (idle k t) = (Val tt, idle (S k) (3 + t)).
Proof.
  intros H. pose proof (Z.mod_pos_bound i 1000 ltac:(lia)). pose proof (page_up_bound ((i mod 1000 + 1) * 4096)) as Hup.
  destruct (H t) as (? & ? & _), (H (1 + t)%nat) as (? & ? & ?), (H (2 + t)%nat) as (? & _ & _).
  unfold PAGE_SIZE in *. apply stress_round_ok; [lia|done| |lia].
  unfold low, placed, TASK_SIZE, PAGE_SIZE. split_and!; (done || lia).
Qed.
Lemma stress_from m k t i : generous -> i + Z.of_nat m = count ->
  iter (S m) stress_loop i (idle k t) =
    (Val tt, idle (m + k) (3 * m + t)).
Proof.
  intros H. revert k t i. induction m as [|m IH]; intros k t i Hi; rewrite iter_unfold; unfold stress_loop at 1.
  - destruct (Z.ltb_spec i count); [lia|]. by run.
  - destruct (Z.ltb_spec i count); [|lia]. erewrite pbind_val; [|by rewrite (pbind_val _ _ _ _ _ (generous_round k t i H))].
    cbv iota beta. rewrite IH by lia. do 2 f_equal; lia.
Qed.
End session.

(** * Theorems *)

(** C18: A session of the driver, from MAP to UNMAP, when the kernel grants a page-aligned
    buffer and a place for the mapping: whatever the client does in between, through the
    ioctls and through its own loads and stores within the buffer, the replies are those
    of one list of bytes; UNMAP succeeds and no memory and no mapping is left. *)
Theorem to_user_session o j k t n ops :
  0 < n < 4294967296 -> 0 <= o t -> o t mod PAGE_SIZE = 0 -> placed (o (1 + t)%nat) n -> 0 <= o (2 + t)%nat ->
  Forall (in_range n) ops ->
  run_session n ops (idle o j k t) = (Val (spec_ops ops (fresh (j k) n), 0), idle o j (S k) (3 + t)).
Proof.
  intros Hn H1 H2 Hp H3 Hops. pose proof (length_fresh (j k) n ltac:(lia)) as Hf. unfold run_session.
  rewrite (pbind_val _ _ _ _ _ (session_map o j k t n no_buf Hn H1 H2 Hp)).
  destruct (run_ops_ok o j k (2 + t) (o (1 + t)%nat) ops (fresh (j k) n)) as (d & Hd & Hr); [by rewrite Hf..|].
  rewrite (pbind_val _ _ _ _ _ Hr). erewrite pbind_val; [|apply session_unmap; [by rewrite Hd, Hf|lia|exact H3]]. done.
Qed.
Lemma to_user_session_witness :
  run_session 5000 [OStore 4999 Byte.x41; OLoad 4999; ORead 65; OWrite 65; ORead 65; OLoad 7]
    (boot (fun _ => 65536) (fun _ _ => Byte.x00)) =
  (Val ([RDone; RByte Byte.x41; RInt (- EFAULT); RInt 0; RInt 0; RByte Byte.x41], 0),
   idle (fun _ => 65536) (fun _ _ => Byte.x00) 1 3).
Proof.
  apply (to_user_session (fun _ => 65536) (fun _ _ => Byte.x00) 0 0 5000); [lia|lia|reflexivity| |lia|].
  - unfold placed, PAGE_SIZE, TASK_SIZE. split_and!; [lia|reflexivity|]. vm_compute. discriminate.
  - repeat constructor; cbn; lia.
Defined.

(** C37: The stress test against the driver: when the kernel grants each request at an
    address below 2^31 it passes, and gives everything back. *)
Theorem mmap_test_passes o j : generous o -> exists k t, main (boot o j) = (Val 0, idle o j k t).
Proof.
  intros H. unfold main. cbn [do_single do_stress]. run. do 2 eexists. unfold stress.
  erewrite pbind_val; [reflexivity|]. rewrite Nat.add_1_r. apply (stress_from o j (Z.to_nat count) 0 0 0 H). rewrite Z2Nat.id; (done || unfold count; lia).
Qed.
Lemma mmap_test_passes_witness : exists k t,
  main (boot (fun _ => 65536) (fun _ _ => Byte.x2a)) = (Val 0, idle (fun _ => 65536) (fun _ _ => Byte.x2a) k t).
Proof. apply (mmap_test_passes (fun _ => 65536)). intros n. unfold PAGE_SIZE. split_and!; (reflexivity || lia). Defined.

(** * What goes wrong otherwise *)

(** Memory that is not page-aligned is refused and not freed. *)
Theorem unaligned_map_leaks o j k t n u : 0 < n < 4294967296 -> 0 <= o t -> o t mod PAGE_SIZE <> 0 -> exists s,
  kern_unlocked_ioctl IOCTL_DEMO_MAP n u (idle o j k t) = (Val (- EFAULT, u), s) /\
  kptr_ (statics s) = None /\ is_Some (heap s !! k).
Proof.
  intros Hn H1 H2. unfold kern_unlocked_ioctl, idle. do 2 run. fields. rewrite u32_small by lia.
  erewrite (pbind_val (alloc_mem n)).
  2:{ unfold alloc_mem. cbn [do_kmalloc]. rewrite (pbind_val _ _ _ _ _ (kmalloc_ok n ∅ k [] ∅ t o j _ H1 ltac:(lia))).
      erewrite pbind_val. 2:{ unfold page_offset, at_block. fields. rewrite lookup_insert_eq. reflexivity. }
      cbn [b_mis]. rewrite Z.add_0_r, Zmod_mod, (proj2 (Z.eqb_neq _ _) H2). reflexivity. }
  run. eexists. split_and!; [reflexivity|done|]. fields. rewrite lookup_insert_eq. by eexists.
Qed.

(** Answers given in order, then zeros. *)
Definition scripted (l : list Z) (n : nat) : Z := default 0 (l !! n).

(** When the mapping is refused the buffer is kept, and UNMAP cannot free it either. *)
Theorem refused_map_leaks :
  let s0 := boot (scripted [0; -1]) (fun _ _ => Byte.x00) in
  let '(r1, s1) := kern_unlocked_ioctl IOCTL_DEMO_MAP 4096 no_buf s0 in
  let '(r2, s2) := kern_unlocked_ioctl IOCTL_DEMO_UNMAP 0 no_buf s1 in
  r1 = Val (- EFAULT, no_buf) /\ r2 = Val (- EINVAL, no_buf) /\ is_Some (heap s2 !! 0%nat) /\ vmas s2 = [].
Proof. vm_compute. split_and!; try reflexivity. by eexists. Qed.

(** A second MAP forgets the first buffer: UNMAP frees the second one only. *)
Theorem second_map_leaks :
  let s0 := boot (scripted [0; 65536; 0; 131072]) (fun _ _ => Byte.x00) in
  let '(r1, s1) := kern_unlocked_ioctl IOCTL_DEMO_MAP 4096 no_buf s0 in
  let '(r2, s2) := kern_unlocked_ioctl IOCTL_DEMO_MAP 4096 no_buf s1 in
  let '(r3, s3) := kern_unlocked_ioctl IOCTL_DEMO_UNMAP 0 no_buf s2 in
  let '(r4, s4) := kern_unlocked_ioctl IOCTL_DEMO_UNMAP 0 no_buf s3 in
  r1 = Val (65536, no_buf) /\ r2 = Val (131072, no_buf) /\ r3 = Val (0, no_buf) /\ r4 = Val (- EINVAL, no_buf) /\
  is_Some (heap s4 !! 0%nat) /\ length (vmas s4) = 1%nat.
Proof. vm_compute. split_and!; try reflexivity. by eexists. Qed.

(** A failure of MAP passes the test's [CHECK_NOT_NULL], and the test writes to the
    address -1. *)
Theorem test_misses_failure : (stress_round 0 (boot (scripted [-1]) (fun _ _ => Byte.x00))).1 = Stuck.
Proof. vm_compute. reflexivity. Qed.
(** Ioctl(2) returns an int, so that a mapping at the usual high address is lost. *)
Theorem test_truncates_address :
  (stress_round 0 (boot (scripted [0; 139637976731648]) (fun _ _ => Byte.x00))).1 = Stuck /\
  placed 139637976731648 4096.
Proof. split; [vm_compute; reflexivity|]. unfold placed, PAGE_SIZE, TASK_SIZE. split_and!; [lia|reflexivity|]. vm_compute. discriminate. Qed.
End MmapToUser.
