(* ===== verification/MmapDrivers.v ===== *)
(** [src/kernel/mod_mmap.c] and [src/kernel/mod_mmap_simple.c]: drivers whose mmap
    operation allocates memory and puts its pages into the area of the process, and whose
    ioctl offers the same.  A process that maps, uses and unmaps an area through mmap(2)
    and munmap(2) sees fresh memory and leaves no block and no area behind, with either
    driver: that is proved from what both promise, [MapsFresh].  The first one frees its
    pages with the mark of reserved pages on them.  The theorems at the end show the
    double frees: unmapping through the ioctl, and unmapping in two parts. *)

From stdpp Require Import prelude list gmap.
From Stdlib Require Import ZArith Lia.
From S2P Require Import Prelude Kernel KMem.

Open Scope prog_scope.

Inductive mmap_command :=
| IOCTL_MMAP_PRINT | IOCTL_MMAP_READ | IOCTL_MMAP_WRITE | IOCTL_MMAP_WRITE_USER
| IOCTL_MMAP_MMAP | IOCTL_MMAP_UNMAP | IOCTL_MMAP_SETSIZE | IOCTL_MMAP_OTHER.

(** * [mod_mmap.c] *)

Module MmapDev.
(** The static variables that are read again. *)
Record static := mkStatic { vaddr : kptr; size : Z; addr : Z; ioctl_size : Z; kaddr : kptr }.
Abbreviation M := (prog (mm static)).
Definition initial : static := mkStatic None 0 0 0 None.

Definition upd (f : static -> static) : M unit := pmodify (fun s => set_statics (f (statics s)) s).
Definition set_vaddr (p : kptr) : M unit := upd (fun x => mkStatic p (size x) (addr x) (ioctl_size x) (kaddr x)).
Definition set_size (n : Z) : M unit := upd (fun x => mkStatic (vaddr x) n (addr x) (ioctl_size x) (kaddr x)).
Definition set_addr (a : Z) : M unit := upd (fun x => mkStatic (vaddr x) (size x) a (ioctl_size x) (kaddr x)).
Definition set_ioctl_size (n : Z) : M unit := upd (fun x => mkStatic (vaddr x) (size x) (addr x) n (kaddr x)).
Definition set_kaddr (p : kptr) : M unit := upd (fun x => mkStatic (vaddr x) (size x) (addr x) (ioctl_size x) p).

(** The loop that reserves the pages.  [i] is an [int], the bound an [unsigned long]. *)
Fixpoint reserve (fuel : nat) (p : kptr) (pages i : Z) : M unit :=
  match fuel with
  | O => fun s => (NoFuel, s)
  | S fuel =>
      if u64 i <? u64 (pages * PAGE_SIZE) then
        let! pg := virt_to_page (ptr_add p i) in
        SetPageReserved pg ;;;
        reserve fuel p pages (s32 (i + PAGE_SIZE))
      else pret tt
  end.

(** [do_kmalloc] is true and never changed: the other branches are never taken.  The
    loop ends after at most [pages] rounds ([reserve_ok]). *)
Definition kern_mmap (v : vma) : M (Z * vma) :=
  let size := u32 (vm_end v - vm_start v) in
  set_size size ;;;
  let pages := size / PAGE_SIZE + (if 0 <? size mod PAGE_SIZE then 1 else 0) in
  let! p := kmalloc size in
  set_vaddr p ;;;
  reserve (S (Z.to_nat pages)) p pages 0 ;;;
  let! pg_num := virt_to_page p in
  let! '(ret, v') := remap_pfn_range v pg_num in
  if negb (ret =? 0) then kfree p ;;; pret (ret, v) else
  pret (0, mkVma (vm_start v') (vm_end v') p true (vm_pfn v')).

Definition kern_vma_close (v : vma) : M unit := kfree (vm_private_data v).

Definition kern_unlocked_ioctl (cmd : mmap_command) (arg : Z) : M Z :=
  match cmd with
  | IOCTL_MMAP_PRINT =>
      let! v := find_vma arg in
      match v with None => pstuck | Some _ => pret 0 end
  | IOCTL_MMAP_READ =>
      let! s := pget in
      kload (vaddr (statics s)) 256 ;;; pret 0
  | IOCTL_MMAP_WRITE =>
      let! s := pget in
      memset (vaddr (statics s)) (to_byte arg) (size (statics s)) ;;; pret 0
  | IOCTL_MMAP_WRITE_USER => pret 0
  | IOCTL_MMAP_MMAP =>
      let! s := pget in
      let! p := kmalloc (u64 (ioctl_size (statics s))) in
      set_kaddr p ;;;
      let! a := vm_mmap kern_mmap (u64 (ioctl_size (statics s))) in
      set_addr a ;;;
      pret a
  | IOCTL_MMAP_UNMAP =>
      let! s := pget in
      let! v := find_vma (addr (statics s)) in
      match v with
      | None => pstuck
      | Some v =>
          let kernel_addr := vm_private_data v in
          set_size (u32 (vm_end v - vm_start v)) ;;;
          let! ret := vm_munmap kern_vma_close (addr (statics s)) (u64 (ioctl_size (statics s))) in
          kfree kernel_addr ;;;
          pret ret
      end
  | IOCTL_MMAP_SETSIZE => set_ioctl_size (s32 arg) ;;; pret 0
  | IOCTL_MMAP_OTHER => pret (- EINVAL)
  end.
End MmapDev.

(** * [mod_mmap_simple.c] *)

Module MmapSimple.
(** [vaddr] is never set and stays NULL. *)
Record static := mkStatic { size : Z; addr : Z; ioctl_size : Z }.
Abbreviation M := (prog (mm static)).
Definition initial : static := mkStatic 0 0 0.
Definition vaddr : kptr := None.

Definition upd (f : static -> static) : M unit := pmodify (fun s => set_statics (f (statics s)) s).
Definition set_size (n : Z) : M unit := upd (fun x => mkStatic n (addr x) (ioctl_size x)).
Definition set_addr (a : Z) : M unit := upd (fun x => mkStatic (size x) a (ioctl_size x)).
Definition set_ioctl_size (n : Z) : M unit := upd (fun x => mkStatic (size x) (addr x) n).

Definition do_kmalloc : bool := false.
Definition release (p : kptr) (size : Z) : M unit :=
  if do_kmalloc then kfree p else free_pages p (get_order size).

Definition kern_vma_close (v : vma) : M unit := release (vm_private_data v) (u32 (vm_end v - vm_start v)).

Definition kern_mmap (v : vma) : M (Z * vma) :=
  let vma_size := u32 (vm_end v - vm_start v) in
  let! kaddr := get_free_pages (get_order vma_size) in
  let! pg_num := virt_to_page kaddr in
  let! '(res, v') := remap_pfn_range v pg_num in
  if negb (res =? 0) then pret (res, v) else
  pret (0, mkVma (vm_start v') (vm_end v') kaddr true (vm_pfn v')).

Definition kern_unlocked_ioctl (cmd : mmap_command) (arg : Z) : M Z :=
  match cmd with
  | IOCTL_MMAP_PRINT =>
      let! v := find_vma arg in
      match v with None => pstuck | Some _ => pret 0 end
  | IOCTL_MMAP_READ => kload vaddr 256 ;;; pret 0
  | IOCTL_MMAP_WRITE | IOCTL_MMAP_WRITE_USER => pret 0
  | IOCTL_MMAP_MMAP =>
      let! s := pget in
      let! a := vm_mmap kern_mmap (u64 (ioctl_size (statics s))) in
      set_addr a ;;;
      pret a
  | IOCTL_MMAP_UNMAP =>
      let! s := pget in
      let! v := find_vma (addr (statics s)) in
      match v with
      | None => pstuck
      | Some v =>
          let kernel_addr := vm_private_data v in
          let n := u32 (vm_end v - vm_start v) in
          set_size n ;;;
          let! ret := vm_munmap kern_vma_close (addr (statics s)) (u64 (ioctl_size (statics s))) in
          if negb (ret =? 0) then pret ret else
          release kernel_addr n ;;;
          pret ret
      end
  | IOCTL_MMAP_SETSIZE => set_ioctl_size (s32 arg) ;;; pret 0
  | IOCTL_MMAP_OTHER => pret (- EINVAL)
  end.
End MmapSimple.

(** * What the mmap operations promise *)

(** The kernel grants an aligned block, and that its pages are mapped. *)
Definition grants (o : nat -> Z) (t : nat) : Prop := 0 <= o t /\ o t mod PAGE_SIZE = 0 /\ 0 <= o (1 + t)%nat.

Class MapsFresh {S : Type} (kern_mmap : vma -> prog (mm S) (Z * vma)) (kern_vma_close : vma -> prog (mm S) unit) := {
  mf_kind : Z -> alloc;
  mf_bytes : Z -> Z;
  mf_static : S -> nat -> Z -> S;
  mf_reserves : nat -> Z -> gset page;
  mf_enough len : 0 < len -> len <= mf_bytes len;
  mf_maps a len h k v rs t o j st :
    0 < len < 4294967296 -> len mod PAGE_SIZE = 0 -> grants o t ->
    kern_mmap (mkVma a (a + len) None false None) (mkMm h k v rs t o j st) =
      (Val (0, mkVma a (a + len) (Some (k, 0)) true (Some (k, 0))),
       mkMm (<[k := mkBlock (mf_kind len) 0 (fresh (j k) (mf_bytes len))]> h) (1 + k) v (mf_reserves k len ∪ rs) (2 + t) o j
         (mf_static st k len));
  mf_frees a len id d pfn s :
    0 < len < 4294967296 -> heap s !! id = Some (mkBlock (mf_kind len) 0 d) ->
    kern_vma_close (mkVma a (a + len) (Some (id, 0)) true pfn) s = (Val tt, set_heap (delete id (heap s)) s);
}.

Ltac fields := unfold set_statics, set_heap, set_vmas, set_reserved; cbn [heap next_block vmas reserved tick oracle junk statics].
Ltac run := erewrite pbind_val by reflexivity.

Lemma remap_ok {S} v pg h k l rs t o j (st : S) : 0 <= o t ->
  remap_pfn_range v pg (mkMm h k l rs t o j st) =
    (Val (0, mkVma (vm_start v) (vm_end v) (vm_private_data v) (vm_mine v) (Some pg)), mkMm h k l rs (1 + t) o j st).
Proof. intros Ho. unfold remap_pfn_range. run. fields. destruct (Z.ltb_spec (o t) 0); [lia|done]. Qed.

(** The first [n] pages of an aligned block. *)
Definition pages_of (id : nat) (n : nat) : gset page := list_to_set ((fun m => (id, Z.of_nat m)) <$> seq 0 n).
Lemma pages_of_S id n : pages_of id (S n) = {[(id, Z.of_nat n)]} ∪ pages_of id n.
Proof. unfold pages_of. rewrite seq_S, fmap_app, list_to_set_app_L. cbn. set_solver. Qed.

(** The loop marks the pages of the block; its counter passes [2 ^ 31] to a negative
    number, where the loop ends. *)
Definition marked_pages (len : Z) : nat := Z.to_nat (Z.min len 2147483648 / PAGE_SIZE).
Lemma reserve_end len pages : 0 <= len < 4294967296 -> len = pages * PAGE_SIZE ->
  (u64 (s32 (Z.of_nat (marked_pages len) * PAGE_SIZE)) <? u64 (pages * PAGE_SIZE)) = false.
Proof.
  intros Hl ->. unfold marked_pages, PAGE_SIZE in *. rewrite Z2Nat.id by (apply Z.div_pos; lia). apply Z.ltb_ge.
  rewrite (u64_small (pages * 4096)) by lia. destruct (Z.le_gt_cases 524288 pages).
  - rewrite Z.min_r by lia. change (u64 (s32 (2147483648 / 4096 * 4096))) with 18446744071562067968. lia.
  - rewrite Z.min_l by lia. rewrite Z.div_mul by lia. rewrite s32_small, u64_small by lia. lia.
Qed.
Lemma reserve_round len pages m : len = pages * PAGE_SIZE -> 0 <= len < 4294967296 -> (m < marked_pages len)%nat ->
  s32 (Z.of_nat m * PAGE_SIZE) = Z.of_nat m * PAGE_SIZE /\
  (u64 (Z.of_nat m * PAGE_SIZE) <? u64 (pages * PAGE_SIZE)) = true.
Proof.
  intros -> Hl Hm. unfold marked_pages, PAGE_SIZE in *.
  assert (Z.of_nat m < Z.min (pages * 4096) 2147483648 / 4096) as Hm' by lia.
  pose proof (Z.mul_div_le (Z.min (pages * 4096) 2147483648) 4096). split; [apply s32_small; lia|].
  apply Z.ltb_lt. rewrite !u64_small by lia. lia.
Qed.
Lemma reserve_from id b len pages m fuel h k v rs t o j st :
  len = pages * PAGE_SIZE -> 0 <= len < 4294967296 -> h !! id = Some b -> b_mis b = 0 ->
  (m <= marked_pages len)%nat -> (marked_pages len - m < fuel)%nat ->
  MmapDev.reserve fuel (Some (id, 0)) pages (s32 (Z.of_nat m * PAGE_SIZE)) (mkMm h k v (pages_of id m ∪ rs) t o j st) =
    (Val tt, mkMm h k v (pages_of id (marked_pages len) ∪ rs) t o j st).
Proof.
  intros Hp Hl Hb Hmis. revert m. induction fuel as [|fuel IH]; intros m Hm Hf; [lia|]. cbn [MmapDev.reserve].
  destruct (decide (m = marked_pages len)) as [->|Hne]; [by rewrite (reserve_end len pages)|].
  destruct (reserve_round len pages m Hp Hl ltac:(lia)) as [E1 E2]. rewrite E1, E2.
  erewrite pbind_val; [|unfold virt_to_page, at_block; cbn; rewrite Hb; reflexivity]. erewrite pbind_val by reflexivity.
  specialize (IH (S m) ltac:(lia) ltac:(lia)). rewrite pages_of_S in IH. rewrite Hmis.
  unfold set_reserved. cbn [heap next_block vmas reserved tick oracle junk statics].
  replace ((0 + (Z.of_nat m * PAGE_SIZE + 0)) / PAGE_SIZE) with (Z.of_nat m) by (rewrite Z.add_0_r, Z.add_0_l; by rewrite Z.div_mul).
  rewrite assoc_L by apply _. replace (Z.of_nat m * PAGE_SIZE + PAGE_SIZE) with (Z.of_nat (S m) * PAGE_SIZE) by lia. exact IH.
Qed.
Lemma reserve_ok id b len pages h k v rs t o j st :
  len = pages * PAGE_SIZE -> 0 <= len < 4294967296 -> h !! id = Some b -> b_mis b = 0 ->
  MmapDev.reserve (S (Z.to_nat pages)) (Some (id, 0)) pages 0 (mkMm h k v rs t o j st) =
    (Val tt, mkMm h k v (pages_of id (marked_pages len) ∪ rs) t o j st).
Proof.
  intros Hp Hl Hb Hmis. pose proof (reserve_from id b len pages 0 (S (Z.to_nat pages)) h k v rs t o j st Hp Hl Hb Hmis) as H.
  change (pages_of id 0) with (∅ : gset page) in H. rewrite (left_id_L ∅ (∪)) in H. apply H; [lia|].
  assert (Z.min len 2147483648 / PAGE_SIZE <= pages) by (apply Z.div_le_upper_bound; unfold PAGE_SIZE in *; lia).
  unfold marked_pages. lia.
Qed.

#[global] Program Instance mmap_dev_fresh : MapsFresh MmapDev.kern_mmap MmapDev.kern_vma_close := {|
  mf_kind := fun _ => AKmalloc;
  mf_bytes := id;
  mf_static := fun st k len => MmapDev.mkStatic (Some (k, 0)) len (MmapDev.addr st) (MmapDev.ioctl_size st) (MmapDev.kaddr st);
  mf_reserves := fun k len => pages_of k (marked_pages len);
|}.
Next Obligation. done. Qed.
Next Obligation.
  intros a len h k v rs t o j st Hl Hmod (H1 & H2 & H3). unfold MmapDev.kern_mmap. cbn [vm_start vm_end].
  replace (a + len - a) with len by lia. rewrite u32_small by lia. run. fields.
  rewrite (pbind_val _ _ _ _ _ (kmalloc_ok len h k v rs t o j _ H1 ltac:(lia))). run. fields. rewrite H2.
  erewrite pbind_val; [|apply (reserve_ok k (mkBlock AKmalloc 0 (fresh (j k) len)) len);
    [rewrite Hmod; pose proof (Z.div_mod len PAGE_SIZE); cbn; unfold PAGE_SIZE in *; lia|lia|fields; apply lookup_insert_eq|done]].
  erewrite pbind_val; [|unfold virt_to_page, at_block; fields; rewrite lookup_insert_eq; reflexivity].
  rewrite (pbind_val _ _ _ _ _ (remap_ok _ _ _ _ _ _ _ _ _ _ H3)). done.
Qed.
Next Obligation.
  intros a len id d pfn s Hl Hb. unfold MmapDev.kern_vma_close, kfree. cbn [vm_private_data]. by eapply free_ok.
Qed.

#[global] Program Instance mmap_simple_fresh : MapsFresh MmapSimple.kern_mmap MmapSimple.kern_vma_close := {|
  mf_kind := fun len => APages (get_order len);
  mf_bytes := fun len => 2 ^ get_order len * PAGE_SIZE;
  mf_static := fun st _ _ => st;
  mf_reserves := fun _ _ => ∅;
|}.
Next Obligation.
  intros len Hl. pose proof (page_up_bound len) as Hup. unfold get_order.
  destruct (Z.log2_log2_up_spec (page_up len / PAGE_SIZE)) as [_ H].
  - apply Z.div_str_pos. unfold PAGE_SIZE. pose proof (page_up_bound len). unfold page_up in *.
    pose proof (Z.div_str_pos (len + (PAGE_SIZE - 1)) PAGE_SIZE). unfold PAGE_SIZE in *. lia.
  - assert (page_up len = page_up len / PAGE_SIZE * PAGE_SIZE) as E by (unfold page_up at 2; by rewrite Z.div_mul).
    unfold PAGE_SIZE in *. lia.
Qed.
Next Obligation.
  intros a len h k v rs t o j st Hl Hmod (H1 & H2 & H3). unfold MmapSimple.kern_mmap. cbn [vm_start vm_end].
  replace (a + len - a) with len by lia. rewrite u32_small by lia.
  erewrite pbind_val; [|unfold get_free_pages; run; fields; rewrite (proj2 (Z.ltb_ge _ _) H1); reflexivity]. fields.
  erewrite pbind_val; [|unfold virt_to_page, at_block; fields; rewrite lookup_insert_eq; reflexivity].
  rewrite (pbind_val _ _ _ _ _ (remap_ok _ _ _ _ _ _ _ _ _ _ H3)). by rewrite (left_id_L ∅ (∪) rs).
Qed.
Next Obligation.
  intros a len id d pfn s Hl Hb. unfold MmapSimple.kern_vma_close, MmapSimple.release, free_pages.
  cbn [vm_private_data vm_start vm_end MmapSimple.do_kmalloc]. replace (a + len - a) with len by lia. rewrite u32_small by lia.
  by eapply free_ok.
Qed.

(** * A process that maps, uses and unmaps *)

Inductive access := AStore (i : nat) (v : byte) | ALoad (i : nat).
Definition in_area (n : Z) (x : access) : Prop := match x with AStore i _ | ALoad i => Z.of_nat i < n end.

(** The same accesses on a list of bytes. *)
Fixpoint spec_accesses (l : list access) (d : list byte) : list byte :=
  match l with
  | [] => []
  | AStore i v :: l => spec_accesses l (<[i := v]> d)
  | ALoad i :: l => default Byte.x00 (d !! i) :: spec_accesses l d
  end.

Section process.
Context {S : Type} (kern_mmap : vma -> prog (mm S) (Z * vma)) (kern_vma_close : vma -> prog (mm S) unit).
Abbreviation M := (prog (mm S)).

Definition no_fault (_ : vma) (_ : Z) : M page := pstuck.
Fixpoint run_accesses (a : Z) (l : list access) : M (list byte) :=
  match l with
  | [] => pret []
  | AStore i v :: l => user_store no_fault (a + Z.of_nat i) v ;;; run_accesses a l
  | ALoad i :: l =>
      let! v := user_load no_fault (a + Z.of_nat i) in let! r := run_accesses a l in pret (v :: r)
  end.
(** mmap(2), the accesses, munmap(2). *)
Definition run_process (n : Z) (l : list access) : M (list byte * Z) :=
  let! a := vm_mmap kern_mmap n in
  let! r := run_accesses a l in
  let! e := vm_munmap kern_vma_close a n in
  pret (r, e).

Context {MF : MapsFresh kern_mmap kern_vma_close}.
Abbreviation kind := (mf_kind (MapsFresh := MF)).
Abbreviation bytes := (mf_bytes (MapsFresh := MF)).
Abbreviation static_after := (mf_static (MapsFresh := MF)).
Abbreviation reserves := (mf_reserves (MapsFresh := MF)).

Section area.
Context (a len : Z) (h : gmap nat block) (k : nat) (v : list vma) (rs : gset page) (t : nat) (o : nat -> Z) (j : nat -> nat -> byte) (st : S).
Hypothesis Ha : a mod PAGE_SIZE = 0.
Hypothesis Hlen : 0 < len < 4294967296.
Hypothesis Hk : h !! k = None.

(** The area with contents [d], beside whatever was there before. *)
Definition during (d : list byte) : mm S :=
  mkMm (<[k := mkBlock (kind len) 0 d]> h) (1 + k) (mkVma a (a + len) (Some (k, 0)) true (Some (k, 0)) :: v) rs t o j st.

Lemma during_heap d : heap (during d) !! k = Some (mkBlock (kind len) 0 d).
Proof. apply lookup_insert_eq. Qed.
Lemma during_store d d' : set_heap (<[k := mkBlock (kind len) 0 d']> (heap (during d))) (during d) = during d'.
Proof. unfold during. fields. by rewrite insert_insert_eq. Qed.

Lemma during_ptr (i : nat) d : Z.of_nat i < len -> len <= zlen d ->
  user_ptr no_fault (a + Z.of_nat i) (during d) = (Val (Some (k, Z.of_nat i)), during d).
Proof using Ha.
  intros Hi Hd. unfold user_ptr. cbn [vmas during List.find vm_start vm_end vm_mine].
  destruct (Z.leb_spec a (a + Z.of_nat i)); [|lia]. destruct (Z.ltb_spec (a + Z.of_nat i) (a + len)); [|lia].
  cbn [andb vm_pfn vm_start]. run. unfold page_ptr, at_block. cbn [fst snd]. rewrite during_heap. unfold pret. cbn [b_mis].
  do 4 f_equal. rewrite aligned_offset by done. replace (a + Z.of_nat i - a) with (Z.of_nat i) by lia.
  pose proof (Z.div_mod (Z.of_nat i) PAGE_SIZE). unfold PAGE_SIZE in *. lia.
Qed.
Lemma during_accesses l d : Forall (in_area len) l -> len <= zlen d ->
  exists d', length d' = length d /\ run_accesses a l (during d) = (Val (spec_accesses l d), during d').
Proof using Ha.
  revert d. induction l as [|x l IH]; intros d Hl Hd; [by exists d|]. apply Forall_cons in Hl as [Hx Hl].
  destruct x as [i w|i]; cbn [in_area] in Hx; cbn [run_accesses spec_accesses].
  - erewrite pbind_val.
    2:{ unfold user_store. rewrite (pbind_val _ _ _ _ _ (during_ptr i d Hx Hd)).
        rewrite (kstore_ok _ _ _ _ _ (during_heap d)) by (cbn; lia). cbn [b_kind b_mis b_data].
        by rewrite during_store, buf_put_one by lia. }
    destruct (IH (<[i := w]> d) Hl) as (d' & Hd' & Hr); [by rewrite length_insert|].
    exists d'. split; [by rewrite Hd', length_insert|done].
  - destruct (lookup_lt_is_Some_2 d i ltac:(lia)) as [w Hw]. rewrite Hw. erewrite pbind_val.
    2:{ unfold user_load. rewrite (pbind_val _ _ _ _ _ (during_ptr i d Hx Hd)).
        erewrite pbind_val; [|apply (kload_ok _ _ _ _ _ (during_heap d)); cbn; lia]. cbn [b_data]. by rewrite (buf_get_one _ w). }
    destruct (IH d Hl Hd) as (d' & Hd' & Hr). exists d'. split; [done|]. by rewrite (pbind_val _ _ _ _ _ Hr).
Qed.

(** Areas that do not meet the interval stay. *)
Lemma unmap_others b e (l : list vma) (s : mm S) : forallb (vma_free b e) l = true -> unmap kern_vma_close b e l s = (Val l, s).
Proof.
  induction l as [|w l IH]; [done|]. cbn [forallb unmap]. intros [Hw Hl]%andb_true_iff.
  rewrite (pbind_val _ _ _ _ _ (IH Hl)). by rewrite Hw.
Qed.
Lemma during_unmap d : forallb (vma_free a (a + len)) v = true ->
  unmap kern_vma_close a (a + len) (vmas (during d)) (during d) = (Val v, set_heap h (during d)).
Proof using Hk Hlen.
  intros Hv. cbn [vmas during unmap]. rewrite (pbind_val _ _ _ _ _ (unmap_others _ _ _ (during d) Hv)).
  unfold vma_free, keep, cut. cbn [vm_start vm_end vm_mine vm_private_data vm_pfn].
  destruct (Z.leb_spec (a + len) a); [lia|]. cbn [orb]. rewrite Z.max_id, Z.min_id.
  rewrite (pbind_val _ _ _ _ _ (mf_frees a len k d (Some (k, 0)) (during d) Hlen (during_heap d))).
  rewrite !Z.ltb_irrefl. cbn [app]. unfold pret, during. fields. by rewrite delete_insert_id by done.
Qed.
End area.

Lemma fresh_session n l h k v rs t o j st :
  0 < n -> page_up n < 4294967296 -> placed (o t) n -> forallb (vma_free (o t) (o t + page_up n)) v = true ->
  grants o (1 + t) -> 0 <= o (3 + t)%nat -> h !! k = None -> Forall (in_area (page_up n)) l ->
  run_process n l (mkMm h k v rs t o j st) =
    (Val (spec_accesses l (fresh (j k) (bytes (page_up n))), 0),
     mkMm h (1 + k) v (reserves k (page_up n) ∪ rs) (4 + t) o j (static_after st k (page_up n))).
Proof.
  intros Hn Hup Hp Hv Hg Ho Hk Hl. pose proof (page_up_bound n) as Hb. pose proof Hp as (_ & Ha & _).
  assert (0 < page_up n < 4294967296) as Hlen by lia.
  assert (page_up n mod PAGE_SIZE = 0) as Hmod by (unfold page_up; by rewrite Z.mod_mul).
  pose proof (mf_enough (MapsFresh := MF) (page_up n) ltac:(lia)) as Hen. pose proof (length_fresh (j k) (bytes (page_up n)) ltac:(lia)) as Hf.
  unfold run_process. erewrite pbind_val.
  2:{ eapply vm_mmap_ok; [done|done|done|]. by apply mf_maps. }
  fields. destruct (during_accesses (o t) (page_up n) h k v (reserves k (page_up n) ∪ rs) (3 + t) o j (static_after st k (page_up n)) Ha l _ Hl ltac:(rewrite Hf; exact Hen)) as (d & Hd & Hr).
  unfold during at 1 in Hr. rewrite (pbind_val _ _ _ _ _ Hr). unfold during. erewrite pbind_val.
  2:{ eapply vm_munmap_ok; [done|exact Hp|exact Ho|].
      apply (during_unmap (o t) (page_up n) h k v (reserves k (page_up n) ∪ rs) (4 + t) o j (static_after st k (page_up n)) Hlen Hk d Hv). }
  done.
Qed.
End process.

Definition fixed_oracle (_ : nat) : Z := 65536.
Definition zeros (_ _ : nat) : byte := Byte.x00.
Definition boot {S} (o : nat -> Z) (st : S) : mm S := mkMm ∅ 0 [] ∅ 0 o zeros st.

(** The pages are given back to the kernel with the mark: after the area is unmapped,
    and when the pages could not be mapped. *)
Theorem mmap_frees_reserved :
  let '(r, s) := run_process MmapDev.kern_mmap MmapDev.kern_vma_close 4096 [] (boot fixed_oracle MmapDev.initial) in
  let '(r', s') := vm_mmap MmapDev.kern_mmap 4096 (boot (fun n => if (n =? 2)%nat then -1 else 65536) MmapDev.initial) in
  r = Val ([], 0) /\ heap s = ∅ /\ reserved s = {[(0%nat, 0)]} /\
  r' = Val (u64 (- ENOMEM)) /\ heap s' = ∅ /\ reserved s' = {[(0%nat, 0)]}.
Proof. vm_compute. split_and!; reflexivity. Qed.

(** * Double frees and leaks *)

(** Answers given in order, then zeros. *)
Definition script (l : list Z) (n : nat) : Z := default 0 (l !! n).

(** Unmapping through the ioctl frees the buffer twice: the operation that closes
    the area has freed it already. *)
Theorem mmap_ioctl_double_free :
  ((MmapDev.kern_unlocked_ioctl IOCTL_MMAP_SETSIZE 4096 ;;;
   MmapDev.kern_unlocked_ioctl IOCTL_MMAP_MMAP 0 ;;;
   MmapDev.kern_unlocked_ioctl IOCTL_MMAP_UNMAP 0) (boot fixed_oracle MmapDev.initial)).1 = Stuck /\
  ((MmapSimple.kern_unlocked_ioctl IOCTL_MMAP_SETSIZE 4096 ;;;
   MmapSimple.kern_unlocked_ioctl IOCTL_MMAP_MMAP 0 ;;;
   MmapSimple.kern_unlocked_ioctl IOCTL_MMAP_UNMAP 0) (boot fixed_oracle MmapSimple.initial)).1 = Stuck.
Proof. split; vm_compute; reflexivity. Qed.

(** Mapping through the ioctl allocates a buffer that nothing uses or frees: it
    outlives the area. *)
Theorem mmap_ioctl_leaks :
  let '(r, s) :=
    (MmapDev.kern_unlocked_ioctl IOCTL_MMAP_SETSIZE 4096 ;;;
     let! a := MmapDev.kern_unlocked_ioctl IOCTL_MMAP_MMAP 0 in
     vm_munmap MmapDev.kern_vma_close a 4096) (boot fixed_oracle MmapDev.initial) in
  r = Val 0 /\ vmas s = [] /\ is_Some (heap s !! 0%nat).
Proof. vm_compute. split_and!; [reflexivity..|by eexists]. Qed.

(** Unmapping an area in two parts: the first part frees the buffer although the rest
    is still mapped, and the second one again; the driver with pages passes the order
    of the part. *)
Theorem mmap_parts_double_free :
  ((let! a := vm_mmap MmapDev.kern_mmap 8192 in
   vm_munmap MmapDev.kern_vma_close a 4096 ;;;
   vm_munmap MmapDev.kern_vma_close (a + 4096) 4096) (boot fixed_oracle MmapDev.initial)).1 = Stuck /\
  ((let! a := vm_mmap MmapSimple.kern_mmap 8192 in
   vm_munmap MmapSimple.kern_vma_close a 4096) (boot fixed_oracle MmapSimple.initial)).1 = Stuck.
Proof. split; vm_compute; reflexivity. Qed.

(** The pointer of the driver outlives the area: the ioctls that read and write the
    buffer then use freed memory. *)
Theorem mmap_use_after_free :
  ((let! a := vm_mmap MmapDev.kern_mmap 4096 in
   vm_munmap MmapDev.kern_vma_close a 4096 ;;;
   MmapDev.kern_unlocked_ioctl IOCTL_MMAP_WRITE 65) (boot fixed_oracle MmapDev.initial)).1 = Stuck.
Proof. vm_compute. reflexivity. Qed.

(** The simple driver keeps the pages when they cannot be mapped. *)
Theorem mmap_simple_leaks :
  let '(r, s) := vm_mmap MmapSimple.kern_mmap 4096 (boot (script [65536; 0; -1]) MmapSimple.initial) in
  r = Val (u64 (- ENOMEM)) /\ vmas s = [] /\ is_Some (heap s !! 0%nat).
Proof. vm_compute. split_and!; [reflexivity..|by eexists]. Qed.
