(* ===== verification/KList.v ===== *)
(** [src/kernel/list.inc] and [src/kernel/mod_list.c]: lists of pointers built on the
    circular doubly linked lists of the kernel, and the ioctls that drive one.  The
    operations refine a queue: what was added first is deleted first; the iterator
    visits every element.  The theorems at the end show what deleting through the
    iterator and destroying a list that is not empty leave behind. *)

From stdpp Require Import prelude list gmap.
From Stdlib Require Import ZArith Lia.
From S2P Require Import Prelude.

Module KList.
Open Scope prog_scope.

(** * Memory *)

(** A [list_struct]; a head is one whose [ptr] is not used.  NULL is the address 0, and
    [list_entry] does not change the address. *)
Record list_struct := mkNode { next : nat; prev : nat; ptr : Z }.
(** [granted] says which allocations succeed. *)
Record mem := mkMem { nodes : gmap nat list_struct; fresh_addr : nat; granted : nat -> bool }.
Abbreviation M := (prog mem).

Definition set_nodes (h : gmap nat list_struct) (m : mem) : mem := mkMem h (fresh_addr m) (granted m).
(** The contents of fresh memory are not determined; nothing reads them. *)
Definition kmalloc : M nat := fun m =>
  if granted m (fresh_addr m)
  then (Val (fresh_addr m), mkMem (<[fresh_addr m := mkNode 0 0 0]> (nodes m)) (1 + fresh_addr m) (granted m))
  else (Val 0%nat, mkMem (nodes m) (1 + fresh_addr m) (granted m)).
Definition kfree (p : nat) : M unit := fun m =>
  if decide (p = 0%nat) then (Val tt, m) else
  match nodes m !! p with Some _ => (Val tt, set_nodes (delete p (nodes m)) m) | None => (Stuck, m) end.
Definition load (p : nat) : M list_struct := fun m =>
  match nodes m !! p with Some n => (Val n, m) | None => (Stuck, m) end.
Definition set_next (p x : nat) : M unit :=
  let! n := load p in pmodify (fun m => set_nodes (<[p := mkNode x (prev n) (ptr n)]> (nodes m)) m).
Definition set_prev (p x : nat) : M unit :=
  let! n := load p in pmodify (fun m => set_nodes (<[p := mkNode (next n) x (ptr n)]> (nodes m)) m).
Definition set_ptr (p : nat) (v : Z) : M unit :=
  let! n := load p in pmodify (fun m => set_nodes (<[p := mkNode (next n) (prev n) v]> (nodes m)) m).

(** ** [linux/list.h] *)

Definition INIT_LIST_HEAD (l : nat) : M unit := set_next l l ;;; set_prev l l.
Definition list_add (new head : nat) : M unit :=
  let! h := load head in
  let nx := next h in
  set_prev nx new ;;; set_next new nx ;;; set_prev new head ;;; set_next head new.
Definition LIST_POISON : nat := 0.
Definition list_del (e : nat) : M unit :=
  let! n := load e in
  set_prev (next n) (prev n) ;;; set_next (prev n) (next n) ;;;
  set_next e LIST_POISON ;;; set_prev e LIST_POISON.
Definition list_empty (l : nat) : M bool := let! n := load l in pret (next n =? l)%nat.

(** * The functions of [list.inc] *)

Definition NULL : nat := 0.
Definition is_null (p : nat) : bool := (p =? NULL)%nat.

Definition api_list_create : M nat :=
  let! lp := kmalloc in INIT_LIST_HEAD lp ;;; pret lp.
Definition api_list_destroy (lptr : nat) : M unit :=
  if is_null lptr then pret tt else kfree lptr.
Definition api_list_isempty (lptr : nat) : M bool :=
  if is_null lptr then pret false else list_empty lptr.
Definition api_list_iter_init (lptr : nat) : M nat :=
  if is_null lptr then pret NULL else let! n := load lptr in pret (next n).
Definition api_list_iter_isover (lptr iter : nat) : M bool :=
  if is_null lptr then pret false else pret (iter =? lptr)%nat.
Definition api_list_iter_getval (lptr iter : nat) : M Z :=
  if is_null lptr then pret 0 else let! n := load iter in pret (ptr n).
Definition api_list_iter_next (lptr iter : nat) : M nat :=
  if is_null lptr then pret NULL else let! n := load iter in pret (next n).
Definition api_list_iter_del (lptr iter : nat) : M unit :=
  if is_null lptr then pret tt else kfree iter.
(** The pointer that was added, as its address; 0 is the NULL of the error paths. *)
Definition api_list_del (lptr : nat) : M Z :=
  if is_null lptr then pret 0 else
  let! h := load lptr in
  let prev := prev h in
  let! e := list_empty lptr in
  if e then pret 0 else
  let! entry := load prev in
  let ret := ptr entry in
  list_del prev ;;;
  kfree prev ;;;
  pret ret.
Definition api_list_add (lptr : nat) (p : Z) : M unit :=
  if is_null lptr then pret tt else
  let! entry := kmalloc in
  set_ptr entry p ;;;
  list_add entry lptr.
(** What is printed, item by item: the pointer converted to [int]. *)
Fixpoint print_loop (fuel lptr iter : nat) : M (list Z) :=
  match fuel with
  | O => fun m => (NoFuel, m)
  | S fuel =>
      let! over := api_list_iter_isover lptr iter in
      if over then pret [] else
      let! item := api_list_iter_getval lptr iter in
      let! iter := api_list_iter_next lptr iter in
      let! r := print_loop fuel lptr iter in
      pret (s32 item :: r)
  end.
Definition api_list_print (fuel lptr : nat) : M (list Z) :=
  let! iter := api_list_iter_init lptr in
  if is_null lptr then pret [] else print_loop fuel lptr iter.

(** * The driver *)

Inductive command :=
| IOCTL_LIST_CREATE | IOCTL_LIST_DESTROY | IOCTL_LIST_ISEMPTY
| IOCTL_LIST_ADD (arg : Z) | IOCTL_LIST_DEL | IOCTL_LIST_PRINT | IOCTL_LIST_OTHER.
(** What a call reports on the kernel log, the pointers converted to [int]; the call
    itself returns 0 or an error.  [arg] is an [unsigned long]. *)
Inductive report := Nothing | Empty (b : bool) | Popped (p : Z) | Items (l : list Z).
Definition EINVAL : Z := 22.

(** [lptr] is the static variable, before and after. *)
Definition kern_unlocked_ioctl (fuel lptr : nat) (cmd : command) : M (Z * report * nat) :=
  match cmd with
  | IOCTL_LIST_CREATE => let! lptr := api_list_create in pret (0, Nothing, lptr)
  | IOCTL_LIST_DESTROY => api_list_destroy lptr ;;; pret (0, Nothing, NULL)
  | IOCTL_LIST_ISEMPTY => let! b := api_list_isempty lptr in pret (0, Empty b, lptr)
  | IOCTL_LIST_ADD arg => api_list_add lptr (u64 arg) ;;; pret (0, Nothing, lptr)
  | IOCTL_LIST_DEL => let! p := api_list_del lptr in pret (0, Popped (s32 p), lptr)
  | IOCTL_LIST_PRINT => let! l := api_list_print fuel lptr in pret (0, Items l, lptr)
  | IOCTL_LIST_OTHER => pret (- EINVAL, Nothing, lptr)
  end.

(** * The fields of memory *)

Definition nextf (h : gmap nat list_struct) (x : nat) : option nat := next <$> h !! x.
Definition prevf (h : gmap nat list_struct) (x : nat) : option nat := prev <$> h !! x.
Definition ptrf (h : gmap nat list_struct) (x : nat) : option Z := ptr <$> h !! x.

(** [h'] is [h] with some fields changed. *)
Record changed (h h' : gmap nat list_struct) (fn fp : nat -> option nat) (fv : nat -> option Z) : Prop := {
  c_next x : nextf h' x = fn x;
  c_prev x : prevf h' x = fp x;
  c_ptr x : ptrf h' x = fv x;
  c_dom : dom h' = dom h;
}.
Definition upd {A} (f : nat -> option A) (p : nat) (v : A) (x : nat) : option A := if decide (x = p) then Some v else f x.

Lemma changed_refl h : changed h h (nextf h) (prevf h) (ptrf h).
Proof. done. Qed.

Lemma run_bind {A B} (m : M A) (k : A -> M B) s a s' : m s = (Val a, s') -> pbind m k s = k a s'.
Proof. unfold pbind. by intros ->. Qed.

(** One more field. *)
Section fields.
Context (h0 : gmap nat list_struct) (fn fp : nat -> option nat) (fv : nat -> option Z) (p : nat) (h : gmap nat list_struct) (m : mem).
Hypothesis Hc : changed h0 h fn fp fv.
Hypothesis Hp : p ∈ dom h0.

Ltac set_field :=
  assert (p ∈ dom h) as Hd by (by rewrite (c_dom _ _ _ _ _ Hc)); pose proof Hd as [n Hn]%elem_of_dom;
  unfold load, pbind; cbn [nodes set_nodes]; rewrite Hn; eexists; (split; [reflexivity|]);
  constructor;
  [ intros y; unfold upd, nextf, prevf, ptrf; destruct (decide (y = p)) as [->|];
    [ rewrite lookup_insert_eq; first [reflexivity | rewrite <- (c_next _ _ _ _ _ Hc) | rewrite <- (c_prev _ _ _ _ _ Hc) | rewrite <- (c_ptr _ _ _ _ _ Hc)];
      unfold nextf, prevf, ptrf; by rewrite Hn
    | rewrite lookup_insert_ne by done; by apply Hc ]..
  | rewrite dom_insert_L, <- (c_dom _ _ _ _ _ Hc); set_solver ].

Lemma set_next_ok x : exists h', set_next p x (set_nodes h m) = (Val tt, set_nodes h' m) /\ changed h0 h' (upd fn p x) fp fv.
Proof using Hc Hp. unfold set_next. set_field. Qed.
Lemma set_prev_ok x : exists h', set_prev p x (set_nodes h m) = (Val tt, set_nodes h' m) /\ changed h0 h' fn (upd fp p x) fv.
Proof using Hc Hp. unfold set_prev. set_field. Qed.
Lemma set_ptr_ok x : exists h', set_ptr p x (set_nodes h m) = (Val tt, set_nodes h' m) /\ changed h0 h' fn fp (upd fv p x).
Proof using Hc Hp. unfold set_ptr. set_field. Qed.
End fields.

Ltac set_step H :=
  let h := fresh "h" in let E := fresh "E" in let C := fresh "C" in
  destruct H as (h & E & C); first [rewrite (run_bind _ _ _ _ _ E); clear E | exists h; split; [exact E|exact C]].

(** The updates of the list library. *)
Section library.
Context (h0 : gmap nat list_struct) (m : mem).
Abbreviation fn := (nextf h0).
Abbreviation fp := (prevf h0).

Lemma list_add_ok new hd nx fv h :
  changed h0 h fn fp fv -> fn hd = Some nx -> nx ∈ dom h0 -> new ∈ dom h0 -> hd ∈ dom h0 -> exists h',
  list_add new hd (set_nodes h m) = (Val tt, set_nodes h' m) /\
  changed h0 h' (upd (upd fn new nx) hd new) (upd (upd fp nx new) new hd) fv.
Proof.
  intros C Hnx Hdx Hdn Hdh. rewrite <- (c_next _ _ _ _ _ C) in Hnx. unfold nextf in Hnx. apply fmap_Some in Hnx as (n & Hn & ->).
  unfold list_add. erewrite run_bind; [|unfold load; cbn [nodes set_nodes]; rewrite Hn; reflexivity].
  set_step (set_prev_ok h0 _ _ _ (next n) h m C Hdx new).
  set_step (set_next_ok h0 _ _ _ new h1 m C0 Hdn (next n)).
  set_step (set_prev_ok h0 _ _ _ new h2 m C1 Hdn hd).
  set_step (set_next_ok h0 _ _ _ hd h3 m C2 Hdh new).
Qed.
Lemma list_del_ok e p q :
  fn e = Some q -> fp e = Some p -> p ∈ dom h0 -> q ∈ dom h0 -> exists h',
  list_del e (set_nodes h0 m) = (Val tt, set_nodes h' m) /\
  changed h0 h' (upd (upd fn p q) e LIST_POISON) (upd (upd fp q p) e LIST_POISON) (ptrf h0).
Proof.
  intros Hn Hv Hp Hq. unfold nextf in Hn. unfold prevf in Hv. apply fmap_Some in Hn as (n & Hn & ->).
  rewrite Hn in Hv. injection Hv as <-. pose proof (elem_of_dom_2 _ _ _ Hn) as He. pose proof (changed_refl h0) as C.
  unfold list_del. erewrite run_bind; [|unfold load; cbn [nodes set_nodes]; rewrite Hn; reflexivity].
  set_step (set_prev_ok h0 _ _ _ (next n) h0 m C Hq (prev n)).
  set_step (set_next_ok h0 _ _ _ (prev n) h m C0 Hp (next n)).
  set_step (set_next_ok h0 _ _ _ e h1 m C1 He LIST_POISON).
  set_step (set_prev_ok h0 _ _ _ e h2 m C2 He LIST_POISON).
Qed.
End library.

Lemma kfree_ok p m : p <> 0%nat -> p ∈ dom (nodes m) -> kfree p m = (Val tt, set_nodes (delete p (nodes m)) m).
Proof. intros Hp [n Hn]%elem_of_dom. unfold kfree. rewrite decide_False by done. by rewrite Hn. Qed.
Lemma node_alloc_ok m : granted m (fresh_addr m) = true ->
  kmalloc m = (Val (fresh_addr m), mkMem (<[fresh_addr m := mkNode 0 0 0]> (nodes m)) (1 + fresh_addr m) (granted m)).
Proof. intros Hg. unfold kmalloc. by rewrite Hg. Qed.
(** * The ring *)

(** [x] and [y] are neighbours. *)
Definition linked (h : gmap nat list_struct) (x y : nat) : Prop := nextf h x = Some y /\ prevf h y = Some x.
Fixpoint links (h : gmap nat list_struct) (l : list nat) : Prop :=
  match l with
  | x :: (y :: _) as l' => linked h x y /\ links h l'
  | _ => True
  end.
(** The nodes of the list from the head on, with their values; they are all of memory. *)
Record ring (m : mem) (hd : nat) (l : list (nat * Z)) : Prop := {
  r_dup : NoDup (hd :: l.*1);
  r_links : links (nodes m) (hd :: l.*1 ++ [hd]);
  r_vals a v : (a, v) ∈ l -> ptrf (nodes m) a = Some v;
  r_all : dom (nodes m) = list_to_set (hd :: l.*1);
  r_bound a : a ∈ hd :: l.*1 -> (0 < a < fresh_addr m)%nat;
}.

Lemma links_app h l1 x l2 : links h (l1 ++ x :: l2) <-> links h (l1 ++ [x]) /\ links h (x :: l2).
Proof.
  induction l1 as [|y l1 IH]; [cbn; tauto|]. destruct l1 as [|z l1]; cbn in *; [tauto|]. rewrite IH. tauto.
Qed.
Lemma links_frame h h' l : links h l ->
  (forall l1 x y l2, l = l1 ++ x :: y :: l2 -> nextf h' x = nextf h x /\ prevf h' y = prevf h y) -> links h' l.
Proof.
  induction l as [|x [|y l] IH]; [done..|]. intros [[H1 H2] Hl] H. change (linked h' x y /\ links h' (y :: l)). split.
  - destruct (H [] x y l eq_refl) as [E1 E2]. split; congruence.
  - apply IH; [done|]. intros l1 x' y' l2 E. apply (H (x :: l1) x' y' l2). by rewrite E.
Qed.

(** In a list without duplicates: neighbours against the ends. *)
Lemma not_last (l1 l2 : list nat) x y z : NoDup (l1 ++ x :: y :: l2) -> last (l1 ++ x :: y :: l2) = Some z -> x <> z.
Proof.
  intros (_ & _ & Hd)%NoDup_app Hl ->. apply NoDup_cons in Hd as [Hd _]. apply Hd.
  rewrite last_app_cons, last_cons_cons in Hl. by apply last_Some_elem_of.
Qed.
Lemma not_first (l1 l2 : list nat) x y z : NoDup (l1 ++ x :: y :: l2) -> head (l1 ++ x :: y :: l2) = Some z -> y <> z.
Proof.
  intros Hn Hh ->. destruct l1 as [|w l1]; cbn in Hh; injection Hh as ->.
  - apply NoDup_cons in Hn as [Hn _]. set_solver.
  - apply NoDup_cons in Hn as [Hn _]. set_solver.
Qed.

Lemma ring_nodup m hd l : ring m hd l -> NoDup (l.*1 ++ [hd]).
Proof. intros [H _ _ _ _]. by rewrite Permutation_app_comm. Qed.
Lemma ring_next m hd l : ring m hd l -> nextf (nodes m) hd = Some (default hd (head (l.*1))).
Proof. intros [_ H _ _ _]. destruct (l.*1); cbn in *; apply H. Qed.

Lemma links_tail h x l : links h (x :: l) -> links h l.
Proof. destruct l; [done|]. by intros [_ ?]. Qed.
Lemma ring_null m hd l : ring m hd l -> is_null hd = false.
Proof. intros H. apply Nat.eqb_neq. pose proof (r_bound _ _ _ H hd ltac:(set_solver)). unfold NULL. lia. Qed.
Lemma ring_dom m hd l a : ring m hd l -> a ∈ hd :: l.*1 -> a ∈ dom (nodes m).
Proof. intros H Ha. rewrite (r_all _ _ _ H). by apply elem_of_list_to_set. Qed.
Lemma ring_fresh m hd l a : ring m hd l -> a ∈ hd :: l.*1 -> a <> fresh_addr m.
Proof. intros H Ha. pose proof (r_bound _ _ _ H a Ha). lia. Qed.

(** ** Adding *)

(** The ring once the fields of the new node are set. *)
Lemma add_links h h' hd new l :
  links h (hd :: l ++ [hd]) -> NoDup (hd :: l) -> new ∉ hd :: l ->
  (forall x, nextf h' x = upd (upd (nextf h) new (default hd (head l))) hd new x) ->
  (forall x, prevf h' x = upd (upd (prevf h) (default hd (head l)) new) new hd x) ->
  links h' (hd :: new :: l ++ [hd]).
Proof.
  intros Hl Hd Hnew Hn Hp. assert (hd <> new /\ NoDup (l ++ [hd])) as [Hne Hd'] by (split; [set_solver|by rewrite Permutation_app_comm]).
  assert (head (l ++ [hd]) = Some (default hd (head l)) /\ last (l ++ [hd]) = Some hd) as [Hh Hla] by (split; [by destruct l|apply last_snoc]).
  assert (default hd (head l) ∈ hd :: l) as Hx by (destruct l; set_solver).
  assert (links h' (l ++ [hd])) as Hr.
  { apply (links_frame h); [by eapply links_tail|]. intros l1 x y l2 E. rewrite E in *.
    pose proof (not_last _ _ _ _ _ Hd' Hla) as Hxl. pose proof (not_first _ _ _ _ _ Hd' Hh) as Hyf.
    assert (x <> new /\ y <> new) as [] by (split; intros ->; apply Hnew; assert (new ∈ l ++ [hd]) by (rewrite E; set_solver); set_solver).
    rewrite Hn, Hp. unfold upd. by repeat case_decide. }
  cbn -[nextf prevf linked]. destruct (l ++ [hd]) as [|nx r] eqn:E; [by destruct l|]. cbn in Hh. injection Hh as Hh.
  split_and!; [split; [rewrite Hn; unfold upd; by rewrite decide_True|rewrite Hp; unfold upd; by rewrite decide_True]| |done].
  rewrite Hh. split.
  - rewrite Hn. unfold upd. rewrite decide_False by done. by rewrite decide_True.
  - rewrite Hp. unfold upd. rewrite decide_False by (intros Eq; apply Hnew; by rewrite <- Eq). by rewrite decide_True.
Qed.

Lemma ring_add m hd l v : ring m hd l -> granted m (fresh_addr m) = true -> exists m',
  api_list_add hd v m = (Val tt, m') /\ ring m' hd ((fresh_addr m, v) :: l) /\
  fresh_addr m' = S (fresh_addr m) /\ granted m' = granted m.
Proof.
  intros Hr Hg. set (new := fresh_addr m). set (h0 := <[new := mkNode 0 0 0]> (nodes m)).
  pose proof (ring_next _ _ _ Hr) as Hnx. set (nx := default hd (head l.*1)) in *.
  assert (new ∉ hd :: l.*1) as Hnew by (intros H; by apply (ring_fresh _ _ _ _ Hr H)).
  assert (nx ∈ hd :: l.*1) as Hx by (unfold nx; destruct (l.*1); set_solver).
  assert (dom h0 = {[new]} ∪ dom (nodes m)) as Hdom by apply dom_insert_L.
  assert (forall x, x <> new -> h0 !! x = nodes m !! x) as Hold by (intros; by apply lookup_insert_ne).
  assert (forall a, a ∈ hd :: l.*1 -> a ∈ dom h0) as Hin
    by (intros a Ha; rewrite Hdom; apply elem_of_union; right; by apply (ring_dom _ _ _ _ Hr)).
  unfold api_list_add. rewrite (ring_null _ _ _ Hr), (run_bind _ _ _ _ _ (node_alloc_ok m Hg)). fold new h0.
  set (m1 := mkMem h0 (1 + new) (granted m)). change m1 with (set_nodes h0 m1) at 1.
  set_step (set_ptr_ok h0 _ _ _ new h0 m1 (changed_refl h0) ltac:(rewrite Hdom; set_solver) v).
  destruct (list_add_ok h0 m1 new hd nx _ h C) as (h' & E & C').
  { unfold nextf. rewrite Hold; [done|]. intros Eq. apply Hnew. rewrite <- Eq. apply elem_of_cons. by left. }
  { by apply Hin. }
  { rewrite Hdom. set_solver. }
  { apply Hin, elem_of_cons. by left. }
  exists (set_nodes h' m1). split; [exact E|]. split; [|done]. destruct C' as [Cn Cp Cv Cd]. constructor.
  - cbn. apply NoDup_cons. split; [|apply NoDup_cons; split]; [..|]; pose proof (r_dup _ _ _ Hr) as [? ?]%NoDup_cons; set_solver.
  - cbn [nodes set_nodes fmap list_fmap fst app]. apply (add_links (nodes m)); [apply Hr|apply Hr|done|intros x; rewrite Cn|intros x; rewrite Cp];
      fold nx; unfold upd, nextf, prevf; repeat case_decide; try done; by rewrite Hold.
  - intros a w [[= -> ->]|Ha]%elem_of_cons; cbn [nodes set_nodes]; rewrite Cv; unfold upd.
    + by rewrite decide_True.
    + assert (a <> new) by (intros ->; apply Hnew; apply elem_of_cons; right; by apply (list_elem_of_fmap_2 fst) in Ha).
      rewrite decide_False by done. unfold ptrf. rewrite Hold by done. by apply (r_vals _ _ _ Hr).
  - cbn [nodes set_nodes]. rewrite Cd, Hdom, (r_all _ _ _ Hr). cbn. set_solver.
  - cbn [fresh_addr set_nodes m1]. intros a Ha. destruct (decide (a = new)) as [->|].
    + pose proof (r_bound _ _ _ Hr hd ltac:(set_solver)). unfold new. lia.
    + pose proof (r_bound _ _ _ Hr a). unfold new in *. cbn in Ha. set_solver by lia.
Qed.

(** ** Deleting *)

Lemma ring_last m hd l e v : ring m hd (l ++ [(e, v)]) -> exists p,
  last (hd :: l.*1) = Some p /\ prevf (nodes m) hd = Some e /\ nextf (nodes m) e = Some hd /\ prevf (nodes m) e = Some p.
Proof.
  intros [_ Hl _ _ _]. rewrite fmap_app in Hl. cbn in Hl.
  destruct (last (hd :: l.*1)) as [p|] eqn:Ep; [|by apply last_None in Ep]. exists p. split; [done|].
  apply last_Some in Ep as [l0 E0].
  assert (hd :: (l.*1 ++ [e]) ++ [hd] = l0 ++ p :: [e; hd]) as Eq by (rewrite <- app_assoc, app_comm_cons, E0, <- app_assoc; done).
  change (links (nodes m) (hd :: (l.*1 ++ [e]) ++ [hd])) in Hl. rewrite Eq in Hl. apply links_app in Hl as [_ ([Hn Hp] & [Hn' Hp'] & _)]. done.
Qed.

Lemma del_links h h' hd e p l :
  links h (hd :: (l ++ [e]) ++ [hd]) -> NoDup (hd :: l ++ [e]) -> last (hd :: l) = Some p ->
  (forall x, x <> e -> nextf h' x = upd (nextf h) p hd x /\ prevf h' x = upd (prevf h) hd p x) ->
  links h' (hd :: l ++ [hd]).
Proof.
  intros Hl Hd Hlast H. pose proof Hlast as [l0 E0]%last_Some.
  assert (hd :: (l ++ [e]) ++ [hd] = l0 ++ p :: [e; hd]) as Eq by (rewrite <- app_assoc, app_comm_cons, E0, <- app_assoc; done).
  assert (hd :: l ++ [hd] = l0 ++ p :: [hd]) as Eq' by (rewrite app_comm_cons, E0, <- app_assoc; done).
  rewrite Eq in Hl. apply links_app in Hl as [Hl _]. rewrite Eq'. apply links_app.
  assert (NoDup (l0 ++ [p]) /\ e ∉ l0 ++ [p]) as [Hd0 He].
  { rewrite <- E0. rewrite app_comm_cons in Hd. apply NoDup_app in Hd as (H1 & H2 & _). split; [done|]. intros He. by apply (H2 e He), list_elem_of_singleton. }
  assert (hd ∈ l0 ++ [p]) as Hh by (rewrite <- E0; set_solver). split.
  - apply (links_frame h); [done|]. intros l1 x y l2 E. rewrite E in Hd0, He.
    assert (x <> p) by (apply (not_last l1 l2 x y p); [done|rewrite <- E; apply last_snoc]).
    assert (y <> hd) by (apply (not_first l1 l2 x y hd); [done|by rewrite <- E, <- E0]).
    destruct (H x) as [-> _]; [set_solver|]. destruct (H y) as [_ ->]; [set_solver|]. unfold upd. by rewrite !decide_False.
  - split; [|done]. destruct (H p) as [Hp _]; [set_solver|]. destruct (H hd) as [_ Hp']; [set_solver|].
    split; [rewrite Hp|rewrite Hp']; unfold upd; by rewrite decide_True.
Qed.

Lemma ring_del m hd l e v : ring m hd (l ++ [(e, v)]) -> exists m',
  api_list_del hd m = (Val v, m') /\ ring m' hd l /\ fresh_addr m' = fresh_addr m /\ granted m' = granted m.
Proof.
  intros Hr. destruct (ring_last _ _ _ _ _ Hr) as (p & Hlast & Hhe & Hne & Hpe). pose proof (r_dup _ _ _ Hr) as Hd.
  rewrite fmap_app in Hd. cbn in Hd.
  assert (e ∉ hd :: l.*1) as Hnew.
  { rewrite app_comm_cons in Hd. apply NoDup_app in Hd as (_ & H2 & _). intros He. by apply (H2 e He), list_elem_of_singleton. }
  assert (p ∈ hd :: l.*1) as Hp by (by apply last_Some_elem_of).
  assert (forall a, a ∈ hd :: l.*1 ++ [e] -> a ∈ dom (nodes m)) as Hin.
  { intros a Ha. apply (ring_dom _ _ _ _ Hr). by rewrite fmap_app. }
  assert (0 < e)%nat as Hpos by (apply (r_bound _ _ _ Hr); rewrite fmap_app; set_solver).
  unfold api_list_del. rewrite (ring_null _ _ _ Hr). destruct (elem_of_dom (nodes m) hd) as [[n Hn] _]; [apply Hin; set_solver|].
  assert (forall {B} (k : list_struct -> M B), pbind (load hd) k m = k n m) as Hload
    by (intros; apply run_bind; unfold load; by rewrite Hn).
  rewrite Hload. unfold prevf in Hhe. rewrite Hn in Hhe. injection Hhe as Hhe. cbv zeta. rewrite Hhe.
  pose proof (ring_next _ _ _ Hr) as Hnx. unfold nextf in Hnx. rewrite Hn in Hnx. injection Hnx as Hnx.
  erewrite run_bind; [|unfold list_empty; rewrite Hload; reflexivity]. rewrite (proj2 (Nat.eqb_neq (next n) hd)).
  2:{ rewrite Hnx, fmap_app. apply NoDup_cons in Hd as [Hd _]. destruct (l.*1); cbn in *; set_solver. }
  pose proof (r_vals _ _ _ Hr e v ltac:(set_solver)) as Hv. unfold ptrf in Hv. apply fmap_Some in Hv as (ne & He & ->).
  erewrite run_bind; [|unfold load; rewrite He; reflexivity]. cbv zeta.
  destruct (list_del_ok (nodes m) m e p hd Hne Hpe) as (h' & E & [Cn Cp Cv Cd]); [apply Hin; set_solver|apply Hin; set_solver|].
  replace (set_nodes (nodes m) m) with m in E by (by destruct m). rewrite (run_bind _ _ _ _ _ E).
  erewrite run_bind; [|apply kfree_ok; [lia|cbn; rewrite Cd; apply Hin; set_solver]].
  eexists. split; [reflexivity|]. split; [|done].
  assert (forall x, x <> e -> delete e h' !! x = h' !! x) as Hdel by (intros; by rewrite lookup_delete_ne by done).
  constructor; cbn [nodes set_nodes fresh_addr].
  - rewrite app_comm_cons in Hd. by apply NoDup_app in Hd as (? & _).
  - apply (del_links (nodes m) _ hd e p); [|done|done|].
    + pose proof (r_links _ _ _ Hr) as Hl. by rewrite fmap_app in Hl.
    + intros x Hx. specialize (Cn x). specialize (Cp x). unfold nextf, prevf, upd in *. rewrite Hdel by done.
      rewrite decide_False in Cn, Cp by done. done.
  - intros a w Ha. assert (a <> e) by (intros ->; apply Hnew, elem_of_cons; right; by apply (list_elem_of_fmap_2 fst) in Ha).
    specialize (Cv a). unfold ptrf in *. rewrite Hdel by done. rewrite Cv. apply (r_vals _ _ _ Hr). set_solver.
  - rewrite dom_delete_L, Cd, (r_all _ _ _ Hr), fmap_app. cbn. rewrite list_to_set_app_L. cbn. set_solver.
  - intros a Ha. apply (r_bound _ _ _ Hr). rewrite fmap_app. set_solver.
Qed.

(** ** The calls that only look *)

Lemma ring_isempty m hd l : ring m hd l -> list_empty hd m = (Val (bool_decide (l = [])), m).
Proof.
  intros Hr. pose proof (ring_next _ _ _ Hr) as Hn. unfold nextf in Hn. apply fmap_Some in Hn as (n & Hn & Hx).
  unfold list_empty. erewrite run_bind; [|unfold load; rewrite Hn; reflexivity]. rewrite <- Hx. unfold pret. do 2 f_equal.
  pose proof (r_dup _ _ _ Hr) as Hd. destruct l as [|[a v] l]; cbn; [by rewrite Nat.eqb_refl|].
  apply Nat.eqb_neq. cbn in Hd. apply NoDup_cons in Hd. set_solver.
Qed.
Lemma ring_del_empty m hd : ring m hd [] -> api_list_del hd m = (Val 0, m).
Proof.
  intros Hr. unfold api_list_del. rewrite (ring_null _ _ _ Hr).
  destruct (elem_of_dom (nodes m) hd) as [[n Hn] _]; [apply (ring_dom _ _ _ _ Hr); set_solver|].
  erewrite run_bind; [|unfold load; rewrite Hn; reflexivity]. cbv zeta. by rewrite (run_bind _ _ _ _ _ (ring_isempty _ _ _ Hr)).
Qed.

Lemma print_ok m hd l1 l2 fuel : ring m hd (l1 ++ l2) -> (length l2 < fuel)%nat ->
  print_loop fuel hd (default hd (head l2.*1)) m = (Val (s32 <$> l2.*2), m).
Proof.
  revert l1 fuel. induction l2 as [|[a v] l2 IH]; intros l1 [|fuel] Hr Hf; try (cbn in Hf; lia);
    cbn [print_loop]; unfold api_list_iter_isover, api_list_iter_getval, api_list_iter_next; rewrite (ring_null _ _ _ Hr).
  - erewrite run_bind by reflexivity. cbn. by rewrite Nat.eqb_refl.
  - erewrite run_bind by reflexivity. cbn [fmap list_fmap fst snd head from_option]. unfold id. pose proof (r_dup _ _ _ Hr) as Hd.
    rewrite fmap_app in Hd. cbn in Hd. rewrite (proj2 (Nat.eqb_neq a hd)) by (apply NoDup_cons in Hd; set_solver).
    pose proof (r_vals _ _ _ Hr a v ltac:(set_solver)) as Hv. unfold ptrf in Hv. apply fmap_Some in Hv as (n & Hn & ->).
    erewrite run_bind; [|unfold pbind, load; rewrite Hn; reflexivity].
    erewrite run_bind; [|unfold pbind, load; rewrite Hn; reflexivity].
    pose proof (r_links _ _ _ Hr) as Hl. rewrite fmap_app in Hl. cbn [fmap list_fmap fst] in Hl.
    assert (hd :: (l1.*1 ++ a :: l2.*1) ++ [hd] = (hd :: l1.*1) ++ a :: l2.*1 ++ [hd]) as Eq by (cbn; by rewrite <- app_assoc).
    assert (next n = default hd (head l2.*1)) as ->.
    { change (links (nodes m) (hd :: (l1.*1 ++ a :: l2.*1) ++ [hd])) in Hl. rewrite Eq in Hl. apply links_app in Hl as [_ Hl].
      destruct (l2.*1); destruct Hl as [[Hx _] _]; unfold nextf in Hx; rewrite Hn in Hx; by injection Hx. }
    erewrite run_bind; [|apply (IH (l1 ++ [(a, ptr n)])); [by rewrite <- app_assoc|cbn in Hf; lia]]. done.
Qed.

Lemma ring_create m : nodes m = ∅ -> (0 < fresh_addr m)%nat -> granted m (fresh_addr m) = true -> exists m',
  api_list_create m = (Val (fresh_addr m), m') /\ ring m' (fresh_addr m) [] /\
  fresh_addr m' = S (fresh_addr m) /\ granted m' = granted m.
Proof.
  intros He Hf Hg. set (hd := fresh_addr m). set (h0 := <[hd := mkNode 0 0 0]> (nodes m)).
  assert (dom h0 = {[hd]}) as Hdom by (unfold h0; rewrite dom_insert_L, He, dom_empty_L; set_solver).
  unfold api_list_create. rewrite (run_bind _ _ _ _ _ (node_alloc_ok m Hg)). fold hd h0.
  set (m1 := mkMem h0 (1 + hd) (granted m)). change m1 with (set_nodes h0 m1) at 1.
  destruct (set_next_ok h0 _ _ _ hd h0 m1 (changed_refl h0) ltac:(rewrite Hdom; set_solver) hd) as (h1 & E1 & C1).
  destruct (set_prev_ok h0 _ _ _ hd h1 m1 C1 ltac:(rewrite Hdom; set_solver) hd) as (h2 & E2 & [Cn Cp Cv Cd]).
  erewrite run_bind; [|unfold INIT_LIST_HEAD; rewrite (run_bind _ _ _ _ _ E1); exact E2].
  exists (set_nodes h2 m1). split; [reflexivity|]. split; [|done]. constructor; cbn [nodes set_nodes fresh_addr m1].
  - apply NoDup_singleton.
  - change (linked h2 hd hd /\ True). split; [|done]. split; [rewrite Cn|rewrite Cp]; unfold upd; by rewrite decide_True.
  - by intros a v Ha%elem_of_nil.
  - rewrite Cd, Hdom. set_solver.
  - intros a Ha. apply list_elem_of_singleton in Ha as ->. unfold hd. lia.
Qed.
Lemma ring_destroy m hd : ring m hd [] -> exists m',
  api_list_destroy hd m = (Val tt, m') /\ nodes m' = ∅ /\ fresh_addr m' = fresh_addr m /\ granted m' = granted m.
Proof.
  intros Hr. unfold api_list_destroy. rewrite (ring_null _ _ _ Hr). pose proof (r_bound _ _ _ Hr hd ltac:(set_solver)).
  rewrite kfree_ok; [|lia|apply (ring_dom _ _ _ _ Hr); set_solver]. eexists. split; [done|]. split; [|done].
  cbn. apply dom_empty_inv_L. rewrite dom_delete_L, (r_all _ _ _ Hr). cbn. set_solver.
Qed.

(** * The queue *)

(** The newest element first; [None] when there is no list.  The elements are kept
    whole, the reports show their low 32 bits. *)
Definition spec_cmd (cmd : command) (q : option (list Z)) : Z * report * option (list Z) :=
  match cmd, q with
  | IOCTL_LIST_CREATE, _ => (0, Nothing, Some [])
  | IOCTL_LIST_DESTROY, _ => (0, Nothing, None)
  | IOCTL_LIST_ISEMPTY, Some l => (0, Empty (bool_decide (l = [])), q)
  | IOCTL_LIST_ISEMPTY, None => (0, Empty false, q)
  | IOCTL_LIST_ADD v, Some l => (0, Nothing, Some (u64 v :: l))
  | IOCTL_LIST_ADD _, None => (0, Nothing, q)
  | IOCTL_LIST_DEL, Some l => (0, Popped (s32 (default 0 (last l))), Some (removelast l))
  | IOCTL_LIST_DEL, None => (0, Popped 0, q)
  | IOCTL_LIST_PRINT, _ => (0, Items (s32 <$> default [] q), q)
  | IOCTL_LIST_OTHER, _ => (- EINVAL, Nothing, q)
  end.
(** A list is created when there is none and destroyed when it is empty. *)
Definition allowed (cmd : command) (q : option (list Z)) : Prop :=
  match cmd with
  | IOCTL_LIST_CREATE => q = None
  | IOCTL_LIST_DESTROY => q = None \/ q = Some []
  | _ => True
  end.
Fixpoint spec_run (cmds : list command) (q : option (list Z)) : list (Z * report) * option (list Z) :=
  match cmds with
  | [] => ([], q)
  | c :: cs => let '(x, q') := spec_cmd c q in let '(r, q'') := spec_run cs q' in (x :: r, q'')
  end.
Fixpoint all_allowed (cmds : list command) (q : option (list Z)) : Prop :=
  match cmds with [] => True | c :: cs => allowed c q /\ all_allowed cs (spec_cmd c q).2 end.

Fixpoint run_cmds (fuel lptr : nat) (cmds : list command) : M (list (Z * report) * nat) :=
  match cmds with
  | [] => pret ([], lptr)
  | c :: cs =>
      let! '(x, lptr) := kern_unlocked_ioctl fuel lptr c in
      let! '(r, lptr) := run_cmds fuel lptr cs in
      pret (x :: r, lptr)
  end.

(** The memory that represents a queue: when there is no list it is empty. *)
Definition rep (m : mem) (lptr : nat) (q : option (list Z)) : Prop :=
  (0 < fresh_addr m)%nat /\ (forall a, granted m a = true) /\
  match q with
  | None => lptr = NULL /\ nodes m = ∅
  | Some l => exists r, ring m lptr r /\ r.*2 = l
  end.

Ltac keep r := split; [done|]; split_and!; [done|done|by exists r].

Lemma cmd_refines fuel m lptr q cmd :
  rep m lptr q -> allowed cmd q -> (length (default [] q) < fuel)%nat -> exists m' lptr',
  kern_unlocked_ioctl fuel lptr cmd m = (Val ((spec_cmd cmd q).1, lptr'), m') /\ rep m' lptr' (spec_cmd cmd q).2.
Proof.
  intros (Hf & Hg & Hq) Ha Hl. unfold kern_unlocked_ioctl, rep.
  destruct q as [l|]; [destruct Hq as (r & Hr & <-)|destruct Hq as [-> He]].
  - pose proof (ring_null _ _ _ Hr) as Hnull. destruct cmd as [| | |v| | |]; cbn [spec_cmd fst snd allowed] in *.
    + discriminate.
    + destruct Ha as [|[= Ha]]; [discriminate|]. apply fmap_nil_inv in Ha as ->.
      destruct (ring_destroy _ _ Hr) as (m' & E & Hm & Hf' & Hg'). rewrite (run_bind _ _ _ _ _ E).
      exists m', NULL. rewrite Hf', Hg'. done.
    + unfold api_list_isempty. rewrite Hnull, (run_bind _ _ _ _ _ (ring_isempty _ _ _ Hr)). exists m, lptr.
      split; [|split_and!; [done|done|by exists r]]. unfold pret. do 5 f_equal. apply bool_decide_ext. split; [by intros ->|apply fmap_nil_inv].
    + destruct (ring_add _ _ _ (u64 v) Hr (Hg _)) as (m' & E & Hr' & Hf' & Hg'). rewrite (run_bind _ _ _ _ _ E).
      exists m', lptr. rewrite Hf', Hg'. split; [done|]. split_and!; [lia|done|]. eexists. split; [exact Hr'|done].
    + induction r as [|e r _] using rev_ind.
      * rewrite (run_bind _ _ _ _ _ (ring_del_empty _ _ Hr)). exists m, lptr. keep (@nil (nat * Z)).
      * destruct e as [e v]. destruct (ring_del _ _ _ _ _ Hr) as (m' & E & Hr' & Hf' & Hg'). rewrite (run_bind _ _ _ _ _ E).
        exists m', lptr. rewrite Hf', Hg', fmap_app. cbn [fmap list_fmap snd]. rewrite last_snoc, removelast_last. keep r.
    + unfold api_list_print, api_list_iter_init. rewrite Hnull. pose proof (ring_next _ _ _ Hr) as Hn.
      unfold nextf in Hn. apply fmap_Some in Hn as (n & Hn & Hx). erewrite run_bind.
      2:{ erewrite run_bind; [|unfold pbind, load; rewrite Hn; reflexivity]. rewrite <- Hx.
          apply (print_ok m lptr [] r fuel Hr). cbn in Hl. by rewrite length_fmap in Hl. }
      exists m, lptr. keep r.
    + exists m, lptr. keep r.
  - destruct cmd as [| | |v| | |]; cbn [spec_cmd fst snd allowed] in *; try (exists m, NULL; done).
    destruct (ring_create m He Hf (Hg _)) as (m' & E & Hr' & Hf' & Hg'). rewrite (run_bind _ _ _ _ _ E).
    exists m', (fresh_addr m). rewrite Hf', Hg'. split; [done|]. split_and!; [lia|done|]. by exists [].
Qed.

Lemma queue_length c q : (length (default [] (spec_cmd c q).2) <= S (length (default [] q)))%nat.
Proof.
  destruct c, q as [l|]; cbn; try lia. induction l as [|x l _] using rev_ind; [cbn; lia|].
  rewrite removelast_last, length_app. lia.
Qed.

(** C17: The list driver refines a queue: for any sequence of calls that creates a list
    when there is none and destroys it when it is empty, and when memory is granted, each
    call returns and reports what the queue says (the oldest element is deleted first,
    printing shows all elements, each converted to [int] as the log shows it), no freed
    or foreign memory is touched, and when the list is gone all its memory is. *)
Theorem list_refines fuel cmds m lptr q :
  rep m lptr q -> all_allowed cmds q -> (length (default [] q) + length cmds < fuel)%nat -> exists m' lptr',
  run_cmds fuel lptr cmds m = (Val ((spec_run cmds q).1, lptr'), m') /\ rep m' lptr' (spec_run cmds q).2.
Proof.
  revert m lptr q. induction cmds as [|c cs IH]; intros m lptr q Hrep Hall Hf; [by exists m, lptr|].
  cbn [all_allowed length] in *. destruct Hall as [Ha Hall]. pose proof (queue_length c q) as Hs.
  destruct (cmd_refines fuel m lptr q c Hrep Ha ltac:(lia)) as (m1 & lptr1 & E1 & Hrep1).
  destruct (IH m1 lptr1 (spec_cmd c q).2 Hrep1 Hall ltac:(lia)) as (m2 & lptr2 & E2 & Hrep2).
  exists m2, lptr2. cbn [run_cmds spec_run]. rewrite (run_bind _ _ _ _ _ E1), (run_bind _ _ _ _ _ E2).
  destruct (spec_cmd c q) as [x q1]. cbn [fst snd] in *. by destruct (spec_run cs q1).
Qed.

(** Loading: no list yet. *)
Definition boot (g : nat -> bool) : mem := mkMem ∅ 1 g.
Definition demo : list command :=
  [IOCTL_LIST_CREATE; IOCTL_LIST_ADD 5; IOCTL_LIST_ADD (2 ^ 32 - 6); IOCTL_LIST_PRINT; IOCTL_LIST_DEL; IOCTL_LIST_DEL; IOCTL_LIST_DEL; IOCTL_LIST_ISEMPTY; IOCTL_LIST_DESTROY].
Lemma list_refines_witness : exists m' lptr',
  run_cmds 20 NULL demo (boot (fun _ => true)) =
    (Val ([(0, Nothing); (0, Nothing); (0, Nothing); (0, Items [-6; 5]); (0, Popped 5); (0, Popped (-6)); (0, Popped 0);
           (0, Empty true); (0, Nothing)], lptr'), m') /\ rep m' lptr' None.
Proof.
  apply (list_refines 20 demo (boot (fun _ => true)) NULL None).
  - unfold rep, boot. cbn. split_and!; (done || lia).
  - cbn. tauto.
  - cbn. lia.
Defined.

(** * What the other calls leave behind *)

(** Deleting through the iterator frees the element but leaves it in the ring: the
    next traversal reads freed memory. *)
Theorem iter_del_dangles :
  ((let! l := api_list_create in
    api_list_add l 5 ;;;
    let! i := api_list_iter_init l in
    api_list_iter_del l i ;;;
    api_list_print 10 l) (boot (fun _ => true))).1 = Stuck.
Proof. vm_compute. reflexivity. Qed.
(** Destroying a list does not free its elements. *)
Theorem destroy_leaks :
  let '(r, m) := run_cmds 10 NULL [IOCTL_LIST_CREATE; IOCTL_LIST_ADD 5; IOCTL_LIST_DESTROY] (boot (fun _ => true)) in
  (exists x, r = Val (x, NULL)) /\ is_Some (nodes m !! 2%nat).
Proof. vm_compute. split; by eexists. Qed.
(** Two pointers that differ above 32 bits look the same on the log, and one whose low
    half is zero looks like the NULL of an empty list. *)
Theorem log_truncates : exists lptr,
  (run_cmds 10 NULL [IOCTL_LIST_CREATE; IOCTL_LIST_ADD (2 ^ 32); IOCTL_LIST_ADD (2 ^ 32 + 5); IOCTL_LIST_ADD 5;
      IOCTL_LIST_PRINT; IOCTL_LIST_DEL] (boot (fun _ => true))).1 =
  Val ([(0, Nothing); (0, Nothing); (0, Nothing); (0, Nothing); (0, Items [5; 5; 0]); (0, Popped 0)], lptr).
Proof. eexists. vm_compute. reflexivity. Qed.
(** An allocation that fails is used all the same. *)
Theorem add_unchecked : (run_cmds 10 NULL [IOCTL_LIST_CREATE; IOCTL_LIST_ADD 5] (boot (fun a => (a =? 1)%nat))).1 = Stuck.
Proof. vm_compute. reflexivity. Qed.
End KList.
