(* ===== verification/SyscallHijack.v ===== *)
(** [src/kernel/mod_syscall_hijack.c]: a module that puts a function of its own in the
    place of close(2) in the table of system calls.  While it is loaded every close is
    counted and answered as before; after it is unloaded memory is as before.  The
    module does not look at whether the table could be mapped, and maps one page only:
    the theorems at the end. *)

From stdpp Require Import prelude list gmap.
From Stdlib Require Import ZArith Lia.
From S2P Require Import Prelude Kernel KMem.

Module SyscallHijack.
Open Scope prog_scope.

(** [phys] are the words of physical memory; [mapping] is the page that is mapped,
    [map_ok] whether the kernel maps it.  The rest are the static variables. *)
Record state := mkState {
  phys : gmap Z Z; mapping : option Z; map_ok : bool;
  sys_call_adr : option Z; offset_precise : Z; old_close : Z; called : Z;
}.
Abbreviation M := (prog state).

Section hijack.
(** The module parameter, how the kernel translates it, what a function at an address
    returns when it is called with a value in the register of its first argument, and
    where [new_close] is. *)
Context (sys_call_table_addr : Z) (virt_to_phys : Z -> Z) (handler : Z -> Z -> Z) (new_close_addr : Z).

Definition NR_close : Z := 3.
Definition align_address (addr : Z) : Z := Z.land addr (Z.lnot (PAGE_SIZE - 1)).
Definition get_sys_call_table : Z := sys_call_table_addr.

Definition ioremap (start : Z) : M (option Z) := fun s =>
  if map_ok s then
    (Val (Some start), mkState (phys s) (Some start) (map_ok s) (sys_call_adr s) (offset_precise s) (old_close s) (called s))
  else (Val None, s).
Definition iounmap (p : option Z) : M unit := fun s =>
  if decide (p = mapping s /\ is_Some p) then
    (Val tt, mkState (phys s) None (map_ok s) (sys_call_adr s) (offset_precise s) (old_close s) (called s))
  else (Stuck, s).

Definition map_sys_call_table : M Z :=
  let syscalladr := virt_to_phys get_sys_call_table in
  let offset := Z.land syscalladr (PAGE_SIZE - 1) in
  let start := align_address syscalladr in
  let! p := ioremap start in
  pmodify (fun s => mkState (phys s) (mapping s) (map_ok s) p (offset_precise s) (old_close s) (called s)) ;;;
  match p with
  | None => pret (- ENOMEM)
  | Some _ =>
      pmodify (fun s => mkState (phys s) (mapping s) (map_ok s) (sys_call_adr s) offset (old_close s) (called s)) ;;;
      pret 0
  end.
Definition unmap_sys_call_table : M unit := let! s := pget in iounmap (sys_call_adr s).

(** An access to the mapped page, as an array of longs. *)
Definition entry_addr (nr : Z) : M Z := fun s =>
  match mapping s with
  | Some start =>
      if decide (sys_call_adr s = mapping s) then
        if (0 <=? offset_precise s + 8 * nr) && (offset_precise s + 8 * nr + 8 <=? PAGE_SIZE)
        then (Val (start + offset_precise s + 8 * nr), s) else (Stuck, s)
      else (Stuck, s)
  | None => (Stuck, s)
  end.
Definition get_sys_call_entry (nr : Z) : M Z :=
  let! a := entry_addr nr in
  fun s => match phys s !! a with Some v => (Val v, s) | None => (Stuck, s) end.
Definition set_sys_call_entry (nr val : Z) : M unit :=
  let! a := entry_addr nr in
  pmodify (fun s => mkState (<[a := val]> (phys s)) (mapping s) (map_ok s) (sys_call_adr s) (offset_precise s) (old_close s) (called s)).
Definition test_sys_call_table (nr : Z) : M unit :=
  let! val := get_sys_call_entry nr in set_sys_call_entry nr val.

(** The argument is an [unsigned int]: the low half of the register; it is passed on as
    such. *)
Definition new_close (reg : Z) : M Z :=
  let val := u32 reg in
  let! s := pget in
  pmodify (fun s => mkState (phys s) (mapping s) (map_ok s) (sys_call_adr s) (offset_precise s) (old_close s) (s32 (called s + 1))) ;;;
  pret (handler (old_close s) val).

(** The result of mapping is not looked at. *)
Definition mod_init : M Z :=
  map_sys_call_table ;;;
  test_sys_call_table NR_close ;;;
  let! f := get_sys_call_entry NR_close in
  pmodify (fun s => mkState (phys s) (mapping s) (map_ok s) (sys_call_adr s) (offset_precise s) f (called s)) ;;;
  set_sys_call_entry NR_close new_close_addr ;;;
  pret 0.
Definition mod_exit : M unit :=
  let! s := pget in
  set_sys_call_entry NR_close (old_close s) ;;;
  unmap_sys_call_table.

(** close(2), through the table, with any value in the register. *)
Definition sys_close (reg : Z) : M Z := fun s =>
  match phys s !! (virt_to_phys sys_call_table_addr + 8 * NR_close) with
  | Some f => if f =? new_close_addr then new_close reg s else (Val (handler f reg), s)
  | None => (Stuck, s)
  end.
Fixpoint closes (vals : list Z) : M (list Z) :=
  match vals with
  | [] => pret []
  | v :: vs => let! r := sys_close v in let! rs := closes vs in pret (r :: rs)
  end.

(** * Loading, closing, unloading *)

Definition unloaded (h : gmap Z Z) (ok : bool) : state := mkState h None ok None 0 0 0.
Section loaded.
Context (h : gmap Z Z) (f : Z).
Abbreviation tab := (virt_to_phys sys_call_table_addr).
Abbreviation entry := (tab + 8 * NR_close).
Hypothesis Hf : h !! entry = Some f.
Hypothesis Hpage : 0 <= tab /\ tab mod PAGE_SIZE + 8 * NR_close + 8 <= PAGE_SIZE.

Definition loaded (c : Z) : state :=
  mkState (<[entry := new_close_addr]> h) (Some (align_address tab)) true (Some (align_address tab)) (tab mod PAGE_SIZE) f c.

Lemma page_mask x : Z.land x (PAGE_SIZE - 1) = x mod PAGE_SIZE.
Proof. change (PAGE_SIZE - 1) with (Z.ones 12). rewrite Z.land_ones by lia. done. Qed.
Lemma align_split x : align_address x + x mod PAGE_SIZE = x.
Proof.
  unfold align_address. change (PAGE_SIZE - 1) with (Z.ones 12). rewrite <- Z.ldiff_land, Z.ldiff_ones_r by lia.
  rewrite Z.shiftr_div_pow2, Z.shiftl_mul_pow2 by lia. change (2 ^ 12) with PAGE_SIZE.
  pose proof (Z.div_mod x PAGE_SIZE). unfold PAGE_SIZE in *. lia.
Qed.
Lemma entry_ok g o c : entry_addr NR_close (mkState g (Some (align_address tab)) true (Some (align_address tab)) (tab mod PAGE_SIZE) o c) =
  (Val entry, mkState g (Some (align_address tab)) true (Some (align_address tab)) (tab mod PAGE_SIZE) o c).
Proof using Hpage.
  unfold entry_addr. cbn [mapping sys_call_adr offset_precise]. rewrite decide_True by done.
  pose proof (Z.mod_pos_bound tab PAGE_SIZE). unfold NR_close in *.
  rewrite (proj2 (Z.leb_le 0 _)), (proj2 (Z.leb_le _ PAGE_SIZE)) by (unfold PAGE_SIZE in *; lia). cbn [andb].
  pose proof (align_split tab). do 2 f_equal. lia.
Qed.

Ltac run := erewrite pbind_val; [|first [reflexivity | rewrite (pbind_val _ _ _ _ _ (entry_ok _ _ _)); cbn [phys]; rewrite ?Hf, ?lookup_insert_eq; reflexivity]].

Lemma init_ok : mod_init (unloaded h true) = (Val 0, loaded 0).
Proof using Hf Hpage.
  unfold mod_init, test_sys_call_table, get_sys_call_entry, set_sys_call_entry. erewrite (pbind_val map_sys_call_table).
  2:{ unfold map_sys_call_table. do 3 run. cbn -[PAGE_SIZE Z.land]. rewrite page_mask. reflexivity. }
  erewrite pbind_val; [|run; rewrite (pbind_val _ _ _ _ _ (entry_ok _ _ _)); reflexivity]. cbn [phys].
  rewrite (insert_id h entry f Hf). do 2 run. cbn [phys mapping map_ok sys_call_adr offset_precise old_close called].
  run. done.
Qed.
Lemma exit_ok c : mod_exit (loaded c) = (Val tt, mkState h None true (Some (align_address tab)) (tab mod PAGE_SIZE) f c).
Proof using Hf Hpage.
  unfold mod_exit, set_sys_call_entry, unmap_sys_call_table, loaded. do 2 run.
  cbn [phys mapping map_ok sys_call_adr offset_precise old_close called]. rewrite insert_insert_eq, (insert_id h entry f Hf).
  run. unfold iounmap. cbn [mapping sys_call_adr]. rewrite decide_True by (split; [done|by eexists]). done.
Qed.
Hypothesis Huint : forall reg, handler f reg = handler f (u32 reg).
Lemma closes_ok vals c : closes vals (loaded c) = (Val (handler f <$> vals), loaded (foldl (fun c _ => s32 (c + 1)) c vals)).
Proof using Huint.
  revert c. induction vals as [|v vs IH]; intros c; [done|]. cbn [closes fmap list_fmap foldl]. rewrite (Huint v).
  erewrite pbind_val; [|unfold sys_close; cbn [phys loaded]; rewrite lookup_insert_eq, Z.eqb_refl; reflexivity].
  erewrite pbind_val; [|apply IH]. done.
Qed.
Lemma closes_unloaded s vals : phys s = h -> f <> new_close_addr -> closes vals s = (Val (handler f <$> vals), s).
Proof using Hf.
  intros Hs Hne. induction vals as [|v vs IH]; [done|]. cbn [closes fmap list_fmap].
  erewrite pbind_val; [|unfold sys_close; rewrite Hs, Hf, (proj2 (Z.eqb_neq f new_close_addr)) by done; reflexivity].
  by rewrite (pbind_val _ _ _ _ _ IH).
Qed.
End loaded.

Lemma count_calls (vals : list Z) c : 0 <= c -> c + zlen vals < 2147483648 -> foldl (fun c _ => s32 (c + 1)) c vals = c + zlen vals.
Proof.
  revert c. induction vals as [|v vs IH]; intros c Hc Hl; cbn [foldl length] in *; [lia|].
  rewrite s32_small by lia. rewrite IH; lia.
Qed.
End hijack.

(** C38: Loading the module, fewer than [2 ^ 31] calls of close with any register contents
    and unloading it, when the table can be mapped, its fourth entry lies within its
    first page and the function there takes an [unsigned int] (it does not look at the
    high half of the register): every call returns what it would have returned without
    the module, the module has counted them, and physical memory is as before and
    nothing is mapped. *)
Theorem hijack_transparent addr virt_to_phys handler new h f vals :
  h !! (virt_to_phys addr + 8 * NR_close) = Some f -> f <> new ->
  0 <= virt_to_phys addr /\ virt_to_phys addr mod PAGE_SIZE + 8 * NR_close + 8 <= PAGE_SIZE ->
  (forall reg, handler f reg = handler f (u32 reg)) ->
  zlen vals < 2147483648 ->
  exists s s', (mod_init addr virt_to_phys new ;;;
                let! r := closes addr virt_to_phys handler new vals in
                let! s := pget in
                mod_exit ;;; pret (r, s)) (unloaded h true) = (Val (handler f <$> vals, s), s') /\
    called s = zlen vals /\ phys s' = h /\ mapping s' = None /\
    closes addr virt_to_phys handler new vals (unloaded h true) = (Val (handler f <$> vals), unloaded h true).
Proof.
  intros Hf Hne Hp Hu Hl. rewrite (pbind_val _ _ _ _ _ (init_ok addr virt_to_phys new h f Hf Hp)).
  rewrite (pbind_val _ _ _ _ _ (closes_ok addr virt_to_phys handler new h f Hu vals 0)).
  erewrite pbind_val by reflexivity. rewrite (pbind_val _ _ _ _ _ (exit_ok addr virt_to_phys new h f Hf Hp _)).
  eexists _, _. split; [reflexivity|]. cbn [called phys mapping loaded]. rewrite count_calls by lia.
  split_and!; [done|done|done|]. by apply (closes_unloaded addr virt_to_phys handler new h f).
Qed.
Definition demo_mem : gmap Z Z := {[8216 := 77]}.
Definition demo_handler (f reg : Z) : Z := f + u32 reg.
Lemma hijack_transparent_witness : exists s s',
  (mod_init 8192 id 99 ;;;
   let! r := closes 8192 id demo_handler 99 [3; 2 ^ 32 + 4] in
   let! s := pget in
   mod_exit ;;; pret (r, s)) (unloaded demo_mem true) = (Val ([80; 81], s), s') /\
    called s = 2 /\ phys s' = demo_mem /\ mapping s' = None /\
    closes 8192 id demo_handler 99 [3; 2 ^ 32 + 4] (unloaded demo_mem true) = (Val [80; 81], unloaded demo_mem true).
Proof.
  apply (hijack_transparent 8192 id demo_handler 99 demo_mem 77 [3; 2 ^ 32 + 4]);
    [reflexivity|discriminate|split; discriminate| |reflexivity].
  intros reg. unfold demo_handler, wrapu. by rewrite Z.mod_mod.
Defined.

(** A function that looks at the whole register is not called with it. *)
Theorem hijack_narrows : exists s s',
  (mod_init 8192 id 99 ;;; sys_close 8192 id Z.add 99 (2 ^ 32 + 4)) (unloaded demo_mem true) = (Val 81, s) /\
  sys_close 8192 id Z.add 99 (2 ^ 32 + 4) (unloaded demo_mem true) = (Val (2 ^ 32 + 81), s').
Proof. eexists _, _. vm_compute. split; reflexivity. Qed.

(** A table that cannot be mapped is used all the same. *)
Theorem hijack_ignores_failure : (mod_init 8192 id 99 (unloaded demo_mem false)).1 = Stuck.
Proof. vm_compute. reflexivity. Qed.
(** A table that begins at the end of a page has its entries on the next one. *)
Theorem hijack_leaves_page : (mod_init (8192 + 4072) id 99 (unloaded {[12288 := 77]} true)).1 = Stuck.
Proof. vm_compute. reflexivity. Qed.
End SyscallHijack.
