(* ===== verification/Philosophers.v ===== *)
(** [src/exercises/multi_threading/semaphores]: the dining philosophers, each a process,
    with one semaphore per fork; [waiter.cc] lays the table and [solution.cc] is a
    philosopher.  Both forks are taken by one semop(2).  Shown for any processes and
    every interleaving: nobody eats with a fork that another holds, the semaphores say
    which forks are free, and somebody can always go on. *)

From stdpp Require Import prelude list relations.
From Stdlib Require Import ZArith Lia.
From S2P Require Import Prelude Threads Alarms.

Module Philosophers.
Open Scope stmt_scope.

Definition NPHIL : nat := 5.

(** The semaphores of the set. *)
Abbreviation sems := (list Z).
(** A philosopher knows its number. *)
Record local := mkLocal { id : nat }.
Definition code_t : Type := stmt sems local.

(** semop(2): all operations or none; [None] when the caller must wait. *)
Fixpoint semop (sops : list (nat * Z)) (s : sems) : option sems :=
  match sops with
  | [] => Some s
  | (num, op) :: r =>
      match s !! num with
      | Some v => if v + op <? 0 then None else semop r (<[num := v + op]> s)
      | None => None
      end
  end.

(** [waiter.cc]: one fork in every place, whatever was there. *)
Fixpoint lay (i n : nat) (s : sems) : sems :=
  match n with O => s | S n => lay (S i) n (<[i := 1]> s) end.
Definition waiter (s : sems) : sems := lay 0 NPHIL s.

Definition next (id : nat) : nat := if (id =? NPHIL - 1)%nat then 0 else id + 1.
Definition sops (amount : Z) (l : local) : list (nat * Z) := [(id l, amount); (next (id l), amount)].
Definition forks (amount : Z) : code_t :=
  SAwait (fun m l => bool_decide (is_Some (semop (sops amount l) m)))
         (fun m l => (default m (semop (sops amount l) m), l)).
Definition activity : code_t := SDo (fun m l => (m, l)).
Definition philosopher : code_t :=
  SWhile (fun _ _ => true) (forks (-1) ;; activity ;; forks 1 ;; activity).
Definition code (_ : nat) : list (instr sems local) := compile philosopher.

(** The check of the argument: the number when the process goes on. *)
Definition main (arg : Z) : option nat :=
  if (arg <? 0) || (Z.of_nat NPHIL <=? arg) then None else Some (Z.to_nat arg).
(** Processes with these arguments, at a laid table. *)
Definition start (garbage : sems) (args : list Z) : config sems local :=
  mkConfig (waiter garbage) None ((fun n => mkThread 0 Running (mkLocal n)) <$> omap main args).

(** * Proof outline *)

Definition eating (pc : nat) : bool := span 2 3 pc.
Definition uses (id k : nat) : bool := (k =? id)%nat || (k =? next id)%nat.

Inductive ctr := KFork (k : nat).
Definition count (x : ctr) (m : sems) : Z := let '(KFork k) := x in match m !! k with Some v => 1 - v | None => 0 end.
Definition weight (_ pc : nat) (l : local) (x : ctr) : Z := let '(KFork k) := x in b2z (eating pc && uses (id l) k).
Definition inside (_ _ : nat) : bool := false.
Definition says (_ _ : nat) (_ : sems) (_ : local) : Prop := True.
Definition lsays (_ pc : nat) (l : local) : Prop := (id l < NPHIL)%nat /\ (pc < 6)%nat.
Definition good (m : sems) : Prop := exists a b c d e, m = [a; b; c; d; e] /\ 0 <= a <= 1 /\ 0 <= b <= 1 /\ 0 <= c <= 1 /\ 0 <= d <= 1 /\ 0 <= e <= 1.

Lemma phil_weight_01 t pc l x : 0 <= weight t pc l x <= 1.
Proof. destruct x as [k]. unfold weight, b2z. destruct (eating pc && uses (id l) k); lia. Qed.

(** Five cases for the number of the philosopher. *)
Lemma five n : (n < NPHIL)%nat -> n = 0%nat \/ n = 1%nat \/ n = 2%nat \/ n = 3%nat \/ n = 4%nat.
Proof. unfold NPHIL. lia. Qed.
Ltac five H := apply five in H; destruct H as [-> |[-> |[-> |[-> | ->]]]].

Lemma take_forks n m m' : (n < NPHIL)%nat -> good m -> semop (sops (-1) (mkLocal n)) m = Some m' ->
  good m' /\ forall k, count (KFork k) m' = count (KFork k) m + b2z (uses n k).
Proof.
  intros Hn (a & b & c & d & e & -> & Ha & Hb & Hc & Hd & He) E.
  five Hn; cbn in E; repeat (case_match; try done); simplify_eq; zbool;
    (split; [do 5 eexists; split_and!; [reflexivity|lia..]|]);
    intros [|[|[|[|[|k]]]]]; cbn; lia.
Qed.
Lemma give_forks n m : (n < NPHIL)%nat -> good m -> (forall k, uses n k = true -> 1 <= count (KFork k) m) -> exists m',
  semop (sops 1 (mkLocal n)) m = Some m' /\ good m' /\ forall k, count (KFork k) m' = count (KFork k) m - b2z (uses n k).
Proof.
  intros Hn (a & b & c & d & e & -> & Ha & Hb & Hc & Hd & He) Hu.
  assert (forall k, uses n k = true -> 1 <= count (KFork k) [a; b; c; d; e]) as Hu' by done.
  pose proof (Hu n) as H1. pose proof (Hu' (next n)) as H2.
  five Hn; cbn in H1, H2; specialize (H1 eq_refl); specialize (H2 eq_refl); cbn;
    repeat (case_match; zbool; [lia|]); eexists; (split; [reflexivity|]);
    (split; [do 5 eexists; split_and!; [reflexivity|lia..]|]); intros [|[|[|[|[|k]]]]]; cbn; lia.
Qed.
(** With all forks on the table a philosopher can take two. *)
Lemma forks_free n m : (n < NPHIL)%nat -> good m -> (forall k, count (KFork k) m = 0) -> is_Some (semop (sops (-1) (mkLocal n)) m).
Proof.
  intros Hn (a & b & c & d & e & -> & Ha & Hb & Hc & Hd & He) H0.
  pose proof (H0 0%nat). pose proof (H0 1%nat). pose proof (H0 2%nat). pose proof (H0 3%nat). pose proof (H0 4%nat). cbn in *.
  five Hn; cbn; repeat (case_match; zbool; [lia|]); by eexists.
Qed.

#[local] Arguments semop : simpl never.
#[local] Arguments sops : simpl never.

Section outline.
Context (N : Z).

Lemma phil_ok t pc : ok code count weight inside says lsays good N t pc.
Proof.
  destruct pc as [|[|[|[|[|[|pc]]]]]]; unfold ok; cbn.
  - split; (split; [by left|]); intros m l (H & [Hl _] & _) E; [|done]. split_and!; [by intros []|split; [done|lia]|done].
  - split; [done|]. split; [done|]. intros m l (H & [Hl _] & _) Hb. apply bool_decide_eq_true in Hb as [m' E].
    destruct l as [n]. rewrite E. cbn. destruct (take_forks n m m' Hl (f_G _ _ _ _ _ _ _ _ H) E) as [HG Hc].
    split_and!; [intros [k]; rewrite Hc; cbn; lia|done|split; [done|lia]|done|done].
  - split; [done|]. intros m l (H & [Hl _] & _) _. split_and!; [intros []; cbn; lia|apply H|split; [done|lia]|done|done].
  - split; [done|]. split; [done|]. intros m l (H & [Hl _] & _) _. destruct l as [n].
    destruct (give_forks n m Hl (f_G _ _ _ _ _ _ _ _ H)) as (m' & E & HG & Hc).
    { intros k Hk. pose proof (f_count _ _ _ _ _ _ _ _ H (KFork k)) as Hw. cbn in Hw. rewrite Hk in Hw. cbn in Hw. cbn. lia. }
    rewrite E. cbn. split_and!; [intros [k]; rewrite Hc; cbn; lia|done|split; [done|lia]|done|done].
  - split; [done|]. intros m l (H & [Hl _] & _) _. split_and!; [intros []; cbn; lia|apply H|split; [done|lia]|done|done].
  - split; [by left|]. intros m l (H & [Hl _] & _) _. split_and!; [by intros []|split; [done|lia]|done].
  - done.
Qed.
End outline.

Lemma phil_queueing t : forallb queueing (code t) = true.
Proof. done. Qed.

Section reachable.
Context (garbage : sems) (args : list Z) (Hg : length garbage = NPHIL).
Abbreviation N := (Z.of_nat (length (omap main args))).
Abbreviation INV := (Inv code count weight inside says lsays good N).

Lemma laid : waiter garbage = [1; 1; 1; 1; 1].
Proof using Hg. destruct garbage as [|? [|? [|? [|? [|? [|]]]]]]; done. Qed.
Lemma seated t th : threads (start garbage args) !! t = Some th -> exists n, th = mkThread 0 Running (mkLocal n) /\ (n < NPHIL)%nat.
Proof.
  cbn. rewrite list_lookup_fmap. intros (n & Hn & ->)%fmap_Some. exists n. split; [done|].
  apply list_elem_of_lookup_2, list_elem_of_omap in Hn as (x & _ & Hx). unfold main in Hx.
  destruct ((x <? 0) || (Z.of_nat NPHIL <=? x)) eqn:E; [done|]. zbool. simplify_eq. lia.
Qed.
Lemma none_eating x a (ns : list nat) : total weight x a ((fun n => mkThread 0 Running (mkLocal n)) <$> ns) = 0.
Proof. revert a. induction ns as [|n ns IH]; intros a; [done|]. cbn. rewrite IH. by destruct x. Qed.

Lemma phil_start_inv : INV (start garbage args).
Proof using Hg.
  constructor.
  - cbn. by rewrite length_fmap.
  - intros t. split; [done|]. by intros (th & _ & _ & Hin).
  - done.
  - intros x. cbn [mem start threads]. rewrite none_eating, laid. destruct x as [[|[|[|[|[|k]]]]]]; done.
  - cbn [mem start]. rewrite laid. do 5 eexists. split_and!; [reflexivity|lia..].
  - by intros t th (n & -> & _)%seated.
  - intros t th (n & -> & Hn)%seated. split; [done|cbn; lia].
Qed.
Lemma phil_reachable cf : rtc (step code) (start garbage args) cf -> INV cf.
Proof using Hg.
  intros Hr. eapply inv_reachable; [apply phil_weight_01|apply phil_ok|apply phil_start_inv|exact Hr].
Qed.
End reachable.

(** C21: The dining philosophers, whatever processes sit down at the table and however
    they interleave: two that eat at the same time share no fork; a semaphore is 0
    exactly when its fork is in use and 1 otherwise; and as long as there is a
    philosopher some process can go on. *)
Theorem philosophers_correct garbage args cf :
  length garbage = NPHIL -> rtc (step code) (start garbage args) cf ->
  (forall t1 t2 th1 th2 k, t1 <> t2 -> threads cf !! t1 = Some th1 -> threads cf !! t2 = Some th2 ->
     eating (t_pc th1) = true -> eating (t_pc th2) = true ->
     uses (id (t_loc th1)) k = true -> uses (id (t_loc th2)) k = false) /\
  (forall k v, mem cf !! k = Some v ->
     (v = 0 \/ v = 1) /\
     (v = 0 <-> exists t th, threads cf !! t = Some th /\ eating (t_pc th) = true /\ uses (id (t_loc th)) k = true)) /\
  (threads cf <> [] -> ~ blocked code cf).
Proof.
  intros Hg Hr. pose proof (phil_reachable garbage args Hg cf Hr) as HI. pose proof (inv_G _ _ _ _ _ _ _ _ _ HI) as HG.
  pose proof (inv_count _ _ _ _ _ _ _ _ _ HI) as Hc.
  assert (forall k v, mem cf !! k = Some v -> 0 <= v <= 1) as Hv.
  { destruct HG as (a & b & c & d & e & -> & ?). intros [|[|[|[|[|k]]]]] v Hk; cbn in Hk; simplify_eq; lia. }
  split_and!.
  - intros t1 t2 th1 th2 k Hne H1 H2 E1 E2 U1. destruct (uses (id (t_loc th2)) k) eqn:U2; [exfalso|done].
    pose proof (total_two weight phil_weight_01 (KFork k) 0 _ _ _ _ _ Hne H1 H2) as Ht. cbn [weight] in Ht.
    rewrite E1, E2, U1, U2, <- Hc in Ht. cbn in Ht. destruct (mem cf !! k) as [v|] eqn:Ek; [|lia]. pose proof (Hv _ _ Ek). lia.
  - intros k v Hk. pose proof (Hv _ _ Hk). specialize (Hc (KFork k)). cbn [count] in Hc. rewrite Hk in Hc.
    split; [lia|]. split.
    + intros ->. destruct (total_pos weight (KFork k) 0 (threads cf)) as (t & th & Ht & Hw); [lia|]. exists t, th. cbn [weight] in Hw.
      destruct (eating (t_pc th) && uses (id (t_loc th)) k) eqn:E; [|cbn in Hw; lia]. apply andb_true_iff in E as []. done.
    + intros (t & th & Ht & He & Hu). pose proof (total_bounds weight phil_weight_01 (KFork k) 0 _ _ _ Ht) as Hb.
      cbn [weight] in Hb. rewrite He, Hu in Hb. cbn [andb b2z] in Hb. lia.
  - intros Hne Hb.
    assert (forall t th, threads cf !! t = Some th -> t_pc th = 1%nat /\ bool_decide (is_Some (semop (sops (-1) (t_loc th)) (mem cf))) = false) as Hall.
    { intros t th Ht. pose proof (inv_lsays _ _ _ _ _ _ _ _ _ HI _ _ Ht) as [Hl Hpc].
      destruct (blocked_awaits code count weight inside says lsays good _ (phil_ok _) phil_queueing _ _ _ HI Hb Ht) as [[_ Hf]|(b & f & Hi & Hbf)].
      - apply lookup_ge_None in Hf. cbn in Hf. lia.
      - destruct th as [pc st [n]]. cbn [t_pc t_loc] in *. destruct pc as [|[|[|[|[|[|pc]]]]]]; try discriminate; cbn in Hi; injection Hi as <- _.
        + done.
        + exfalso. destruct (give_forks n (mem cf) Hl HG) as (m' & E & _).
          { intros k Hk. pose proof (f_count _ _ _ _ _ _ _ _ (inv_facts _ _ _ _ _ _ _ _ phil_weight_01 _ _ _ HI Ht) (KFork k)) as Hw.
            cbn in Hw. rewrite Hk in Hw. cbn in Hw |- *. lia. }
          rewrite E in Hbf. by rewrite bool_decide_true in Hbf by (by eexists). }
    destruct (threads cf) as [|th ths] eqn:Eth; [done|]. destruct (Hall 0%nat th eq_refl) as [_ Hf].
    assert (forall k, count (KFork k) (mem cf) = 0) as H0.
    { intros k. rewrite Hc. destruct (decide (0 < total weight (KFork k) 0 (th :: ths))) as [Hpos|].
      - destruct (total_pos weight (KFork k) 0 _ Hpos) as (t & th' & Ht & Hw). destruct (Hall t th' Ht) as [Hpc _].
        cbn [weight] in Hw. rewrite Hpc in Hw. cbn in Hw. lia.
      - pose proof (total_nonneg weight phil_weight_01 (KFork k) 0 (th :: ths)). lia. }
    pose proof (inv_lsays _ _ _ _ _ _ _ _ _ HI 0%nat th ltac:(by rewrite Eth)) as [Hl _].
    destruct (t_loc th) as [n]. pose proof (forks_free n (mem cf) Hl HG H0) as Hs. by rewrite bool_decide_true in Hf.
Qed.

(** Three philosophers, two of them neighbours; the first and the third eat. *)
Definition demo : config sems local :=
  run_schedule code (replicate 2 (0, 0) ++ replicate 2 (1, 0) ++ replicate 2 (2, 0))%nat (start [0; 0; 0; 0; 0] [0; 1; 2; 9]).
Lemma philosophers_correct_witness : mem demo = [0; 0; 0; 0; 1] /\ ~ blocked code demo.
Proof.
  destruct (philosophers_correct [0; 0; 0; 0; 0] [0; 1; 2; 9] demo) as (_ & _ & H); [reflexivity|apply run_schedule_reachable|].
  split; [vm_compute; reflexivity|]. apply H. vm_compute. discriminate.
Defined.
End Philosophers.
