(* ===== verification/PollDriver.v ===== *)
(** [src/kernel/mod_poll.c], a driver whose descriptors become readable when they are told
    to, and [src/kernel/test_poll.cc], whose one thread waits for ten such descriptors with
    epoll_wait(2) while the other wakes and resets them as the user says.  The wait queues
    of the devices and the ready list of the epoll instance are part of the state: what
    wakes the thread that waits is the call of [wake_up_all] in the driver.  Shown for
    every interleaving: no readable descriptor is forgotten, and the test ends when the
    user asks for it, since the thread that waits is always woken then. *)

From stdpp Require Import prelude list relations.
From Stdlib Require Import ZArith Lia.
From S2P Require Import Prelude Threads Alarms.

Module PollDriver.
Open Scope stmt_scope.

(** * State *)

Definition POLLIN : Z := 1.
Definition EPOLLIN : Z := 1.
Definition ENOMEM : Z := 12.
Definition ENOTTY : Z := 25.
Inductive command := IOCTL_EPOLL_WAKE | IOCTL_EPOLL_RESET | IOCTL_OTHER.

(** The entries of [wq] are the epoll items that wait there, by their number. *)
Record polldev := mkPoll { wq : list nat; state : Z }.

(** The epoll instance of the test: the items that may be ready, those that epoll_wait(2)
    has taken off that list and not looked at yet, and the item whose poll operation is
    being called, with the mask once it is known. *)
Record epoll := mkEp { rdllist : list nat; txlist : list nat; polling : option (nat * option Z) }.

(** The devices behind the descriptors [fd], the flag, the instance and what epoll_wait(2)
    returned.  The last two are for the proofs: whether a state was stored since the flag
    was set, and the device whose state was stored and whose queue was not woken yet. *)
Record shared := mkShared {
  fd : list polldev; over : bool; ep : epoll; seen : list (nat * Z); told : bool; pending : option nat;
}.
(** [input]: the numbers on the lines that the user will still type; [res]: the result of
    the driver's ioctl operation; [i_], [nfds]: the variables of [function_wait]; [item]
    and [more] repeat the item that is polled and whether [txlist] has items left. *)
Record local := mkLocal {
  input : list Z; selection : Z; fdnum : Z; res : Z;
  i_ : Z; nfds : Z; item : nat; more : bool;
}.
Definition code_t : Type := stmt shared local.

Definition set_fd (x : list polldev) (m : shared) : shared := mkShared x (over m) (ep m) (seen m) (told m) (pending m).
Definition set_ep (x : epoll) (m : shared) : shared := mkShared (fd m) (over m) x (seen m) (told m) (pending m).
Definition set_over (m : shared) (l : local) : shared * local := (mkShared (fd m) true (ep m) (seen m) (told m) (pending m), l).
Definition set_res (x : Z) (l : local) : local := mkLocal (input l) (selection l) (fdnum l) x (i_ l) (nfds l) (item l) (more l).
Definition set_i (x : Z) (l : local) : local := mkLocal (input l) (selection l) (fdnum l) (res l) x (nfds l) (item l) (more l).
Definition set_nfds (x : Z) (l : local) : local := mkLocal (input l) (selection l) (fdnum l) (res l) (i_ l) x (item l) (more l).
Definition set_item (x : nat) (b : bool) (l : local) : local := mkLocal (input l) (selection l) (fdnum l) (res l) (i_ l) (nfds l) x b.

(** * The driver *)

(** The result and, for success, the new device; [memory]: kmalloc succeeds. *)
Definition kern_open (memory : bool) : Z * option polldev := if memory then (0, Some (mkPoll [] 0)) else (- ENOMEM, None).

(** A store to the state of a device. *)
Definition store_state (dev : local -> nat) (v : Z) (m : shared) (l : local) : shared * local :=
  (mkShared (alter (fun pd => mkPoll (wq pd) v) (dev l) (fd m)) (over m) (ep m) (seen m) (over m) (Some (dev l)), l).
(** The wake function of an epoll item puts it on the ready list, once. *)
Definition put_ready (r : list nat) (i : nat) : list nat := if bool_decide (i ∈ r) then r else r ++ [i].
Definition wake_up_all (dev : local -> nat) (m : shared) (l : local) : shared * local :=
  let e := ep m in
  (mkShared (fd m) (over m) (mkEp (foldl put_ready (rdllist e) (from_option wq [] (fd m !! dev l))) (txlist e) (polling e))
     (seen m) (told m) None, l).
Definition kern_unlocked_ioctl (dev : local -> nat) (cmd : command) : code_t :=
  match cmd with
  | IOCTL_EPOLL_WAKE => SDo (store_state dev POLLIN) ;; SDo (wake_up_all dev) ;; SDo (fun m l => (m, set_res 0 l))
  | IOCTL_EPOLL_RESET => SDo (store_state dev 0) ;; SDo (wake_up_all dev) ;; SDo (fun m l => (m, set_res 0 l))
  | IOCTL_OTHER => SDo (fun m l => (m, set_res (- ENOTTY) l))
  end.

(** [poll_wait]: the item that is being polled enters the queue of its device. *)
Definition poll_wait (m : shared) (l : local) : shared * local :=
  (match polling (ep m) with
   | Some (i, _) => set_fd (alter (fun pd => mkPoll (wq pd ++ [i]) (state pd)) i (fd m)) m
   | None => m
   end, l).
(** The mask of a device, an unsigned int. *)
Definition mask_of (pd : polldev) : Z := u32 (state pd).
Definition read_mask (m : shared) (l : local) : shared * local :=
  (match polling (ep m) with
   | Some (i, _) => set_ep (mkEp (rdllist (ep m)) (txlist (ep m)) (Some (i, Some (from_option mask_of 0 (fd m !! i))))) m
   | None => m
   end, l).
(** [wait]: the table has a function to call, which it has only when an item is added. *)
Definition kern_poll (wait : bool) : code_t :=
  (if wait then SDo poll_wait else SSkip) ;; SDo read_mask.

(** * epoll *)

Definition ready (mask : Z) : bool := negb (Z.land mask EPOLLIN =? 0).

(** EPOLL_CTL_ADD with EPOLLIN of descriptor [i_]: it is polled and put on the ready list
    if it is ready already. *)
Definition begin_add (m : shared) (l : local) : shared * local :=
  (set_ep (mkEp (rdllist (ep m)) (txlist (ep m)) (Some (Z.to_nat (i_ l), None))) m, set_item (Z.to_nat (i_ l)) (more l) l).
Definition finish_add (m : shared) (l : local) : shared * local :=
  (match polling (ep m) with
   | Some (i, Some mask) =>
       set_ep (mkEp (if ready mask then put_ready (rdllist (ep m)) i else rdllist (ep m)) (txlist (ep m)) None) m
   | _ => set_ep (mkEp (rdllist (ep m)) (txlist (ep m)) None) m
   end, l).
Definition epoll_ctl_add : code_t := SDo begin_add ;; kern_poll true ;; SDo finish_add.

(** epoll_wait(2) sleeps until the ready list is not empty, takes its items off and polls
    each: those that are ready are reported and, since they are level-triggered, put
    back; when none is it sleeps again.  There is room for all ten. *)
Definition steal (m : shared) (l : local) : shared * local :=
  (set_ep (mkEp [] (rdllist (ep m)) (polling (ep m))) m, set_item (item l) true l).
Definition take (m : shared) (l : local) : shared * local :=
  match txlist (ep m) with
  | i :: tx => (set_ep (mkEp (rdllist (ep m)) tx (Some (i, None))) m, set_item i (negb (bool_decide (tx = []))) l)
  | [] => (m, l)
  end.
Definition send (m : shared) (l : local) : shared * local :=
  match polling (ep m) with
  | Some (i, Some mask) =>
      if ready mask then
        (mkShared (fd m) (over m) (mkEp (put_ready (rdllist (ep m)) i) (txlist (ep m)) None) (seen m ++ [(i, mask)]) (told m) (pending m),
         set_nfds (nfds l + 1) l)
      else (set_ep (mkEp (rdllist (ep m)) (txlist (ep m)) None) m, l)
  | _ => (set_ep (mkEp (rdllist (ep m)) (txlist (ep m)) None) m, l)
  end.
Definition epoll_wait : code_t :=
  SDo (fun m l => (m, set_nfds 0 l)) ;;
  SWhile (fun _ l => nfds l =? 0)
    (SAwait (fun m _ => negb (bool_decide (rdllist (ep m) = []))) steal ;;
     SWhile (fun m _ => negb (bool_decide (txlist (ep m) = [])))
       (SDo take ;; kern_poll false ;; SDo send)).

(** * The test *)

Definition NUM_OF_SLEEPERS : nat := 10.

(** What the thread prints of the events is [seen]. *)
Definition function_wait : code_t :=
  SDo (fun m l => (m, set_i 0 l)) ;;
  SWhile (fun _ l => i_ l <? Z.of_nat NUM_OF_SLEEPERS)
    (epoll_ctl_add ;; SDo (fun m l => (m, set_i (i_ l + 1) l))) ;;
  SWhile (fun m _ => negb (over m)) epoll_wait.

(** fgets(3) and atoi(3) on the standard input. *)
Definition fgets : code_t := SAssert (fun _ l => negb (bool_decide (input l = []))).
Definition read_selection (m : shared) (l : local) : shared * local :=
  (m, mkLocal (tail (input l)) (default 0 (head (input l))) (fdnum l) (res l) (i_ l) (nfds l) (item l) (more l)).
Definition read_fdnum (m : shared) (l : local) : shared * local :=
  (m, mkLocal (tail (input l)) (selection l) (default 0 (head (input l))) (res l) (i_ l) (nfds l) (item l) (more l)).
(** ioctl(2) in CHECK_NOT_M1. *)
Definition ioctl (dev : local -> nat) (cmd : command) : code_t :=
  kern_unlocked_ioctl dev cmd ;; SAssert (fun _ l => 0 <=? res l).
Definition chosen (l : local) : nat := Z.to_nat (fdnum l).
Definition first (_ : local) : nat := 0.

Definition change_fd : code_t :=
  fgets ;; SDo read_fdnum ;;
  SIf (fun _ l => (fdnum l <? 0) || (Z.of_nat NUM_OF_SLEEPERS <=? fdnum l)) SSkip
    (SIf (fun _ l => selection l =? 1) (ioctl chosen IOCTL_EPOLL_WAKE) SSkip ;;
     SIf (fun _ l => selection l =? 2) (ioctl chosen IOCTL_EPOLL_RESET) SSkip).
Definition stop : code_t := SDo set_over ;; ioctl first IOCTL_EPOLL_WAKE.
Definition function_wakeup : code_t :=
  SWhile (fun m _ => negb (over m))
    (fgets ;; SDo read_selection ;;
     SIf (fun _ l => (selection l <? 1) || (3 <? selection l)) SSkip
       (SIf (fun _ l => (selection l =? 1) || (selection l =? 2)) change_fd SSkip ;;
        SIf (fun _ l => selection l =? 3) stop SSkip)).

Definition code (t : nat) : list (instr shared local) :=
  match t with 0%nat => compile function_wait | 1%nat => compile function_wakeup | _ => [] end.
(** [main] once the device was opened ten times, with a user who types these numbers. *)
Definition start_local (typed : list Z) : local := mkLocal typed 0 0 0 0 0 0 false.
Definition main (typed : list Z) : config shared local :=
  mkConfig (mkShared (omap (fun _ => (kern_open true).2) (seq 0 NUM_OF_SLEEPERS)) false (mkEp [] [] None) [] false None) None
    [mkThread 0 Running (start_local []); mkThread 0 Running (start_local typed)].

(** The user asks for the end of the program. *)
Fixpoint asks_end (typed : list Z) : bool :=
  match typed with
  | [] => false
  | s :: typed =>
      if s =? 3 then true
      else if (s =? 1) || (s =? 2) then match typed with [] => false | _ :: typed => asks_end typed end
      else asks_end typed
  end.

(** * Proof outline *)

(** What one thread changes, as the thread itself knows it. *)
Inductive ctr := KOver | KTold | KPend (i : nat) | KPoll (i : nat) | KMask | KTx | KReg.
Definition owner_of (k : ctr) : nat := match k with KOver | KTold | KPend _ => 1 | _ => 0 end.
Definition registered (m : shared) : bool := match fd m !! 0%nat with Some pd => bool_decide (0%nat ∈ wq pd) | None => false end.
Definition holds (k : ctr) (m : shared) : bool :=
  match k with
  | KOver => over m
  | KTold => told m
  | KPend i => bool_decide (pending m = Some i)
  | KPoll i => bool_decide (fst <$> polling (ep m) = Some i)
  | KMask => match polling (ep m) with Some (_, Some _) => true | _ => false end
  | KTx => negb (bool_decide (txlist (ep m) = []))
  | KReg => registered m
  end.
Definition leaving (pc : nat) (l : local) : bool := ((pc =? 0)%nat || span 30 31 pc) && (selection l =? 3).
Definition share (pc : nat) (l : local) (k : ctr) : bool :=
  match k with
  | KOver => span 25 29 pc || leaving pc l
  | KTold => span 26 29 pc || leaving pc l
  | KPend i => ((pc =? 12)%nat || (pc =? 18)%nat) && (chosen l =? i)%nat || (pc =? 26)%nat && (i =? 0)%nat
  | KPoll i => (span 3 5 pc || span 14 15 pc) && (item l =? i)%nat
  | KMask => (pc =? 5)%nat || (pc =? 15)%nat
  | KTx => more l
  | KReg => (1 <=? i_ l) || span 4 7 pc
  end.
Definition count (k : ctr) (m : shared) : Z := b2z (holds k m).
Definition weight (t pc : nat) (l : local) (k : ctr) : Z := b2z ((t =? owner_of k)%nat && share pc l k).
Definition inside (_ _ : nat) : bool := false.
Definition says (_ _ : nat) (_ : shared) (_ : local) : Prop := True.

(** The user will still ask for the end. *)
Definition waiting (l : local) : Prop := asks_end (input l) = true.
Definition waiting_fd (l : local) : Prop := (selection l = 1 \/ selection l = 2) /\ exists x r, input l = x :: r /\ asks_end r = true.
Definition stage (pc : nat) (l : local) : Prop :=
  if (pc =? 0)%nat || (pc =? 30)%nat then selection l = 3 \/ waiting l
  else if span 1 2 pc then waiting l
  else if (pc =? 3)%nat then selection l = 3 \/ waiting_fd l \/ (selection l < 1 \/ 3 < selection l) /\ waiting l
  else if (pc =? 4)%nat then (selection l < 1 \/ 3 < selection l) /\ waiting l
  else if (pc =? 5)%nat then selection l = 3 \/ waiting_fd l
  else if span 6 7 pc then waiting_fd l
  else if span 8 22 pc then (selection l = 1 \/ selection l = 2) /\ waiting l /\ ((pc =? 14)%nat || (pc =? 20)%nat = true -> res l = 0)
  else if (pc =? 23)%nat then selection l = 3 \/ (selection l = 1 \/ selection l = 2) /\ waiting l
  else if span 24 31 pc then selection l = 3 /\ (pc = 28%nat -> res l = 0)
  else False.
Definition scan (pc : nat) (l : local) : Prop :=
  (pc <= 19)%nat /\ 0 <= i_ l /\ (pc = 0%nat -> i_ l = 0) /\ (pc = 3%nat -> item l = Z.to_nat (i_ l)) /\
  ((7 <= pc)%nat -> 1 <= i_ l) /\ ((pc <=? 11)%nat || (17 <=? pc)%nat = true -> more l = false) /\ (pc = 13%nat -> more l = true).
Definition lsays (t pc : nat) (l : local) : Prop :=
  match t with 0%nat => scan pc l | 1%nat => stage pc l | _ => False end.

(** Somebody will look at item [i]. *)
Definition held (i : nat) (m : shared) : Prop :=
  i ∈ rdllist (ep m) \/ i ∈ txlist (ep m) \/ polling (ep m) = Some (i, None) \/
  (exists mask, polling (ep m) = Some (i, Some mask) /\ ready mask = true) \/ pending m = Some i.
Record good (m : shared) : Prop := {
  g_len : length (fd m) = NUM_OF_SLEEPERS;
  g_told : told m = true -> exists pd, fd m !! 0%nat = Some pd /\ ready (mask_of pd) = true;
  g_held i pd : fd m !! i = Some pd -> ready (mask_of pd) = true -> i ∈ wq pd -> held i m;
}.

Lemma poll_weight_01 t pc l k : 0 <= weight t pc l k <= 1.
Proof. unfold weight, b2z. destruct (_ && _); lia. Qed.
Lemma asks_end_cons s r : asks_end (s :: r) = true ->
  s = 3 \/ ((s = 1 \/ s = 2) /\ exists x r', r = x :: r' /\ asks_end r' = true) \/ (s < 1 \/ 3 < s) /\ asks_end r = true.
Proof.
  cbn. destruct (Z.eqb_spec s 3); [by left|]. destruct (Z.eqb_spec s 1), (Z.eqb_spec s 2); cbn; intros H;
    try (right; left; split; [lia|]; destruct r as [|x r']; [done|]; by exists x, r').
  right. right. split; [lia|done].
Qed.

(** ** Counters and their owners *)

Definition linked (t pc : nat) (l : local) (m : shared) : Prop := forall k, owner_of k = t -> holds k m = share pc l k.
Lemma facts_linked N t pc l m : facts count weight good N t pc l m -> linked t pc l m.
Proof.
  intros H k Hk. assert (count k m = weight t pc l k) as E.
  { apply (f_own _ _ _ _ _ _ _ _ H). intros t' pc' l' Hne. unfold weight. rewrite (proj2 (Nat.eqb_neq t' (owner_of k))) by lia. done. }
  unfold count, weight in E. rewrite Hk, Nat.eqb_refl in E. cbn in E. destruct (holds k m), (share pc l k); done.
Qed.
(** A step of one thread. *)
Lemma step_counts t pc pc' l l' m m' : linked t pc l m -> linked t pc' l' m' -> (forall k, owner_of k <> t -> holds k m' = holds k m) ->
  forall k, count k m' = count k m + weight t pc' l' k - weight t pc l k.
Proof.
  intros H H' Ho k. unfold count, weight. destruct (Nat.eqb_spec t (owner_of k)) as [E|E].
  - rewrite (H k), (H' k) by done. cbn. lia.
  - rewrite (Ho k) by done. cbn. lia.
Qed.
Lemma not_polling pc l m : linked 0 pc l m -> (span 3 5 pc || span 14 15 pc) = false -> polling (ep m) = None.
Proof.
  intros H Hpc. destruct (polling (ep m)) as [[i x]|] eqn:E; [|done]. specialize (H (KPoll i) eq_refl). cbn in H.
  rewrite Hpc, E, bool_decide_true in H by done. discriminate.
Qed.
Lemma polling_item pc l m : linked 0 pc l m -> (span 3 5 pc || span 14 15 pc) = true -> exists x, polling (ep m) = Some (item l, x).
Proof.
  intros H Hpc. specialize (H (KPoll (item l)) eq_refl). cbn in H. rewrite Hpc, Nat.eqb_refl in H. apply bool_decide_eq_true in H.
  destruct (polling (ep m)) as [[i x]|]; [|done]. cbn in H. injection H as ->. by exists x.
Qed.
Lemma polling_mask pc l m : linked 0 pc l m -> (pc =? 5)%nat || (pc =? 15)%nat = true -> exists mask, polling (ep m) = Some (item l, Some mask).
Proof.
  intros H Hpc. destruct (polling_item pc l m H) as [x E].
  { apply orb_true_iff in Hpc as [->%Nat.eqb_eq| ->%Nat.eqb_eq]; done. }
  specialize (H KMask eq_refl). cbn in H. rewrite Hpc, E in H. destruct x as [mask|]; [by exists mask|done].
Qed.
Lemma polling_begun pc l m : linked 0 pc l m -> pc = 3%nat \/ pc = 4%nat \/ pc = 14%nat -> polling (ep m) = Some (item l, None).
Proof.
  intros H Hpc. destruct (polling_item pc l m H) as [x E]; [by destruct Hpc as [->|[->| ->]]|].
  specialize (H KMask eq_refl). cbn in H. rewrite E in H. destruct x as [mask|]; [|done]. by destruct Hpc as [->|[->| ->]].
Qed.
Lemma not_pending pc l m : linked 1 pc l m -> (forall i, share pc l (KPend i) = false) -> pending m = None.
Proof.
  intros H Hpc. destruct (pending m) as [i|] eqn:E; [|done]. specialize (H (KPend i) eq_refl). rewrite Hpc in H. cbn in H.
  rewrite E, bool_decide_true in H by done. discriminate.
Qed.

(** ** The lists *)

Lemma put_ready_elem r i x : x ∈ put_ready r i <-> x = i \/ x ∈ r.
Proof. unfold put_ready. case_bool_decide; set_solver. Qed.
Lemma put_all_elem l r x : x ∈ foldl put_ready r l <-> x ∈ l \/ x ∈ r.
Proof. revert r. induction l as [|y l IH]; intros r; cbn; [set_solver|]. rewrite IH, put_ready_elem. set_solver. Qed.

(** ** What each step does to the devices and the items *)

(** The steps of epoll leave the devices and the flags as they are. *)
Lemma good_ep e sn m : good m ->
  (forall i, held i m -> held i (mkShared (fd m) (over m) e sn (told m) (pending m))) ->
  good (mkShared (fd m) (over m) e sn (told m) (pending m)).
Proof. intros [H1 H2 H3] H. constructor; cbn; [done|done|]. intros i pd Hi Hr Hw. apply H. by eapply H3. Qed.

Lemma good_begin i m l : good m -> polling (ep m) = None -> Z.to_nat (i_ l) = i -> good (begin_add m l).1.
Proof. intros Hg Hn <-. apply (good_ep _ (seen m)); [done|]. unfold held. cbn. rewrite Hn. intros i [|[|[|[(? & ? & _)|]]]]; naive_solver. Qed.
Lemma good_register m l i x : good m -> polling (ep m) = Some (i, x) -> x = None -> good (poll_wait m l).1.
Proof.
  intros [H1 H2 H3] E ->. unfold poll_wait. rewrite E. cbn. constructor; cbn; [by rewrite length_alter|..].
  - intros Ht. destruct (H2 Ht) as (pd & Hd & Hr). destruct (decide (i = 0%nat)) as [->|Hne].
    + rewrite list_lookup_alter_eq, Hd. by eexists.
    + rewrite list_lookup_alter_ne by done. by eexists.
  - intros j pd Hj Hr Hw. destruct (decide (i = j)) as [->|Hne].
    + unfold held. cbn. tauto.
    + rewrite list_lookup_alter_ne in Hj by done. exact (H3 j pd Hj Hr Hw).
Qed.
Lemma good_mask m l : good m -> good (read_mask m l).1.
Proof.
  intros Hg. unfold read_mask. destruct (polling (ep m)) as [[i x]|] eqn:E; [|done]. cbn. destruct Hg as [H1 H2 H3]. constructor; cbn; [done|done|].
  intros j pd Hj Hr Hw. pose proof (H3 j pd Hj Hr Hw) as Hh. unfold held in *. cbn. rewrite E in Hh.
  destruct (decide (i = j)) as [->|Hne]; [rewrite Hj; cbn; right; right; right; left; by eexists|].
  destruct Hh as [|[|[|[(? & ? & _)|]]]]; naive_solver.
Qed.
Lemma held_done m (r : list nat) sn i x :
  polling (ep m) = Some (i, x) -> (forall mask, x = Some mask -> ready mask = true -> i ∈ r) -> x <> None ->
  (forall j, j ∈ rdllist (ep m) -> j ∈ r) ->
  forall j, held j m -> held j (mkShared (fd m) (over m) (mkEp r (txlist (ep m)) None) sn (told m) (pending m)).
Proof.
  intros E Hx Hn Hr j. unfold held. cbn. rewrite E. intros [H|[H|[H|[(mask & H & Hm)|H]]]]; [left; by apply Hr|tauto|naive_solver| |tauto].
  left. simplify_eq. by eapply Hx.
Qed.
Lemma good_finish m l i mask : good m -> polling (ep m) = Some (i, Some mask) -> good (finish_add m l).1 /\ good (send m l).1.
Proof.
  intros Hg E. unfold finish_add, send. rewrite E. destruct (ready mask) eqn:Er; cbn; split; (apply (good_ep _ _ _ Hg) || apply (good_ep _ (seen m) _ Hg)).
  all: apply (held_done _ _ _ i (Some mask) E); [|done|].
  all: try (intros ? [= <-] ?; congruence).
  all: intros; rewrite ?put_ready_elem; tauto.
Qed.
Lemma good_steal m l : good m -> txlist (ep m) = [] -> good (steal m l).1.
Proof. intros Hg Ht. apply (good_ep _ (seen m)); [done|]. unfold held. cbn. rewrite Ht. intros i. rewrite elem_of_nil. tauto. Qed.
Lemma good_take m l : good m -> polling (ep m) = None -> good (take m l).1.
Proof.
  intros Hg Hn. unfold take. destruct (txlist (ep m)) as [|i tx] eqn:E; [done|]. apply (good_ep _ (seen m)); [done|]. unfold held. cbn. rewrite E, Hn.
  intros j. rewrite elem_of_cons. intros [|[[->|]|[|[(? & ? & _)|]]]]; naive_solver.
Qed.
Lemma good_store dev v m l : good m -> pending m = None -> over m = false \/ dev l = 0%nat /\ ready (u32 v) = true -> good (store_state dev v m l).1.
Proof.
  intros [H1 H2 H3] Hp Ho. constructor; cbn; [by rewrite length_alter|..].
  - intros Ht. destruct Ho as [Ho|[-> Hv]]; [congruence|]. rewrite list_lookup_alter_eq.
    destruct (fd m) as [|d ds]; [done|]. by eexists.
  - intros j pd Hj Hr Hw. unfold held. cbn. destruct (decide (dev l = j)) as [->|Hne]; [tauto|].
    rewrite list_lookup_alter_ne in Hj by done. destruct (H3 j pd Hj Hr Hw) as [|[|[|[|]]]]; [tauto..|congruence].
Qed.
Lemma good_wake dev m l : good m -> pending m = Some (dev l) -> good (wake_up_all dev m l).1.
Proof.
  intros [H1 H2 H3] Hp. constructor; cbn; [done|done|]. intros j pd Hj Hr Hw. unfold held. cbn. rewrite put_all_elem.
  destruct (decide (dev l = j)) as [->|Hne]; [rewrite Hj; cbn; tauto|].
  destruct (H3 j pd Hj Hr Hw) as [|[|[|[|]]]]; [tauto..|congruence].
Qed.

(** ** The program points *)

Lemma registered_add i m : good m -> (i <> 0%nat -> registered m = true) ->
  registered (set_fd (alter (fun pd => mkPoll (wq pd ++ [i]) (state pd)) i (fd m)) m) = true.
Proof.
  intros Hg H. unfold registered in *. cbn. destruct (decide (i = 0%nat)) as [->|Hne]; [|by rewrite list_lookup_alter_ne, H by done].
  rewrite list_lookup_alter_eq. pose proof (g_len _ Hg) as Hl. destruct (fd m); [done|]. cbn. apply bool_decide_eq_true. set_solver.
Qed.
(** The items of [KPoll], [KMask] and [KTx] after the steps of epoll. *)
Lemma linked_polled pc pc' l l' m m' :
  linked 0 pc l m -> fd m' = fd m -> (share pc' l' KReg = share pc l KReg) ->
  holds KTx m' = more l' -> holds KMask m' = share pc' l' KMask ->
  fst <$> polling (ep m') = (if span 3 5 pc' || span 14 15 pc' then Some (item l') else None) ->
  linked 0 pc' l' m'.
Proof.
  intros Hk Hfd Hr Ht Hm Hp [| |i|i| | |] Ho; try done.
  - cbn. rewrite Hp. destruct (span 3 5 pc' || span 14 15 pc'); [|done]. cbn.
    destruct (Nat.eqb_spec (item l') i) as [->|]; [by rewrite bool_decide_true|]. apply bool_decide_eq_false. congruence.
  - rewrite Hr, <- (Hk KReg Ho). cbn. unfold registered. by rewrite Hfd.
Qed.

Section outline.
Context (N : Z).
Abbreviation OK := (ok code count weight inside says lsays good N).

Lemma move_point t pc pc' (cond : shared -> local -> Prop) :
  (forall m l, linked t pc l m -> lsays t pc l -> cond m l ->
     (forall k, owner_of k = t -> share pc' l k = share pc l k) /\ lsays t pc' l) ->
  moves count weight inside says lsays good N t pc pc' cond.
Proof.
  intros H. split; [by left|]. intros m l (Hf & Hl & _) Hc. destruct (H m l (facts_linked _ _ _ _ _ Hf) Hl Hc) as [Hk Hl'].
  split_and!; [|done|done]. intros k. unfold weight. destruct (Nat.eqb_spec t (owner_of k)) as [->|]; [|done]. by rewrite Hk.
Qed.
Lemma update_point t pc b f :
  (forall m l, linked t pc l m -> lsays t pc l -> good m -> b m l = true ->
     linked t (S pc) (f m l).2 (f m l).1 /\ (forall k, owner_of k <> t -> holds k (f m l).1 = holds k m) /\
     good (f m l).1 /\ lsays t (S pc) (f m l).2) ->
  updates count weight inside says lsays good N t pc b f.
Proof.
  intros H. split; [done|]. intros m l (Hf & Hl & _) Hb. pose proof (facts_linked _ _ _ _ _ Hf) as Hk.
  destruct (H m l Hk Hl (f_G _ _ _ _ _ _ _ _ Hf) Hb) as (H1 & H2 & H3 & H4). split_and!; [by apply step_counts|done..].
Qed.

Ltac scan_arith := cbn in *; unfold scan, NUM_OF_SLEEPERS in *; cbn in *; rewrite ?Z.ltb_lt, ?Z.ltb_ge, ?Z.eqb_eq in *; split_and?; intros; try done; try lia; try tauto.
Ltac scan_share := intros []; try discriminate; intros _; unfold share; cbn; try done;
  match goal with |- context [1 <=? ?x] => destruct (Z.leb_spec 1 x); cbn; try done; scan_arith end.
Ltac scan_move := apply move_point; intros m l Hk Hl Hc; (split; [scan_share|scan_arith]).
Ltac scan_mask :=
  let Hp := fresh in let H := fresh in
  apply update_point; intros m l Hk Hl Hg _; pose proof (polling_begun _ _ _ Hk ltac:(tauto)) as Hp; pose proof (good_mask m l Hg) as H;
  unfold read_mask in *; rewrite Hp in *; (split_and!; [by eapply linked_polled; [exact Hk|..|exact (Hk KTx eq_refl)| |]|by intros []|done|scan_arith]).

Lemma function_wait_ok pc : OK 0 pc.
Proof.
  destruct pc as [|[|[|[|[|[|[|[|[|[|[|[|[|[|[|[|[|[|[|pc]]]]]]]]]]]]]]]]]]]; unfold ok; cbn; [..|done].
  - apply update_point. intros m l Hk Hl Hg _. split_and!; [|by intros []|done|scan_arith].
    intros k Ho. specialize (Hk k Ho). destruct k; try done. cbn in *. destruct Hl as (_ & _ & E & _). by rewrite (E eq_refl) in Hk.
  - split; scan_move.
  - apply update_point. intros m l Hk Hl Hg _. pose proof (not_polling _ _ _ Hk eq_refl) as Hn.
    split_and!; [|by intros []|by eapply good_begin|scan_arith]. by eapply linked_polled; [exact Hk|..|exact (Hk KTx eq_refl)| |].
  - apply update_point. intros m l Hk Hl Hg _. pose proof (polling_begun _ _ _ Hk ltac:(by left)) as Hp.
    split_and!; [|unfold poll_wait; rewrite Hp; by intros []|by eapply good_register|scan_arith].
    intros k Ho. pose proof (Hk k Ho) as E. unfold poll_wait. rewrite Hp. destruct k as [| |i|i| | |]; try done. cbn in E |- *. rewrite orb_true_r.
    destruct Hl as (_ & Hi & _ & Hit & _). specialize (Hit eq_refl). apply registered_add; [done|]. intros Hne. rewrite E, (proj2 (Z.leb_le _ _)) by lia. done.
  - scan_mask.
  - apply update_point. intros m l Hk Hl Hg _. destruct (polling_mask _ _ _ Hk eq_refl) as [mask Hp].
    pose proof (proj1 (good_finish m l _ _ Hg Hp)) as Hg'. unfold finish_add in *. rewrite Hp in *.
    split_and!; [|by intros []|done|scan_arith]. by eapply linked_polled; [exact Hk|..|exact (Hk KTx eq_refl)| |].
  - apply update_point. intros m l Hk Hl Hg _. split_and!; [|by intros []|done|scan_arith].
    pose proof (not_polling _ _ _ Hk eq_refl) as Hn. eapply linked_polled; [exact Hk|done|by cbn; rewrite !orb_true_r|exact (Hk KTx eq_refl)|cbn; by rewrite ?Hn|cbn; by rewrite ?Hn].
  - scan_move.
  - split; scan_move.
  - apply update_point. intros m l Hk Hl Hg _. split_and!; [|by intros []|done|scan_arith].
    pose proof (not_polling _ _ _ Hk eq_refl) as Hn. eapply linked_polled; [exact Hk|done|done|exact (Hk KTx eq_refl)|cbn; by rewrite ?Hn|cbn; by rewrite ?Hn].
  - split; scan_move.
  - split; [done|]. apply update_point. intros m l Hk Hl Hg Hc. pose proof (not_polling _ _ _ Hk eq_refl) as Hn.
    pose proof (Hk KTx eq_refl) as Ht. cbn in Ht. assert (more l = false) as Hm by scan_arith. rewrite Hm in Ht. apply negb_false_iff, bool_decide_eq_true in Ht.
    split_and!; [|by intros []|by apply good_steal|scan_arith]. eapply linked_polled; [exact Hk|done|done|done|cbn; by rewrite ?Hn|cbn; by rewrite ?Hn].
  - pose proof I. split; apply move_point; intros m l Hk Hl Hc; pose proof (Hk KTx eq_refl) as Ht; cbn in Ht; rewrite Hc in Ht; (split; [scan_share|scan_arith]).
  - apply update_point. intros m l Hk Hl Hg _. pose proof (not_polling _ _ _ Hk eq_refl) as Hn. pose proof (good_take m l Hg Hn) as Hg'.
    pose proof (Hk KTx eq_refl) as Ht. cbn in Ht. assert (more l = true) as Hm by scan_arith. rewrite Hm in Ht. unfold take in *.
    destruct (txlist (ep m)) as [|i tx] eqn:E; [done|]. split_and!; [|by intros []|done|scan_arith]. by eapply linked_polled; [exact Hk|..].
  - scan_mask.
  - apply update_point. intros m l Hk Hl Hg _. destruct (polling_mask _ _ _ Hk eq_refl) as [mask Hp].
    pose proof (proj2 (good_finish m l _ _ Hg Hp)) as Hg'. unfold send in *. rewrite Hp in *.
    destruct (ready mask); (split_and!; [|by intros []|done|scan_arith]); by eapply linked_polled; [exact Hk|..|exact (Hk KTx eq_refl)| |].
  - scan_move.
  - scan_move.
  - scan_move.
Qed.

#[local] Arguments asks_end : simpl never.
Ltac stage_cases l :=
  cbn in *; unfold stage, waiting, waiting_fd in *; cbn in *; rewrite ?orb_true_iff, ?orb_false_iff, ?Z.ltb_lt, ?Z.ltb_ge, ?Z.leb_le, ?Z.eqb_eq, ?Z.eqb_neq in *;
  intuition (first [done | lia | congruence]).
Ltac stage_share l Hl := intros []; try discriminate; intros _; unfold share, leaving; cbn; try done;
  destruct (Z.eqb_spec (selection l) 3); try done; exfalso; stage_cases l.
Ltac stage_move := apply move_point; intros m l Hk Hl Hc; (split; [stage_share l Hl|stage_cases l]).

(** The thread that wakes: before it sets the flag, and with a store that was not announced yet. *)
Lemma linked_store dev v m l pc : linked 1 pc l m -> share pc l KOver = share (S pc) l KTold -> share pc l KOver = share (S pc) l KOver ->
  (forall i, share (S pc) l (KPend i) = (dev l =? i)%nat) -> linked 1 (S pc) l (store_state dev v m l).1.
Proof.
  intros Hk H1 H2 Hp [| |i|i| | |] Ho; try done; cbn -[share].
  - rewrite <- H2. apply (Hk KOver eq_refl).
  - rewrite <- H1. apply (Hk KOver eq_refl).
  - rewrite Hp. destruct (Nat.eqb_spec (dev l) i) as [->|]; [by rewrite bool_decide_true|]. apply bool_decide_eq_false. congruence.
Qed.
Lemma store_holds dev v m l k : owner_of k <> 1%nat -> holds k (store_state dev v m l).1 = holds k m.
Proof.
  destruct k; try done. intros _. cbn. unfold registered. cbn. destruct (decide (dev l = 0%nat)) as [->|].
  - rewrite list_lookup_alter_eq. by destruct (fd m !! 0%nat).
  - by rewrite list_lookup_alter_ne.
Qed.
Lemma linked_local pc pc' l l' m : linked 1 pc l m -> (forall k, owner_of k = 1%nat -> share pc' l' k = share pc l k) -> linked 1 pc' l' m.
Proof. intros Hk H k Ho. rewrite H by done. by apply Hk. Qed.
Lemma linked_wake dev m l pc : linked 1 pc l m -> (forall k, k = KOver \/ k = KTold -> share (S pc) l k = share pc l k) ->
  (forall i, share (S pc) l (KPend i) = false) -> linked 1 (S pc) l (wake_up_all dev m l).1.
Proof.
  intros Hk H Hp [| |i|i| | |] Ho; try done.
  - rewrite H by tauto. apply (Hk _ Ho).
  - rewrite H by tauto. apply (Hk _ Ho).
Qed.
Lemma pending_is dev pc m l : linked 1 pc l m -> share pc l (KPend (dev l)) = true -> pending m = Some (dev l).
Proof. intros Hk H. rewrite <- (Hk (KPend (dev l)) eq_refl) in H. by apply bool_decide_eq_true in H. Qed.
Ltac stage_store :=
  let Ho := fresh in
  apply update_point; intros m l Hk Hl Hg _; pose proof (Hk KOver eq_refl) as Ho; cbn in Ho;
  (split_and!; [apply (linked_store chosen); [done..|intros i; cbn; by rewrite orb_false_r]|by apply store_holds
    |apply good_store; [done|eapply not_pending; [done|by intros i]|by left]|stage_cases l]).
Ltac stage_wake :=
  apply update_point; intros m l Hk Hl Hg _;
  (split_and!; [by apply (linked_wake chosen); [..|intros k [->| ->]|]|by intros []
    |apply good_wake; [done|eapply pending_is; [done|cbn; by rewrite Nat.eqb_refl]]|stage_cases l]).
Ltac stage_return :=
  apply update_point; intros m l Hk Hl Hg _; (split_and!; [eapply linked_local; [exact Hk|by intros []]|by intros []|done|stage_cases l]).

Lemma function_wakeup_ok pc : OK 1 pc.
Proof.
  destruct pc as [|[|[|[|[|[|[|[|[|[|[|[|[|[|[|[|[|[|[|[|[|[|[|[|[|[|[|[|[|[|[|pc]]]]]]]]]]]]]]]]]]]]]]]]]]]]]]]; unfold ok; cbn; [..|done].
  - split; apply move_point; intros m l Hk Hl Hc; pose proof (Hk KOver eq_refl) as Ho; cbn in Ho; unfold leaving in Ho; cbn in Ho;
      rewrite Ho in Hc; destruct (Z.eqb_spec (selection l) 3); try discriminate; (split; [stage_share l Hl|clear Hc; stage_cases l]).
  - split; [stage_move|]. intros m l (_ & Hl & _). cbn in Hl. unfold waiting in Hl. rewrite bool_decide_false; [done|]. by intros E; rewrite E in Hl.
  - apply update_point. intros m l Hk Hl Hg _. split_and!; [|by intros []|done|].
    + eapply linked_local; [exact Hk|by intros []].
    + cbn in Hl. unfold waiting in Hl. destruct l as [[|s r] sel f]; [done|]. apply asks_end_cons in Hl. exact Hl.
  - split; stage_move.
  - stage_move.
  - split; stage_move.
  - split; [stage_move|]. intros m l (_ & Hl & _). cbn in Hl. destruct Hl as (_ & x & r & -> & _). done.
  - apply update_point. intros m l Hk Hl Hg _. split_and!; [|by intros []|done|].
    + eapply linked_local; [exact Hk|by intros []].
    + cbn in Hl. destruct l as [inp sel f]. destruct Hl as (Hs & x & r & E & Hr). cbn in E. subst inp. by cbn in Hs |- *.
  - split; stage_move.
  - stage_move.
  - split; stage_move.
  - stage_store.
  - stage_wake.
  - stage_return.
  - split; [stage_move|]. intros m l (_ & Hl & _). stage_cases l.
  - stage_move.
  - split; stage_move.
  - stage_store.
  - stage_wake.
  - stage_return.
  - split; [stage_move|]. intros m l (_ & Hl & _). stage_cases l.
  - stage_move.
  - stage_move.
  - split; stage_move.
  - apply update_point. intros m l Hk Hl Hg _. split_and!; [|by intros []| |stage_cases l].
    { intros [| |i|i| | |] Ho; try done; exact (Hk _ Ho). }
    by destruct Hg; constructor.
  - apply update_point. intros m l Hk Hl Hg _.
    split_and!; [apply (linked_store first); try done; by intros []|by apply store_holds|apply good_store; [done|by eapply not_pending|by right]|stage_cases l].
  - apply update_point. intros m l Hk Hl Hg _.
    split_and!; [apply (linked_wake first); [done|by intros k [->| ->]|done]|by intros []|apply good_wake; [done|by eapply pending_is]|stage_cases l].
  - stage_return.
  - split; [stage_move|]. intros m l (_ & Hl & _). stage_cases l.
  - stage_move.
  - stage_move.
Qed.
End outline.

Lemma poll_ok N t pc : ok code count weight inside says lsays good N t pc.
Proof. destruct t as [|[|t]]; [apply function_wait_ok|apply function_wakeup_ok|done]. Qed.
Lemma poll_queueing t : forallb queueing (code t) = true.
Proof. by destruct t as [|[|t]]. Qed.

Section reachable.
Context (typed : list Z) (Hend : asks_end typed = true).
Abbreviation INV := (Inv code count weight inside says lsays good 2).
Lemma poll_start_inv : INV (main typed).
Proof using Hend.
  constructor.
  - done.
  - intros t. split; [done|]. by intros (th & _ & _ & Hin).
  - done.
  - by intros [].
  - constructor; [done..|]. intros i pd Hi Hr _. cbn in Hi. do 10 (destruct i as [|i]; [by injection Hi as <-|]). done.
  - intros [|[|t]] th Ht; cbn in Ht; simplify_eq; done.
  - intros [|[|t]] th Ht; cbn in Ht; simplify_eq; [cbn; unfold scan; cbn; split_and!; done || lia|by right].
Qed.
Lemma poll_reachable cf : rtc (step code) (main typed) cf -> INV cf.
Proof using Hend. intros Hr. eapply inv_reachable; [apply poll_weight_01|apply poll_ok|apply poll_start_inv|exact Hr]. Qed.
Lemma poll_linked cf t th : INV cf -> threads cf !! t = Some th -> linked t (t_pc th) (t_loc th) (mem cf).
Proof. intros HI Ht. eapply facts_linked, inv_facts; [apply poll_weight_01|exact HI|done]. Qed.
End reachable.

(** A thread that cannot go on. *)
Lemma wait_point pc : (exists b f, code 0 !! pc = Some (IAwait b f)) -> pc = 11%nat.
Proof. intros (b & f & H). do 20 (destruct pc as [|pc]; [done|]). done. Qed.
Lemma wakeup_point pc b f : code 1 !! pc <> Some (IAwait b f).
Proof. do 31 (destruct pc as [|pc]; [done|]). done. Qed.
Lemma finished_pc th : finished code 1 th -> lsays 1 (t_pc th) (t_loc th) -> t_pc th = 31%nat /\ selection (t_loc th) = 3.
Proof.
  intros [_ H] Hl. revert H Hl. generalize (t_pc th). intros pc. do 31 (destruct pc as [|pc]; [done|]). destruct pc; [by intros _ [? _]|done].
Qed.

(** No readable descriptor is forgotten, in every interleaving: one that was added is on
    the ready list, or about to be looked at, or its queue is about to be woken. *)
Theorem poll_no_lost_event typed cf i pd :
  asks_end typed = true -> rtc (step code) (main typed) cf ->
  fd (mem cf) !! i = Some pd -> ready (mask_of pd) = true -> i ∈ wq pd -> held i (mem cf).
Proof. intros Hend Hr. apply (g_held _ (inv_G _ _ _ _ _ _ _ _ _ (poll_reachable typed Hend cf Hr))). Qed.

(** C14: The test of the poll driver with a user who asks for its end, in every
    interleaving of the threads, of the driver's ioctl and poll operations and of epoll:
    the input does not run out before, no thread is ever left waiting in epoll_wait(2),
    and when no thread can go on both have returned, which is when main closes the
    descriptors.  What ends the wait is the wake-up of the queue of the device. *)
Theorem poll_test_ends typed cf : asks_end typed = true -> rtc (step code) (main typed) cf ->
  (forall t th, threads cf !! t = Some th -> t_status th <> Failed) /\
  (blocked code cf -> forall t th, threads cf !! t = Some th -> finished code t th).
Proof.
  intros Hend Hr. pose proof (poll_reachable typed Hend cf Hr) as HI. split.
  - intros t th Ht E. pose proof (inv_wait _ _ _ _ _ _ _ _ _ HI _ _ Ht) as Hw. unfold at_wait in Hw. by rewrite E in Hw.
  - intros Hb. pose proof (fun t th Ht => blocked_awaits code count weight inside says lsays good _ (poll_ok _) poll_queueing _ t th HI Hb Ht) as Haw.
    intros t th Ht. destruct (Haw t th Ht) as [|(b & f & Hi & Hbf)]; [done|exfalso].
    destruct t as [|[|t]]; [|by eapply wakeup_point|by destruct (inv_lsays _ _ _ _ _ _ _ _ _ HI _ _ Ht)].
    pose proof (wait_point _ (ex_intro _ b (ex_intro _ f Hi))) as Hpc. rewrite Hpc in Hi. injection Hi as <- _.
    apply negb_false_iff, bool_decide_eq_true in Hbf.
    destruct (lookup_lt_is_Some_2 (threads cf) 1) as [th1 Ht1]; [pose proof (inv_len _ _ _ _ _ _ _ _ _ HI); lia|].
    destruct (Haw 1%nat th1 Ht1) as [Hf1|(b1 & f1 & Hi1 & _)]; [|by eapply wakeup_point].
    destruct (finished_pc th1 Hf1 (inv_lsays _ _ _ _ _ _ _ _ _ HI _ _ Ht1)) as [Hpc1 Hsel].
    pose proof (poll_linked _ _ _ HI Ht) as K0. pose proof (poll_linked _ _ _ HI Ht1) as K1. rewrite Hpc in K0. rewrite Hpc1 in K1.
    pose proof (K1 KTold eq_refl) as Htold. cbn in Htold. unfold leaving in Htold. rewrite Hsel in Htold. cbn in Htold.
    pose proof (inv_lsays _ _ _ _ _ _ _ _ _ HI _ _ Ht) as Hl. rewrite Hpc in Hl. destruct Hl as (_ & _ & _ & _ & Hi & Hm & _).
    destruct (g_told _ (inv_G _ _ _ _ _ _ _ _ _ HI) Htold) as (pd & Hd & Hrd).
    pose proof (K0 KReg eq_refl) as Hreg. pose proof (K0 KTx eq_refl) as Htx. cbn in Hreg, Htx. unfold registered in Hreg.
    rewrite Hd, (proj2 (Z.leb_le _ _)) in Hreg by (apply Hi; lia). apply bool_decide_eq_true in Hreg.
    rewrite (Hm eq_refl) in Htx. apply negb_false_iff, bool_decide_eq_true in Htx.
    pose proof (g_held _ (inv_G _ _ _ _ _ _ _ _ _ HI) 0%nat pd Hd Hrd Hreg) as Hh. unfold held in Hh.
    rewrite Hbf, Htx, (not_polling _ _ _ K0 eq_refl), (not_pending _ _ _ K1 ltac:(by intros i)), !elem_of_nil in Hh. naive_solver.
Qed.

(** Wake descriptor 4, reset it, then end. *)
Definition demo : config shared local :=
  run_schedule code (concat (replicate 100 [(1, 0); (0, 0)]))%nat (main [1; 4; 2; 4; 7; 3]).
Lemma poll_demo_blocked : blocked code demo.
Proof. intros t k. destruct t as [|[|t]]; vm_compute; reflexivity. Qed.
Lemma poll_test_ends_witness : over (mem demo) = true /\ forall t th, threads demo !! t = Some th -> t_status th <> Failed /\ finished code t th.
Proof.
  destruct (poll_test_ends [1; 4; 2; 4; 7; 3] demo) as [H H']; [reflexivity|apply run_schedule_reachable|].
  split; [vm_compute; reflexivity|]. intros t th Ht. split; [by eapply H|]. apply H'; [apply poll_demo_blocked|done].
Defined.
(** A run in which the thread that waits is asleep when descriptor 4 is woken, and reports it. *)
Definition demo_asleep : config shared local := run_schedule code (replicate 200 (0, 0))%nat (main [1; 4; 3]).
Theorem poll_reports :
  go code 0 0 demo_asleep = None /\
  (4%nat, POLLIN) ∈ seen (mem (run_schedule code (replicate 13 (1, 0) ++ replicate 20 (0, 0))%nat demo_asleep)).
Proof. vm_compute. split; [reflexivity|]. set_solver. Qed.
End PollDriver.
