(* ===== verification/Rescue.v ===== *)
(** A finer alarm than that of [Alarms], for programs in which a wake-up is meant for
    particular threads.  A thread that [needs] a wake-up is one whose wait should be
    over; whether another thread [saves] it may depend on the memory and on both.
    The invariant [Rescued] says that every thread in need has a saviour, and
    [rescue_ok] gives the conditions on single instructions.  Nothing here translates
    code of the repository. *)

From stdpp Require Import prelude list relations.
From Stdlib Require Import ZArith Lia.
From S2P Require Import Prelude Threads Alarms.

Section rescue.
Context {St L K : Type}.
Context (code : nat -> list (instr St L)).
Context (count : K -> St -> Z) (weight : nat -> nat -> L -> K -> Z).
Context (inside : nat -> nat -> bool) (says : nat -> nat -> St -> L -> Prop).
Context (lsays : nat -> nat -> L -> Prop) (G : St -> Prop) (N : Z).
Hypothesis weight_01 : forall t pc l k, 0 <= weight t pc l k <= 1.
Hypothesis all_ok : forall t pc, ok code count weight inside says lsays G N t pc.
Hypothesis all_queueing : forall t, forallb queueing (code t) = true.

Abbreviation INV := (Inv code count weight inside says lsays G N).
Abbreviation knows := (knows count weight inside says lsays G N).

(** [needs pc l m]: a thread at [pc] waits although it should not; [saves pc l m pc2 l2]:
    a thread at [pc] will wake the one at [pc2]. *)
Context (needs : nat -> L -> St -> Prop) (saves : nat -> L -> St -> nat -> L -> Prop).

Definition Rescued (cf : config St L) : Prop := forall t th,
  threads cf !! t = Some th -> needs (t_pc th) (t_loc th) (mem cf) ->
  exists t2 th2, threads cf !! t2 = Some th2 /\ saves (t_pc th2) (t_loc th2) (mem cf) (t_pc th) (t_loc th).

(** What holds of another thread while [t] stands at [pc]. *)
Definition beside (t pc : nat) (l : L) (m : St) (t2 pc2 : nat) (l2 : L) : Prop :=
  t2 <> t /\ lsays t2 pc2 l2 /\ forall k, weight t pc l k + weight t2 pc2 l2 k <= count k m.

(** The thread that moves is not in need afterwards; a thread that comes into need
    is saved by it or by one of those that some counter counts, and one that was in
    need before was not saved by it; saviours that do not move stay. *)
Definition rescues (t pc pc' : nat) (m : St) (l : L) (m' : St) (l' : L) : Prop :=
  ~ needs pc' l' m' /\
  (forall t2 pc2 l2, beside t pc l m t2 pc2 l2 -> needs pc2 l2 m' ->
     saves pc' l' m' pc2 l2 \/
     (exists k, 0 < count k m' /\ forall t3 pc3 l3, 0 < weight t3 pc3 l3 k -> saves pc3 l3 m' pc2 l2) \/
     (needs pc2 l2 m /\ ~ saves pc l m pc2 l2)) /\
  (forall t3 pc3 l3 pc2 l2, beside t pc l m t3 pc3 l3 -> needs pc2 l2 m' ->
     saves pc3 l3 m pc2 l2 -> saves pc3 l3 m' pc2 l2).

Definition rescue_ok (t pc : nat) : Prop := forall i m l m' l' pc',
  code t !! pc = Some i -> knows t pc m l -> act pc i m l = Some (m', l', pc') ->
  rescues t pc pc' m l m' l'.

Hypothesis all_rescue : forall t pc, rescue_ok t pc.

Lemma beside_inv cf t th t2 th2 :
  INV cf -> t2 <> t -> threads cf !! t = Some th -> threads cf !! t2 = Some th2 ->
  beside t (t_pc th) (t_loc th) (mem cf) t2 (t_pc th2) (t_loc th2).
Proof.
  intros HI Hne Ht Ht2. split_and!; [done|by eapply inv_lsays|]. intros k.
  rewrite (inv_count _ _ _ _ _ _ _ _ _ HI). by eapply (total_two weight weight_01 k 0).
Qed.

Lemma rescue_go cf t k cf' : INV cf -> INV cf' -> Rescued cf -> go code t k cf = Some cf' -> Rescued cf'.
Proof.
  intros HI HI' HR Hgo.
  destruct (go_act code count weight inside says lsays G N weight_01 all_ok all_queueing _ _ _ _ HI Hgo)
    as (th & i & m' & l' & pc' & Ht & Hi & Hk & Ha & Hm & Hth).
  destruct (all_rescue _ _ _ _ _ _ _ _ Hi Hk Ha) as (Hown & Hnew & Hstay).
  assert (threads cf' !! t = Some (mkThread pc' Running l')) as Ht'.
  { rewrite Hth. apply list_lookup_insert_eq. by eapply lookup_lt_Some. }
  intros t2 th2 Ht2 Hn. rewrite Hm in Hn |- *. destruct (decide (t2 = t)) as [->|Hne2]; [by simplify_eq|].
  assert (threads cf !! t2 = Some th2) as Hold by (by rewrite Hth, list_lookup_insert_ne in Ht2).
  destruct (Hnew _ _ _ (beside_inv _ _ _ _ _ HI Hne2 Ht Hold) Hn) as [Hs|[(k' & Hk' & Hs)|[Hn0 Hs]]].
  - by eexists t, _.
  - rewrite <- Hm, (inv_count _ _ _ _ _ _ _ _ _ HI') in Hk'.
    destruct (total_pos weight k' 0 _ Hk') as (t3 & th3 & Ht3 & Hw). exists t3, th3. eauto.
  - destruct (HR _ _ Hold Hn0) as (t3 & th3 & Ht3 & Hs3).
    destruct (decide (t3 = t)) as [->|Hne3]; [by simplify_eq|].
    exists t3, th3. split; [by rewrite Hth, list_lookup_insert_ne|].
    eapply Hstay; [by eapply beside_inv|done|done].
Qed.

Lemma rescue_reachable cf cf' : INV cf -> Rescued cf -> rtc (step code) cf cf' -> INV cf' /\ Rescued cf'.
Proof.
  intros HI HR Hr. induction Hr as [|cf1 cf2 cf3 Hs _ IH]; [done|].
  assert (INV cf2) as HI2 by (eapply inv_step; [apply weight_01|apply all_ok|exact HI|exact Hs]).
  apply IH; [exact HI2|].
  destruct Hs as [t k Hgo|t Hsp]; [exact (rescue_go _ _ _ _ HI HI2 HR Hgo)|].
  unfold spurious in Hsp. destruct (threads cf1 !! t) as [th|] eqn:Ht; [|done]. simpl in Hsp.
  by rewrite (all_running code count weight inside says lsays G N all_queueing _ _ _ HI Ht) in Hsp.
Qed.

(** In a state that cannot go on nobody is in need, when saviours can move. *)
Hypothesis saves_moves : forall t pc l m pc2 l2, saves pc l m pc2 l2 -> lsays t pc l ->
  match code t !! pc with
  | Some (IAwait b _) => b m l = true
  | Some _ => True
  | None => False
  end.

Lemma blocked_no_need cf t th :
  INV cf -> Rescued cf -> blocked code cf -> threads cf !! t = Some th -> ~ needs (t_pc th) (t_loc th) (mem cf).
Proof.
  intros HI HR Hb Ht Hn. destruct (HR _ _ Ht Hn) as (t2 & th2 & Ht2 & Hs).
  specialize (saves_moves t2 _ _ _ _ _ Hs (inv_lsays _ _ _ _ _ _ _ _ _ HI _ _ Ht2)).
  destruct (blocked_awaits code count weight inside says lsays G N all_ok all_queueing _ _ _ HI Hb Ht2) as [[_ Hf]|(b & f & Hf & Hbf)];
    rewrite Hf in saves_moves; congruence.
Qed.
End rescue.
