(* ===== verification/Interference.v ===== *)
(** Assertions about the memory that hold at program points outside the mutex of
    [Threads], in the manner of Owicki and Gries: the thread that moves establishes its
    own, and leaves those of the others alone, where the counters of the outline say
    which others there can be.  Nothing here translates code of the repository. *)

From stdpp Require Import prelude list relations.
From Stdlib Require Import ZArith Lia.
From S2P Require Import Prelude Threads Alarms Rescue.

Section interference.
Context {St L K : Type}.
Context (code : nat -> list (instr St L)).
Context (count : K -> St -> Z) (weight : nat -> nat -> L -> K -> Z).
Context (inside : nat -> nat -> bool) (says : nat -> nat -> St -> L -> Prop).
Context (lsays : nat -> nat -> L -> Prop) (G : St -> Prop) (N : Z).
Hypothesis weight_01 : forall t pc l k, 0 <= weight t pc l k <= 1.
Hypothesis all_ok : forall t pc, ok code count weight inside says lsays G N t pc.
Hypothesis all_queueing : forall t, forallb queueing (code t) = true.

Abbreviation INV := (Inv code count weight inside says lsays G N).
Abbreviation knows := (knows count weight inside says lsays G N).

Context (asserts : nat -> nat -> St -> L -> Prop) (M : St -> Prop).

Record Asserted (cf : config St L) : Prop := {
  a_mem : M (mem cf);
  a_points t th : threads cf !! t = Some th -> asserts t (t_pc th) (mem cf) (t_loc th);
}.

Definition stable (t pc : nat) : Prop := forall i m l m' l' pc',
  code t !! pc = Some i -> knows t pc m l -> M m -> asserts t pc m l -> act pc i m l = Some (m', l', pc') ->
  M m' /\ asserts t pc' m' l' /\
  forall t2 pc2 l2, beside count weight lsays t pc l m t2 pc2 l2 -> asserts t2 pc2 m l2 -> asserts t2 pc2 m' l2.

Hypothesis all_stable : forall t pc, stable t pc.

Lemma asserted_go cf t k cf' : INV cf -> Asserted cf -> go code t k cf = Some cf' -> Asserted cf'.
Proof.
  intros HI [HM HA] Hgo.
  destruct (go_act code count weight inside says lsays G N weight_01 all_ok all_queueing _ _ _ _ HI Hgo)
    as (th & i & m' & l' & pc' & Ht & Hi & Hk & Ha & Hm & Hth).
  destruct (all_stable _ _ _ _ _ _ _ _ Hi Hk HM (HA _ _ Ht) Ha) as (HM' & Hown & Hoth).
  constructor; rewrite Hm; [done|]. intros t2 th2 Ht2. destruct (decide (t2 = t)) as [->|Hne].
  - rewrite Hth, list_lookup_insert_eq in Ht2 by (by eapply lookup_lt_Some). by simplify_eq.
  - rewrite Hth, list_lookup_insert_ne in Ht2 by done. apply Hoth; [|by apply HA].
    by eapply (beside_inv code count weight inside says lsays G N weight_01).
Qed.

Lemma asserted_reachable cf cf' : INV cf -> Asserted cf -> rtc (step code) cf cf' -> INV cf' /\ Asserted cf'.
Proof.
  intros HI HA Hr. induction Hr as [|cf1 cf2 cf3 Hs _ IH]; [done|].
  assert (INV cf2) as HI2 by (eapply inv_step; [apply weight_01|apply all_ok|exact HI|exact Hs]).
  apply IH; [exact HI2|]. destruct Hs as [t k Hgo|t Hsp]; [exact (asserted_go _ _ _ _ HI HA Hgo)|].
  unfold spurious in Hsp. destruct (threads cf1 !! t) as [th|] eqn:Ht; [|done]. simpl in Hsp.
  by rewrite (all_running code count weight inside says lsays G N all_queueing _ _ _ HI Ht) in Hsp.
Qed.
End interference.
