(* ===== verification/Counters.v ===== *)
(** [src/exercises/real_time/volatile_atomic_etc/solution.cc]: counters that threads
    increment together.  Those of [MutexCounter], [AtomicCounter],
    [AtomicRelaxedCounter] and [VolatileAtomicCounter] count every increment, for any
    number of threads and every interleaving; those of [BrokenCounter] and
    [VolatileOnlyCounter] lose some. *)

From stdpp Require Import prelude list relations.
From Stdlib Require Import ZArith Lia.
From S2P Require Import Prelude Threads Alarms Turns.

Module Counters.
Open Scope stmt_scope.

Definition NUM_THREADS : nat := 4.
Definition WORK_PER_THREAD : Z := 100000.
Definition TOTAL_EXPECTED : Z := Z.of_nat NUM_THREADS * WORK_PER_THREAD.

(** The counter, and as a ghost who incremented it. *)
Record shared := mkShared { counter : Z; log : list nat }.
(** The locals of [worker_thread]; [tmp] is the register of a [counter++]. *)
Record local := mkLocal { tid : nat; work_count : Z; i_ : Z; dummy : Z; tmp : Z }.
Definition code_t : Type := stmt shared local.

Definition load (m : shared) (l : local) : shared * local :=
  (m, mkLocal (tid l) (work_count l) (i_ l) (dummy l) (counter m)).
Definition store (m : shared) (l : local) : shared * local :=
  (mkShared (s32 (tmp l + 1)) (log m ++ [tid l]), l).
(** [fetch_add(1)] and [++] of an [atomic<int>], which wrap around. *)
Definition fetch_add (m : shared) (l : local) : shared * local :=
  (mkShared (s32 (counter m + 1)) (log m ++ [tid l]), l).

Definition BrokenCounter_increment : code_t := SDo load ;; SDo store.
Definition VolatileOnlyCounter_increment : code_t := SDo load ;; SDo store.
Definition MutexCounter_increment : code_t := SLock ;; (SDo load ;; SDo store) ;; SUnlock.
Definition AtomicCounter_increment : code_t := SDo fetch_add.
Definition AtomicRelaxedCounter_increment : code_t := SDo fetch_add.
Definition VolatileAtomicCounter_increment : code_t := SDo fetch_add.

(** The loop over [j] touches only the local [dummy]. *)
Definition simulate_work (m : shared) (l : local) : shared * local :=
  (m, mkLocal (tid l) (work_count l) (i_ l) (foldl Z.add 0 (Z.of_nat <$> seq 0 100)) (tmp l)).
Definition set_i (x : Z) (l : local) : local := mkLocal (tid l) (work_count l) x (dummy l) (tmp l).

Definition worker_thread (increment : code_t) : code_t :=
  SDo (fun m l => (m, set_i 0 l)) ;;
  SWhile (fun _ l => i_ l <? work_count l)
    (SDo simulate_work ;; increment ;; SDo (fun m l => (m, set_i (i_ l + 1) l))).

(** The threads of [benchmark_counter] and [race_condition_demo]; [get] reads the
    counter after they were joined. *)
Definition benchmark_counter (num : nat) (work : Z) : config shared local :=
  mkConfig (mkShared 0 []) None ((fun t => mkThread 0 Running (mkLocal t work 0 0 0)) <$> seq 0 num).
Definition get (cf : config shared local) : Z := counter (mem cf).
Definition program (increment : code_t) (_ : nat) : list (instr shared local) := compile (worker_thread increment).

(** What a counter promises its users: the increments of all threads are counted,
    and no thread waits for ever. *)
Class CountsAll (increment : code_t) : Prop := {
  counts_all num work cf :
    0 <= work -> Z.of_nat num * work < 2147483648 ->
    rtc (step (program increment)) (benchmark_counter num work) cf -> blocked (program increment) cf ->
    (forall t th, threads cf !! t = Some th -> finished (program increment) t th) /\ get cf = Z.of_nat num * work;
}.

(** ** The outline *)

(** Where the compiled programs differ: the points between the increment and [i++],
    those inside the mutex, that of the store there, and the end. *)
Record layout := mkLayout { added : nat -> bool; locked : nat -> bool; storing : nat -> bool; final : nat }.

Section outline.
Context (y : layout) (num : nat) (work : Z).

Inductive ctr := KTurn (t : nat) (v : Z).
Definition count (k : ctr) (m : shared) : Z :=
  let '(KTurn t v) := k in b2z ((t <? num)%nat && (occurs t (log m) =? v)).
Definition turn_at (pc : nat) (l : local) : Z := i_ l + b2z (added y pc).
Definition weight (t pc : nat) (l : local) (k : ctr) : Z :=
  let '(KTurn t' v) := k in b2z ((t =? t')%nat && (turn_at pc l =? v)).
Definition inside (_ pc : nat) : bool := locked y pc.
Definition says (_ pc : nat) (m : shared) (l : local) : Prop := storing y pc = true -> tmp l = counter m.
Definition lsays (t pc : nat) (l : local) : Prop :=
  tid l = t /\ (t < num)%nat /\ work_count l = work /\ 0 <= i_ l <= work /\ (pc = 0%nat -> i_ l = 0) /\
  ((2 <= pc < final y - 1)%nat -> i_ l < work) /\ ((final y <= pc)%nat -> i_ l = work).
Definition good (m : shared) : Prop :=
  counter m = s32 (zlen (log m)) /\ Forall (fun t => (t < num)%nat) (log m).

Lemma counters_weight_01 t pc l k : 0 <= weight t pc l k <= 1.
Proof. unfold weight, b2z. destruct k. destruct (_ && _); lia. Qed.

Abbreviation OK increment := (ok (program increment) count weight inside says lsays good (Z.of_nat num)).
Abbreviation UPDATES := (updates count weight inside says lsays good (Z.of_nat num)).

Lemma counters_weight_key t pc l t' v : weight t pc l (KTurn t' v) = b2z ((t =? t')%nat && (turn_at pc l =? v)).
Proof. done. Qed.
Lemma counters_count_key t v m : count (KTurn t v) m = b2z ((t <? num)%nat && (occurs t (log m) =? v)).
Proof. done. Qed.

Lemma s32_succ z : s32 (s32 z + 1) = s32 (z + 1).
Proof.
  unfold wraps. replace ((z + 2 ^ (32 - 1)) mod 2 ^ 32 - 2 ^ (32 - 1) + 1 + 2 ^ (32 - 1)) with ((z + 2 ^ (32 - 1)) mod 2 ^ 32 + 1) by lia.
  rewrite Zplus_mod_idemp_l. f_equal. f_equal. lia.
Qed.
Lemma good_step t m : good m -> (t < num)%nat -> good (mkShared (s32 (counter m + 1)) (log m ++ [t])).
Proof.
  intros [Hc Hf] Ht. split; cbn.
  - rewrite Hc, s32_succ, length_app. cbn. f_equal. lia.
  - apply Forall_app. split; [done|]. by constructor.
Qed.

(** The increment itself: under the mutex, or atomic. *)
Lemma counters_ok_store t pc :
  added y pc = false -> added y (S pc) = true -> locked y (S pc) = locked y pc -> storing y (S pc) = false ->
  locked y pc = true -> storing y pc = true -> (2 <= pc)%nat -> (S pc < final y - 1)%nat ->
  UPDATES t pc always store.
Proof.
  intros A1 A2 L S1 L1 S2 H2 Hf. split; [done|]. intros m l (H & Hl & Hs) _. specialize (Hs L1 S2). cbn.
  pose proof Hl as (Ht & Hlt & Hw & Hi & _ & Hb & _). rewrite Hs, Ht. split; [|split_and!].
  - intros []. eapply (turn_step _ _ _ _ KTurn log turn_at counters_count_key counters_weight_key); [done|done|done|].
    unfold turn_at. rewrite A1, A2. cbn. lia.
  - apply good_step; [apply H|done].
  - unfold lsays. split_and!; (done || lia).
  - intros _ ?. congruence.
  - unfold inside. congruence.
Qed.
Lemma ok_fetch_add t pc :
  added y pc = false -> added y (S pc) = true -> (forall p, locked y p = false) ->
  (2 <= pc)%nat -> (S pc < final y - 1)%nat -> (forall p, storing y p = false) ->
  UPDATES t pc always fetch_add.
Proof.
  intros A1 A2 L H2 Hf St. split; [unfold inside; by rewrite !L|]. intros m l (H & Hl & Hs) _. cbn.
  pose proof Hl as (Ht & Hlt & Hw & Hi & _ & Hb & _). rewrite Ht. split; [|split_and!].
  - intros []. eapply (turn_step _ _ _ _ KTurn log turn_at counters_count_key counters_weight_key); [done|done|done|].
    unfold turn_at. rewrite A1, A2. cbn. lia.
  - apply good_step; [apply H|done].
  - unfold lsays. split_and!; (done || lia).
  - intros _ ?. congruence.
  - intros _ t' pc' l' _ ?. congruence.
Qed.
Lemma local_step t pc l l' m :
  turn_at (S pc) l' = turn_at pc l -> forall k, count k m = count k m + weight t (S pc) l' k - weight t pc l k.
Proof. intros H []. by apply (turn_stay _ _ _ KTurn log turn_at counters_count_key counters_weight_key). Qed.
End outline.

(** The points of a program: where only control moves or a local changes. *)
Ltac locals := unfold says, lsays in *; cbn in *; naive_solver lia.
Ltac move_point :=
  split; [left; reflexivity|]; intros m l (H & Hl & Hs) ?; first [specialize (Hs eq_refl) | clear Hs]; zbool;
  split_and!; [intros []; reflexivity|locals|first [done | intros _; locals]].
Ltac update_point :=
  split; [reflexivity|]; intros m l (H & Hl & Hs) _; first [specialize (Hs eq_refl) | clear Hs]; unfold set_i; cbn [fst snd];
  split_and!; [apply local_step; unfold turn_at; locals|apply H|locals|first [done | intros _; locals]|first [done | intros _ ? ? ? H'; exact H']].

Definition atomic_layout : layout := mkLayout (Nat.eqb 4) (fun _ => false) (fun _ => false) 6.
Definition mutex_layout : layout := mkLayout (span 6 7) (span 4 6) (Nat.eqb 5) 9.

Ltac ok_point :=
  unfold ok; cbn;
  lazymatch goal with
  | |- updates _ _ _ _ _ _ _ _ _ _ store => apply counters_ok_store; first [reflexivity | cbn; lia]
  | |- updates _ _ _ _ _ _ _ _ _ _ fetch_add => apply ok_fetch_add; first [reflexivity | cbn; lia | done]
  | |- updates _ _ _ _ _ _ _ _ _ _ _ => update_point
  | |- moves _ _ _ _ _ _ _ _ _ _ _ => move_point
  | |- moves _ _ _ _ _ _ _ _ _ _ _ /\ moves _ _ _ _ _ _ _ _ _ _ _ => split; move_point
  | |- _ => split_and!; [reflexivity..|intros ? []; reflexivity|try (intros m l H Hl; split); locals]
  end.

Lemma atomic_ok num work t pc :
  ok (program AtomicCounter_increment) (count num) (weight atomic_layout) (inside atomic_layout) (says atomic_layout)
    (lsays atomic_layout num work) (good num) (Z.of_nat num) t pc.
Proof. do 6 (destruct pc as [|pc]; [ok_point|]). reflexivity. Qed.
Lemma mutex_ok num work t pc :
  ok (program MutexCounter_increment) (count num) (weight mutex_layout) (inside mutex_layout) (says mutex_layout)
    (lsays mutex_layout num work) (good num) (Z.of_nat num) t pc.
Proof. do 9 (destruct pc as [|pc]; [ok_point|]). reflexivity. Qed.

(** ** From an outline to the promise *)

Section counts.
Context (increment : code_t) (y : layout).
Let code := program increment.
Hypothesis all_ok : forall num work t pc,
  ok code (count num) (weight y) (inside y) (says y) (lsays y num work) (good num) (Z.of_nat num) t pc.
Hypothesis queues : forall t, forallb queueing (code t) = true.
Hypothesis no_await : forall t pc b f, code t !! pc <> Some (IAwait b f).
Hypothesis at_start : added y 0 = false /\ locked y 0 = false /\ (2 < final y)%nat.
Hypothesis at_end : forall t pc, code t !! pc = None -> (final y <= pc)%nat /\ added y pc = false.

Section run.
Context (num : nat) (work : Z) (Hwork : 0 <= work).
Abbreviation INV := (Inv code (count num) (weight y) (inside y) (says y) (lsays y num work) (good num) (Z.of_nat num)).

Lemma counters_start_thread t th :
  threads (benchmark_counter num work) !! t = Some th -> th = mkThread 0 Running (mkLocal t work 0 0 0) /\ (t < num)%nat.
Proof. cbn. rewrite list_lookup_fmap. intros (t' & [-> ?]%lookup_seq & ->)%fmap_Some. done. Qed.

Lemma counters_start_inv : INV (benchmark_counter num work).
Proof.
  destruct at_start as (Ha & Hl & Hf). constructor.
  - cbn. by rewrite length_fmap, length_seq.
  - intros t. split; [done|]. intros (th & [-> _]%counters_start_thread & _ & Hin). cbn in Hin. unfold inside in Hin. congruence.
  - intros t th [-> _]%counters_start_thread [_ Hin]. cbn in Hin. unfold inside in Hin. congruence.
  - intros [t v]. cbn [threads benchmark_counter mem]. rewrite (turn_start _ KTurn (turn_at y) (counters_weight_key y)); [done|].
    intros i. cbn. unfold turn_at. by rewrite Ha.
  - by split.
  - by intros t th [-> _]%counters_start_thread.
  - intros t th [-> Hlt]%counters_start_thread. unfold lsays. cbn. split_and!; (done || lia).
Qed.

Lemma run_counts cf :
  rtc (step code) (benchmark_counter num work) cf -> blocked code cf ->
  (forall t th, threads cf !! t = Some th -> finished code t th) /\ get cf = s32 (Z.of_nat num * work).
Proof.
  intros Hr Hb. assert (INV cf) as HI.
  { eapply inv_reachable; [apply counters_weight_01|apply all_ok|apply counters_start_inv|done]. }
  assert (forall t th, threads cf !! t = Some th -> finished code t th) as Hfin.
  { intros t th Ht. destruct (blocked_awaits code (count num) (weight y) (inside y) (says y) (lsays y num work) (good num)
      (Z.of_nat num) (all_ok num work) queues _ _ _ HI Hb Ht) as [?|(b & f & Hi & _)]; [done|]. by destruct (no_await _ _ _ _ Hi). }
  split; [done|]. destruct (inv_G _ _ _ _ _ _ _ _ _ HI) as [Hc Hlog]. unfold get. rewrite Hc. f_equal.
  apply occurs_total; [done|]. intros t Ht. pose proof (inv_len _ _ _ _ _ _ _ _ _ HI) as Hlen.
  destruct (lookup_lt_is_Some_2 (threads cf) t ltac:(lia)) as [th Hth].
  pose proof (inv_lsays _ _ _ _ _ _ _ _ _ HI _ _ Hth) as Hl. destruct (Hfin _ _ Hth) as [_ Hend].
  rewrite (own_turn _ _ _ _ KTurn log (turn_at y) (counters_count_key num) (counters_weight_key y) _ _ _ _ (inv_facts _ _ _ _ _ _ _ _ (counters_weight_01 y) _ _ _ HI Hth) Ht).
  destruct (at_end _ _ Hend) as [Hpc Ha]. unfold turn_at. rewrite Ha. destruct Hl as (_ & _ & _ & _ & _ & _ & Hl). rewrite Hl by done. cbn. lia.
Qed.
End run.

Lemma outline_counts : CountsAll increment.
Proof.
  constructor. intros num work cf Hw Hsmall Hr Hb. destruct (run_counts num work Hw cf Hr Hb) as [? ->].
  split; [done|]. apply s32_small. lia.
Qed.
End counts.

#[global] Instance atomic_counts : CountsAll AtomicCounter_increment.
Proof.
  apply (outline_counts _ atomic_layout); [apply atomic_ok|done| |by split_and!; cbn; try lia|].
  - intros t pc b f. do 6 (destruct pc as [|pc]; [discriminate|]). discriminate.
  - intros t pc. do 6 (destruct pc as [|pc]; [discriminate|]). intros _. cbn. split; [lia|done].
Qed.
#[global] Instance mutex_counts : CountsAll MutexCounter_increment.
Proof.
  apply (outline_counts _ mutex_layout); [apply mutex_ok|done| |by split_and!; cbn; try lia|].
  - intros t pc b f. do 9 (destruct pc as [|pc]; [discriminate|]). discriminate.
  - intros t pc. do 9 (destruct pc as [|pc]; [discriminate|]). intros _. cbn. split; [lia|done].
Qed.
#[global] Instance relaxed_counts : CountsAll AtomicRelaxedCounter_increment := atomic_counts.
#[global] Instance volatile_atomic_counts : CountsAll VolatileAtomicCounter_increment := atomic_counts.

Definition correct_counters : list code_t :=
  [MutexCounter_increment; AtomicCounter_increment; AtomicRelaxedCounter_increment; VolatileAtomicCounter_increment].

(** C20: The four counters that the program presents as correct: for any number of
    threads and increments whose product fits an [int], and every interleaving, a
    state in which no thread can go on is one in which all have returned, and the
    counter then is the number of all increments. *)
Theorem counters_exact increment num work cf :
  increment ∈ correct_counters -> 0 <= work -> Z.of_nat num * work < 2147483648 ->
  rtc (step (program increment)) (benchmark_counter num work) cf -> blocked (program increment) cf ->
  (forall t th, threads cf !! t = Some th -> finished (program increment) t th) /\ get cf = Z.of_nat num * work.
Proof.
  intros Hin. assert (CountsAll increment) as Hc; [|apply Hc]. unfold correct_counters in Hin.
  repeat (apply elem_of_cons in Hin as [->|Hin]; [apply _|]). by apply elem_of_nil in Hin.
Qed.

(** Two threads that lock the mutex in turn. *)
Definition demo : config shared local :=
  run_schedule (program MutexCounter_increment) (replicate 20 (0, 0) ++ replicate 20 (1, 0) ++ replicate 20 (0, 0))%nat
    (benchmark_counter 2 2).
Lemma demo_stops : blocked (program MutexCounter_increment) demo.
Proof. intros t k. destruct t as [|[|t]]; vm_compute; reflexivity. Qed.
Lemma counters_exact_witness : get demo = 4.
Proof.
  apply (counters_exact MutexCounter_increment 2 2 demo);
    [by left|lia|lia|apply run_schedule_reachable|apply demo_stops].
Defined.

(** The other two lose increments: here four threads count to two where they should
    count to twelve. *)
Definition lossy : list (nat * nat) :=
  (replicate 4 (0, 0) ++ replicate 40 (2, 0) ++ replicate 40 (3, 0) ++ replicate 13 (1, 0) ++
   replicate 1 (0, 0) ++ replicate 3 (1, 0) ++ replicate 40 (0, 0) ++ replicate 40 (1, 0))%nat.
Theorem broken_counters_lose :
  forall increment, increment ∈ [BrokenCounter_increment; VolatileOnlyCounter_increment] ->
  exists cf, rtc (step (program increment)) (benchmark_counter NUM_THREADS 3) cf /\
    (forall t th, threads cf !! t = Some th -> finished (program increment) t th) /\ get cf = 2.
Proof.
  intros increment Hin. assert (increment = BrokenCounter_increment) as -> by set_solver.
  exists (run_schedule (program BrokenCounter_increment) lossy (benchmark_counter NUM_THREADS 3)).
  split; [apply run_schedule_reachable|]. split; [|vm_compute; reflexivity].
  intros t th Ht. vm_compute in Ht.
  do 4 (destruct t as [|t]; [injection Ht as <-; split; reflexivity|]). discriminate Ht.
Qed.
End Counters.
