(* ===== verification/SpinLock.v ===== *)
(** [src/exercises/c/spinlock/solution.c]: a spin lock made of compare-and-swap, and
    threads that take it in turn.  Shown for any number of threads and every
    interleaving: at most one thread is between [mypthread_spin_lock] and
    [mypthread_spin_unlock], the threads catch the lock in the order of their numbers,
    none is finished while it is its turn, and in the end each has caught it [loops]
    times. *)

From stdpp Require Import prelude list relations.
From Stdlib Require Import ZArith Lia.
From S2P Require Import Prelude Threads Alarms Rescue Turns Interference.

Module SpinLock.
Open Scope stmt_scope.

Definition loops : Z := 3.

(** The lock, the counter it protects, and as a ghost who incremented it. *)
Record shared := mkShared { val : Z; counter : Z; log : list nat }.
(** The locals of [worker]: [swapped] is the result of the compare-and-swap, [tmp]
    the register of [counter++]. *)
Record local := mkLocal { num : nat; cpu_num : Z; success : Z; swapped : bool; tmp : Z }.
Definition code_t : Type := stmt shared local.

Definition mypthread_spin_init : shared := mkShared 0 0 [].

(** [__sync_bool_compare_and_swap(&lock->val, 0, 1)] *)
Definition compare_and_swap (m : shared) (l : local) : shared * local :=
  if val m =? 0 then (mkShared 1 (counter m) (log m), mkLocal (num l) (cpu_num l) (success l) true (tmp l))
  else (m, mkLocal (num l) (cpu_num l) (success l) false (tmp l)).
Definition mypthread_spin_lock : code_t :=
  SDo compare_and_swap ;; SWhile (fun _ l => negb (swapped l)) (SDo compare_and_swap).
Definition atomic_full_barrier : code_t := SDo (fun m l => (m, l)).
Definition mypthread_spin_unlock : code_t :=
  atomic_full_barrier ;; SDo (fun m l => (mkShared 0 (counter m) (log m), l)).

Definition sleep : code_t := SDo (fun m l => (m, l)).
Definition load (m : shared) (l : local) : shared * local :=
  (m, mkLocal (num l) (cpu_num l) (success l) (swapped l) (counter m)).
Definition store (m : shared) (l : local) : shared * local := (mkShared (val m) (s32 (tmp l + 1)) (log m ++ [num l]), l).
Definition set_success (x : Z) (l : local) : local := mkLocal (num l) (cpu_num l) x (swapped l) (tmp l).

Definition worker : code_t :=
  SDo (fun m l => (m, set_success 0 l)) ;;
  SWhile (fun _ l => success l <? loops)
    (mypthread_spin_lock ;;
     SIf (fun m l => Z.rem (counter m) (cpu_num l) =? Z.of_nat (num l))
       (sleep ;; (SDo load ;; SDo store) ;; SDo (fun m l => (m, set_success (success l + 1) l)))
       SSkip ;;
     mypthread_spin_unlock).

Definition main (n : nat) : config shared local :=
  mkConfig mypthread_spin_init None
    ((fun t => mkThread 0 Running (mkLocal t (Z.of_nat n) 0 false 0)) <$> seq 0 n).
Definition code (_ : nat) : list (instr shared local) := compile worker.

(** ** Rounds *)

Definition round_robin (n c : nat) : list nat := (fun i => (i mod n)%nat) <$> seq 0 c.

Lemma round_robin_snoc n c : round_robin n (S c) = round_robin n c ++ [(c mod n)%nat].
Proof. unfold round_robin. by rewrite seq_S, fmap_app. Qed.
Lemma round_robin_length n c : length (round_robin n c) = c.
Proof. unfold round_robin. by rewrite length_fmap, length_seq. Qed.

Lemma div_step x n : 0 < n -> (x + 1) / n = x / n + b2z ((x + 1) mod n =? 0).
Proof.
  intros Hn. pose proof (Z.div_mod x n ltac:(lia)). pose proof (Z.mod_pos_bound x n Hn).
  pose proof (Z.div_mod (x + 1) n ltac:(lia)). pose proof (Z.mod_pos_bound (x + 1) n Hn).
  unfold b2z. destruct (Z.eqb_spec ((x + 1) mod n) 0); nia.
Qed.

Lemma turn_mod c t n : 0 <= t < n -> 0 <= c -> ((c + n - t) mod n =? 0) = (c mod n =? t).
Proof.
  intros Ht Hc. replace (c + n - t) with (c - t + 1 * n) by lia. rewrite Z.mod_add by lia.
  pose proof (Z.mod_pos_bound c n ltac:(lia)). rewrite <- Zminus_mod_idemp_l.
  destruct (Z.eqb_spec (c mod n) t) as [->|Hne]; [by rewrite Z.sub_diag, Z.mod_0_l by lia|].
  apply Z.eqb_neq. destruct (decide (t < c mod n)).
  - rewrite Z.mod_small; lia.
  - replace (c mod n - t) with (c mod n - t + n + (-1) * n) by lia. rewrite Z.mod_add, Z.mod_small; lia.
Qed.

(** Thread [t] has had a turn in every full round, and in the current one if it is
    past it. *)
Lemma round_robin_occurs n c t : (t < n)%nat ->
  occurs t (round_robin n c) = (Z.of_nat c + Z.of_nat n - 1 - Z.of_nat t) / Z.of_nat n.
Proof.
  intros Ht. induction c as [|c IH].
  - symmetry. apply Z.div_small. lia.
  - rewrite round_robin_snoc, occurs_snoc, IH.
    replace (Z.of_nat (S c) + Z.of_nat n - 1 - Z.of_nat t) with (Z.of_nat c + Z.of_nat n - 1 - Z.of_nat t + 1) by lia.
    rewrite div_step by lia. f_equal. f_equal.
    replace (Z.of_nat c + Z.of_nat n - 1 - Z.of_nat t + 1) with (Z.of_nat c + Z.of_nat n - Z.of_nat t) by lia.
    rewrite turn_mod by lia. rewrite <- Nat2Z.inj_mod.
    destruct (Nat.eqb_spec t (c mod n)), (Z.eqb_spec (Z.of_nat (c mod n)) (Z.of_nat t)); (done || lia).
Qed.
Lemma round_robin_turn n c : (0 < n)%nat -> occurs (c mod n) (round_robin n c) = Z.of_nat c / Z.of_nat n.
Proof.
  intros Hn. rewrite round_robin_occurs by (apply Nat.mod_upper_bound; lia). rewrite Nat2Z.inj_mod.
  pose proof (Z.mod_pos_bound (Z.of_nat c) (Z.of_nat n) ltac:(lia)). pose proof (Z.div_mod (Z.of_nat c) (Z.of_nat n) ltac:(lia)).
  symmetry. apply (Z.div_unique _ _ _ (Z.of_nat n - 1)); lia.
Qed.

(** ** The outline *)

Section outline.
Context (n : nat).

(** Who holds the lock, and the turns. *)
Inductive ctr := KLock | KTurn (t : nat) (v : Z).
Definition count (k : ctr) (m : shared) : Z :=
  match k with KLock => val m | KTurn t v => b2z ((t <? n)%nat && (occurs t (log m) =? v)) end.
Definition holding (pc : nat) (l : local) : bool := ((pc =? 3)%nat || (pc =? 5)%nat) && swapped l || span 6 13 pc.
Definition turn_at (pc : nat) (l : local) : Z := success l + b2z (pc =? 10)%nat.
Definition weight (t pc : nat) (l : local) (k : ctr) : Z :=
  b2z match k with KLock => holding pc l | KTurn t' v => (t =? t')%nat && (turn_at pc l =? v) end.
Definition inside (_ _ : nat) : bool := false.
Definition says (_ _ : nat) (_ : shared) (_ : local) : Prop := True.
Definition lsays (t pc : nat) (l : local) : Prop :=
  num l = t /\ (t < n)%nat /\ cpu_num l = Z.of_nat n /\ 0 <= success l <= loops /\
  (pc = 0%nat -> success l = 0) /\ (span 2 10 pc = true -> success l < loops) /\
  ((15 <= pc)%nat -> success l = loops).
Definition good (m : shared) : Prop := val m = 0 \/ val m = 1.

Lemma spin_weight_01 t pc l k : 0 <= weight t pc l k <= 1.
Proof. unfold weight, b2z. destruct (match k with KLock => _ | _ => _ end); lia. Qed.
Lemma spin_weight_key t pc l t' v : weight t pc l (KTurn t' v) = b2z ((t =? t')%nat && (turn_at pc l =? v)).
Proof. done. Qed.
Lemma spin_count_key t v m : count (KTurn t v) m = b2z ((t <? n)%nat && (occurs t (log m) =? v)).
Proof. done. Qed.

Abbreviation UPDATES := (updates count weight inside says lsays good (Z.of_nat n)).

Ltac locals := unfold lsays, good, loops in *; cbn in *; naive_solver lia.
Ltac turns := apply (turn_stay _ _ _ KTurn log turn_at spin_count_key spin_weight_key); unfold turn_at; cbn; locals.

Lemma spin_ok_swap t pc : pc = 2%nat \/ pc = 4%nat -> UPDATES t pc always compare_and_swap.
Proof.
  intros Hpc. split; [done|]. intros m l (H & Hl & _) _. pose proof (f_G _ _ _ _ _ _ _ _ H) as HG.
  unfold compare_and_swap. destruct (val m =? 0) eqn:E; zbool.
  - destruct Hpc as [-> | ->]; (split_and!; [intros [|]; [cbn; lia|turns]|by right|locals|done|done]).
  - destruct Hpc as [-> | ->]; (split_and!; [intros [|]; [cbn; lia|turns]|done|locals|done|done]).
Qed.

Lemma spin_ok_store t : UPDATES t 9 always store.
Proof.
  split; [done|]. intros m l (H & Hl & _) _. pose proof Hl as (Ht & Hlt & _). unfold store. rewrite Ht. split_and!.
  - intros [|]; [cbn; lia|].
    eapply (turn_step _ _ _ _ KTurn log turn_at spin_count_key spin_weight_key); [done|done|done|]. unfold turn_at. cbn. lia.
  - apply H.
  - locals.
  - done.
  - done.
Qed.

Lemma ok_unlock t : UPDATES t 13 always (fun m l => (mkShared 0 (counter m) (log m), l)).
Proof.
  split; [done|]. intros m l (H & Hl & _) _. pose proof (f_count _ _ _ _ _ _ _ _ H KLock) as Hc.
  pose proof (f_G _ _ _ _ _ _ _ _ H) as HG. cbn in Hc.
  split_and!; [intros [|]; [cbn; destruct HG; lia|turns]|by left|locals|done|done].
Qed.

Ltac move_point :=
  split; [left; reflexivity|]; intros m l (H & Hl & _) ?; zbool;
  split_and!; [intros [|]; [unfold weight, holding; cbn; try match goal with E : swapped _ = _ |- _ => rewrite E end; reflexivity|done]|locals|done].
Ltac update_point :=
  split; [reflexivity|]; intros m l (H & Hl & _) _; cbn [fst snd];
  split_and!; [intros [|]; [cbn; lia|turns]|apply H|locals|done|done].
Ltac ok_point :=
  unfold ok; cbn;
  lazymatch goal with
  | |- updates _ _ _ _ _ _ _ _ _ _ compare_and_swap => apply spin_ok_swap; tauto
  | |- updates _ _ _ _ _ _ _ _ _ _ store => apply spin_ok_store
  | |- updates _ _ _ _ _ _ _ _ _ _ _ => first [update_point | apply ok_unlock]
  | |- moves _ _ _ _ _ _ _ _ _ _ _ => move_point
  | |- moves _ _ _ _ _ _ _ _ _ _ _ /\ moves _ _ _ _ _ _ _ _ _ _ _ => split; move_point
  end.

Lemma spin_ok t pc : ok code count weight inside says lsays good (Z.of_nat n) t pc.
Proof. do 15 (destruct pc as [|pc]; [ok_point|]). reflexivity. Qed.

(** ** The turns *)

Context (Hn : 3 * Z.of_nat n < 2147483648).

Definition rounds (m : shared) : Prop :=
  counter m = zlen (log m) /\ log m = round_robin n (length (log m)) /\ counter m <= loops * Z.of_nat n.
Definition asserts (t pc : nat) (m : shared) (l : local) : Prop :=
  (span 7 9 pc = true -> (length (log m) mod n)%nat = t) /\ (pc = 9%nat -> tmp l = counter m).

Lemma test_turn m l t :
  rounds m -> lsays t 6 l -> (Z.rem (counter m) (cpu_num l) =? Z.of_nat (num l)) = true -> (length (log m) mod n)%nat = t.
Proof.
  intros (Hc & _) (-> & Hlt & -> & _) E. zbool. rewrite Hc, Z.rem_mod_nonneg, <- Nat2Z.inj_mod in E by lia. lia.
Qed.

Lemma store_rounds t m l :
  rounds m -> asserts t 9 m l -> lsays t 9 l -> facts count weight good (Z.of_nat n) t 9 l m -> rounds (store m l).1.
Proof using Hn.
  intros (Hc & Hlog & Hb) [Ht Hv] (Hnum & Hlt & _ & _ & _ & Hs & _) H. specialize (Ht eq_refl). specialize (Hv eq_refl). specialize (Hs eq_refl).
  pose proof (own_turn _ _ _ _ KTurn log turn_at spin_count_key spin_weight_key _ _ _ _ H Hlt) as Ho. unfold turn_at in Ho. cbn in Ho.
  rewrite Hlog, <- Ht, round_robin_turn in Ho by lia.
  assert (zlen (log m) < loops * Z.of_nat n) as Hlt2.
  { apply Z.nle_gt. intros Hge. pose proof (Z.div_le_mono _ _ (Z.of_nat n) ltac:(lia) Hge) as Hd. rewrite Z.div_mul in Hd by lia. lia. }
  unfold rounds, store. cbn -[loops round_robin]. rewrite Hnum, Hv, Hc, s32_small by (unfold loops in *; lia). rewrite length_app. cbn [length]. split_and!.
  - lia.
  - rewrite Nat.add_1_r, round_robin_snoc, <- Hlog, Ht. done.
  - lia.
Qed.

(** Two threads do not hold the lock together. *)
Lemma exclusive t pc l m t2 pc2 l2 :
  good m -> beside count weight (lsays) t pc l m t2 pc2 l2 -> holding pc l = true -> holding pc2 l2 = false.
Proof.
  intros HG (_ & _ & Hk) H1. specialize (Hk KLock). unfold weight in Hk. rewrite H1 in Hk. cbn [b2z count] in Hk.
  destruct (holding pc2 l2); [|done]. cbn [b2z] in Hk. destruct HG; lia.
Qed.

Ltac stable_point :=
  intros i m l m' l' pc' Hi (H & Hl & _) HM Has Ha; cbn in Hi; injection Hi as <-; unfold act, compare_and_swap in Ha;
  first [ match type of Ha with context [if ?b then _ else _] => destruct b eqn:E end; injection Ha as <- <- <- | injection Ha as <- <- <- ];
  (split; [exact HM|]); (split; [|by auto]); unfold asserts in *; cbn in *;
  first [split; [intros _; by eapply test_turn|done] | naive_solver].

Lemma spin_stable t pc : stable code count weight inside says lsays good (Z.of_nat n) asserts rounds t pc.
Proof using Hn.
  do 9 (destruct pc as [|pc]; [stable_point|]). destruct pc as [|pc].
  - intros i m l m' l' pc' Hi (H & Hl & _) HM Has Ha. cbn in Hi. injection Hi as <-. injection Ha as <- <- <-.
    split; [by apply (store_rounds t)|]. split; [done|]. intros t2 pc2 l2 Hb [H1 H2].
    pose proof (exclusive _ _ _ _ _ _ _ (f_G _ _ _ _ _ _ _ _ H) Hb eq_refl) as Hx. unfold holding in Hx.
    apply orb_false_iff in Hx as [_ Hx]. split; [intros Hs|intros ->; done].
    by rewrite (span_sub 7 9 6 13) in Hx by (done || lia).
  - do 5 (destruct pc as [|pc]; [stable_point|]). intros i m l m' l' pc' Hi. discriminate Hi.
Qed.
End outline.

(** ** Reachable states *)

Section reachable.
Context (n : nat) (Hn : 3 * Z.of_nat n < 2147483648).
Abbreviation INV := (Inv code (count n) weight inside says (lsays n) good (Z.of_nat n)).
Abbreviation ASSERTED := (Asserted (asserts n) (rounds n)).

Lemma main_thread t th : threads (main n) !! t = Some th -> th = mkThread 0 Running (mkLocal t (Z.of_nat n) 0 false 0) /\ (t < n)%nat.
Proof. cbn. rewrite list_lookup_fmap. intros (t' & [-> ?]%lookup_seq & ->)%fmap_Some. done. Qed.

Lemma unlocked_total a b : total weight KLock a ((fun t => mkThread 0 Running (mkLocal t (Z.of_nat n) 0 false 0)) <$> seq a b) = 0.
Proof. revert a. induction b as [|b IH]; intros a; [done|]. cbn. by rewrite IH. Qed.

Lemma spin_main_inv : INV (main n).
Proof.
  constructor.
  - cbn. by rewrite length_fmap, length_seq.
  - intros t. split; [done|]. by intros (th & _ & _ & Hin).
  - done.
  - intros [|t v]; cbn [threads main mem].
    + by rewrite unlocked_total.
    + by rewrite (turn_start _ KTurn turn_at spin_weight_key).
  - by left.
  - by intros t th [-> _]%main_thread.
  - intros t th [-> Hlt]%main_thread. unfold lsays, loops. cbn. split_and!; (done || lia).
Qed.
Lemma spin_main_asserted : ASSERTED (main n).
Proof. constructor; [unfold rounds, loops; cbn [main mem mypthread_spin_init counter log]; split_and!; (done || lia)|]. by intros t th [-> _]%main_thread. Qed.

Lemma spin_queueing t : forallb queueing (code t) = true.
Proof. done. Qed.

Lemma spin_reachable cf : rtc (step code) (main n) cf -> INV cf /\ ASSERTED cf.
Proof using Hn.
  apply (asserted_reachable code (count n) weight inside says (lsays n) good (Z.of_nat n));
    [apply spin_weight_01|apply spin_ok|apply spin_queueing|by apply spin_stable|apply spin_main_inv|apply spin_main_asserted].
Qed.

(** A thread that has returned has had all its turns. *)
Lemma spin_finished_turns cf t th :
  INV cf -> threads cf !! t = Some th -> code t !! t_pc th = None -> occurs t (log (mem cf)) = loops /\ (t < n)%nat.
Proof.
  intros HI Ht Hend. pose proof (inv_lsays _ _ _ _ _ _ _ _ _ HI _ _ Ht) as (_ & Hlt & _ & _ & _ & _ & Hl).
  rewrite (own_turn _ _ _ _ KTurn log turn_at (spin_count_key n) spin_weight_key _ _ _ _
    (inv_facts _ _ _ _ _ _ _ _ spin_weight_01 _ _ _ HI Ht) Hlt).
  assert ((15 <= t_pc th)%nat) as Hpc by (apply lookup_ge_None in Hend; exact Hend).
  unfold turn_at. rewrite Hl by done. rewrite (proj2 (Nat.eqb_neq _ 10)) by lia. cbn. done.
Qed.
End reachable.

(** C16: The spin lock and its test, for any number of threads whose increments fit
    an [int] (fewer than 2^31), memory accesses being sequentially consistent: in every reachable
    state at most one thread is in the critical section; the threads have caught the
    lock in the order of their numbers, round after round; the thread whose turn it
    is has not returned; and when no thread can go on, all have returned and the
    counter is three times their number. *)
Theorem spinlock_correct n cf :
  3 * Z.of_nat n < 2147483648 -> rtc (step code) (main n) cf ->
  (forall t1 t2 th1 th2, t1 <> t2 -> threads cf !! t1 = Some th1 -> threads cf !! t2 = Some th2 ->
     holding (t_pc th1) (t_loc th1) = true -> holding (t_pc th2) (t_loc th2) = false) /\
  (counter (mem cf) = zlen (log (mem cf)) /\ log (mem cf) = round_robin n (length (log (mem cf)))) /\
  (forall th, counter (mem cf) < loops * Z.of_nat n ->
     threads cf !! (length (log (mem cf)) mod n)%nat = Some th -> ~ finished code (length (log (mem cf)) mod n) th) /\
  (blocked code cf ->
     (forall t th, threads cf !! t = Some th -> finished code t th) /\ counter (mem cf) = loops * Z.of_nat n).
Proof.
  intros Hn Hr. destruct (spin_reachable n Hn cf Hr) as [HI [(Hc & Hlog & Hb) _]]. split_and!.
  - intros t1 t2 th1 th2 Hne Ht1 Ht2. eapply exclusive; [apply HI|].
    eapply (beside_inv code (count n) weight inside says (lsays n) good (Z.of_nat n) spin_weight_01); [done|by symmetry|done|done].
  - done.
  - done.
  - intros th Hlt Ht [_ Hend]. destruct (spin_finished_turns n cf _ th HI Ht Hend) as [Ho Hlt2].
    rewrite Hlog, round_robin_length, round_robin_turn in Ho by lia.
    pose proof (Z.div_lt_upper_bound (zlen (log (mem cf))) (Z.of_nat n) loops ltac:(lia) ltac:(lia)). lia.
  - intros Hbl. assert (forall t th, threads cf !! t = Some th -> finished code t th) as Hfin.
    { intros t th Ht. destruct (blocked_awaits code (count n) weight inside says (lsays n) good (Z.of_nat n) (spin_ok n) spin_queueing
        _ _ _ HI Hbl Ht) as [?|(b & f & Hi & _)]; [done|exfalso].
      revert Hi. generalize (t_pc th). intros pc. do 15 (destruct pc as [|pc]; [discriminate|]). discriminate. }
    split; [done|]. rewrite Hc, Z.mul_comm. apply occurs_total.
    + rewrite Hlog. apply Forall_fmap, Forall_forall. intros i [_ Hi]%elem_of_seq. cbn. apply Nat.mod_upper_bound.
      intros ->. cbn in Hb. lia.
    + intros t Ht. pose proof (inv_len _ _ _ _ _ _ _ _ _ HI) as Hlen.
      destruct (lookup_lt_is_Some_2 (threads cf) t ltac:(lia)) as [th Hth].
      by apply (spin_finished_turns n cf t th HI Hth), Hfin.
Qed.

(** Three threads, one after the other. *)
Definition demo : config shared local :=
  run_schedule code (replicate 13 (0, 0) ++ replicate 13 (1, 0) ++ replicate 13 (2, 0) ++ replicate 12 (0, 0) ++ replicate 12 (1, 0))%nat (main 3).
Lemma spinlock_correct_witness : counter (mem demo) = zlen (log (mem demo)) /\ log (mem demo) = [0; 1; 2; 0; 1]%nat.
Proof.
  destruct (spinlock_correct 3 demo) as (_ & [H _] & _); [lia|apply run_schedule_reachable|].
  split; [exact H|]. vm_compute. reflexivity.
Defined.
End SpinLock.
