(* ===== verification/EventfdLock.v ===== *)
(** [src/exercises/linux_api/condition_using_eventfd]: condition variables made of
    eventfds ([mypthreadcond.h]) and a readers/writer lock on top of them
    ([solution.cc]).  A waiter takes a free slot, releases the mutex and reads from
    the eventfd of its slot; a signal writes to the eventfd of the first slot that is
    taken, a broadcast to those of all that are. *)

From stdpp Require Import prelude list relations.
From Stdlib Require Import ZArith Lia.
From S2P Require Import Prelude Threads RwLock.

Module EventfdLock.
Open Scope stmt_scope.

(** * mypthreadcond.h *)

Definition MAX_FD : nat := 100.

(** [efd] has the counters of the eventfds. *)
Record mypthread_cond_t := mkCond { efd : list Z; waiting : list bool }.

(** The lock of [solution.cc] and the globals of its test. *)
Record shared := mkShared {
  mycond_readers : mypthread_cond_t;
  mycond_writers : mypthread_cond_t;
  lock : rwlock;
  g_readers : Z;
  g_writers : Z;
}.

(** The locals of [worker] and of the functions it calls: [mynumber] is [None]
    for -1, and [slot] is the loop variable of a broadcast. *)
Record local := mkLocal { td : thread_data; i_ : Z; mynumber : option nat; slot : nat }.

Definition code_t : Type := stmt shared local.

(** The two conditions. *)
Inductive which := Readers | Writers.
Definition get_cond (c : which) (m : shared) : mypthread_cond_t :=
  match c with Readers => mycond_readers m | Writers => mycond_writers m end.
Definition set_cond (c : which) (x : mypthread_cond_t) (m : shared) : shared :=
  match c with
  | Readers => mkShared x (mycond_writers m) (lock m) (g_readers m) (g_writers m)
  | Writers => mkShared (mycond_readers m) x (lock m) (g_readers m) (g_writers m)
  end.
Definition on_cond (c : which) (f : mypthread_cond_t -> local -> mypthread_cond_t * local) : code_t :=
  SDo (fun m l => let '(x, l') := f (get_cond c m) l in (set_cond c x m, l')).

(** The loops that look for the first slot whose [waiting] is [b]. *)
Fixpoint find_slot (b : bool) (i : nat) (w : list bool) : option nat :=
  match w with
  | [] => None
  | x :: w' => if Bool.eqb x b then Some i else find_slot b (S i) w'
  end.

(** write(2) of 1 to an eventfd; the counter is far from the value at which it
    would block. *)
Definition efd_write (i : nat) (x : mypthread_cond_t) : mypthread_cond_t :=
  mkCond (alter (fun v => v + 1) i (efd x)) (waiting x).
Definition set_waiting (b : bool) (i : nat) (x : mypthread_cond_t) : mypthread_cond_t :=
  mkCond (efd x) (<[i := b]> (waiting x)).

Definition mypthread_cond_init : mypthread_cond_t := mkCond (replicate MAX_FD 0) (replicate MAX_FD false).

(** Only the slot is looked for before the one write, both under the mutex. *)
Definition mypthread_cond_signal (c : which) : code_t :=
  on_cond c (fun x l => (match find_slot true 0 (waiting x) with Some i => efd_write i x | None => x end, l)).

Definition set_slot (j : nat) (l : local) : local := mkLocal (td l) (i_ l) (mynumber l) j.
Definition taken (c : which) (m : shared) (l : local) : bool := default false (waiting (get_cond c m) !! slot l).

Definition mypthread_cond_broadcast (c : which) : code_t :=
  SDo (fun m l => (m, set_slot 0 l)) ;;
  SWhile (fun _ l => (slot l <? MAX_FD)%nat)
    (SIf (taken c) (on_cond c (fun x l => (efd_write (slot l) x, l))) SSkip ;;
     SDo (fun m l => (m, set_slot (S (slot l)) l))).

Definition set_my (n : option nat) (l : local) : local := mkLocal (td l) (i_ l) n (slot l).
Definition my (l : local) : nat := default 0%nat (mynumber l).
Definition counter (c : which) (m : shared) (i : nat) : Z := default 0 (efd (get_cond c m) !! i).

Definition mypthread_cond_wait (c : which) : code_t :=
  on_cond c (fun x l => (x, set_my (find_slot false 0 (waiting x)) l)) ;;
  SAssert (fun _ l => match mynumber l with Some _ => true | None => false end) ;;
  on_cond c (fun x l => (set_waiting true (my l) x, l)) ;;
  SUnlock ;;
  SAwait (fun m l => 0 <? counter c m (my l))
    (fun m l => (set_cond c (mkCond (<[my l := 0]> (efd (get_cond c m))) (waiting (get_cond c m))) m, l)) ;;
  SLock ;;
  on_cond c (fun x l => (set_waiting false (my l) x, l)).

(** * solution.cc *)

Definition on_lock (f : rwlock -> rwlock) : code_t :=
  SDo (fun m l => (mkShared (mycond_readers m) (mycond_writers m) (f (lock m)) (g_readers m) (g_writers m), l)).
Definition test (b : rwlock -> bool) : shared -> local -> bool := fun m _ => b (lock m).

Definition mypthread_rwlock_init : shared :=
  mkShared mypthread_cond_init mypthread_cond_init (mkRw 0 0 0 0) 0 0.

Definition mypthread_rwlock_rdlock : code_t :=
  SLock ;;
  on_lock incr_readers_waiting ;;
  SWhile (test (fun k => (0 <? writers k) || (0 <? writers_waiting k))) (mypthread_cond_wait Readers) ;;
  on_lock incr_readers ;;
  on_lock decr_readers_waiting ;;
  SUnlock.

Definition mypthread_rwlock_wrlock : code_t :=
  SLock ;;
  on_lock incr_writers_waiting ;;
  SWhile (test (fun k => (0 <? readers k) || (0 <? writers k))) (mypthread_cond_wait Writers) ;;
  on_lock incr_writers ;;
  on_lock decr_writers_waiting ;;
  SUnlock.

Definition after_decrement : code_t :=
  SIf (test (fun k => (0 <? writers_waiting k) && (readers k =? 0)))
    (mypthread_cond_signal Writers)
    (SIf (test (fun k => (0 <? readers_waiting k) && (writers k =? 0)))
       (mypthread_cond_broadcast Readers) SSkip).

Definition mypthread_rwlock_unlock : code_t :=
  SLock ;;
  SIf (test (fun k => negb (readers k =? 0)))
    (on_lock decr_readers ;; after_decrement)
    (on_lock decr_writers ;; after_decrement) ;;
  SUnlock.

(** The test program. *)
Definition sync_readers (d : Z) : code_t :=
  SDo (fun m l => (mkShared (mycond_readers m) (mycond_writers m) (lock m) (u32 (g_readers m + d)) (g_writers m), l)).
Definition sync_writers (d : Z) : code_t :=
  SDo (fun m l => (mkShared (mycond_readers m) (mycond_writers m) (lock m) (g_readers m) (u32 (g_writers m + d)), l)).
Definition usleep : code_t := SDo (fun m l => (m, l)).

Definition set_i (x : Z) (l : local) : local := mkLocal (td l) x (mynumber l) (slot l).
Definition for_loops (body : code_t) : code_t :=
  SDo (fun m l => (m, set_i 0 l)) ;;
  SWhile (fun _ l => i_ l <? loops (td l)) (body ;; SDo (fun m l => (m, set_i (u32 (i_ l + 1)) l))).

Definition reader_section : code_t :=
  SAssert (fun m _ => g_writers m =? 0) ;; sync_readers 1 ;; usleep ;; sync_readers (-1).
Definition writer_section : code_t :=
  SAssert (fun m _ => g_readers m =? 0) ;; SAssert (fun m _ => g_writers m =? 0) ;;
  sync_writers 1 ;; usleep ;; sync_writers (-1).

Definition worker : code_t :=
  SIf (fun _ l => reader (td l))
    (for_loops (mypthread_rwlock_rdlock ;; reader_section ;; mypthread_rwlock_unlock ;; usleep))
    (for_loops (mypthread_rwlock_wrlock ;; writer_section ;; mypthread_rwlock_unlock ;; usleep)).

Definition main (thread_num : nat) : config shared local :=
  mkConfig mypthread_rwlock_init None
    ((fun i => mkThread 0 Running (mkLocal (tds i) 0 None 0)) <$> seq 0 thread_num).

Definition code (_ : nat) : list (instr shared local) := compile worker.
End EventfdLock.
