(* ===== verification/EventfdProofs.v ===== *)
(** The readers/writer lock on eventfd conditions of [EventfdLock]: a proof outline
    of the test program for the method of [Threads], for up to a hundred threads. *)

From stdpp Require Import prelude list relations.
From Stdlib Require Import ZArith Lia.
From S2P Require Import Prelude Threads RwLock EventfdLock.

Import EventfdLock.
Module EventfdProofs.

Definition trues (w : list bool) : Z := zlen (List.filter id w).
Definition is_my (j : nat) (l : local) : bool := match mynumber l with Some k => (k =? j)%nat | None => false end.

(** The counters of the lock and of the test, whether a slot is taken, and how
    many are. *)
Inductive ctr := KR | KW | KRW | KWW | KGR | KGW | KSlot (c : which) (j : nat) | KNum (c : which).

Definition slot_of (c : which) (m : shared) (j : nat) : bool := default false (waiting (get_cond c m) !! j).

Definition count (k : ctr) (m : shared) : Z :=
  match k with
  | KR => readers (lock m)
  | KW => writers (lock m)
  | KRW => readers_waiting (lock m)
  | KWW => writers_waiting (lock m)
  | KGR => g_readers m
  | KGW => g_writers m
  | KSlot c j => b2z (slot_of c m j)
  | KNum c => trues (waiting (get_cond c m))
  end.

(** Between taking a slot and giving it back. *)
Definition in_wait (c : which) (pc : nat) : bool :=
  match c with Readers => span 9 12 pc | Writers => span 63 66 pc end.

Definition weight (_ pc : nat) (l : local) (k : ctr) : Z :=
  b2z match k with
  | KR => span 15 23 pc
  | KW => span 69 77 pc || (pc =? 92)%nat
  | KRW => span 5 15 pc
  | KWW => span 59 69 pc
  | KGR => span 19 20 pc
  | KGW => span 74 75 pc
  | KSlot c j => in_wait c pc && is_my j l
  | KNum c => in_wait c pc
  end.

Definition inside (_ pc : nat) : bool :=
  span 4 9 pc || span 12 16 pc || span 22 50 pc || span 58 63 pc || span 66 70 pc || span 77 105 pc.

Definition free_slot (c : which) (m : shared) (l : local) : Prop :=
  exists k, mynumber l = Some k /\ waiting (get_cond c m) !! k = Some false.

Definition says (_ pc : nat) (m : shared) (l : local) : Prop :=
  let k := lock m in
  (if span 6 9 pc then 0 < writers k \/ 0 < writers_waiting k else True) /\
  (if (pc =? 14)%nat then writers k = 0 /\ writers_waiting k = 0 else True) /\
  (if span 37 49 pc || span 78 90 pc then False else True) /\
  (if span 60 63 pc then 0 < readers k \/ 0 < writers k else True) /\
  (if (pc =? 68)%nat then readers k = 0 /\ writers k = 0 else True) /\
  (if (pc =? 7)%nat || (pc =? 8)%nat then free_slot Readers m l else True) /\
  (if (pc =? 61)%nat || (pc =? 62)%nat then free_slot Writers m l else True).

Definition lsays (_ pc : nat) (l : local) : Prop :=
  in_wait Readers pc || in_wait Writers pc = true -> exists k, mynumber l = Some k /\ (k < MAX_FD)%nat.

Definition cond_wf (x : mypthread_cond_t) : Prop :=
  length (efd x) = MAX_FD /\ length (waiting x) = MAX_FD /\ Forall (fun v => 0 <= v) (efd x).
Definition good (m : shared) : Prop :=
  (readers (lock m) = 0 \/ writers (lock m) = 0) /\ writers (lock m) <= 1 /\
  cond_wf (mycond_readers m) /\ cond_wf (mycond_writers m).

Lemma eventfd_weight_01 t pc l k : 0 <= weight t pc l k <= 1.
Proof. unfold weight, b2z. destruct (match k with KR => _ | _ => _ end); lia. Qed.

(** ** Slots *)

Lemma find_slot_spec b i w k :
  find_slot b i w = Some k -> (i <= k)%nat /\ w !! (k - i)%nat = Some b /\
  forall j, (j < k - i)%nat -> w !! j = Some (negb b).
Proof.
  revert i. induction w as [|x w IH]; intros i; [done|]. cbn. destruct (Bool.eqb x b) eqn:E.
  - intros [= ->]. apply eqb_prop in E as ->. rewrite Nat.sub_diag. split_and!; [done|done|lia].
  - intros (H1 & H2 & H3)%IH. replace (k - i)%nat with (S (k - S i)) by lia. split_and!; [lia|done|].
    intros [|j] Hj; cbn; [by destruct x, b|]. apply H3. lia.
Qed.

Lemma find_slot_none b i w : find_slot b i w = None -> forall j x, w !! j = Some x -> x = negb b.
Proof.
  revert i. induction w as [|y w IH]; intros i; [done|]. cbn. destruct (Bool.eqb y b) eqn:E; [done|].
  intros H [|j] x Hx; cbn in Hx; [simplify_eq; by destruct x, b|by eapply IH].
Qed.

Lemma trues_all w : (forall j x, w !! j = Some x -> x = true) -> trues w = zlen w.
Proof.
  intros H. unfold trues. rewrite List.forallb_filter_id; [done|]. apply forallb_forall.
  intros x (j & Hj)%list_elem_of_In%list_elem_of_lookup. by apply (H j).
Qed.

Lemma trues_insert w k b x :
  w !! k = Some x -> trues (<[k := b]> w) = trues w + b2z b - b2z x.
Proof.
  unfold trues. revert k. induction w as [|y w IH]; intros [|k] Hk; cbn in Hk; [done|done| |].
  - simplify_eq. unfold b2z. destruct b, x; cbn -[Z.of_nat Z.add Z.sub]; lia.
  - specialize (IH k Hk). destruct y; cbn -[Z.of_nat Z.add Z.sub]; [rewrite !Nat2Z.inj_succ|exact IH].
    etrans; [apply (f_equal Z.succ), IH|lia].
Qed.

(** There is a free slot when fewer than [MAX_FD] threads wait. *)
Lemma find_free m c :
  good m -> trues (waiting (get_cond c m)) < Z.of_nat MAX_FD ->
  exists k, find_slot false 0 (waiting (get_cond c m)) = Some k /\ waiting (get_cond c m) !! k = Some false /\ (k < MAX_FD)%nat.
Proof.
  intros (_ & _ & H1 & H2) Hlt. assert (length (waiting (get_cond c m)) = MAX_FD) as Hl by (destruct c; [apply H1|apply H2]).
  destruct (find_slot false 0 _) as [k|] eqn:E.
  - apply find_slot_spec in E as (_ & Hk & _). rewrite Nat.sub_0_r in Hk. exists k. split_and!; [done|done|].
    rewrite <- Hl. by eapply lookup_lt_Some.
  - rewrite trues_all in Hlt; [lia|]. intros j x Hx. by apply (find_slot_none _ _ _ E) in Hx as ->.
Qed.

(** ** Steps on a condition *)

Definition other_cond (c : which) : which := match c with Readers => Writers | Writers => Readers end.

Lemma set_same c m : set_cond c (get_cond c m) m = m.
Proof. by destruct c, m. Qed.

(** A step that changes only the counters of eventfds. *)
Lemma count_efd c e m k : count k (set_cond c (mkCond e (waiting (get_cond c m))) m) = count k m.
Proof. by destruct c, k as [| | | | | |[] ?|[]]. Qed.
Lemma says_efd c e m t pc l : says t pc (set_cond c (mkCond e (waiting (get_cond c m))) m) l <-> says t pc m l.
Proof. by destruct c. Qed.
Lemma good_efd c e m :
  good m -> length e = MAX_FD -> Forall (fun v => 0 <= v) e -> good (set_cond c (mkCond e (waiting (get_cond c m))) m).
Proof. intros (? & ? & (? & ? & ?) & ? & ? & ?) He Hp. destruct c; by split_and!. Qed.

Lemma good_cond c m : good m -> cond_wf (get_cond c m).
Proof. intros (_ & _ & ? & ?). by destruct c. Qed.

Lemma good_write c i m : good m -> good (set_cond c (efd_write i (get_cond c m)) m).
Proof.
  intros HG. destruct (good_cond c _ HG) as (He & _ & Hp). apply good_efd; [done|by rewrite length_alter|].
  apply Forall_alter; [done|]. intros x _ ?. cbn in *. lia.
Qed.
Lemma good_read c i m :
  good m -> good (set_cond c (mkCond (<[i := 0]> (efd (get_cond c m))) (waiting (get_cond c m))) m).
Proof.
  intros HG. destruct (good_cond c _ HG) as (He & _ & Hp). apply good_efd; [done|by rewrite length_insert|].
  by apply Forall_insert.
Qed.

(** A step that takes or frees a slot. *)
Lemma good_waiting c b i m : good m -> good (set_cond c (set_waiting b i (get_cond c m)) m).
Proof.
  intros (? & ? & (? & ? & ?) & ? & ? & ?). destruct c; (split_and!; try done; unfold cond_wf; cbn; rewrite length_insert; by split_and!).
Qed.
Definition same_which (c d : which) : bool := match c, d with Readers, Readers | Writers, Writers => true | _, _ => false end.
Lemma count_waiting c b i m x k :
  waiting (get_cond c m) !! i = Some x ->
  count k (set_cond c (set_waiting b i (get_cond c m)) m) =
    count k m + (match k with
                 | KSlot d j => if same_which c d && (i =? j)%nat then b2z b - b2z x else 0
                 | KNum d => if same_which c d then b2z b - b2z x else 0
                 | _ => 0
                 end).
Proof.
  intros Hi. pose proof (lookup_lt_Some _ _ _ Hi) as Hlt.
  destruct c, k as [| | | | | |[] j|[]]; cbn [count set_cond get_cond set_waiting same_which andb lock g_readers g_writers];
    unfold slot_of; cbn [get_cond set_waiting mycond_readers mycond_writers waiting] in *; try lia;
    try (rewrite (trues_insert _ _ _ _ Hi); lia).
  all: destruct (i =? j)%nat eqn:E; [apply Nat.eqb_eq in E as <-|apply Nat.eqb_neq in E].
  all: rewrite ?list_lookup_insert_eq, ?list_lookup_insert_ne, ?Hi by done; unfold id; cbn [default]; lia.
Qed.

(** What is known at a program point, spelled out. *)
Lemma test_readers_le : dominated weight KGR KR.
Proof.
  intros t pc l. pose proof (eventfd_weight_01 t pc l KR). unfold weight, b2z in *.
  destruct (span 19 20 pc) eqn:E; [|lia]. rewrite (span_sub 19 20 15 23 pc); [lia|lia|lia|done].
Qed.
Lemma test_writers_le : dominated weight KGW KW.
Proof.
  intros t pc l. pose proof (eventfd_weight_01 t pc l KW). unfold weight, b2z in *.
  destruct (span 74 75 pc) eqn:E; [|lia]. rewrite (span_sub 74 75 69 77 pc); [cbn; lia|lia|lia|done].
Qed.

Lemma eventfd_facts N t pc l m :
  facts count weight good N t pc l m ->
  let w := weight t pc l in
  (w KR <= count KR m <= w KR + (N - 1)) /\ (w KW <= count KW m <= w KW + (N - 1)) /\
  (w KRW <= count KRW m <= w KRW + (N - 1)) /\ (w KWW <= count KWW m <= w KWW + (N - 1)) /\
  (w KGR <= count KGR m <= w KGR + (N - 1)) /\ (w KGW <= count KGW m <= w KGW + (N - 1)) /\
  count KGR m - w KGR <= count KR m - w KR /\ count KGW m - w KGW <= count KW m - w KW /\
  (forall c, count (KNum c) m <= w (KNum c) + (N - 1)) /\ (forall c j, w (KSlot c j) <= count (KSlot c j) m) /\
  good m.
Proof.
  intros [Hc Hd HG _]. cbv zeta. pose proof (Hd KGR KR test_readers_le). pose proof (Hd KGW KW test_writers_le).
  split_and!; try apply Hc; try done; intros; apply Hc.
Qed.

Ltac use_facts :=
  match goal with
  | H : knows _ _ _ _ _ _ _ _ _ _ _ |- _ =>
      let Hs := fresh "Hs" in let Hl := fresh "Hl" in
      destruct H as (H & Hl & Hs); first [specialize (Hs eq_refl); cbn in Hs | clear Hs]; cbn in Hl;
      apply eventfd_facts in H; destruct H as (? & ? & ? & ? & ? & ? & ? & ? & ? & ? & ?)
  | H : facts _ _ _ _ _ _ _ _ |- _ => apply eventfd_facts in H; destruct H as (? & ? & ? & ? & ? & ? & ? & ? & ? & ? & ?)
  end.
Ltac split_state := match goal with m : shared |- _ => destruct m as [? ? [? ? ? ?] ? ?] end.
Ltac numbers := unfold test, weight, good, says, lsays, count in *; unfold slot_of in *; cbn in *; cint; lia || naive_solver lia.

Section points.
Context (N : Z) (HN : N <= 100).
Abbreviation UPDATES := (updates count weight inside says lsays good N).
Abbreviation MOVES := (moves count weight inside says lsays good N).

(** The wait: looking for a slot, taking it, reading, giving it back. *)
Lemma ok_find c t pc :
  (pc = 6%nat /\ c = Readers) \/ (pc = 60%nat /\ c = Writers) ->
  UPDATES t pc always (fun m l => (set_cond c (get_cond c m) m, set_my (find_slot false 0 (waiting (get_cond c m))) l)).
Proof.
  intros Hpc. split; [by destruct Hpc as [[-> _]|[-> _]]|]. intros m l H _. cbn [fst snd]. rewrite set_same.
  assert (good m /\ trues (waiting (get_cond c m)) < Z.of_nat MAX_FD) as [HG Hlt].
  { destruct H as (H & _). destruct (eventfd_facts _ _ _ _ _ H) as (_ & _ & _ & _ & _ & _ & _ & _ & Hn & _ & HG).
    split; [done|]. specialize (Hn c). cbn [count] in Hn.
    assert (weight t pc l (KNum c) = 0) as E by (by destruct Hpc as [[-> ->]|[-> ->]]). rewrite E in Hn.
    change (Z.of_nat MAX_FD) with 100. lia. }
  destruct (find_free m c HG Hlt) as (k & Hf & Hk & Hkl).
  assert (free_slot c m (set_my (find_slot false 0 (waiting (get_cond c m))) l)) as Hfree by (exists k; cbn; by rewrite Hf).
  destruct H as (_ & _ & Hs).
  split; [|split; [done|split; [|split; [|by destruct Hpc as [[-> _]|[-> _]]]]]].
  - intros k'. destruct Hpc as [[-> ->]|[-> ->]]; destruct k' as [| | | | | |[] ?|[]]; cbn; lia.
  - by destruct Hpc as [[-> _]|[-> _]].
  - intros _. destruct Hpc as [[-> ->]|[-> ->]]; specialize (Hs eq_refl); unfold says in *; cbn in Hs |- *; tauto.
Qed.

Lemma ok_take c t pc :
  (pc = 8%nat /\ c = Readers) \/ (pc = 62%nat /\ c = Writers) ->
  UPDATES t pc always (fun m l => (set_cond c (set_waiting true (my l) (get_cond c m)) m, l)).
Proof.
  intros Hpc. split; [by destruct Hpc as [[-> _]|[-> _]]|]. intros m l H _. cbn [fst snd]. destruct H as (H & Hl & Hs).
  assert (free_slot c m l) as (k & Hk & Hw).
  { destruct Hpc as [[-> ->]|[-> ->]]; specialize (Hs eq_refl); unfold says in Hs; cbn in Hs; tauto. }
  assert (good m) as HG by apply H. destruct (good_cond c m HG) as (_ & Hlen & _).
  assert (my l = k) as Hm by (unfold my; by rewrite Hk). rewrite Hm.
  split; [|split; [by apply good_waiting|split; [|split; [|by destruct Hpc as [[-> _]|[-> _]]]]]].
  - intros k'. rewrite (count_waiting _ _ _ _ _ _ Hw). unfold weight, is_my. rewrite Hk.
    destruct Hpc as [[-> ->]|[-> ->]]; destruct k' as [| | | | | |[] j|[]]; cbn; try lia; destruct (k =? j)%nat; cbn; lia.
  - intros _. exists k. split; [done|]. rewrite <- Hlen. by eapply lookup_lt_Some.
  - intros _. destruct Hpc as [[-> ->]|[-> ->]]; specialize (Hs eq_refl); unfold says in *; cbn in Hs |- *; tauto.
Qed.

Lemma ok_read c t pc :
  (pc = 10%nat /\ c = Readers) \/ (pc = 64%nat /\ c = Writers) ->
  UPDATES t pc (fun m l => 0 <? counter c m (my l))
    (fun m l => (set_cond c (mkCond (<[my l := 0]> (efd (get_cond c m))) (waiting (get_cond c m))) m, l)).
Proof.
  intros Hpc. split; [by destruct Hpc as [[-> _]|[-> _]]|]. intros m l (H & Hl & _) _. cbn [fst snd].
  split; [|split; [apply good_read, H|split; [|split]]].
  - intros k. rewrite count_efd. assert (weight t (S pc) l k = weight t pc l k) as ->; [|lia].
    destruct Hpc as [[-> ->]|[-> ->]]; by destruct k as [| | | | | |[] ?|[]].
  - by destruct Hpc as [[-> ->]|[-> ->]].
  - by destruct Hpc as [[-> ->]|[-> ->]].
  - intros _ t' pc' l'. by rewrite says_efd.
Qed.

Lemma ok_free c t pc :
  (pc = 12%nat /\ c = Readers) \/ (pc = 66%nat /\ c = Writers) ->
  UPDATES t pc always (fun m l => (set_cond c (set_waiting false (my l) (get_cond c m)) m, l)).
Proof.
  intros Hpc. split; [by destruct Hpc as [[-> _]|[-> _]]|]. intros m l (H & Hl & Hs) _. cbn [fst snd].
  assert (exists k, mynumber l = Some k /\ (k < MAX_FD)%nat) as (k & Hk & Hkl) by (apply Hl; by destruct Hpc as [[-> _]|[-> _]]).
  assert (good m) as HG by apply H. destruct (good_cond c m HG) as (_ & Hlen & _).
  assert (my l = k) as Hm by (unfold my; by rewrite Hk). rewrite Hm.
  destruct (lookup_lt_is_Some_2 (waiting (get_cond c m)) k ltac:(lia)) as [x Hx].
  assert (x = true) as ->.
  { destruct (eventfd_facts _ _ _ _ _ H) as (_ & _ & _ & _ & _ & _ & _ & _ & _ & Hsl & _). specialize (Hsl c k).
    unfold weight, is_my, count, slot_of in Hsl. rewrite Hk, Nat.eqb_refl, Hx in Hsl.
    destruct Hpc as [[-> ->]|[-> ->]]; destruct x; [done|cbn in Hsl; lia|done|cbn in Hsl; lia]. }
  split; [|split; [by apply good_waiting|split; [|split; [|by destruct Hpc as [[-> _]|[-> _]]]]]].
  - intros k'. rewrite (count_waiting _ _ _ _ _ _ Hx). unfold weight, is_my. rewrite Hk.
    destruct Hpc as [[-> ->]|[-> ->]]; destruct k' as [| | | | | |[] j|[]]; cbn; try lia; destruct (k =? j)%nat; cbn; lia.
  - by destruct Hpc as [[-> _]|[-> _]].
  - intros _. by destruct Hpc as [[-> ->]|[-> ->]].
Qed.

(** A write to an eventfd changes nothing the outline talks about. *)
Definition quiet (f : shared -> local -> shared * local) : Prop := forall m l,
  (f m l).2 = l /\ (forall k, count k (f m l).1 = count k m) /\ (good m -> good (f m l).1) /\
  forall t pc l', says t pc m l' <-> says t pc (f m l).1 l'.

Lemma quiet_write c g : quiet (fun m l => (set_cond c (efd_write (g l) (get_cond c m)) m, l)).
Proof.
  intros m l. split_and!; [done|intros; apply count_efd|intros; by apply good_write|].
  intros t pc l'. symmetry. apply says_efd.
Qed.

Lemma quiet_signal c :
  quiet (fun m l => let '(x, l') := (match find_slot true 0 (waiting (get_cond c m)) with
                                     | Some i => efd_write i (get_cond c m) | None => get_cond c m end, l) in
                    (set_cond c x m, l')).
Proof.
  intros m l. destruct (find_slot _ _ _) as [i|]; [apply (quiet_write c (fun _ => i))|].
  cbn [fst snd]. by rewrite set_same.
Qed.

Lemma ok_quiet f t pc :
  quiet f -> inside t (S pc) = inside t pc -> (forall l k, weight t (S pc) l k = weight t pc l k) ->
  (forall l, lsays t pc l -> lsays t (S pc) l) -> (forall m l, says t pc m l -> says t (S pc) m l) ->
  UPDATES t pc always f.
Proof.
  intros Hq Hin Hw Hl Hs. split; [done|]. intros m l (H & Hls & Hss) _. destruct (Hq m l) as (-> & Hc & HG & Hsays).
  split_and!; [intros; rewrite Hc, Hw; lia|apply HG, H|by apply Hl| |by intros _ ? ? ?; apply Hsays].
  rewrite Hin. intros E. apply Hsays, Hs, Hss, E.
Qed.

Lemma has_slot c m l : free_slot c m l -> match mynumber l with Some _ => true | None => false end = true.
Proof. by intros (k & -> & _). Qed.

Ltac counters := intros [| | | | | |[] ?|[]]; numbers.
Ltac move_point :=
  split; [left; reflexivity|]; intros m l H ?; use_facts; split_state;
  split_and!; [counters | first [done | by intros ?] | first [intros _; numbers | done]].
Ltac update_point :=
  split; [reflexivity|]; intros m l H _; use_facts; split_state;
  split_and!; [counters | numbers | first [done | by intros ?] | first [intros _; numbers | done] | first [done | intros _ ? ? ? H'; exact H']].
Ltac quiet_point :=
  apply ok_quiet; [first [apply (quiet_signal Writers) | apply (quiet_write Readers slot)]|reflexivity|
    intros ? [| | | | | |[] ?|[]]; reflexivity|done|try done; try (intros ? ?; unfold says; cbn; tauto)].
Ltac lock_point :=
  split_and!; [reflexivity..|intros ? [| | | | | |[] ?|[]]; reflexivity|
    intros m l H ?; split; [done|use_facts; split_state; numbers]].
Ltac ok_point :=
  unfold ok; cbn;
  lazymatch goal with
  | |- updates _ _ _ _ _ _ _ _ _ _ _ =>
      first [ apply (ok_find Readers); tauto | apply (ok_find Writers); tauto | apply (ok_take Readers); tauto
            | apply (ok_take Writers); tauto | apply (ok_free Readers); tauto | apply (ok_free Writers); tauto
            | quiet_point | update_point ]
  | |- false = false /\ updates _ _ _ _ _ _ _ _ _ _ _ =>
      split; [done|]; first [apply (ok_read Readers); tauto | apply (ok_read Writers); tauto]
  | |- moves _ _ _ _ _ _ _ _ _ _ _ => move_point
  | |- moves _ _ _ _ _ _ _ _ _ _ _ /\ moves _ _ _ _ _ _ _ _ _ _ _ => split; move_point
  | |- moves _ _ _ _ _ _ _ _ _ _ _ /\ _ =>
      split; [move_point |
        intros m l H; first [use_facts; split_state; numbers | destruct H as (_ & _ & H); specialize (H eq_refl); eapply has_slot; apply H]]
  | |- _ => first [lock_point | split_and!; [reflexivity..|intros ? [| | | | | |[] ?|[]]; reflexivity|done]]
  end.

Lemma eventfd_ok t pc : ok code count weight inside says lsays good N t pc.
Proof. do 109 (destruct pc as [|pc]; [ok_point|]). reflexivity. Qed.
End points.
End EventfdProofs.
