(* ===== verification/EventfdWake.v ===== *)
(** The readers/writer lock of [EventfdLock] wakes its threads, by the method of
    [Rescue], and is correct for up to a hundred threads. *)

From stdpp Require Import prelude list relations.
From Stdlib Require Import ZArith Lia.
From S2P Require Import Prelude Threads Alarms Rescue RwLock EventfdLock EventfdProofs.

Import EventfdLock EventfdProofs.
Module EventfdWake.

Lemma eventfd_queueing t : forallb queueing (code t) = true.
Proof. reflexivity. Qed.

(** A reader waits although there is no writer, or a writer although nobody has
    the lock, and nothing has been written to the eventfd of its slot. *)
Definition reader_need (k : nat) (m : shared) : Prop :=
  counter Readers m k = 0 /\ writers (lock m) = 0 /\ writers_waiting (lock m) = 0.
Definition writer_need (k : nat) (m : shared) : Prop :=
  counter Writers m k = 0 /\ readers (lock m) = 0 /\ writers (lock m) = 0.
Definition needs (pc : nat) (l : local) (m : shared) : Prop :=
  (pc = 10%nat /\ reader_need (my l) m) \/ (pc = 64%nat /\ writer_need (my l) m).

(** A broadcast that has not passed the slot yet saves a reader.  A writer is saved
    by a thread that is about to signal, or by any other writer that has been
    signalled and will look at the counters again. *)
Definition at_ (pc : nat) (l : list nat) : bool := existsb (Nat.eqb pc) l.
Definition save_reader (pc s k : nat) : bool :=
  at_ pc [93; 96; 97]%nat || at_ pc [98; 99; 100; 103]%nat && (s <=? k)%nat || at_ pc [101; 102]%nat && (s <? k)%nat.
Definition save_writer (pc : nat) (v : Z) : bool :=
  at_ pc [24; 25; 59; 65; 66; 67; 68; 93; 94]%nat || at_ pc [63; 64]%nat && (0 <? v).
Definition saves (pc : nat) (l : local) (m : shared) (pc2 : nat) (l2 : local) : Prop :=
  (if (pc2 =? 10)%nat then save_reader pc (slot l) (my l2)
   else save_writer pc (counter Writers m (my l))) = true.

Definition in_slot (c : which) (t pc : nat) (l : local) (m : shared) (k : nat) : Prop :=
  (k < MAX_FD)%nat /\ slot_of c m k = true /\ weight t pc l (KSlot c k) = 0.

Lemma beside_slot c t pc l m t2 pc2 l2 :
  beside count weight lsays t pc l m t2 pc2 l2 -> in_wait c pc2 = true -> in_slot c t pc l m (my l2).
Proof.
  intros (_ & Hl & Hk) Hw. destruct Hl as (k & Hm & Hlt); [destruct c; rewrite Hw; by rewrite ?orb_true_r|].
  specialize (Hk (KSlot c k)). pose proof (eventfd_weight_01 t pc l (KSlot c k)).
  assert (weight t2 pc2 l2 (KSlot c k) = 1) as E by (unfold weight, is_my; by rewrite Hw, Hm, Nat.eqb_refl).
  rewrite E in Hk. cbn [count] in Hk. unfold my, in_slot. rewrite Hm. cbn [default]. unfold id.
  destruct (slot_of c m k); cbn in Hk; split_and!; (done || lia).
Qed.

(** What happens to the counters of the eventfds. *)
Lemma counter_nonneg c m k : good m -> 0 <= counter c m k.
Proof.
  intros HG. destruct (good_cond c m HG) as (_ & _ & Hp). unfold counter.
  destruct (efd (get_cond c m) !! k) as [v|] eqn:E; [|done]. by apply (Forall_lookup_1 _ _ _ _ Hp E).
Qed.
Lemma counter_write c m i k :
  good m -> (k < MAX_FD)%nat ->
  counter c (set_cond c (efd_write i (get_cond c m)) m) k = counter c m k + b2z (i =? k)%nat.
Proof.
  intros HG Hk. destruct (good_cond c m HG) as (Hl & _). unfold counter.
  replace (get_cond c (set_cond c (efd_write i (get_cond c m)) m)) with (efd_write i (get_cond c m)) by (by destruct c).
  cbn [efd efd_write]. destruct (i =? k)%nat eqn:E; [apply Nat.eqb_eq in E as ->|apply Nat.eqb_neq in E].
  - rewrite list_lookup_alter, decide_True by done. destruct (lookup_lt_is_Some_2 (efd (get_cond c m)) k ltac:(lia)) as [v Hv].
    by rewrite Hv.
  - rewrite list_lookup_alter_ne by done. cbn. lia.
Qed.
Lemma counter_read c m i k :
  i <> k -> counter c (set_cond c (mkCond (<[i := 0]> (efd (get_cond c m))) (waiting (get_cond c m))) m) k = counter c m k.
Proof. intros H. unfold counter. destruct c; cbn; by rewrite list_lookup_insert_ne. Qed.

Lemma in_slot_ne c t pc l m k :
  in_slot c t pc l m k -> in_wait c pc = true -> (exists j, mynumber l = Some j) -> my l <> k.
Proof.
  intros (_ & _ & Hw) Hin (j & Hj) E. unfold my in E. unfold weight, is_my in Hw. rewrite Hin, Hj in *.
  cbn in E, Hw. unfold id in E. rewrite E, Nat.eqb_refl in Hw. done.
Qed.

Section rescue_points.
Context (N : Z) (HN : N <= 100).
Abbreviation RESCUES := (rescues count weight lsays needs saves).

(** The conditions of [Rescue] for this program. *)
Lemma rescues_intro t pc pc' m l m' l' :
  ~ needs pc' l' m' ->
  (forall k, in_slot Readers t pc l m k -> weight t pc l KRW + 1 <= readers_waiting (lock m) ->
     reader_need k m' ->
     save_reader pc' (slot l') k = true \/ (reader_need k m /\ save_reader pc (slot l) k = false)) ->
  (forall k, in_slot Writers t pc l m k -> weight t pc l KWW + 1 <= writers_waiting (lock m) ->
     writer_need k m' ->
     save_writer pc' (counter Writers m' (my l')) = true \/
     (exists i, slot_of Writers m' i = true /\ 0 < counter Writers m' i) \/
     (writer_need k m /\ save_writer pc (counter Writers m (my l)) = false)) ->
  (forall k, in_slot Writers t pc l m k -> 0 < counter Writers m k -> 0 < counter Writers m' k) ->
  RESCUES t pc pc' m l m' l'.
Proof.
  intros H1 H2 H3 H4. split_and!; [done| |].
  - intros t2 pc2 l2 Hb [[-> Hn]|[-> Hn]]; unfold saves; cbn [Nat.eqb].
    + destruct (H2 (my l2)) as [?|[? E]]; [by eapply beside_slot|apply Hb|done|by left|].
      right; right. rewrite E. split; [by left|done].
    + destruct (H3 (my l2)) as [?|[(i & Hi & Hc)|[? E]]]; [by eapply beside_slot|apply Hb|done|by left| |].
      * right; left. exists (KSlot Writers i). cbn [count]. rewrite Hi. split; [done|]. intros t3 pc3 l3 Hw.
        unfold weight, is_my in Hw. destruct (in_wait Writers pc3) eqn:Ew; [|done].
        destruct (mynumber l3) as [k|] eqn:Ek; [|done]. destruct (k =? i)%nat eqn:Eq; [|done]. apply Nat.eqb_eq in Eq as ->.
        unfold my. rewrite Ek. cbn [default]. unfold id. unfold save_writer. rewrite (proj2 (Z.ltb_lt _ _) Hc).
        unfold in_wait, span in Ew. apply andb_true_iff in Ew as [E1%Nat.leb_le E2%Nat.leb_le].
        assert (pc3 = 63 \/ pc3 = 64 \/ pc3 = 65 \/ pc3 = 66)%nat as [->|[->|[->| ->]]] by lia; done.
      * right; right. rewrite E. split; [by right|done].
  - intros t3 pc3 l3 pc2 l2 Hb Hn. unfold saves. destruct (pc2 =? 10)%nat; [done|]. unfold save_writer.
    destruct (at_ pc3 [63; 64]%nat) eqn:E; [|by rewrite !andb_false_l].
    rewrite !andb_true_l, !orb_true_iff. intros [Ha|Ha%Z.ltb_lt]; [by left|right]. apply Z.ltb_lt, H4; [|done].
    eapply beside_slot; [done|]. unfold at_ in E. cbn in E. rewrite orb_false_r in E.
    apply orb_true_iff in E as [->%Nat.eqb_eq| ->%Nat.eqb_eq]; done.
Qed.

Abbreviation RESCUE_OK := (rescue_ok code count weight inside says lsays good N needs saves).
Abbreviation KNOWS := (knows count weight inside says lsays good N).

(** A waiter reads its eventfd: the others have other slots. *)
Lemma rescue_reads c t pc m l :
  (pc = 10%nat /\ c = Readers) \/ (pc = 64%nat /\ c = Writers) -> KNOWS t pc m l ->
  RESCUES t pc (S pc) m l
    (set_cond c (mkCond (<[my l := 0]> (efd (get_cond c m))) (waiting (get_cond c m))) m) l.
Proof.
  intros Hpc (_ & Hl & _).
  assert (forall k, in_slot c t pc l m k ->
    counter c (set_cond c (mkCond (<[my l := 0]> (efd (get_cond c m))) (waiting (get_cond c m))) m) k = counter c m k) as Hne.
  { intros k Hk. apply counter_read. eapply in_slot_ne; [done|by destruct Hpc as [[-> ->]|[-> ->]]|].
    destruct Hl as (j & ? & _); [by destruct Hpc as [[-> ->]|[-> ->]]|by exists j]. }
  apply rescues_intro.
  - by destruct Hpc as [[-> ->]|[-> ->]]; intros [[? _]|[? _]].
  - intros k Hin _ Hn. right. destruct Hpc as [[-> ->]|[-> ->]]; (split; [|done]); [|exact Hn].
    unfold reader_need in *. by rewrite (Hne k Hin) in Hn.
  - intros k Hin _ Hn. destruct Hpc as [[-> ->]|[-> ->]]; [right; right; by split|by left].
  - intros k Hin Hc. destruct Hpc as [[-> ->]|[-> ->]]; [exact Hc|]. by rewrite (Hne k Hin).
Qed.

(** A signal is written to some slot that is taken. *)
Lemma rescue_signal t pc m l :
  pc = 25%nat \/ pc = 94%nat -> good m ->
  RESCUES t pc (S pc) m l
    (set_cond Writers (match find_slot true 0 (waiting (get_cond Writers m)) with
                       | Some i => efd_write i (get_cond Writers m) | None => get_cond Writers m end) m) l.
Proof.
  intros Hpc HG. destruct (find_slot true 0 (waiting (get_cond Writers m))) as [i|] eqn:E.
  - destruct (find_slot_spec _ _ _ _ E) as (_ & Hi & _). rewrite Nat.sub_0_r in Hi.
    assert ((i < MAX_FD)%nat) as Hlt.
    { destruct (good_cond Writers m HG) as (_ & <- & _). by eapply lookup_lt_Some. }
    apply rescues_intro.
    + by destruct Hpc as [-> | ->]; intros [[? _]|[? _]].
    + intros k Hin _ Hn. right. split; [exact Hn|by destruct Hpc as [-> | ->]].
    + intros k Hin _ Hn. right; left. exists i. split; [unfold slot_of; cbn in Hi |- *; by rewrite Hi|].
      pose proof (counter_nonneg Writers m i HG). rewrite (counter_write Writers m i i HG Hlt), Nat.eqb_refl. cbn. lia.
    + intros k (Hk & _) Hc. rewrite (counter_write Writers m i k HG Hk). unfold b2z. destruct (i =? k)%nat; lia.
  - rewrite set_same. apply rescues_intro; [| | |done].
    + by destruct Hpc as [-> | ->]; intros [[? _]|[? _]].
    + intros k Hin _ Hn. right. split; [exact Hn|by destruct Hpc as [-> | ->]].
    + intros k (Hk & Hs & _) _ _. unfold slot_of in Hs.
      destruct (waiting (get_cond Writers m) !! k) as [b|] eqn:Eb; [|done].
      apply (find_slot_none _ _ _ E) in Eb as ->. done.
Qed.

(** A broadcast writes to one slot and goes on behind it. *)
Lemma rescue_write t pc m l :
  pc = 31%nat \/ pc = 100%nat -> good m ->
  RESCUES t pc (S pc) m l (set_cond Readers (efd_write (slot l) (get_cond Readers m)) m) l.
Proof.
  intros Hpc HG. apply rescues_intro; [by destruct Hpc as [-> | ->]; intros [[? _]|[? _]]| | |done].
  - intros k (Hk & _) _ (Hn & Hrest). rewrite (counter_write Readers m (slot l) k HG Hk) in Hn.
    pose proof (counter_nonneg Readers m k HG). destruct (slot l =? k)%nat eqn:E; [cbn in Hn; lia|].
    apply Nat.eqb_neq in E. cbn in Hn. assert (reader_need k m) by (split; [lia|exact Hrest]).
    destruct Hpc as [-> | ->]; [by right|]. unfold save_reader. cbn -[Nat.leb Nat.ltb].
    destruct (slot l <=? k)%nat eqn:E2; [left; apply Nat.ltb_lt; apply Nat.leb_le in E2; lia|by right].
  - intros k _ _ Hn. right; right. split; [exact Hn|by destruct Hpc as [-> | ->]].
Qed.

Ltac known := unfold reader_need, writer_need, in_slot in *; numbers.
Ltac stays := first [left; reflexivity | right; split; [split_and!; known|reflexivity]
                    | right; right; split; [split_and!; known|reflexivity] | exfalso; known].
Ltac step_point :=
  use_facts; split_state; apply rescues_intro;
  [ intros [[Hpc Hn]|[Hpc Hn]]; [try discriminate Hpc..]; known
  | intros k Hin Hw Hn; stays | intros k Hin Hw Hn; stays | intros k Hin Hc; first [exact Hc | exfalso; known] ].
(** A broadcast on its way through the slots. *)
Ltac past l :=
  let k := fresh "k" in let Hin := fresh "Hin" in let Hs := fresh "Hs" in
  intros k Hin _ Hn; destruct Hin as (Hin & Hs & _); unfold save_reader; cbn -[Nat.leb Nat.ltb]; unfold taken, slot_of, MAX_FD in *;
  destruct (Nat.lt_trichotomy (slot l) k) as [?|[?|?]];
  repeat match goal with
  | |- context [(slot l <=? k)%nat] => destruct (Nat.leb_spec (slot l) k); [|try lia]
  | |- context [(slot l <? k)%nat] => destruct (Nat.ltb_spec (slot l) k); try lia
  | |- context [(S (slot l) <=? k)%nat] => destruct (Nat.leb_spec (S (slot l)) k); try lia
  | H : (slot l <=? 99)%nat = false |- _ => apply Nat.leb_gt in H
  end; first [by left | by right | lia | subst k; congruence].
Ltac slot_point l :=
  apply rescues_intro;
  [ intros [[Hpc Hn]|[Hpc Hn]]; discriminate Hpc | past l | intros k Hin Hw Hn; stays | intros k Hin Hc; exact Hc ].
Ltac rescue_point :=
  let Hi := fresh "Hi" in let Ha := fresh "Ha" in let l := fresh "l" in
  intros i m l m' l' pc' Hi H Ha; cbn in Hi; injection Hi as <-; cbn in Ha;
  first [ injection Ha as <- <- <-;
          first [ step_point | slot_point l | apply rescue_signal; [tauto|apply H] | apply rescue_write; [tauto|apply H] ]
        | match type of Ha with context [if ?b then _ else _] => destruct b eqn:? end;
          first [ discriminate Ha | injection Ha as <- <- <-;
                  first [step_point | slot_point l | apply (rescue_reads Readers); [tauto|done] | apply (rescue_reads Writers); [tauto|done]] ] ].

Lemma eventfd_rescue t pc : RESCUE_OK t pc.
Proof. do 109 (destruct pc as [|pc]; [rescue_point|]). intros ? ? ? ? ? ? Hi. discriminate Hi. Qed.
End rescue_points.
End EventfdWake.
