(* ===== verification/EventfdCorrect.v ===== *)
(** The readers/writer lock of [EventfdLock] is correct for up to a hundred threads;
    with more it can run out of slots.  Two signals in a row go to the same slot. *)

From stdpp Require Import prelude list relations.
From Stdlib Require Import ZArith Lia.
From S2P Require Import Prelude Threads Alarms Rescue RwLock EventfdLock EventfdProofs EventfdWake.

Import EventfdLock EventfdProofs EventfdWake.
Module EventfdCorrect.

(** The program points between the return of [rdlock] (or [wrlock]) and the first
    action of [unlock]. *)
Definition reading_from : nat := 3 + length (compile mypthread_rwlock_rdlock).
Definition writing_from : nat :=
  2 + length (compile (for_loops (mypthread_rwlock_rdlock ;; reader_section ;; mypthread_rwlock_unlock ;; usleep)))
  + 2 + length (compile mypthread_rwlock_wrlock).
Definition reading (th : thread local) : bool :=
  span reading_from (reading_from + length (compile reader_section)) (t_pc th).
Definition writing (th : thread local) : bool :=
  span writing_from (writing_from + length (compile writer_section)) (t_pc th).

Lemma reading_span th : reading th = span 17 21 (t_pc th).
Proof. reflexivity. Qed.
Lemma writing_span th : writing th = span 71 76 (t_pc th).
Proof. reflexivity. Qed.

(** Outside the mutex those are the points that count as holding the lock. *)
Lemma holders t pc l : inside t pc = false ->
  weight t pc l KR = b2z (span 17 21 pc) /\ weight t pc l KW = b2z (span 71 76 pc).
Proof. do 109 (destruct pc as [|pc]; [intros Hin; first [discriminate Hin | split; reflexivity]|]). by split. Qed.
Lemma reading_weight t pc l : span 17 21 pc = true -> weight t pc l KR = 1.
Proof. intros H. unfold weight. by rewrite (span_sub 17 21 15 23 pc) by (done || lia). Qed.
Lemma writing_weight t pc l : span 71 76 pc = true -> weight t pc l KW = 1.
Proof. intros H. unfold weight. by rewrite (span_sub 71 76 69 77 pc) by (done || lia). Qed.

(** What is left when nothing can move. *)
Lemma awaits t pc b f : code t !! pc = Some (IAwait b f) ->
  (pc = 10%nat /\ b = (fun m l => 0 <? counter Readers m (my l))) \/
  (pc = 64%nat /\ b = (fun m l => 0 <? counter Writers m (my l))).
Proof.
  do 109 (destruct pc as [|pc]; [intros H; cbn in H; first [discriminate H | injection H as <- _; tauto]|]).
  discriminate.
Qed.
Lemma saviours_move t pc l m pc2 l2 : saves pc l m pc2 l2 -> lsays t pc l ->
  match code t !! pc with Some (IAwait b _) => b m l = true | Some _ => True | None => False end.
Proof.
  unfold saves. intros H _. destruct (pc2 =? 10)%nat.
  - unfold save_reader in H. do 109 (destruct pc as [|pc]; [first [discriminate H | exact I]|]). discriminate H.
  - unfold save_writer in H. do 109 (destruct pc as [|pc]; [first [discriminate H | exact I | exact H]|]). discriminate H.
Qed.
Lemma finished_weightless t pc l k : code t !! pc = None -> weight t pc l k = 0.
Proof. do 109 (destruct pc as [|pc]; [discriminate|]). intros _. by destruct k as [| | | | | |[] ?|[]]. Qed.

Section reachable.
Context (n : nat) (Hn : (n <= 100)%nat).
Abbreviation INV := (Inv code count weight inside says lsays good (Z.of_nat n)).

Lemma small : Z.of_nat n <= 100.
Proof. lia. Qed.

Lemma eventfd_main_lookup t th : threads (main n) !! t = Some th -> t_pc th = 0%nat /\ t_status th = Running.
Proof. cbn. rewrite list_lookup_fmap. by intros (? & _ & ->)%fmap_Some. Qed.

Lemma eventfd_main_total k t0 l :
  total weight k t0 ((fun i => mkThread 0 Running (mkLocal (tds i) 0 None 0)) <$> l) = 0.
Proof.
  revert t0. induction l as [|x l IH]; intros t0; [done|]. cbn. rewrite IH.
  by destruct k as [| | | | | |[] ?|[]].
Qed.

Lemma eventfd_main_inv : INV (main n).
Proof.
  constructor.
  - cbn. by rewrite length_fmap, length_seq.
  - intros t. split; [done|]. intros (th & [E _]%eventfd_main_lookup & _ & Hin). by rewrite E in Hin.
  - intros t th [E _]%eventfd_main_lookup [_ Hin]. by rewrite E in Hin.
  - intros k. cbn [threads main]. rewrite eventfd_main_total.
    assert (forall j, default false (replicate MAX_FD false !! j) = false) as Hr.
    { intros j. destruct (replicate MAX_FD false !! j) eqn:E; [|done]. by apply lookup_replicate in E as [-> _]. }
    destruct k as [| | | | | |[] j|[]]; try done; unfold count, slot_of; cbn [main mem]; unfold mypthread_rwlock_init;
      cbn [get_cond mycond_readers mycond_writers waiting mypthread_cond_init]; by rewrite Hr.
  - assert (cond_wf mypthread_cond_init) by (split_and!; [done|done|by apply Forall_replicate]). split_and!; try done. by left.
  - intros t th [_ E]%eventfd_main_lookup. unfold at_wait. by rewrite E.
  - intros t th [E _]%eventfd_main_lookup. rewrite E. by intros ?.
Qed.

Lemma main_rescued : Rescued needs saves (main n).
Proof. intros t th [E _]%eventfd_main_lookup [[Hpc _]|[Hpc _]]; rewrite E in Hpc; discriminate Hpc. Qed.

Lemma eventfd_reach_inv cf : rtc (step code) (main n) cf -> INV cf /\ Rescued needs saves cf.
Proof.
  apply (rescue_reachable code count weight inside says lsays good (Z.of_nat n));
    [apply eventfd_weight_01|apply eventfd_ok, small|apply eventfd_queueing|apply eventfd_rescue, small|
     apply eventfd_main_inv|apply main_rescued].
Qed.

(** ** No deadlock *)

Section stuck.
Context (cf : config shared local) (HI : INV cf) (HR : Rescued needs saves cf) (Hb : blocked code cf).

Lemma stuck_cases t th : threads cf !! t = Some th ->
  finished code t th \/
  (t_pc th = 10%nat /\ counter Readers (mem cf) (my (t_loc th)) = 0) \/
  (t_pc th = 64%nat /\ counter Writers (mem cf) (my (t_loc th)) = 0).
Proof.
  intros Ht. pose proof (inv_G _ _ _ _ _ _ _ _ _ HI) as HG.
  destruct (blocked_awaits code count weight inside says lsays good _ (eventfd_ok _ small) eventfd_queueing _ _ _ HI Hb Ht)
    as [?|(b & f & Hi & Hbf)]; [by left|right].
  destruct (awaits _ _ _ _ Hi) as [[E ->]|[E ->]]; [left|right]; (split; [done|]); apply Z.ltb_ge in Hbf.
  - pose proof (counter_nonneg Readers _ (my (t_loc th)) HG). lia.
  - pose proof (counter_nonneg Writers _ (my (t_loc th)) HG). lia.
Qed.

Lemma stuck_no_need t th : threads cf !! t = Some th -> ~ needs (t_pc th) (t_loc th) (mem cf).
Proof.
  apply (blocked_no_need code count weight inside says lsays good (Z.of_nat n) (eventfd_ok _ small) eventfd_queueing
    needs saves saviours_move); done.
Qed.

(** A counter that counts neither waiting readers nor waiting writers is zero. *)
Lemma stuck_zero k :
  (forall t l, weight t 10 l k = 0) -> (forall t l, weight t 64 l k = 0 \/ forall th, threads cf !! t = Some th -> t_pc th <> 64%nat) ->
  count k (mem cf) = 0.
Proof.
  intros H10 H64. rewrite (inv_count _ _ _ _ _ _ _ _ _ HI). pose proof (total_nonneg weight eventfd_weight_01 k 0 (threads cf)).
  destruct (decide (0 < total weight k 0 (threads cf))) as [Hp|]; [|lia].
  destruct (total_pos weight k 0 _ Hp) as (t & th & Ht & Hw). cbn in Hw.
  destruct (stuck_cases _ _ Ht) as [[_ Hf]|[[E _]|[E _]]].
  - by rewrite finished_weightless in Hw.
  - by rewrite E, H10 in Hw.
  - rewrite E in Hw. destruct (H64 t (t_loc th)) as [H0|Hno]; [by rewrite H0 in Hw|by destruct (Hno _ Ht)].
Qed.

Lemma stuck_no_writer t th : threads cf !! t = Some th -> t_pc th <> 64%nat.
Proof.
  intros Ht E. destruct (stuck_cases _ _ Ht) as [[_ Hf]|[[E' _]|[_ Hc]]]; [by rewrite E in Hf|congruence|].
  apply (stuck_no_need _ _ Ht). right. split; [done|].
  split_and!; [done|apply (stuck_zero KR)|apply (stuck_zero KW)]; try done; by left.
Qed.

Lemma stuck_finished t th : threads cf !! t = Some th -> finished code t th.
Proof.
  intros Ht. destruct (stuck_cases _ _ Ht) as [?|[[E Hc]|[E _]]]; [done| |by destruct (stuck_no_writer _ _ Ht)].
  destruct (stuck_no_need _ _ Ht). left. split; [done|].
  split_and!; [done|apply (stuck_zero KW)|apply (stuck_zero KWW)]; try done; try (by left).
  intros t' l. right. intros th'. apply stuck_no_writer.
Qed.

Lemma stuck_free : lock (mem cf) = mkRw 0 0 0 0.
Proof.
  assert (forall k, count k (mem cf) = 0) as Hz.
  { intros k. rewrite (inv_count _ _ _ _ _ _ _ _ _ HI), (total_filter _ k (fun _ => false) 0).
    - generalize (threads cf). induction l; [done|]. cbn. done.
    - intros t th Ht. destruct (stuck_finished t th Ht) as [_ E]. by apply finished_weightless. }
  pose proof (Hz KR). pose proof (Hz KW). pose proof (Hz KRW). pose proof (Hz KWW). cbn in *.
  destruct (lock (mem cf)). cbn in *. by f_equal.
Qed.
End stuck.
End reachable.

(** C6: The lock on eventfd conditions, for up to a hundred threads and every
    interleaving of the test program: no assertion fails (in particular a waiter
    always finds a slot), a writer is alone, while the mutex is free the counters are
    the numbers of threads inside, and when no thread can move all have returned and
    the lock is free. *)
Theorem eventfd_correct n cf :
  (n <= 100)%nat -> rtc (step code) (main n) cf ->
  (forall t th, threads cf !! t = Some th -> t_status th <> Failed) /\
  (forall t1 t2 th1 th2, t1 <> t2 -> threads cf !! t1 = Some th1 -> threads cf !! t2 = Some th2 ->
     writing th1 = true -> reading th2 = false /\ writing th2 = false) /\
  (owner cf = None ->
     readers (lock (mem cf)) = Z.of_nat (length (List.filter reading (threads cf))) /\
     writers (lock (mem cf)) = Z.of_nat (length (List.filter writing (threads cf)))) /\
  (blocked code cf -> (forall t th, threads cf !! t = Some th -> finished code t th) /\ lock (mem cf) = mkRw 0 0 0 0).
Proof.
  intros Hn Hr. destruct (eventfd_reach_inv n Hn cf Hr) as [HI HR]. pose proof (inv_count _ _ _ _ _ _ _ _ _ HI) as Hc.
  split_and!.
  - intros t th Ht. by rewrite (all_running code count weight inside says lsays good _ eventfd_queueing _ _ _ HI Ht).
  - intros t1 t2 th1 th2 Hne Ht1 Ht2. rewrite !writing_span, reading_span. intros Hw%(writing_weight t1 _ (t_loc th1)).
    destruct (inv_G _ _ _ _ _ _ _ _ _ HI) as (Hex & Hone & _).
    pose proof (total_two _ eventfd_weight_01 KW 0 _ _ _ _ _ Hne Ht1 Ht2) as H2.
    pose proof (total_bounds _ eventfd_weight_01 KR 0 _ _ _ Ht2) as H3.
    pose proof (eventfd_weight_01 t2 (t_pc th2) (t_loc th2) KW).
    rewrite <- (Hc KW) in H2. rewrite <- (Hc KR) in H3. cbn [count Nat.add] in *.
    split; apply not_true_is_false; intros Hx.
    + apply (reading_weight t2 _ (t_loc th2)) in Hx. lia.
    + apply (writing_weight t2 _ (t_loc th2)) in Hx. lia.
  - intros Ho. assert (forall t th, threads cf !! t = Some th -> inside t (t_pc th) = false) as Hout.
    { intros t th Ht. destruct (inside t (t_pc th)) eqn:E; [|done].
      assert (owner cf = Some t); [|congruence]. apply (inv_owner _ _ _ _ _ _ _ _ _ HI). exists th. split; [done|].
      split; [|done]. by apply (all_running code count weight inside says lsays good _ eventfd_queueing _ _ _ HI Ht). }
    rewrite <- (total_filter weight KR reading 0), <- (total_filter weight KW writing 0).
    + split; [apply (Hc KR)|apply (Hc KW)].
    + intros t th Ht. rewrite writing_span. by apply holders, Hout.
    + intros t th Ht. rewrite reading_span. by apply holders, Hout.
  - intros Hb. split; [by eapply stuck_finished|by eapply stuck_free].
Qed.

(** A writer has the lock and a reader waits for it. *)
Definition demo : config shared local :=
  run_schedule code (replicate 13 (1, 0) ++ replicate 20 (0, 0))%nat (main 2).
Lemma demo_state : owner demo = None /\ writing <$> threads demo = [false; true] /\ t_pc <$> threads demo = [10; 75]%nat.
Proof. vm_compute. done. Qed.

Lemma eventfd_correct_witness :
  owner demo = None /\
  readers (lock (mem demo)) = Z.of_nat (length (List.filter reading (threads demo))) /\
  writers (lock (mem demo)) = Z.of_nat (length (List.filter writing (threads demo))).
Proof.
  split; [apply demo_state|].
  apply (eventfd_correct 2 demo); [lia|apply run_schedule_reachable|apply demo_state].
Defined.

(** With more processors than slots the condition runs out of them: while a writer
    has the lock a hundred readers wait, and the assertion of the next one fails. *)
Theorem eventfd_slots_exhausted :
  exists cf th, rtc (step code) (main 203) cf /\ threads cf !! 200%nat = Some th /\ t_status th = Failed.
Proof.
  exists (run_schedule code (replicate 13 (1, 0) ++ mjoin ((fun i => replicate 10 (2 * i, 0)) <$> seq 0 101))%nat (main 203)).
  eexists. split; [apply run_schedule_reachable|]. vm_compute. done.
Qed.

(** A second signal before the woken thread has run goes to the slot of the first:
    the two wake one waiter, not two. *)
Theorem two_signals_one_waiter m l i :
  find_slot true 0 (waiting (mycond_writers m)) = Some i ->
  exists f, compile (mypthread_cond_signal Writers) = [IDo f] /\
    efd (mycond_writers (f (f m l).1 l).1) = alter (fun v => v + 1) i (alter (fun v => v + 1) i (efd (mycond_writers m))) /\
    waiting (mycond_writers (f (f m l).1 l).1) = waiting (mycond_writers m).
Proof. intros Hi. eexists. split; [reflexivity|]. cbn. rewrite Hi. cbn. rewrite Hi. done. Qed.
End EventfdCorrect.
